(** * GroupingSet: a shallow embedding of velox/exec/GroupingSet.cpp

    The hash-based group-by engine is modelled by explicit state passing.
    Collaborators that live outside GroupingSet.cpp (hash table and row
    container, aggregate functions, spill reader/writer, memory pool) are
    modelled through the operation set GroupingSet.cpp calls on them. *)

From Stdlib Require Import ZArith List Bool Lia String.
From Stdlib Require SpecFloat.
From stdpp Require Import base option list gmap.

Local Open Scope Z_scope.

(** ** Fixed-width integers *)

(** [int32_t]: two's complement wrap-around on 32 bits. *)
Definition INT32_MAX : Z := 2147483647.

Definition int32 (z : Z) : Z := (z + 2 ^ 31) mod 2 ^ 32 - 2 ^ 31.

(** ** Double-precision arithmetic *)

(** IEEE 754 binary64, with the operations of the standard library's
    specification of floating-point numbers: 53 bits of precision, round to
    nearest, ties to even. *)
Definition double : Type := SpecFloat.spec_float.

(** The conversion of a [uint64_t] to [double]. *)
Definition doubleOfUint64 (n : Z) : double := SpecFloat.binary_normalize 53 1024 n 0 false.

(** The literal [1.2]: the double nearest to it is 5404319552844595 / 2^52. *)
Definition onePointTwo : double := SpecFloat.S754_finite false 5404319552844595 (-52).

Definition doubleMul (x y : double) : double := SpecFloat.SFmul 53 1024 x y.

(** The conversion of a [double] to [uint64_t] discards the fraction. It is
    undefined in the source for a value that [uint64_t] cannot hold; the
    model gives the integer part of a positive value and zero otherwise. *)
Definition uint64OfDouble (x : double) : Z :=
  match x with
  | SpecFloat.S754_finite false m e =>
      if 0 <=? e then Z.pos m * 2 ^ e else Z.pos m / 2 ^ (- e)
  | _ => 0
  end.


(** ** velox/common/base/BitUtil.h *)

Module bits.

(** [roundUp(value, factor)] is [(value + (factor - 1)) / factor * factor];
    C++ division truncates towards zero. *)
Definition roundUp (value factor : Z) : Z :=
  Z.quot (value + (factor - 1)) factor * factor.

(** [nbytes(bits)] is [roundUp(bits, 8) / 8]. *)
Definition nbytes (nbits : Z) : Z := Z.quot (roundUp nbits 8) 8.




End bits.

(** ** Accumulators and the flag layout of a group row *)

(** [Accumulator]: what GroupingSet.cpp reads of an accumulator, the fixed
    width of its payload and the alignment the payload requires. *)
Record Accumulator := {
  fixedWidthSize : Z;
  alignment : Z
}.

(** The static helpers of RowContainer that GroupingSet.cpp calls. *)
Module RowContainerFlags.

(** Modelled from the spec: RowContainer.h is not part of the sources; a group
    row starts with "a packed pair of (null-bit, initialized-bit) per
    accumulator slot", so there are two flag bits per accumulator, the null
    flag first. *)
Definition kNumAccumulatorFlags : Z := 2.

(** Modelled from the spec: byte of the row that holds flag bit [flagOffset]. *)
Definition nullByte (flagOffset : Z) : Z := Z.quot flagOffset 8.

(** Modelled from the spec: mask of flag bit [flagOffset] inside its byte. *)
Definition nullMask (flagOffset : Z) : Z := Z.shiftl 1 (Z.rem flagOffset 8).

(** Modelled from the spec: the initialized flag is the bit after the null
    flag. *)
Definition initializedByte (flagOffset : Z) : Z := nullByte (flagOffset + 1).

Definition initializedMask (flagOffset : Z) : Z :=
  Z.shiftl 1 (Z.rem (flagOffset + 1) 8).

(** Modelled from the spec: "total row size and alignment are the maximum
    required by any accumulator". *)
Definition combineAlignments (a b : Z) : Z := Z.max a b.

End RowContainerFlags.

(** What [setOffsets] binds in an aggregate. *)
Record Offsets := {
  offset : Z;
  nullByte : Z;
  nullMask : Z;
  initializedByte : Z;
  initializedMask : Z;
  rowSizeOffset : Z
}.

(** The three running variables of the layout loops of
    [initializeGlobalAggregation]. *)
Record LayoutCursor := {
  cur_offset : Z;
  cur_accumulatorFlagsOffset : Z;
  cur_alignment : Z
}.

(** The body shared by the three placement loops: round the offset up, bind
    the offsets, advance. *)
Definition placeAccumulator (rso : Z) (acc : Accumulator) (c : LayoutCursor)
  : Offsets * LayoutCursor :=
  let off := int32 (bits.roundUp (cur_offset c) (alignment acc)) in
  let fl := cur_accumulatorFlagsOffset c in
  ({| offset := off;
      nullByte := RowContainerFlags.nullByte fl;
      nullMask := RowContainerFlags.nullMask fl;
      initializedByte := RowContainerFlags.initializedByte fl;
      initializedMask := RowContainerFlags.initializedMask fl;
      rowSizeOffset := rso |},
   {| cur_offset := int32 (off + fixedWidthSize acc);
      cur_accumulatorFlagsOffset :=
        int32 (fl + RowContainerFlags.kNumAccumulatorFlags);
      cur_alignment :=
        RowContainerFlags.combineAlignments (alignment acc) (cur_alignment c) |}).

Fixpoint placeAll (rso : Z) (accs : list Accumulator) (c : LayoutCursor)
  : list Offsets * LayoutCursor :=
  match accs with
  | [] => ([], c)
  | acc :: rest =>
      let '(o, c1) := placeAccumulator rso acc c in
      let '(os, c2) := placeAll rso rest c1 in
      (o :: os, c2)
  end.

(** Result of the layout part of [initializeGlobalAggregation]. *)
Record GlobalRowLayout := {
  aggregateOffsets : list Offsets;
  sortedOffsets : list Offsets;
  distinctOffsets : list Offsets;
  rowSize : Z;
  rowAlignment : Z
}.

(** The non-null members of [distinctAggregations_], in order. *)
Definition nonNull {A} (l : list (option A)) : list A := omap id l.

Definition optionList {A} (o : option A) : list A :=
  match o with Some a => [a] | None => [] end.

(** [initializeGlobalAggregation], the layout arithmetic: [aggs] are the
    accumulators of [aggregates_], [sorted] the accumulator of
    [sortedAggregations_] when it is non-null, [distinct] those of
    [distinctAggregations_] (null entries are [None]). *)
Definition globalRowLayout (aggs : list Accumulator) (sorted : option Accumulator)
    (distinct : list (option Accumulator)) : GlobalRowLayout :=
  let numAggregates :=
    Z.of_nat (length aggs) + Z.of_nat (length (optionList sorted))
    + Z.of_nat (length (nonNull distinct)) in
  let rso :=
    int32 (bits.nbytes (numAggregates * RowContainerFlags.kNumAccumulatorFlags)) in
  let c0 := {| cur_offset := int32 (rso + 4);
               cur_accumulatorFlagsOffset := 0;
               cur_alignment := 1 |} in
  let '(o1, c1) := placeAll rso aggs c0 in
  let '(o2, c2) := placeAll rso (optionList sorted) c1 in
  let '(o3, c3) := placeAll rso (nonNull distinct) c2 in
  {| aggregateOffsets := o1;
     sortedOffsets := o2;
     distinctOffsets := o3;
     rowSize := cur_offset c3;
     rowAlignment := cur_alignment c3 |}.

(** ** Errors *)

(** A failed [VELOX_CHECK*] raises a runtime error, a failed
    [VELOX_USER_CHECK*] a user error; dereferencing a null [table_] or
    [lookup_] is kept apart. *)
Inductive VeloxError :=
| VeloxRuntimeError (check : string)
| VeloxUserError (message : string)
| NullDereference (what : string)
| IndexOutOfRange (what : string)
| StdLengthError (what : string)
| LoopBudgetExceeded.

Inductive Result (A : Type) :=
| Ok (a : A)
| Err (e : VeloxError).
Arguments Ok {A} a.
Arguments Err {A} e.

#[global] Instance result_ret : MRet Result := fun _ a => Ok a.

#[global] Instance result_bind : MBind Result := fun _ _ k r =>
  match r with
  | Ok a => k a
  | Err e => Err e
  end.

Definition VELOX_CHECK (cond : bool) (check : string) : Result unit :=
  if cond then Ok tt else Err (VeloxRuntimeError check).

Definition VELOX_USER_CHECK (cond : bool) (message : string) : Result unit :=
  if cond then Ok tt else Err (VeloxUserError message).

Definition isOk {A} (r : Result A) : bool :=
  match r with Ok _ => true | Err _ => false end.

Definition isSome {A} (o : option A) : bool :=
  match o with Some _ => true | None => false end.

Definition isNone {A} (o : option A) : bool := negb (isSome o).

(** ** Columnar data *)

(** A cell of a flat BIGINT column; [None] is SQL null. *)
Definition Value := option Z.

Definition Vector := list Value.

Record RowVector := {
  rv_size : nat;
  rv_children : list Vector
}.

Definition column_index_t := N.

(** [kConstantChannel] is the largest [column_index_t]. *)
Definition kConstantChannel : column_index_t := 4294967295%N.

Definition childAt (v : RowVector) (i : nat) : Vector :=
  default [] (rv_children v !! i).

Definition valueAt (c : Vector) (i : nat) : Value := default None (c !! i).

(** Deep value equality of two positions of one column; two nulls are equal. *)
Definition equalValueAt (c : Vector) (i j : nat) : bool :=
  bool_decide (valueAt c i = valueAt c j).

(** The cells of row [i], one per column. *)
Definition rowAt (v : RowVector) (i : nat) : list Value :=
  map (fun c => valueAt c i) (rv_children v).

(** [vector->resize(n)] on a flat column: truncate, or pad with nulls. *)
Definition resizeVector (n : nat) (c : Vector) : Vector :=
  take n c ++ replicate (n - length c) None.

(** [RowVector::resize] resizes the row vector and its children. *)
Definition resizeRowVector (n : nat) (v : RowVector) : RowVector :=
  {| rv_size := n; rv_children := map (resizeVector n) (rv_children v) |}.

(** [result->childAt(i) = column], nothing when [i] is out of range. *)
Definition setChild (i : nat) (c : Vector) (v : RowVector) : RowVector :=
  {| rv_size := rv_size v; rv_children := <[i := c]> (rv_children v) |}.

(** [SelectivityVector]: one bit per row. *)
Definition SelectivityVector := list bool.

Definition hasSelections (rows : SelectivityVector) : bool := existsb id rows.

Definition isSelected (rows : SelectivityVector) (i : nat) : bool :=
  default false (rows !! i).

(** [resize(n); setAll()]. *)
Definition allSelected (n : nat) : SelectivityVector := replicate n true.

(** [resize(n); clearAll(); setValidRange(first, n, true)]. *)
Definition selectedFrom (first n : nat) : SelectivityVector :=
  replicate (Nat.min first n) false ++ replicate (n - first) true.

(** ** The aggregate-function contract *)

Definition AccumulatorState := list Value.

(** The operations GroupingSet.cpp calls on an aggregate function. The batch
    operations of the source apply the per-row operation below to every
    selected row; pushdown of lazy columns changes what is materialised, not
    what is computed, and is left out. *)
Record AggregateFunction := {
  fn_accumulator : Accumulator;
  fn_initializeNewGroup : AccumulatorState;
  fn_addRawInput : AccumulatorState -> list Value -> AccumulatorState;
  fn_addIntermediateResults : AccumulatorState -> list Value -> AccumulatorState;
  fn_extractValues : AccumulatorState -> Value;
  fn_extractAccumulators : AccumulatorState -> Value;
  fn_supportsToIntermediate : bool;
  fn_toIntermediate : list Value -> Value;
  fn_accumulatorUsesExternalMemory : bool
}.

Record AggregateInfo := {
  function : AggregateFunction;
  inputs : list column_index_t;
  constantInputs : list Value;
  mask : option column_index_t;
  distinct : bool;
  sortingKeys : list column_index_t;
  output : nat
}.

(** Modelled from the spec: SortedAggregations and DistinctAggregations are not
    part of the sources; they "each own their own row storage and expose the
    same accumulator contract as ordinary aggregates". An adapter buffers the
    input rows of a group and writes the columns of the aggregates it owns
    when values are extracted. *)
Record AggregationAdapter := {
  ad_accumulator : Accumulator;
  ad_initializeNewGroup : AccumulatorState;
  ad_addInput : AccumulatorState -> list Value -> AccumulatorState;
  ad_addSpillInput : AccumulatorState -> Value -> AccumulatorState;
  ad_extractValues : AccumulatorState -> list (nat * Value)
}.

(** ** Collaborators of the grouping set *)

Record VectorHasher := {
  hasher_channel : column_index_t
}.

Record SpillConfig := {
  startPartitionBit : Z;
  numPartitionBits : Z;
  minSpillableReservationPct : Z;
  spillableReservationGrowthPct : Z
}.

(** Modelled from the spec: the memory pool is "consumed via a reservation
    API": usedBytes(), availableReservation(), maybeReserve(bytes) -> bool,
    release(). A pool grants a reservation as long as it stays within its
    capacity. *)
Record MemoryPool := {
  trackUsage : bool;
  usedBytes : Z;
  reservedBytes : Z;
  poolCapacity : Z
}.

Definition availableReservation (p : MemoryPool) : Z :=
  reservedBytes p - usedBytes p.

Definition maybeReserve (bytes : Z) (p : MemoryPool) : bool * MemoryPool :=
  if reservedBytes p + bytes <=? poolCapacity p
  then (true,
        {| trackUsage := trackUsage p;
           usedBytes := usedBytes p;
           reservedBytes := reservedBytes p + bytes;
           poolCapacity := poolCapacity p |})
  else (false, p).

Definition release (p : MemoryPool) : MemoryPool :=
  {| trackUsage := trackUsage p;
     usedBytes := usedBytes p;
     reservedBytes := usedBytes p;
     poolCapacity := poolCapacity p |}.

(** One group of the keyed store, or the single row of a global aggregation:
    the key cells and one accumulator per entry of [accumulators(false)]. An
    accumulator that was never initialised is the empty state. *)
Record Group := {
  g_keys : list Value;
  g_accumulators : list AccumulatorState
}.

(** The row container of the hash table: its groups in insertion order. *)
Record HashTable := {
  ht_rows : list Group
}.

Definition numDistinct (t : HashTable) : nat := length (ht_rows t).

(** [table_->clear(freeTable)]. *)
Definition clearTable (t : HashTable) : HashTable := {| ht_rows := [] |}.

Record RowContainerIterator := {
  allocationIndex : Z;
  rowNumber : nat
}.

(** Modelled from the spec: RowContainer::listRows is not part of the sources;
    "listRows(cursor, maxRows, maxBytes) -> rows" drains the store "via an
    incremental cursor bounded by row/byte budgets". Rows are taken from the
    cursor on while fewer than [maxRows] rows and fewer than [maxBytes] bytes
    were taken. *)
Fixpoint listRowsFrom (rowBytes : Group -> Z) (maxRows : nat) (maxBytes : Z)
    (taken : Z) (rows : list Group) : list Group :=
  match maxRows, rows with
  | S n, g :: rest =>
      if taken <? maxBytes
      then g :: listRowsFrom rowBytes n maxBytes (taken + rowBytes g) rest
      else []
  | _, _ => []
  end.

Definition listRows (rowBytes : Group -> Z) (it : RowContainerIterator)
    (maxRows maxBytes : Z) (rows : list Group)
  : list Group * RowContainerIterator :=
  let out :=
    listRowsFrom rowBytes (Z.to_nat maxRows) maxBytes 0 (drop (rowNumber it) rows) in
  (out, {| allocationIndex := allocationIndex it;
           rowNumber := (rowNumber it + length out)%nat |}).

(** Modelled from the spec: "Memory reservation calls ([ensureInputFits],
    [ensureOutputFits]) may invoke a pool-wide arbitration callback", and "the
    arbitration layer may synchronously invoke a reclaim entry point ([spill])
    reentrantly": what the arbitration does to this grouping set while a
    reservation of [ensureOutputFits] waits for it, nothing, [spill()] or
    [spill(rowIterator)]. *)
Inductive Reclaim :=
| NoReclaim
| ReclaimInput
| ReclaimOutput (rowIterator : RowContainerIterator).

(** What the code outside GroupingSet.cpp decides and GroupingSet.cpp only
    consumes. *)
Record Externals := {
  (** what SortedAggregations::create builds for the sorted aggregates *)
  ext_sortedAggregations : list AggregateInfo -> AggregationAdapter;
  (** what DistinctAggregations::create builds for one distinct aggregate *)
  ext_distinctAggregations : AggregateInfo -> AggregationAdapter;
  (** spill value of an adapter's accumulator *)
  ext_adapterSpillValue : AccumulatorState -> Value;
  (** size estimates of the row container and of the hash table *)
  ext_freeSpace : HashTable -> Z * Z;
  ext_retainedSize : HashTable -> Z;
  ext_estimateFlatSize : RowVector -> Z;
  ext_hashTableSizeIncrease : HashTable -> Z -> Z;
  ext_sizeIncrement : HashTable -> Z -> Z -> Z;
  ext_rowBytes : Group -> Z;
  ext_allocatedBytes : list Group -> Z;
  ext_sortedAggregationBytes : list Group -> Z;
  (** testingTriggerSpill(pool_.name()) *)
  ext_testingTriggerSpill : bool;
  (** what the arbitration reclaims from this grouping set *)
  ext_reclaim : Reclaim;
  (** the spill partition of a key: the partition bits of its hash *)
  ext_partitionOf : list Value -> nat;
  (** the key order of spilled runs *)
  ext_keyLe : list Value -> list Value -> bool
}.

(** ** Spilled data *)

(** A spilled row: the key cells, then one spill value per accumulator. *)
Definition SpillRow := list Value.

(** One sorted run on external storage. *)
Definition SpillFile := list SpillRow.

(** Modelled from the spec: the spillers are "consumed via a
    spill-writer/spill-reader abstraction": spill(startCursor?),
    finishSpill() -> partitionSet, numFinishedFiles(partition). A spiller
    holds the finished files of every partition. *)
Record Spiller := {
  sp_numPartitions : nat;
  sp_files : gmap nat (list SpillFile);
  sp_finalized : bool
}.

(** An entry of the ordered reader: the id of the stream it comes from and
    the row. *)
Record MergeEntry := {
  me_stream : nat;
  me_row : SpillRow
}.

(** The ordered multi-way reader over one partition, as the entries still to
    come in merged order. *)
Definition MergeReader := list MergeEntry.

(** [lookup_]: the probed rows, the group of each row and the rows that
    created a group. Groups are named by their position in the table. *)
Record HashLookup := {
  lk_rows : list nat;
  lk_hits : list (option nat);
  lk_newGroups : list nat
}.

(** Ghost record of the calls a member function makes on its collaborators
    and siblings, in order. *)
Inductive Call :=
| CallAddInputForActiveRows (input : RowVector) (rows : SelectivityVector)
| CallSpill
| CallEnsureOutputFits
| CallMaybeReserve (bytes : Z) (granted : bool)
| CallRelease
| CallRunArbitration
| CallLogWarning (bytes : Z)
| CallToIntermediate (aggregate : nat)
| CallNewRow.

(** The members fixed by the constructor. *)
Record Config := {
  preGroupedKeyChannels_ : list column_index_t;
  groupingKeyOutputProjections_ : list column_index_t;
  keyChannels_ : list column_index_t;
  isGlobal_ : bool;
  isPartial_ : bool;
  isRawInput_ : bool;
  aggregates_ : list AggregateInfo;
  ignoreNullKeys_ : bool;
  globalGroupingSets_ : list Z;
  groupIdChannel_ : option column_index_t;
  spillConfig_ : option SpillConfig;
  mayPushdown_ : list bool;
  sortedAggregations_ : option AggregationAdapter;
  distinctAggregations_ : list (option AggregationAdapter);
  preferredOutputBatchBytes : Z
}.

(** The members that follow the input. *)
Record InputState := {
  numInputRows_ : Z;
  noMoreInput_ : bool;
  remainingInput_ : option RowVector;
  firstRemainingRow_ : nat;
  remainingMayPushdown_ : bool;
  activeRows_ : SelectivityVector
}.

Definition set_numInputRows_ (v : Z) (s : InputState) : InputState :=
  {| numInputRows_ := v;
     noMoreInput_ := noMoreInput_ s;
     remainingInput_ := remainingInput_ s;
     firstRemainingRow_ := firstRemainingRow_ s;
     remainingMayPushdown_ := remainingMayPushdown_ s;
     activeRows_ := activeRows_ s |}.

Definition set_noMoreInput_ (v : bool) (s : InputState) : InputState :=
  {| numInputRows_ := numInputRows_ s;
     noMoreInput_ := v;
     remainingInput_ := remainingInput_ s;
     firstRemainingRow_ := firstRemainingRow_ s;
     remainingMayPushdown_ := remainingMayPushdown_ s;
     activeRows_ := activeRows_ s |}.

Definition set_remainingInput_ (v : option RowVector) (s : InputState) : InputState :=
  {| numInputRows_ := numInputRows_ s;
     noMoreInput_ := noMoreInput_ s;
     remainingInput_ := v;
     firstRemainingRow_ := firstRemainingRow_ s;
     remainingMayPushdown_ := remainingMayPushdown_ s;
     activeRows_ := activeRows_ s |}.

Definition set_firstRemainingRow_ (v : nat) (s : InputState) : InputState :=
  {| numInputRows_ := numInputRows_ s;
     noMoreInput_ := noMoreInput_ s;
     remainingInput_ := remainingInput_ s;
     firstRemainingRow_ := v;
     remainingMayPushdown_ := remainingMayPushdown_ s;
     activeRows_ := activeRows_ s |}.

Definition set_remainingMayPushdown_ (v : bool) (s : InputState) : InputState :=
  {| numInputRows_ := numInputRows_ s;
     noMoreInput_ := noMoreInput_ s;
     remainingInput_ := remainingInput_ s;
     firstRemainingRow_ := firstRemainingRow_ s;
     remainingMayPushdown_ := v;
     activeRows_ := activeRows_ s |}.

Definition set_activeRows_ (v : SelectivityVector) (s : InputState) : InputState :=
  {| numInputRows_ := numInputRows_ s;
     noMoreInput_ := noMoreInput_ s;
     remainingInput_ := remainingInput_ s;
     firstRemainingRow_ := firstRemainingRow_ s;
     remainingMayPushdown_ := remainingMayPushdown_ s;
     activeRows_ := v |}.

(** The grouping store, the single global row and the scratch rows of
    an abandoned partial aggregation. [hashers_] is with them because
    [createHashTable] hands the hashers over to the table
    ([std::move(hashers_)]) and leaves the member empty. *)
Record StoreState := {
  hashers_ : list VectorHasher;
  table_ : option HashTable;
  lookup_ : option HashLookup;
  globalAggregationInitialized_ : bool;
  globalLayout_ : option GlobalRowLayout;
  globalRow_ : option Group;
  abandonedPartialAggregation_ : bool;
  allSupportToIntermediate_ : bool;
  intermediateRows_ : option (list Group)
}.

Definition set_hashers_ (v : list VectorHasher) (s : StoreState) : StoreState :=
  {| hashers_ := v;
     table_ := table_ s;
     lookup_ := lookup_ s;
     globalAggregationInitialized_ := globalAggregationInitialized_ s;
     globalLayout_ := globalLayout_ s;
     globalRow_ := globalRow_ s;
     abandonedPartialAggregation_ := abandonedPartialAggregation_ s;
     allSupportToIntermediate_ := allSupportToIntermediate_ s;
     intermediateRows_ := intermediateRows_ s |}.

Definition set_table_ (v : option HashTable) (s : StoreState) : StoreState :=
  {| hashers_ := hashers_ s;
     table_ := v;
     lookup_ := lookup_ s;
     globalAggregationInitialized_ := globalAggregationInitialized_ s;
     globalLayout_ := globalLayout_ s;
     globalRow_ := globalRow_ s;
     abandonedPartialAggregation_ := abandonedPartialAggregation_ s;
     allSupportToIntermediate_ := allSupportToIntermediate_ s;
     intermediateRows_ := intermediateRows_ s |}.

Definition set_lookup_ (v : option HashLookup) (s : StoreState) : StoreState :=
  {| hashers_ := hashers_ s;
     table_ := table_ s;
     lookup_ := v;
     globalAggregationInitialized_ := globalAggregationInitialized_ s;
     globalLayout_ := globalLayout_ s;
     globalRow_ := globalRow_ s;
     abandonedPartialAggregation_ := abandonedPartialAggregation_ s;
     allSupportToIntermediate_ := allSupportToIntermediate_ s;
     intermediateRows_ := intermediateRows_ s |}.

Definition set_globalAggregationInitialized_ (v : bool) (s : StoreState) : StoreState :=
  {| hashers_ := hashers_ s;
     table_ := table_ s;
     lookup_ := lookup_ s;
     globalAggregationInitialized_ := v;
     globalLayout_ := globalLayout_ s;
     globalRow_ := globalRow_ s;
     abandonedPartialAggregation_ := abandonedPartialAggregation_ s;
     allSupportToIntermediate_ := allSupportToIntermediate_ s;
     intermediateRows_ := intermediateRows_ s |}.

Definition set_globalLayout_ (v : option GlobalRowLayout) (s : StoreState) : StoreState :=
  {| hashers_ := hashers_ s;
     table_ := table_ s;
     lookup_ := lookup_ s;
     globalAggregationInitialized_ := globalAggregationInitialized_ s;
     globalLayout_ := v;
     globalRow_ := globalRow_ s;
     abandonedPartialAggregation_ := abandonedPartialAggregation_ s;
     allSupportToIntermediate_ := allSupportToIntermediate_ s;
     intermediateRows_ := intermediateRows_ s |}.

Definition set_globalRow_ (v : option Group) (s : StoreState) : StoreState :=
  {| hashers_ := hashers_ s;
     table_ := table_ s;
     lookup_ := lookup_ s;
     globalAggregationInitialized_ := globalAggregationInitialized_ s;
     globalLayout_ := globalLayout_ s;
     globalRow_ := v;
     abandonedPartialAggregation_ := abandonedPartialAggregation_ s;
     allSupportToIntermediate_ := allSupportToIntermediate_ s;
     intermediateRows_ := intermediateRows_ s |}.

Definition set_abandonedPartialAggregation_ (v : bool) (s : StoreState) : StoreState :=
  {| hashers_ := hashers_ s;
     table_ := table_ s;
     lookup_ := lookup_ s;
     globalAggregationInitialized_ := globalAggregationInitialized_ s;
     globalLayout_ := globalLayout_ s;
     globalRow_ := globalRow_ s;
     abandonedPartialAggregation_ := v;
     allSupportToIntermediate_ := allSupportToIntermediate_ s;
     intermediateRows_ := intermediateRows_ s |}.

Definition set_allSupportToIntermediate_ (v : bool) (s : StoreState) : StoreState :=
  {| hashers_ := hashers_ s;
     table_ := table_ s;
     lookup_ := lookup_ s;
     globalAggregationInitialized_ := globalAggregationInitialized_ s;
     globalLayout_ := globalLayout_ s;
     globalRow_ := globalRow_ s;
     abandonedPartialAggregation_ := abandonedPartialAggregation_ s;
     allSupportToIntermediate_ := v;
     intermediateRows_ := intermediateRows_ s |}.

Definition set_intermediateRows_ (v : option (list Group)) (s : StoreState) : StoreState :=
  {| hashers_ := hashers_ s;
     table_ := table_ s;
     lookup_ := lookup_ s;
     globalAggregationInitialized_ := globalAggregationInitialized_ s;
     globalLayout_ := globalLayout_ s;
     globalRow_ := globalRow_ s;
     abandonedPartialAggregation_ := abandonedPartialAggregation_ s;
     allSupportToIntermediate_ := allSupportToIntermediate_ s;
     intermediateRows_ := v |}.

(** The spillers and the merge that reads spilled partitions back. *)
Record SpillState := {
  inputSpiller_ : option Spiller;
  outputSpiller_ : option Spiller;
  numDistinctSpillFilesPerPartition_ : list nat;
  spillPartitionSet_ : list (nat * list SpillFile);
  outputSpillPartition_ : Z;
  merge_ : option MergeReader;
  mergeRows_ : option (list Group);
  mergeArgs_ : nat;
  spillResultWithoutAggregates_ : option RowVector
}.

Definition set_inputSpiller_ (v : option Spiller) (s : SpillState) : SpillState :=
  {| inputSpiller_ := v;
     outputSpiller_ := outputSpiller_ s;
     numDistinctSpillFilesPerPartition_ := numDistinctSpillFilesPerPartition_ s;
     spillPartitionSet_ := spillPartitionSet_ s;
     outputSpillPartition_ := outputSpillPartition_ s;
     merge_ := merge_ s;
     mergeRows_ := mergeRows_ s;
     mergeArgs_ := mergeArgs_ s;
     spillResultWithoutAggregates_ := spillResultWithoutAggregates_ s |}.

Definition set_outputSpiller_ (v : option Spiller) (s : SpillState) : SpillState :=
  {| inputSpiller_ := inputSpiller_ s;
     outputSpiller_ := v;
     numDistinctSpillFilesPerPartition_ := numDistinctSpillFilesPerPartition_ s;
     spillPartitionSet_ := spillPartitionSet_ s;
     outputSpillPartition_ := outputSpillPartition_ s;
     merge_ := merge_ s;
     mergeRows_ := mergeRows_ s;
     mergeArgs_ := mergeArgs_ s;
     spillResultWithoutAggregates_ := spillResultWithoutAggregates_ s |}.

Definition set_numDistinctSpillFilesPerPartition_ (v : list nat) (s : SpillState) : SpillState :=
  {| inputSpiller_ := inputSpiller_ s;
     outputSpiller_ := outputSpiller_ s;
     numDistinctSpillFilesPerPartition_ := v;
     spillPartitionSet_ := spillPartitionSet_ s;
     outputSpillPartition_ := outputSpillPartition_ s;
     merge_ := merge_ s;
     mergeRows_ := mergeRows_ s;
     mergeArgs_ := mergeArgs_ s;
     spillResultWithoutAggregates_ := spillResultWithoutAggregates_ s |}.

Definition set_spillPartitionSet_ (v : list (nat * list SpillFile)) (s : SpillState) : SpillState :=
  {| inputSpiller_ := inputSpiller_ s;
     outputSpiller_ := outputSpiller_ s;
     numDistinctSpillFilesPerPartition_ := numDistinctSpillFilesPerPartition_ s;
     spillPartitionSet_ := v;
     outputSpillPartition_ := outputSpillPartition_ s;
     merge_ := merge_ s;
     mergeRows_ := mergeRows_ s;
     mergeArgs_ := mergeArgs_ s;
     spillResultWithoutAggregates_ := spillResultWithoutAggregates_ s |}.

Definition set_outputSpillPartition_ (v : Z) (s : SpillState) : SpillState :=
  {| inputSpiller_ := inputSpiller_ s;
     outputSpiller_ := outputSpiller_ s;
     numDistinctSpillFilesPerPartition_ := numDistinctSpillFilesPerPartition_ s;
     spillPartitionSet_ := spillPartitionSet_ s;
     outputSpillPartition_ := v;
     merge_ := merge_ s;
     mergeRows_ := mergeRows_ s;
     mergeArgs_ := mergeArgs_ s;
     spillResultWithoutAggregates_ := spillResultWithoutAggregates_ s |}.

Definition set_merge_ (v : option MergeReader) (s : SpillState) : SpillState :=
  {| inputSpiller_ := inputSpiller_ s;
     outputSpiller_ := outputSpiller_ s;
     numDistinctSpillFilesPerPartition_ := numDistinctSpillFilesPerPartition_ s;
     spillPartitionSet_ := spillPartitionSet_ s;
     outputSpillPartition_ := outputSpillPartition_ s;
     merge_ := v;
     mergeRows_ := mergeRows_ s;
     mergeArgs_ := mergeArgs_ s;
     spillResultWithoutAggregates_ := spillResultWithoutAggregates_ s |}.

Definition set_mergeRows_ (v : option (list Group)) (s : SpillState) : SpillState :=
  {| inputSpiller_ := inputSpiller_ s;
     outputSpiller_ := outputSpiller_ s;
     numDistinctSpillFilesPerPartition_ := numDistinctSpillFilesPerPartition_ s;
     spillPartitionSet_ := spillPartitionSet_ s;
     outputSpillPartition_ := outputSpillPartition_ s;
     merge_ := merge_ s;
     mergeRows_ := v;
     mergeArgs_ := mergeArgs_ s;
     spillResultWithoutAggregates_ := spillResultWithoutAggregates_ s |}.

Definition set_mergeArgs_ (v : nat) (s : SpillState) : SpillState :=
  {| inputSpiller_ := inputSpiller_ s;
     outputSpiller_ := outputSpiller_ s;
     numDistinctSpillFilesPerPartition_ := numDistinctSpillFilesPerPartition_ s;
     spillPartitionSet_ := spillPartitionSet_ s;
     outputSpillPartition_ := outputSpillPartition_ s;
     merge_ := merge_ s;
     mergeRows_ := mergeRows_ s;
     mergeArgs_ := v;
     spillResultWithoutAggregates_ := spillResultWithoutAggregates_ s |}.

Definition set_spillResultWithoutAggregates_ (v : option RowVector) (s : SpillState) : SpillState :=
  {| inputSpiller_ := inputSpiller_ s;
     outputSpiller_ := outputSpiller_ s;
     numDistinctSpillFilesPerPartition_ := numDistinctSpillFilesPerPartition_ s;
     spillPartitionSet_ := spillPartitionSet_ s;
     outputSpillPartition_ := outputSpillPartition_ s;
     merge_ := merge_ s;
     mergeRows_ := mergeRows_ s;
     mergeArgs_ := mergeArgs_ s;
     spillResultWithoutAggregates_ := v |}.

(** The grouping set. *)
Record GroupingSet := {
  config : Config;
  inputState : InputState;
  store : StoreState;
  spilling : SpillState;
  pool_ : MemoryPool;
  calls_ : list Call
}.

Definition set_config (v : Config) (s : GroupingSet) : GroupingSet :=
  {| config := v;
     inputState := inputState s;
     store := store s;
     spilling := spilling s;
     pool_ := pool_ s;
     calls_ := calls_ s |}.

Definition set_inputState (v : InputState) (s : GroupingSet) : GroupingSet :=
  {| config := config s;
     inputState := v;
     store := store s;
     spilling := spilling s;
     pool_ := pool_ s;
     calls_ := calls_ s |}.

Definition set_store (v : StoreState) (s : GroupingSet) : GroupingSet :=
  {| config := config s;
     inputState := inputState s;
     store := v;
     spilling := spilling s;
     pool_ := pool_ s;
     calls_ := calls_ s |}.

Definition set_spilling (v : SpillState) (s : GroupingSet) : GroupingSet :=
  {| config := config s;
     inputState := inputState s;
     store := store s;
     spilling := v;
     pool_ := pool_ s;
     calls_ := calls_ s |}.

Definition set_pool_ (v : MemoryPool) (s : GroupingSet) : GroupingSet :=
  {| config := config s;
     inputState := inputState s;
     store := store s;
     spilling := spilling s;
     pool_ := v;
     calls_ := calls_ s |}.

Definition set_calls_ (v : list Call) (s : GroupingSet) : GroupingSet :=
  {| config := config s;
     inputState := inputState s;
     store := store s;
     spilling := spilling s;
     pool_ := pool_ s;
     calls_ := v |}.


Definition withInput (f : InputState -> InputState) (s : GroupingSet) : GroupingSet :=
  set_inputState (f (inputState s)) s.

Definition withStore (f : StoreState -> StoreState) (s : GroupingSet) : GroupingSet :=
  set_store (f (store s)) s.

Definition withSpilling (f : SpillState -> SpillState) (s : GroupingSet) : GroupingSet :=
  set_spilling (f (spilling s)) s.

Definition called (c : Call) (s : GroupingSet) : GroupingSet :=
  set_calls_ (calls_ s ++ [c]) s.

(** ** Construction *)

Record GroupingSetArgs := {
  arg_hashers : list VectorHasher;
  arg_preGroupedKeys : list column_index_t;
  arg_groupingKeyOutputProjections : list column_index_t;
  arg_aggregates : list AggregateInfo;
  arg_ignoreNullKeys : bool;
  arg_isPartial : bool;
  arg_isRawInput : bool;
  arg_globalGroupingSets : list Z;
  arg_groupIdChannel : option column_index_t;
  arg_spillConfig : option SpillConfig;
  (** the pointer [nonReclaimableSection]; [None] is nullptr *)
  arg_nonReclaimableSection : option bool;
  (** [operatorCtx->pool()] *)
  arg_pool : MemoryPool;
  (** of [operatorCtx->task()->queryCtx()->queryConfig()] *)
  arg_preferredOutputBatchBytes : Z
}.

Definition set_arg_isPartial (v : bool) (a : GroupingSetArgs) : GroupingSetArgs :=
  {| arg_hashers := arg_hashers a;
     arg_preGroupedKeys := arg_preGroupedKeys a;
     arg_groupingKeyOutputProjections := arg_groupingKeyOutputProjections a;
     arg_aggregates := arg_aggregates a;
     arg_ignoreNullKeys := arg_ignoreNullKeys a;
     arg_isPartial := v;
     arg_isRawInput := arg_isRawInput a;
     arg_globalGroupingSets := arg_globalGroupingSets a;
     arg_groupIdChannel := arg_groupIdChannel a;
     arg_spillConfig := arg_spillConfig a;
     arg_nonReclaimableSection := arg_nonReclaimableSection a;
     arg_pool := arg_pool a;
     arg_preferredOutputBatchBytes := arg_preferredOutputBatchBytes a |}.

(** [++channelUseCount[channel]] for every input channel of every aggregate. *)
Definition countChannelUses (aggregates : list AggregateInfo) : gmap N Z :=
  foldl (fun m aggregate =>
           foldl (fun m channel => <[channel := default 0 (m !! channel) + 1]> m)
                 m (inputs aggregate))
        ∅ aggregates.

Definition allAreSinglyReferenced (argList : list column_index_t)
    (channelUseCount : gmap N Z) : bool :=
  forallb (fun channel => default 0 (channelUseCount !! channel) =? 1) argList.

Definition isSorted (aggregate : AggregateInfo) : bool :=
  negb (bool_decide (sortingKeys aggregate = [])).

(** Modelled from the spec: SortedAggregations::create is not part of the
    sources; the sorted adapter exists when some aggregate has a non-empty
    list of sort keys ("sorted-aggregation mode"), and is null otherwise. *)
Definition SortedAggregations_create (ext : Externals)
    (aggregates : list AggregateInfo) : option AggregationAdapter :=
  if existsb isSorted aggregates
  then Some (ext_sortedAggregations ext (filter (fun a => isSorted a = true) aggregates))
  else None.

(** The loop of the constructor over [aggregates_] that fills
    [distinctAggregations_]. *)
Fixpoint createDistinctAggregations (ext : Externals) (isPartial : bool)
    (aggregates : list AggregateInfo) : Result (list (option AggregationAdapter)) :=
  match aggregates with
  | [] => Ok []
  | aggregate :: rest =>
      if distinct aggregate
      then
        _ ← VELOX_USER_CHECK (negb isPartial)
              "Partial aggregations over distinct inputs are not supported";
        tail ← createDistinctAggregations ext isPartial rest;
        Ok (Some (ext_distinctAggregations ext aggregate) :: tail)
      else
        tail ← createDistinctAggregations ext isPartial rest;
        Ok (None :: tail)
  end.

(** [std::iota(begin, end, 0)] over [n] entries. *)
Definition iota (n : nat) : list column_index_t := map N.of_nat (seq 0 n).

(** [GroupingSet::GroupingSet]. *)
Definition construct (ext : Externals) (a : GroupingSetArgs) : Result GroupingSet :=
  _ ← VELOX_CHECK (isSome (arg_nonReclaimableSection a)) "nonReclaimableSection_ is null";
  _ ← VELOX_CHECK (trackUsage (arg_pool a)) "pool_.trackUsage()";
  let keyChannels := map hasher_channel (arg_hashers a) in
  projections ←
    (if bool_decide (arg_groupingKeyOutputProjections a = [])
     then Ok (iota (length keyChannels))
     else
       _ ← VELOX_CHECK
             (length (arg_groupingKeyOutputProjections a) =? length keyChannels)%nat
             "groupingKeyOutputProjections_.size() == keyChannels_.size()";
       Ok (arg_groupingKeyOutputProjections a));
  let channelUseCount := countChannelUses (arg_aggregates a) in
  let mayPushdown :=
    map (fun aggregate => allAreSinglyReferenced (inputs aggregate) channelUseCount)
        (arg_aggregates a) in
  let sortedAggregations := SortedAggregations_create ext (arg_aggregates a) in
  _ ← (if arg_isPartial a
       then VELOX_USER_CHECK (isNone sortedAggregations)
              "Partial aggregations over sorted inputs are not supported"
       else Ok tt);
  distinctAggregations ←
    createDistinctAggregations ext (arg_isPartial a) (arg_aggregates a);
  Ok {| config :=
          {| preGroupedKeyChannels_ := arg_preGroupedKeys a;
             groupingKeyOutputProjections_ := projections;
             keyChannels_ := keyChannels;
             isGlobal_ := bool_decide (arg_hashers a = []);
             isPartial_ := arg_isPartial a;
             isRawInput_ := arg_isRawInput a;
             aggregates_ := arg_aggregates a;
             ignoreNullKeys_ := arg_ignoreNullKeys a;
             globalGroupingSets_ := arg_globalGroupingSets a;
             groupIdChannel_ := arg_groupIdChannel a;
             spillConfig_ := arg_spillConfig a;
             mayPushdown_ := mayPushdown;
             sortedAggregations_ := sortedAggregations;
             distinctAggregations_ := distinctAggregations;
             preferredOutputBatchBytes := arg_preferredOutputBatchBytes a |};
        inputState :=
          {| numInputRows_ := 0;
             noMoreInput_ := false;
             remainingInput_ := None;
             firstRemainingRow_ := 0%nat;
             remainingMayPushdown_ := false;
             activeRows_ := [] |};
        store :=
          {| hashers_ := arg_hashers a;
             table_ := None;
             lookup_ := None;
             globalAggregationInitialized_ := false;
             globalLayout_ := None;
             globalRow_ := None;
             abandonedPartialAggregation_ := false;
             allSupportToIntermediate_ := false;
             intermediateRows_ := None |};
        spilling :=
          {| inputSpiller_ := None;
             outputSpiller_ := None;
             numDistinctSpillFilesPerPartition_ := [];
             spillPartitionSet_ := [];
             outputSpillPartition_ := -1;
             merge_ := None;
             mergeRows_ := None;
             mergeArgs_ := 0%nat;
             spillResultWithoutAggregates_ := None |};
        pool_ := arg_pool a;
        calls_ := [] |}.

(** ** Members declared in GroupingSet.h *)

(** Modelled from the spec: [isDistinct()] is declared in GroupingSet.h, which
    is not part of the sources; "distinct-only aggregation" is a grouping
    set without aggregates, whose output has the grouping keys only. *)
Definition isDistinct (s : GroupingSet) : bool :=
  bool_decide (aggregates_ (config s) = []).

(** Modelled from the spec: [hasDefaultGlobalGroupingSetOutput()] is declared
    in GroupingSet.h, which is not part of the sources; the 'derived "default
    global grouping sets" mode' applies "given grouping-set ids ... and zero
    input rows". *)
Definition hasDefaultGlobalGroupingSetOutput (s : GroupingSet) : bool :=
  negb (bool_decide (globalGroupingSets_ (config s) = []))
  && (numInputRows_ (inputState s) =? 0).

(** [GroupingSet::hasSpilled]. *)
Definition hasSpilled (s : GroupingSet) : Result bool :=
  if isSome (inputSpiller_ (spilling s))
  then
    _ ← VELOX_CHECK (isNone (outputSpiller_ (spilling s))) "outputSpiller_ is null";
    Ok true
  else Ok (isSome (outputSpiller_ (spilling s))).

(** [GroupingSet::hasOutput]. *)
Definition hasOutput (s : GroupingSet) : bool :=
  noMoreInput_ (inputState s) || isSome (remainingInput_ (inputState s)).

(** ** Input *)

(** [equalKeys] of the anonymous namespace. *)
Definition equalKeys (keys : list column_index_t) (vector : RowVector)
    (index otherIndex : nat) : bool :=
  forallb (fun key => equalValueAt (childAt vector (N.to_nat key)) index otherIndex)
          keys.

(** The loop [for (auto i = input->size() - 2; i >= 0; --i)] of [addInput]:
    [lastRunBoundary keys input n] visits i = n-1, n-2, ..., 0 and stops at the
    first i whose row differs from row i+1 on the keys. *)
Fixpoint lastRunBoundary (keys : list column_index_t) (vector : RowVector)
    (n : nat) : option nat :=
  match n with
  | O => None
  | S i =>
      if negb (equalKeys keys vector i (i + 1))
      then Some i
      else lastRunBoundary keys vector i
  end.

(** [GroupingSet::accumulators]. *)
Definition accumulators (excludeToIntermediate : bool) (s : GroupingSet)
  : list Accumulator :=
  map (fun a => fn_accumulator (function a))
      (filter (fun a => negb excludeToIntermediate
                        || negb (fn_supportsToIntermediate (function a)) = true)
              (aggregates_ (config s)))
  ++ map ad_accumulator (optionList (sortedAggregations_ (config s)))
  ++ map ad_accumulator (nonNull (distinctAggregations_ (config s))).

(** [GroupingSet::createHashTable]: an empty table, which takes the hashers
    ([std::move(hashers_)]); the accumulator columns are bound in the order
    of [accumulators(false)]. *)
Definition createHashTable (s : GroupingSet) : GroupingSet :=
  withStore (fun st =>
    set_lookup_ (Some {| lk_rows := []; lk_hits := []; lk_newGroups := [] |})
      (set_table_ (Some {| ht_rows := [] |}) (set_hashers_ [] st))) s.

(** Column of the row container bound to [sortedAggregations_]. *)
Definition sortedSlot (s : GroupingSet) : nat := length (aggregates_ (config s)).

(** Column of the row container bound to [distinctAggregations_[i]]: the
    columns of the aggregates, of the sorted adapter and of the non-null
    distinct adapters before it come first. *)
Definition distinctSlot (s : GroupingSet) (i : nat) : nat :=
  (length (aggregates_ (config s))
   + length (optionList (sortedAggregations_ (config s)))
   + length (nonNull (take i (distinctAggregations_ (config s)))))%nat.

(** The local [outOfLineBytes] of [ensureInputFits]. *)
Definition outOfLineBytesOf (ext : Externals) (table : HashTable) : Z :=
  ext_retainedSize ext table - snd (ext_freeSpace ext table).

(** The local [incrementBytes] of [ensureInputFits]. *)
Definition incrementBytesOf (ext : Externals) (table : HashTable) (input : RowVector) : Z :=
  ext_sizeIncrement ext table (Z.of_nat (rv_size input))
    (if outOfLineBytesOf ext table =? 0 then 0 else ext_estimateFlatSize ext input * 2)
  + ext_hashTableSizeIncrease ext table (Z.of_nat (rv_size input)).

(** The local [targetIncrementBytes] of [ensureInputFits]: "the larger of
    twice the maximum increment from this input and
    'spillableReservationGrowthPct_' of the current memory usage". *)
Definition targetIncrementBytesOf (ext : Externals) (spillConfig : SpillConfig)
    (table : HashTable) (input : RowVector) (pool : MemoryPool) : Z :=
  Z.max (incrementBytesOf ext table input * 2)
        (Z.quot (usedBytes pool * spillableReservationGrowthPct spillConfig) 100).

(** [GroupingSet::ensureInputFits]. *)
Definition ensureInputFits (ext : Externals) (input : RowVector) (s : GroupingSet)
  : Result GroupingSet :=
  match isPartial_ (config s), spillConfig_ (config s) with
  | true, _ | _, None => Ok s
  | false, Some spillConfig =>
    match table_ (store s) with
    | None => Err (NullDereference "table_")
    | Some table =>
      if (numDistinct table =? 0)%nat then Ok s
      else
        let '(freeRows, outOfLineFreeBytes) := ext_freeSpace ext table in
        let outOfLineBytes := outOfLineBytesOf ext table in
        let flatBytes := ext_estimateFlatSize ext input in
        if ext_testingTriggerSpill ext then Ok (called CallRunArbitration s)
        else
          let inputSize := Z.of_nat (rv_size input) in
          let currentUsage := usedBytes (pool_ s) in
          let minReservationBytes :=
            Z.quot (currentUsage * minSpillableReservationPct spillConfig) 100 in
          let availableReservationBytes := availableReservation (pool_ s) in
          let tableIncrementBytes := ext_hashTableSizeIncrease ext table inputSize in
          let incrementBytes := incrementBytesOf ext table input in
          if (minReservationBytes <=? availableReservationBytes)
             && ((tableIncrementBytes =? 0) && (inputSize <? freeRows)
                 && ((outOfLineBytes =? 0) || (flatBytes * 2 <=? outOfLineFreeBytes)))
          then Ok s
          else if (minReservationBytes <=? availableReservationBytes)
                  && (2 * incrementBytes <? availableReservationBytes)
          then Ok s
          else
            let targetIncrementBytes :=
              targetIncrementBytesOf ext spillConfig table input (pool_ s) in
            let '(granted, pool) := maybeReserve targetIncrementBytes (pool_ s) in
            let s := called (CallMaybeReserve targetIncrementBytes granted)
                            (set_pool_ pool s) in
            if granted then Ok s
            else Ok (called (CallLogWarning targetIncrementBytes) s)
    end
  end.

(** The key cells of row [row] of the input. *)
Definition rowKeys (s : GroupingSet) (input : RowVector) (row : nat) : list Value :=
  map (fun channel => valueAt (childAt input (N.to_nat channel)) row)
      (keyChannels_ (config s)).

(** Modelled from the spec: [prepareForGroupProbe] belongs to the hash table,
    which is not part of the sources; the rows to probe are the active rows,
    without the rows that have a null key when null keys are ignored ("No
    rows to probe. Can happen when ignoreNullKeys_ is true and all rows have
    null keys"). *)
Definition prepareForGroupProbe (s : GroupingSet) (input : RowVector)
    (rows : SelectivityVector) : SelectivityVector :=
  imap (fun row selected =>
          selected
          && negb (ignoreNullKeys_ (config s)
                   && existsb (fun v => bool_decide (v = None)) (rowKeys s input row)))
       rows.

Definition selectedRows (rows : SelectivityVector) : list nat :=
  filter (fun row => isSelected rows row = true) (seq 0 (length rows)).

(** Position of the group with the given keys. *)
Definition findGroup (keys : list Value) (groups : list Group) : option nat :=
  fst <$> list_find (fun g => g_keys g = keys) groups.

(** Modelled from the spec: "probeOrInsert(keys, activeRows) -> (hits,
    newGroupIndices)": "per active row: probe-or-insert into the grouping
    store". A new group has its keys stored and [numAccumulators]
    accumulators that are not initialised yet. *)
Definition groupProbe (numAccumulators : nat) (keysOf : nat -> list Value)
    (rows : list nat) (numRows : nat) (table : HashTable) : HashTable * HashLookup :=
  let '(groups, hits, newGroups) :=
    foldl (fun '(groups, hits, newGroups) row =>
             match findGroup (keysOf row) groups with
             | Some g => (groups, <[row := Some g]> hits, newGroups)
             | None =>
                 (groups ++ [{| g_keys := keysOf row;
                                g_accumulators := replicate numAccumulators [] |}],
                  <[row := Some (length groups)]> hits,
                  newGroups ++ [row])
             end)
          (ht_rows table, replicate numRows None, []) rows in
  ({| ht_rows := groups |},
   {| lk_rows := rows; lk_hits := hits; lk_newGroups := newGroups |}).

(** The group row [hits[row]] names. *)
Definition hitOf (lookup : HashLookup) (row : nat) : option nat :=
  mjoin (lk_hits lookup !! row).

(** Apply [f] to accumulator [slot] of group [g]. *)
Definition updateAccumulator (slot : nat) (f : AccumulatorState -> AccumulatorState)
    (g : Group) : Group :=
  {| g_keys := g_keys g; g_accumulators := alter f slot (g_accumulators g) |}.

(** A batch call on an accumulator: [f row] is applied to accumulator [slot] of
    the group of every row of [rows], in row order. *)
Definition forEachRow (lookup : HashLookup) (rows : list nat) (slot : nat)
    (f : nat -> AccumulatorState -> AccumulatorState) (groups : list Group)
  : list Group :=
  foldl (fun groups row =>
           match hitOf lookup row with
           | Some g => alter (updateAccumulator slot (f row)) g groups
           | None => groups
           end)
        groups rows.

(** [initializeNewGroups(groups, newGroups)] on accumulator [slot]. *)
Definition initializeNewGroups (lookup : HashLookup) (slot : nat)
    (initial : AccumulatorState) (groups : list Group) : list Group :=
  forEachRow lookup (lk_newGroups lookup) slot (fun _ _ => initial) groups.

(** Modelled from the spec: AggregateMasks is not part of the sources; "rows
    matching a boolean mask column are skipped per aggregate", and the source
    has no selections when the "mask is false for all rows": a row stays
    selected when it is active and its mask cell is true. *)
Definition maskedRows (input : RowVector) (channel : column_index_t)
    (activeRows : SelectivityVector) : SelectivityVector :=
  imap (fun row selected =>
          selected
          && bool_decide (valueAt (childAt input (N.to_nat channel)) row = Some 1))
       activeRows.

(** [GroupingSet::getSelectivityVector], after [masks_.addInput(input,
    activeRows_)]. *)
Definition getSelectivityVector (s : GroupingSet) (input : RowVector)
    (aggregateIndex : nat) : SelectivityVector :=
  match aggregates_ (config s) !! aggregateIndex with
  | Some {| mask := Some channel |} => maskedRows input channel (activeRows_ (inputState s))
  | _ => activeRows_ (inputState s)
  end.

(** [GroupingSet::populateTempVectors], read at one row: the argument cells
    of the aggregate, a constant input in place of [kConstantChannel]. *)
Definition tempValues (aggregate : AggregateInfo) (input : RowVector) (row : nat)
  : list Value :=
  imap (fun i channel =>
          if (channel =? kConstantChannel)%N
          then default None (constantInputs aggregate !! i)
          else valueAt (childAt input (N.to_nat channel)) row)
       (inputs aggregate).

(** One turn of the loop of [addInputForActiveRows] over [aggregates_]. *)
Definition accumulateAggregate (s : GroupingSet) (input : RowVector)
    (lookup : HashLookup) (groups : list Group) (i : nat) (aggregate : AggregateInfo)
  : list Group :=
  if isSorted aggregate then groups
  else
    let rows := getSelectivityVector s input i in
    if distinct aggregate
    then
      match mjoin (distinctAggregations_ (config s) !! i) with
      | Some adapter =>
          let groups :=
            initializeNewGroups lookup (distinctSlot s i)
              (ad_initializeNewGroup adapter) groups in
          if hasSelections rows
          then forEachRow lookup (selectedRows rows) (distinctSlot s i)
                 (fun row state => ad_addInput adapter state (rowAt input row)) groups
          else groups
      | None => groups
      end
    else
      let groups :=
        initializeNewGroups lookup i (fn_initializeNewGroup (function aggregate))
          groups in
      if negb (hasSelections rows) then groups
      else
        forEachRow lookup (selectedRows rows) i
          (fun row state =>
             if isRawInput_ (config s)
             then fn_addRawInput (function aggregate) state (tempValues aggregate input row)
             else fn_addIntermediateResults (function aggregate) state
                    (tempValues aggregate input row))
          groups.

(** [GroupingSet::addInputForActiveRows]. *)
Definition addInputForActiveRows (ext : Externals) (input : RowVector)
    (mayPushdown : bool) (s : GroupingSet) : Result GroupingSet :=
  _ ← VELOX_CHECK (negb (isGlobal_ (config s))) "!isGlobal_";
  let s := called (CallAddInputForActiveRows input (activeRows_ (inputState s))) s in
  let s := if isNone (table_ (store s)) then createHashTable s else s in
  s ← ensureInputFits ext input s;
  match table_ (store s) with
  | None => Err (NullDereference "table_")
  | Some table =>
      let activeRows := prepareForGroupProbe s input (activeRows_ (inputState s)) in
      let s := withInput (set_activeRows_ activeRows) s in
      let rows := selectedRows activeRows in
      if bool_decide (rows = [])
      then
        Ok (withStore (set_lookup_
              (Some {| lk_rows := []; lk_hits := []; lk_newGroups := [] |})) s)
      else
        let '(table, lookup) :=
          groupProbe (length (accumulators false s)) (rowKeys s input) rows
            (rv_size input) table in
        let groups :=
          foldl (fun groups '(i, aggregate) =>
                   accumulateAggregate s input lookup groups i aggregate)
                (ht_rows table) (imap pair (aggregates_ (config s))) in
        let groups :=
          match sortedAggregations_ (config s) with
          | Some adapter =>
              forEachRow lookup rows (sortedSlot s)
                (fun row state => ad_addInput adapter state (rowAt input row))
                (initializeNewGroups lookup (sortedSlot s)
                   (ad_initializeNewGroup adapter) groups)
          | None => groups
          end in
        Ok (withStore (fun st =>
              set_lookup_ (Some lookup) (set_table_ (Some {| ht_rows := groups |}) st)) s)
  end.

(** [GroupingSet::addRemainingInput]; only called when [remainingInput_] is
    non-null. *)
Definition addRemainingInput (ext : Externals) (s : GroupingSet) : Result GroupingSet :=
  match remainingInput_ (inputState s) with
  | None => Err (NullDereference "remainingInput_")
  | Some remaining =>
      let s :=
        withInput (set_activeRows_
          (selectedFrom (firstRemainingRow_ (inputState s)) (rv_size remaining))) s in
      s ← addInputForActiveRows ext remaining (remainingMayPushdown_ (inputState s)) s;
      Ok (withInput (set_remainingInput_ None) s)
  end.

(** ** Global aggregation *)

(** The accumulators [initializeGlobalAggregation] initialises in the single
    row: every aggregate without sort keys, the sorted adapter and the
    non-null distinct adapters. *)
Definition initialGlobalRow (s : GroupingSet) : Group :=
  {| g_keys := [];
     g_accumulators :=
       map (fun aggregate =>
              if isSorted aggregate then []
              else fn_initializeNewGroup (function aggregate))
           (aggregates_ (config s))
       ++ map ad_initializeNewGroup (optionList (sortedAggregations_ (config s)))
       ++ map ad_initializeNewGroup (nonNull (distinctAggregations_ (config s))) |}.

(** [GroupingSet::initializeGlobalAggregation]. *)
Definition initializeGlobalAggregation (s : GroupingSet) : GroupingSet :=
  if globalAggregationInitialized_ (store s) then s
  else
    withStore (fun st =>
      set_globalAggregationInitialized_ true
        (set_globalRow_ (Some (initialGlobalRow s))
          (set_globalLayout_
             (Some (globalRowLayout
                      (map (fun a => fn_accumulator (function a)) (aggregates_ (config s)))
                      (ad_accumulator <$> sortedAggregations_ (config s))
                      (map (fmap ad_accumulator) (distinctAggregations_ (config s)))))
             (set_lookup_
                (Some {| lk_rows := []; lk_hits := [Some 0%nat]; lk_newGroups := [] |})
                st)))) s.

(** A single-group call on accumulator [slot]: [f row] for every row of
    [rows], in row order. *)
Definition forEachRowOfGroup (rows : list nat) (slot : nat)
    (f : nat -> AccumulatorState -> AccumulatorState) (group : Group) : Group :=
  foldl (fun group row => updateAccumulator slot (f row) group) group rows.

(** One turn of the loop of [addGlobalAggregationInput] over [aggregates_]. *)
Definition accumulateGlobalAggregate (s : GroupingSet) (input : RowVector)
    (group : Group) (i : nat) (aggregate : AggregateInfo) : Group :=
  if isSorted aggregate then group
  else
    let rows := getSelectivityVector s input i in
    if negb (hasSelections rows) then group
    else if distinct aggregate
    then
      match mjoin (distinctAggregations_ (config s) !! i) with
      | Some adapter =>
          forEachRowOfGroup (selectedRows rows) (distinctSlot s i)
            (fun row state => ad_addInput adapter state (rowAt input row)) group
      | None => group
      end
    else
      forEachRowOfGroup (selectedRows rows) i
        (fun row state =>
           if isRawInput_ (config s)
           then fn_addRawInput (function aggregate) state (tempValues aggregate input row)
           else fn_addIntermediateResults (function aggregate) state
                  (tempValues aggregate input row))
        group.

(** [GroupingSet::addGlobalAggregationInput]. *)
Definition addGlobalAggregationInput (input : RowVector) (mayPushdown : bool)
    (s : GroupingSet) : Result GroupingSet :=
  let s := initializeGlobalAggregation s in
  let s := withInput (set_activeRows_ (allSelected (rv_size input))) s in
  match globalRow_ (store s) with
  | None => Err (NullDereference "lookup_->hits[0]")
  | Some group =>
      let group :=
        foldl (fun group '(i, aggregate) =>
                 accumulateGlobalAggregate s input group i aggregate)
              group (imap pair (aggregates_ (config s))) in
      let group :=
        match sortedAggregations_ (config s) with
        | Some adapter =>
            forEachRowOfGroup (seq 0 (rv_size input)) (sortedSlot s)
              (fun row state => ad_addInput adapter state (rowAt input row)) group
        | None => group
        end in
      Ok (withStore (set_globalRow_ (Some group)) s)
  end.

(** [GroupingSet::addInput]. *)
Definition addInput (ext : Externals) (input : RowVector) (mayPushdown : bool)
    (s : GroupingSet) : Result GroupingSet :=
  if isGlobal_ (config s) then addGlobalAggregationInput input mayPushdown s
  else
    let numRows := rv_size input in
    let s := withInput (fun st =>
               set_numInputRows_ (numInputRows_ st + Z.of_nat numRows) st) s in
    '(numRows, s) ←
      (if bool_decide (preGroupedKeyChannels_ (config s) = [])
       then Ok (numRows, s)
       else
         s ← (if isSome (remainingInput_ (inputState s))
              then addRemainingInput ext s
              else Ok s);
         match lastRunBoundary (preGroupedKeyChannels_ (config s)) input
                 (rv_size input - 1) with
         | Some i =>
             let numRows := (i + 1)%nat in
             Ok (numRows,
                 withInput (fun st =>
                   set_remainingMayPushdown_ mayPushdown
                     (set_firstRemainingRow_ numRows
                        (set_remainingInput_ (Some input) st))) s)
         | None => Ok (numRows, s)
         end);
    let s := withInput (set_activeRows_ (allSelected numRows)) s in
    addInputForActiveRows ext input mayPushdown s.

(** ** Spilling *)

(** The spilled form of a group: the keys, then the spill value of every
    accumulator column (the intermediate result of an aggregate, the
    serialised buffer of an adapter). *)
Definition spillRowOf (ext : Externals) (s : GroupingSet) (g : Group) : SpillRow :=
  g_keys g
  ++ imap (fun slot state =>
             match aggregates_ (config s) !! slot with
             | Some aggregate => fn_extractAccumulators (function aggregate) state
             | None => ext_adapterSpillValue ext state
             end)
          (g_accumulators g).

(** The key cells of a spilled row. *)
Definition spillKey (s : GroupingSet) (row : SpillRow) : list Value :=
  take (length (keyChannels_ (config s))) row.

Fixpoint insertByKey (le : SpillRow -> SpillRow -> bool) (r : SpillRow)
    (run : list SpillRow) : list SpillRow :=
  match run with
  | [] => [r]
  | x :: rest => if le r x then r :: x :: rest else x :: insertByKey le r rest
  end.

(** Sort a run by key; rows with equal keys keep their order. *)
Definition sortRun (le : SpillRow -> SpillRow -> bool) (rows : list SpillRow)
  : SpillFile :=
  foldr (insertByKey le) [] rows.

Definition appendRun (partition : nat) (run : SpillFile)
    (files : gmap nat (list SpillFile)) : gmap nat (list SpillFile) :=
  if bool_decide (run = []) then files
  else <[partition := default [] (files !! partition) ++ [run]]> files.

(** Modelled from the spec: the input spiller "spills the entire remaining
    in-memory grouping store ... into a fixed number of partitions selected by
    a bit-range of the key hash; each partition's rows are written sorted by
    key". Every call adds one finished file to each partition it has rows
    for. *)
Definition inputSpillerSpill (ext : Externals) (s : GroupingSet)
    (rows : list Group) (spiller : Spiller) : Spiller :=
  let spilled := map (spillRowOf ext s) rows in
  {| sp_numPartitions := sp_numPartitions spiller;
     sp_files :=
       foldl (fun files partition =>
                appendRun partition
                  (sortRun (fun a b => ext_keyLe ext (spillKey s a) (spillKey s b))
                     (filter (fun r => (ext_partitionOf ext (spillKey s r)
                                        `mod` sp_numPartitions spiller)%nat = partition)
                             spilled))
                  files)
             (sp_files spiller) (seq 0 (sp_numPartitions spiller));
     sp_finalized := sp_finalized spiller |}.

(** Modelled from the spec: the output spiller "spills rows starting at a
    caller-given iteration position (so previously-extracted output is not
    re-spilled)"; it has no hash bits and no sort keys, so the rows go to
    partition 0 in the order of the container. *)
Definition outputSpillerSpill (ext : Externals) (s : GroupingSet)
    (rowIterator : RowContainerIterator) (rows : list Group) (spiller : Spiller)
  : Spiller :=
  {| sp_numPartitions := sp_numPartitions spiller;
     sp_files :=
       appendRun 0%nat (map (spillRowOf ext s) (drop (rowNumber rowIterator) rows))
         (sp_files spiller);
     sp_finalized := sp_finalized spiller |}.

Definition numFinishedFiles (spiller : Spiller) (partition : nat) : nat :=
  length (default [] (sp_files spiller !! partition)).

(** [1 << spillConfig_->numPartitionBits]. *)
Definition maxPartitionsOf (spillConfig : SpillConfig) : nat :=
  Z.to_nat (Z.shiftl 1 (numPartitionBits spillConfig)).

(** [GroupingSet::spill()]. *)
Definition spill (ext : Externals) (s : GroupingSet) : Result GroupingSet :=
  let s := called CallSpill s in
  match table_ (store s) with
  | None => Ok s
  | Some table =>
    if (numDistinct table =? 0)%nat then Ok s
    else
      _ ← VELOX_CHECK (isNone (outputSpiller_ (spilling s))) "outputSpiller_ is null";
      spiller ←
        match inputSpiller_ (spilling s) with
        | Some spiller => Ok spiller
        | None =>
            _ ← VELOX_CHECK
                  (bool_decide (numDistinctSpillFilesPerPartition_ (spilling s) = []))
                  "numDistinctSpillFilesPerPartition_.empty()";
            match spillConfig_ (config s) with
            | None => Err (NullDereference "spillConfig_")
            | Some spillConfig =>
                Ok {| sp_numPartitions := maxPartitionsOf spillConfig;
                      sp_files := ∅;
                      sp_finalized := false |}
            end
        end;
      let spiller := inputSpillerSpill ext s (ht_rows table) spiller in
      let s := withSpilling (set_inputSpiller_ (Some spiller)) s in
      s ←
        (if isDistinct s
            && bool_decide (numDistinctSpillFilesPerPartition_ (spilling s) = [])
         then
           match spillConfig_ (config s) with
           | None => Err (NullDereference "spillConfig_")
           | Some spillConfig =>
               let counts :=
                 map (numFinishedFiles spiller) (seq 0 (maxPartitionsOf spillConfig)) in
               _ ← VELOX_CHECK (0 <? foldr Nat.add 0 counts)%nat
                     "totalNumDistinctSpilledFiles > 0";
               Ok (withSpilling (set_numDistinctSpillFilesPerPartition_ counts) s)
           end
         else Ok s);
      Ok (withStore (set_table_ (Some (clearTable table))) s)
  end.

(** [GroupingSet::spill(const RowContainerIterator&)]. *)
Definition spillOutput (ext : Externals) (rowIterator : RowContainerIterator)
    (s : GroupingSet) : Result GroupingSet :=
  spilled ← hasSpilled s;
  _ ← VELOX_CHECK (negb spilled) "!hasSpilled()";
  match table_ (store s) with
  | None => Ok s
  | Some table =>
      _ ← VELOX_CHECK (trackUsage (pool_ s)) "pool_.trackUsage()";
      match spillConfig_ (config s) with
      | None => Err (NullDereference "spillConfig_")
      | Some _ =>
          let spiller :=
            outputSpillerSpill ext s rowIterator (ht_rows table)
              {| sp_numPartitions := 1; sp_files := ∅; sp_finalized := false |} in
          Ok (withStore (set_table_ (Some (clearTable table)))
                (withSpilling (set_outputSpiller_ (Some spiller)) s))
      end
  end.

(** Modelled from the spec: the arbitration that [testingRunArbitration] and
    [maybeReserve] may run inside the reclaimable section of
    [ensureOutputFits], "a reclaim entry point ([spill]) reentrantly". The
    source reads [hasSpilled()] again after a granted reservation, "if
    reservation triggers spilling on the 'GroupingSet' itself", so the
    reservation is where the grouping set can be spilled from outside. *)
Definition reclaim (ext : Externals) (s : GroupingSet) : Result GroupingSet :=
  match ext_reclaim ext with
  | NoReclaim => Ok s
  | ReclaimInput => spill ext s
  | ReclaimOutput rowIterator => spillOutput ext rowIterator s
  end.

(** [const uint64_t outputBufferSizeToReserve =
    queryConfig_.preferredOutputBatchBytes() * 1.2]: the product is taken in
    [double] and converted back. Below [2 ^ 63] the product fits
    [uint64_t]. *)
Definition outputBufferSizeToReserveOf (preferredOutputBatchBytes : Z) : Z :=
  uint64OfDouble (doubleMul (doubleOfUint64 preferredOutputBatchBytes) onePointTwo).

(** [GroupingSet::ensureOutputFits]. *)
Definition ensureOutputFits (ext : Externals) (s : GroupingSet) : Result GroupingSet :=
  let s := called CallEnsureOutputFits s in
  skip ←
    (if isPartial_ (config s) || isNone (spillConfig_ (config s)) then Ok true
     else
       spilled ← hasSpilled s;
       Ok (spilled
           || match table_ (store s) with
              | None => true
              | Some table => (numDistinct table =? 0)%nat
              end));
  if skip : bool then Ok s
  else if ext_testingTriggerSpill ext then reclaim ext (called CallRunArbitration s)
  else
    let outputBufferSizeToReserve :=
      outputBufferSizeToReserveOf (preferredOutputBatchBytes (config s)) in
    let '(granted, pool) := maybeReserve outputBufferSizeToReserve (pool_ s) in
    s ← reclaim ext (called (CallMaybeReserve outputBufferSizeToReserve granted)
                       (set_pool_ pool s));
    if granted
    then
      spilled ← hasSpilled s;
      if spilled : bool
      then Ok (called CallRelease (set_pool_ (release (pool_ s)) s))
      else Ok s
    else Ok (called (CallLogWarning outputBufferSizeToReserve) s).

(** [GroupingSet::noMoreInput]. *)
Definition noMoreInput (ext : Externals) (s : GroupingSet) : Result GroupingSet :=
  let s := withInput (set_noMoreInput_ true) s in
  s ← (if isSome (remainingInput_ (inputState s))
       then addRemainingInput ext s
       else Ok s);
  _ ← VELOX_CHECK (isNone (outputSpiller_ (spilling s))) "outputSpiller_ is null";
  s ← (if isSome (inputSpiller_ (spilling s)) then spill ext s else Ok s);
  ensureOutputFits ext s.

(** ** Output *)

Definition accumulatorAt (slot : nat) (g : Group) : AccumulatorState :=
  default [] (g_accumulators g !! slot).

(** [function->extractValues(groups, n, &vector)] and
    [function->extractAccumulators(groups, n, &vector)]: the vector gets one
    cell per group. *)
Definition extractFunction (isPartial : bool) (aggregate : AggregateInfo)
    (slot : nat) (groups : list Group) : Vector :=
  map (fun g =>
         if isPartial
         then fn_extractAccumulators (function aggregate) (accumulatorAt slot g)
         else fn_extractValues (function aggregate) (accumulatorAt slot g))
      groups.

(** [adapter->extractValues(groups, result)]: the adapter writes, for every
    group, the cells of the columns it owns. *)
Definition extractAdapter (adapter : AggregationAdapter) (slot : nat)
    (groups : list Group) (result : RowVector) : RowVector :=
  foldl (fun result '(row, g) =>
           foldl (fun result '(column, v) =>
                    setChild column
                      (<[row := v]> (resizeVector (length groups) (childAt result column)))
                      result)
                 result (ad_extractValues adapter (accumulatorAt slot g)))
        result (imap pair groups).

(** The part shared by [getGlobalAggregationOutput] and [extractGroups]: the
    loop over [aggregates_] that skips the sorted aggregates, then the sorted
    and the distinct adapters. [column i] is the result column of aggregate
    [i]. *)
Definition extractAggregates (s : GroupingSet) (column : nat -> AggregateInfo -> nat)
    (groups : list Group) (result : RowVector) : RowVector :=
  let result :=
    foldl (fun result '(i, aggregate) =>
             if isSorted aggregate then result
             else setChild (column i aggregate)
                    (extractFunction (isPartial_ (config s)) aggregate i groups) result)
          result (imap pair (aggregates_ (config s))) in
  let result :=
    match sortedAggregations_ (config s) with
    | Some adapter => extractAdapter adapter (sortedSlot s) groups result
    | None => result
    end in
  foldl (fun result '(i, aggregation) =>
           match aggregation with
           | Some adapter => extractAdapter adapter (distinctSlot s i) groups result
           | None => result
           end)
        result (imap pair (distinctAggregations_ (config s))).

Definition setAllocationIndex (v : Z) (it : RowContainerIterator) : RowContainerIterator :=
  {| allocationIndex := v; rowNumber := rowNumber it |}.

(** [GroupingSet::getGlobalAggregationOutput]. *)
Definition getGlobalAggregationOutput (iterator : RowContainerIterator)
    (result : RowVector) (s : GroupingSet)
  : Result (bool * RowContainerIterator * RowVector * GroupingSet) :=
  if negb (allocationIndex iterator =? 0) then Ok (false, iterator, result, s)
  else
    let s := initializeGlobalAggregation s in
    match globalRow_ (store s) with
    | None => Err (NullDereference "lookup_->hits[0]")
    | Some group =>
        Ok (true,
            setAllocationIndex INT32_MAX iterator,
            extractAggregates s (fun _ aggregate => output aggregate) [group] result,
            s)
    end.

(** [BaseVector::create<RowVector>(type, 1, pool)]: a row vector of one row
    with the columns of [type], cells not set yet. *)
Definition createRowVector (numColumns : nat) (numRows : nat) : RowVector :=
  {| rv_size := numRows; rv_children := replicate numColumns (replicate numRows None) |}.

(** The group-id column of the global grouping sets: [column->resize(n)],
    then [set(j, globalGroupingSets_.at(j))] for every row. *)
Definition groupIdColumn (globalGroupingSets : list Z) (column : Vector) : Vector :=
  let numGroupingSets := length globalGroupingSets in
  foldl (fun column j => <[j := Some (default 0 (globalGroupingSets !! j))]> column)
        (resizeVector numGroupingSets column) (seq 0 numGroupingSets).

(** A grouping-key column that is not the group id: [column->resize(n,
    false)], then [setNull(j, true)] for every row. *)
Definition nullKeyColumn (numGroupingSets : nat) (column : Vector) : Vector :=
  foldl (fun column j => <[j := None]> column)
        (resizeVector numGroupingSets column) (seq 0 numGroupingSets).

(** An aggregate column: [resize(n)], then
    [copy(sourceAggregateColumn, i, 0, 1)] for every row. *)
Definition copiedAggregateColumn (sourceAggregateColumn : Vector) (numGroupingSets : nat)
    (column : Vector) : Vector :=
  foldl (fun column i => <[i := valueAt sourceAggregateColumn 0]> column)
        (resizeVector numGroupingSets column) (seq 0 numGroupingSets).

(** [firstAggregateCol]: the smallest output column of an aggregate, the
    number of columns without aggregates. *)
Definition firstAggregateColumn (numColumns : nat) (aggregates : list AggregateInfo) : nat :=
  foldl (fun first aggregate => Nat.min first (output aggregate)) numColumns aggregates.

(** [GroupingSet::getDefaultGlobalGroupingSetOutput]. *)
Definition getDefaultGlobalGroupingSetOutput (iterator : RowContainerIterator)
    (result : RowVector) (s : GroupingSet)
  : Result (bool * RowContainerIterator * RowVector * GroupingSet) :=
  _ ← VELOX_CHECK (hasDefaultGlobalGroupingSetOutput s)
        "hasDefaultGlobalGroupingSetOutput()";
  if negb (allocationIndex iterator =? 0) then Ok (false, iterator, result, s)
  else
    '(produced, iterator, globalAggregatesRow, s) ←
      getGlobalAggregationOutput iterator
        (createRowVector (length (rv_children result)) 1) s;
    _ ← VELOX_CHECK produced "getGlobalAggregationOutput(iterator, globalAggregatesRow)";
    let numGroupingSets := length (globalGroupingSets_ (config s)) in
    let result := resizeRowVector numGroupingSets result in
    match groupIdChannel_ (config s) with
    | None => Err (VeloxRuntimeError "groupIdChannel_.has_value()")
    | Some groupIdChannel =>
        let firstAggregateCol :=
          firstAggregateColumn (length (rv_children result)) (aggregates_ (config s)) in
        let result :=
          foldl (fun result i =>
                   if (N.of_nat i =? groupIdChannel)%N
                   then setChild i
                          (groupIdColumn (globalGroupingSets_ (config s)) (childAt result i))
                          result
                   else setChild i (nullKeyColumn numGroupingSets (childAt result i)) result)
                result (seq 0 firstAggregateCol) in
        let result :=
          foldl (fun result aggregate =>
                   setChild (output aggregate)
                     (copiedAggregateColumn
                        (childAt globalAggregatesRow (output aggregate))
                        numGroupingSets (childAt result (output aggregate)))
                     result)
                result (aggregates_ (config s)) in
        Ok (true, iterator, result, s)
    end.

(** [GroupingSet::extractGroups]. Key column [i] of the result is key column
    [groupingKeyOutputProjections_[i]] of the groups; the column of aggregate
    [i] follows the keys. *)
Definition extractGroups (s : GroupingSet) (totalKeys : nat) (groups : list Group)
    (result : RowVector) : RowVector :=
  let result := resizeRowVector (length groups) result in
  if bool_decide (groups = []) then result
  else
    let result :=
      foldl (fun result i =>
               let projection :=
                 N.to_nat (default 0%N (groupingKeyOutputProjections_ (config s) !! i)) in
               setChild i
                 (map (fun g => default None (g_keys g !! projection)) groups) result)
            result (seq 0 totalKeys) in
    extractAggregates s (fun i _ => (i + totalKeys)%nat) groups result.

(** ** Reading spilled partitions back *)

Fixpoint insertEntry (le : SpillRow -> SpillRow -> bool) (e : MergeEntry)
    (entries : list MergeEntry) : list MergeEntry :=
  match entries with
  | [] => [e]
  | x :: rest =>
      if le (me_row e) (me_row x) then e :: x :: rest
      else x :: insertEntry le e rest
  end.

(** Modelled from the spec: [createOrderedReader] "open[s] an ordered
    multi-way merge reader over" a partition: one stream per file, the stream
    id being the position of the file in the partition; the rows come in key
    order, rows with equal keys in stream order. *)
Definition createOrderedReader (le : SpillRow -> SpillRow -> bool)
    (files : list SpillFile) : MergeReader :=
  foldr (insertEntry le) []
    (concat (imap (fun id file => map (fun r => {| me_stream := id; me_row := r |}) file)
                  files)).

(** Modelled from the spec: the merge exposes "nextWithEquals() (returns the
    winning stream plus whether the following value is equal)"; nothing is
    returned when the reader is exhausted. *)
Definition nextWithEquals (keyOf : SpillRow -> list Value) (merge : MergeReader)
  : option (MergeEntry * bool) :=
  match merge with
  | [] => None
  | e :: rest =>
      Some (e, match rest with
               | e' :: _ => bool_decide (keyOf (me_row e) = keyOf (me_row e'))
               | [] => false
               end)
  end.

(** [stream->pop()]: the reader moves past the row it returned. *)
Definition pop (merge : MergeReader) : MergeReader := tail merge.

(** Modelled from the spec: "finishSpill(partitionSet) returning the
    finalized, queryable set of spilled partitions", in partition order. *)
Definition finishSpill (spiller : Spiller) : Spiller * list (nat * list SpillFile) :=
  ({| sp_numPartitions := sp_numPartitions spiller;
      sp_files := sp_files spiller;
      sp_finalized := true |},
   omap (fun partition => pair partition <$> sp_files spiller !! partition)
        (seq 0 (sp_numPartitions spiller))).

(** Modelled from the spec: "empty partitions are pruned". *)
Definition removeEmptyPartitions (partitions : list (nat * list SpillFile))
  : list (nat * list SpillFile) :=
  filter (fun '(_, files) => concat files ≠ []) partitions.

(** [GroupingSet::prepareNextSpillPartitionOutput]. *)
Definition prepareNextSpillPartitionOutput (ext : Externals) (s : GroupingSet)
  : Result (bool * GroupingSet) :=
  _ ← VELOX_CHECK
        (eqb (isNone (merge_ (spilling s))) (outputSpillPartition_ (spilling s) =? -1))
        "(merge_ == nullptr) == (outputSpillPartition_ == -1)";
  let s := withSpilling (set_merge_ None) s in
  match spillPartitionSet_ (spilling s) with
  | [] => Ok (false, s)
  | (partitionNumber, files) :: rest =>
      _ ← VELOX_CHECK
            (negb (outputSpillPartition_ (spilling s) =? Z.of_nat partitionNumber))
            "outputSpillPartition_ != it->first.partitionNumber()";
      Ok (true,
          withSpilling (fun st =>
            set_spillPartitionSet_ rest
              (set_merge_
                 (Some (createOrderedReader
                          (fun a b => ext_keyLe ext (spillKey s a) (spillKey s b)) files))
                 (set_outputSpillPartition_ (Z.of_nat partitionNumber) st))) s)
  end.

(** [GroupingSet::initializeRow]: the keys of the stream's row are stored in
    the new row, and the accumulators of the aggregates without sort keys and
    of the sorted adapter are initialised. *)
Definition initializeRow (s : GroupingSet) (stream : MergeEntry) : Group :=
  {| g_keys := spillKey s (me_row stream);
     g_accumulators :=
       map (fun aggregate =>
              if isSorted aggregate then []
              else fn_initializeNewGroup (function aggregate))
           (aggregates_ (config s))
       ++ map ad_initializeNewGroup (optionList (sortedAggregations_ (config s)))
       ++ map (fun _ => []) (nonNull (distinctAggregations_ (config s))) |}.

(** [GroupingSet::updateRow]: the spilled intermediate result of every
    aggregate without sort keys is added to the row, then the spilled buffer
    of the sorted adapter. *)
Definition updateRow (s : GroupingSet) (stream : MergeEntry) (row : Group) : Group :=
  let numKeys := length (keyChannels_ (config s)) in
  let row :=
    foldl (fun row '(i, aggregate) =>
             if isSorted aggregate then row
             else updateAccumulator i
                    (fun state =>
                       fn_addIntermediateResults (function aggregate) state
                         [valueAt (me_row stream) (i + numKeys)])
                    row)
          row (imap pair (aggregates_ (config s))) in
  match sortedAggregations_ (config s) with
  | Some adapter =>
      updateAccumulator (sortedSlot s)
        (fun state =>
           ad_addSpillInput adapter state
             (valueAt (me_row stream) (length (aggregates_ (config s)) + numKeys)))
        row
  | None => row
  end.

(** [GroupingSet::extractSpillResult], with [clearMergeRows]. *)
Definition extractSpillResult (s : GroupingSet) (result : RowVector)
  : Result (RowVector * GroupingSet) :=
  match mergeRows_ (spilling s) with
  | None => Err (NullDereference "mergeRows_")
  | Some rows =>
      Ok (extractGroups s (length (keyChannels_ (config s))) rows result,
          withSpilling (set_mergeRows_ (Some [])) s)
  end.

(** [GroupingSet::mergeRowBytes]. *)
Definition mergeRowBytes (ext : Externals) (s : GroupingSet) (rows : list Group) : Z :=
  ext_allocatedBytes ext rows
  + (if isSome (sortedAggregations_ (config s))
     then ext_sortedAggregationBytes ext rows
     else 0).

(** The number of turns the merge loops can take: every turn pops a row of
    the reader or opens the next partition. *)
Definition mergeBudget (s : GroupingSet) : nat :=
  (length (default [] (merge_ (spilling s)))
   + foldr (fun '(_, files) n => S (length (concat files) + n)) 0
           (spillPartitionSet_ (spilling s))
   + 1)%nat.

(** The [for (;;)] loop of [mergeNextWithAggregates]. The test
    [mergeRowBytes() >= maxOutputBytes] compares a [uint64_t] with an
    [int32_t], so the budget is taken modulo 2^64. *)
Fixpoint mergeWithAggregatesLoop (ext : Externals) (budget : nat)
    (maxOutputRows maxOutputBytes : Z) (nextKeyIsEqual : bool)
    (result : RowVector) (s : GroupingSet) : Result (bool * RowVector * GroupingSet) :=
  match budget with
  | O => Err LoopBudgetExceeded
  | S budget =>
    match merge_ (spilling s) with
    | None => Err (NullDereference "merge_")
    | Some merge =>
      match nextWithEquals (spillKey s) merge with
      | None =>
          '(result, s) ← extractSpillResult s result;
          if (0 <? rv_size result)%nat then Ok (true, result, s)
          else
            _ ← VELOX_CHECK (negb nextKeyIsEqual) "!nextKeyIsEqual";
            '(more, s) ← prepareNextSpillPartitionOutput ext s;
            if more : bool
            then
              _ ← VELOX_CHECK (isSome (merge_ (spilling s))) "merge_ is not null";
              mergeWithAggregatesLoop ext budget maxOutputRows maxOutputBytes
                nextKeyIsEqual result s
            else
              _ ← VELOX_CHECK (isNone (merge_ (spilling s))) "merge_ is null";
              Ok (false, result, s)
      | Some (next, equal) =>
          match mergeRows_ (spilling s) with
          | None => Err (NullDereference "mergeRows_")
          | Some rows =>
              let rows :=
                if negb nextKeyIsEqual then rows ++ [initializeRow s next] else rows in
              let rows := alter (updateRow s next) (length rows - 1)%nat rows in
              let s :=
                withSpilling (fun st =>
                  set_merge_ (Some (pop merge)) (set_mergeRows_ (Some rows) st)) s in
              if negb equal
                 && ((maxOutputRows <=? Z.of_nat (length rows))
                     || (maxOutputBytes `mod` 2 ^ 64 <=? mergeRowBytes ext s rows))
              then
                '(result, s) ← extractSpillResult s result;
                Ok (true, result, s)
              else
                mergeWithAggregatesLoop ext budget maxOutputRows maxOutputBytes
                  equal result s
          end
      end
    end
  end.

(** [GroupingSet::mergeNextWithAggregates]. *)
Definition mergeNextWithAggregates (ext : Externals) (maxOutputRows maxOutputBytes : Z)
    (result : RowVector) (s : GroupingSet) : Result (bool * RowVector * GroupingSet) :=
  _ ← VELOX_CHECK (negb (isDistinct s)) "!isDistinct()";
  _ ← VELOX_CHECK (isSome (merge_ (spilling s))) "merge_ is not null";
  mergeWithAggregatesLoop ext (mergeBudget s) maxOutputRows maxOutputBytes false result s.

(** The [while (numOutputRows < maxOutputRows)] loop of
    [mergeNextWithoutAggregates]; [rows] are the rows copied to
    [spillResultWithoutAggregates_] so far, [numOutputRows] is their number. *)
Fixpoint mergeWithoutAggregatesLoop (ext : Externals) (budget : nat)
    (maxOutputRows : Z) (newDistinct : bool) (rows : list SpillRow)
    (s : GroupingSet) : Result (list SpillRow * GroupingSet) :=
  match budget with
  | O => Err LoopBudgetExceeded
  | S budget =>
    if negb (Z.of_nat (length rows) <? maxOutputRows) then Ok (rows, s)
    else
      match merge_ (spilling s) with
      | None => Err (NullDereference "merge_")
      | Some merge =>
        match nextWithEquals (spillKey s) merge with
        | None =>
            if (0 <? length rows)%nat then Ok (rows, s)
            else
              '(more, s) ← prepareNextSpillPartitionOutput ext s;
              if more : bool
              then
                _ ← VELOX_CHECK (isSome (merge_ (spilling s))) "merge_ is not null";
                mergeWithoutAggregatesLoop ext budget maxOutputRows newDistinct rows s
              else
                _ ← VELOX_CHECK (isNone (merge_ (spilling s))) "merge_ is null";
                Ok (rows, s)
        | Some (stream, equal) =>
            match numDistinctSpillFilesPerPartition_ (spilling s)
                    !! Z.to_nat (outputSpillPartition_ (spilling s)) with
            | None => Err (IndexOutOfRange "numDistinctSpillFilesPerPartition_")
            | Some numDistinctSpillFiles =>
                let newDistinct :=
                  if (me_stream stream <? numDistinctSpillFiles)%nat then false
                  else newDistinct in
                let s := withSpilling (set_merge_ (Some (pop merge))) s in
                if equal
                then mergeWithoutAggregatesLoop ext budget maxOutputRows newDistinct rows s
                else
                  let rows := if newDistinct then rows ++ [me_row stream] else rows in
                  mergeWithoutAggregatesLoop ext budget maxOutputRows true rows s
            end
        end
      end
  end.

(** [GroupingSet::projectResult], after
    [spillResultWithoutAggregates_->resize(numOutputRows)]: column [i] of the
    result is column [groupingKeyOutputProjections_[i]] of the copied rows. *)
Definition projectResult (s : GroupingSet) (rows : list SpillRow) (result : RowVector)
  : RowVector :=
  {| rv_size := length rows;
     rv_children :=
       imap (fun i _ =>
               let projection :=
                 N.to_nat (default 0%N (groupingKeyOutputProjections_ (config s) !! i)) in
               map (fun row => valueAt row projection) rows)
            (rv_children result) |}.

(** [GroupingSet::mergeNextWithoutAggregates], with
    [prepareSpillResultWithoutAggregates]. *)
Definition mergeNextWithoutAggregates (ext : Externals) (maxOutputRows : Z)
    (result : RowVector) (s : GroupingSet) : Result (bool * RowVector * GroupingSet) :=
  _ ← VELOX_CHECK (isSome (merge_ (spilling s))) "merge_ is not null";
  _ ← VELOX_CHECK (isDistinct s) "isDistinct()";
  _ ← VELOX_CHECK (isNone (outputSpiller_ (spilling s))) "outputSpiller_ is null";
  _ ← VELOX_CHECK (isSome (inputSpiller_ (spilling s))) "inputSpiller_ is not null";
  match spillConfig_ (config s) with
  | None => Err (NullDereference "spillConfig_")
  | Some spillConfig =>
    _ ← VELOX_CHECK
          (length (numDistinctSpillFilesPerPartition_ (spilling s))
           =? maxPartitionsOf spillConfig)%nat
          "numDistinctSpillFilesPerPartition_.size() == 1 << numPartitionBits";
    _ ← (if isNone (spillResultWithoutAggregates_ (spilling s))
         then
           match table_ (store s) with
           | None => Err (NullDereference "table_")
           | Some _ =>
               VELOX_CHECK
                 (length (keyChannels_ (config s)) =? length (rv_children result))%nat
                 "table_->rows()->keyTypes().size() == numColumns"
           end
         else Ok tt);
    '(rows, s) ← mergeWithoutAggregatesLoop ext (mergeBudget s) maxOutputRows true [] s;
    let s :=
      withSpilling (set_spillResultWithoutAggregates_
        (Some {| rv_size := length rows; rv_children := [] |})) s in
    Ok ((0 <? length rows)%nat, projectResult s rows result, s)
  end.

(** [GroupingSet::mergeNext]. *)
Definition mergeNext (ext : Externals) (maxOutputRows maxOutputBytes : Z)
    (result : RowVector) (s : GroupingSet) : Result (bool * RowVector * GroupingSet) :=
  if isDistinct s then mergeNextWithoutAggregates ext maxOutputRows result s
  else mergeNextWithAggregates ext maxOutputRows maxOutputBytes result s.

(** The block of [getOutputWithSpill] that runs while no partition is open
    ([outputSpillPartition_ == -1]): the spill is finished and the first
    partition opened. The flag tells that there is no partition, in which case
    [getOutputWithSpill] returns false. *)
Definition openSpillOutput (ext : Externals) (s : GroupingSet)
  : Result (bool * GroupingSet) :=
  _ ← VELOX_CHECK (isNone (mergeRows_ (spilling s))) "mergeRows_ is null";
  _ ← VELOX_CHECK (mergeArgs_ (spilling s) =? 0)%nat "mergeArgs_.empty()";
  match table_ (store s) with
  | None => Err (NullDereference "table_")
  | Some table =>
      let s :=
        if negb (isDistinct s)
        then withSpilling (fun st => set_mergeRows_ (Some []) (set_mergeArgs_ 1%nat st)) s
        else s in
      _ ← VELOX_CHECK (numDistinct table =? 0)%nat "table_->rows()->numRows() == 0";
      let s := withStore (set_table_ (Some (clearTable table))) s in
      _ ← VELOX_CHECK (isNone (merge_ (spilling s))) "merge_ is null";
      '(s, partitions) ←
        match inputSpiller_ (spilling s) with
        | Some spiller =>
            _ ← VELOX_CHECK (isNone (outputSpiller_ (spilling s)))
                  "outputSpiller_ is null";
            let '(spiller, partitions) := finishSpill spiller in
            Ok (withSpilling (set_inputSpiller_ (Some spiller)) s, partitions)
        | None =>
            match outputSpiller_ (spilling s) with
            | None => Err (VeloxRuntimeError "outputSpiller_ is not null")
            | Some spiller =>
                let '(spiller, partitions) := finishSpill spiller in
                Ok (withSpilling (set_outputSpiller_ (Some spiller)) s, partitions)
            end
        end;
      let s :=
        withSpilling (fun st =>
          set_spillPartitionSet_
            (removeEmptyPartitions (spillPartitionSet_ st ++ partitions)) st) s in
      '(more, s) ← prepareNextSpillPartitionOutput ext s;
      if more : bool then Ok (false, s)
      else
        _ ← VELOX_CHECK (isNone (merge_ (spilling s))) "merge_ is null";
        Ok (true, s)
  end.

(** [GroupingSet::getOutputWithSpill]. *)
Definition getOutputWithSpill (ext : Externals) (maxOutputRows maxOutputBytes : Z)
    (result : RowVector) (s : GroupingSet) : Result (bool * RowVector * GroupingSet) :=
  '(done, s) ←
    (if outputSpillPartition_ (spilling s) =? -1
     then openSpillOutput ext s
     else Ok (false, s));
  if done : bool then Ok (false, result, s)
  else
    _ ← VELOX_CHECK (isSome (merge_ (spilling s))) "merge_ is not null";
    mergeNext ext maxOutputRows maxOutputBytes result s.

(** [std::vector<T> name(n)] for an [int32_t n]: a negative count converts to
    a size above [max_size()], and the constructor throws
    [std::length_error]. *)
Definition vectorOfSize (n : Z) (name : string) : Result unit :=
  if n <? 0 then Err (StdLengthError name) else Ok tt.

(** [GroupingSet::getOutput]. Without a spill the vector [groups] is built
    with [maxOutputRows] elements before the table is looked at: a negative
    count converts to a size above [max_size()], and the constructor of
    [std::vector] throws [std::length_error]. *)
Definition getOutput (ext : Externals) (maxOutputRows maxOutputBytes : Z)
    (iterator : RowContainerIterator) (result : RowVector) (s : GroupingSet)
  : Result (bool * RowContainerIterator * RowVector * GroupingSet) :=
  if isGlobal_ (config s) then getGlobalAggregationOutput iterator result s
  else if hasDefaultGlobalGroupingSetOutput s
  then getDefaultGlobalGroupingSetOutput iterator result s
  else
    spilled ← hasSpilled s;
    if spilled : bool
    then
      '(more, result, s) ← getOutputWithSpill ext maxOutputRows maxOutputBytes result s;
      Ok (more, iterator, result, s)
    else
      _ ← VELOX_CHECK (negb (isDistinct s)) "!isDistinct()";
      _ ← vectorOfSize maxOutputRows "groups";
      match table_ (store s) with
      | None => Ok (false, iterator, result, s)
      | Some table =>
          let '(groups, iterator) :=
            listRows (ext_rowBytes ext) iterator maxOutputRows maxOutputBytes
              (ht_rows table) in
          if bool_decide (groups = [])
          then Ok (false, iterator, result,
                   withStore (set_table_ (Some (clearTable table))) s)
          else Ok (true, iterator,
                   extractGroups s (length (keyChannels_ (config s))) groups result, s)
      end.

(** ** Abandoning a partial aggregation *)

(** [GroupingSet::abandonPartialAggregation]. *)
Definition abandonPartialAggregation (s : GroupingSet) : Result GroupingSet :=
  let s :=
    withStore (fun st =>
      set_allSupportToIntermediate_
        (forallb (fun a => fn_supportsToIntermediate (function a)) (aggregates_ (config s)))
        (set_abandonedPartialAggregation_ true st)) s in
  match table_ (store s) with
  | None => Err (NullDereference "table_")
  | Some table =>
      _ ← VELOX_CHECK (numDistinct table =? 0)%nat "table_->rows()->numRows() == 0";
      Ok (withStore (fun st => set_table_ None (set_intermediateRows_ (Some []) st)) s)
  end.

(** A [RowVectorPtr] argument: the vector and the [use_count()] of the shared
    pointer. *)
Record RowVectorPtr := {
  use_count : nat;
  target : RowVector
}.

(** The column of one aggregate in [toIntermediate] for raw input. *)
Definition intermediateColumn (s : GroupingSet) (input : RowVector) (i : nat)
    (aggregate : AggregateInfo) : Vector :=
  let rows := getSelectivityVector s input i in
  let f := function aggregate in
  if fn_supportsToIntermediate f
  then
    map (fun row =>
           if isSelected rows row
           then fn_toIntermediate f (tempValues aggregate input row)
           else None)
        (seq 0 (rv_size input))
  else if negb (hasSelections rows)
  then replicate (rv_size input) (fn_extractAccumulators f (fn_initializeNewGroup f))
  else
    map (fun row =>
           fn_extractAccumulators f
             (if isSelected rows row
              then fn_addRawInput f (fn_initializeNewGroup f) (tempValues aggregate input row)
              else fn_initializeNewGroup f))
        (seq 0 (rv_size input)).

(** One turn of the loop of [toIntermediate] over [aggregates_]. *)
Definition toIntermediateStep (input : RowVector) (numKeys : nat)
    (acc : RowVector * GroupingSet) (entry : nat * AggregateInfo)
  : RowVector * GroupingSet :=
  let '(out, s) := acc in
  let '(i, aggregate) := entry in
  (setChild (i + numKeys) (intermediateColumn s input i aggregate) out,
   called (CallToIntermediate i) s).

(** The scratch rows of [toIntermediate]: one [newRow()] per input row when
    some aggregate has no native conversion. *)
Definition allocateIntermediateGroups (numRows : nat) (s : GroupingSet) : GroupingSet :=
  if negb (allSupportToIntermediate_ (store s))
  then foldl (fun s _ => called CallNewRow s) s (seq 0 numRows)
  else s.

(** [GroupingSet::toIntermediate]. The columns of [result] are taken to be
    uniquely referenced, as [recursiveResizeChildren] checks, and the batch is
    taken to hold a row when an aggregate has no native conversion and none of
    its rows is selected: the source then reads [intermediateGroups_[0]], which
    an empty batch does not have, and the model yields an empty column. *)
Definition toIntermediate (input : RowVectorPtr) (result : RowVectorPtr)
    (s : GroupingSet) : Result (RowVectorPtr * GroupingSet) :=
  _ ← VELOX_CHECK (abandonedPartialAggregation_ (store s)) "abandonedPartialAggregation_";
  _ ← VELOX_CHECK (use_count result =? 1)%nat "result.use_count() == 1";
  if negb (isRawInput_ (config s))
  then Ok ({| use_count := S (use_count input); target := target input |}, s)
  else
    let numRows := rv_size (target input) in
    let s := withInput (set_activeRows_ (allSelected numRows)) s in
    let out := resizeRowVector numRows (target result) in
    let s := allocateIntermediateGroups numRows s in
    let numKeys := length (keyChannels_ (config s)) in
    let out :=
      foldl (fun out i =>
               let projection :=
                 N.to_nat (default 0%N (groupingKeyOutputProjections_ (config s) !! i)) in
               let inputKeyChannel :=
                 N.to_nat (default 0%N (keyChannels_ (config s) !! projection)) in
               setChild i (childAt (target input) inputKeyChannel) out)
            out (seq 0 numKeys) in
    let '(out, s) :=
      foldl (toIntermediateStep (target input) numKeys)
            (out, s) (imap pair (aggregates_ (config s))) in
    Ok ({| use_count := use_count result; target := out |}, s).

(** ** The operations of a grouping set, as its owner calls them *)

(** [GroupingSet::resetTable]. *)
Definition resetTable (freeTable : bool) (s : GroupingSet) : GroupingSet :=
  match table_ (store s) with
  | Some table => withStore (set_table_ (Some (clearTable table))) s
  | None => s
  end.

Inductive Operation :=
| OpAddInput (input : RowVector) (mayPushdown : bool)
| OpNoMoreInput
| OpSpill
| OpSpillOutput (rowIterator : RowContainerIterator)
| OpGetOutput (maxOutputRows maxOutputBytes : Z) (iterator : RowContainerIterator)
    (result : RowVector)
| OpResetTable (freeTable : bool)
| OpAbandonPartialAggregation
| OpToIntermediate (input result : RowVectorPtr).

(** The state a call leaves behind when it returns normally. *)
Definition perform (ext : Externals) (op : Operation) (s : GroupingSet)
  : Result GroupingSet :=
  match op with
  | OpAddInput input mayPushdown => addInput ext input mayPushdown s
  | OpNoMoreInput => noMoreInput ext s
  | OpSpill => spill ext s
  | OpSpillOutput rowIterator => spillOutput ext rowIterator s
  | OpGetOutput maxOutputRows maxOutputBytes iterator result =>
      '(_, _, _, s) ← getOutput ext maxOutputRows maxOutputBytes iterator result s;
      Ok s
  | OpResetTable freeTable => Ok (resetTable freeTable s)
  | OpAbandonPartialAggregation => abandonPartialAggregation s
  | OpToIntermediate input result =>
      '(_, s) ← toIntermediate input result s;
      Ok s
  end.

(** The states of a grouping set: what the constructor returns, and what a
    call that returns normally leaves behind. *)
Inductive reachable (ext : Externals) : GroupingSet -> Prop :=
| reachable_construct (a : GroupingSetArgs) (s : GroupingSet) :
    construct ext a = Ok s -> reachable ext s
| reachable_perform (op : Operation) (s s' : GroupingSet) :
    reachable ext s -> perform ext op s = Ok s' -> reachable ext s'.


(** ** Members that report on the state *)

(** [GroupingSet::spilledStats]; [stats] reads the statistics of a spiller. *)
Definition spilledStats {Stats : Type} (stats : Spiller -> Stats) (s : GroupingSet)
  : Result (option Stats) :=
  spilled ← hasSpilled s;
  if negb spilled then Ok None
  else
    match inputSpiller_ (spilling s) with
    | Some spiller =>
        _ ← VELOX_CHECK (isNone (outputSpiller_ (spilling s))) "outputSpiller_ is null";
        Ok (Some (stats spiller))
    | None =>
        match outputSpiller_ (spilling s) with
        | Some spiller => Ok (Some (stats spiller))
        | None => Err (VeloxRuntimeError "outputSpiller_ is not null")
        end
    end.

(** [GroupingSet::estimateOutputRowSize]; [estimateRowSize] is the estimate of
    the row container. *)
Definition estimateOutputRowSize (estimateRowSize : HashTable -> option Z)
    (s : GroupingSet) : option Z :=
  match table_ (store s) with
  | None => None
  | Some table => estimateRowSize table
  end.

(** ** The columns of the accumulators *)

(** What an accumulator column of a row container belongs to: aggregate [i],
    the sorted adapter, or the distinct adapter of aggregate [i]. *)
Inductive AccumulatorOwner :=
| OwnedByAggregate (i : nat)
| OwnedBySorted
| OwnedByDistinct (i : nat).

(** The first loop of [GroupingSet::accumulators], which pushes
    [Accumulator{aggregate.function.get(), ...}]: the aggregates whose
    accumulator is listed, [index] being the position of the first of
    [aggregates] in [aggregates_]. *)
Fixpoint aggregateOwners (excludeToIntermediate : bool)
    (aggregates : list AggregateInfo) (index : nat) : list AccumulatorOwner :=
  match aggregates with
  | [] => []
  | aggregate :: rest =>
      if negb excludeToIntermediate
         || negb (fn_supportsToIntermediate (function aggregate))
      then OwnedByAggregate index :: aggregateOwners excludeToIntermediate rest (S index)
      else aggregateOwners excludeToIntermediate rest (S index)
  end.

(** The last loop of [GroupingSet::accumulators], over
    [distinctAggregations_]. *)
Fixpoint distinctOwners (aggregations : list (option AggregationAdapter)) (index : nat)
  : list AccumulatorOwner :=
  match aggregations with
  | [] => []
  | Some _ :: rest => OwnedByDistinct index :: distinctOwners rest (S index)
  | None :: rest => distinctOwners rest (S index)
  end.

(** [GroupingSet::accumulators] with the origin of every accumulator: the
    order in which the row container lays the accumulator columns out. *)
Definition accumulatorOwners (excludeToIntermediate : bool) (s : GroupingSet)
  : list AccumulatorOwner :=
  aggregateOwners excludeToIntermediate (aggregates_ (config s)) 0
  ++ (if isSome (sortedAggregations_ (config s)) then [OwnedBySorted] else [])
  ++ distinctOwners (distinctAggregations_ (config s)) 0.

(** [initializeAggregates] of the anonymous namespace: the column
    [rows.columnAt(numKeys + i)] whose offsets every aggregate is bound to;
    [index] is the position of the first of [aggregates] in [aggregates_] and
    [i] the counter of the loop. *)
Fixpoint initializeAggregates (numKeys : nat) (excludeToIntermediate : bool)
    (aggregates : list AggregateInfo) (index i : nat) : list (AccumulatorOwner * nat) :=
  match aggregates with
  | [] => []
  | aggregate :: rest =>
      if excludeToIntermediate && fn_supportsToIntermediate (function aggregate)
      then initializeAggregates numKeys excludeToIntermediate rest (S index) i
      else (OwnedByAggregate index, (numKeys + i)%nat)
           :: initializeAggregates numKeys excludeToIntermediate rest (S index) (S i)
  end.

(** The loop of [createHashTable] over [distinctAggregations_]: every
    non-null adapter is bound to [rows.columnAt(numColumns)], and
    [numColumns] moves on. *)
Fixpoint bindDistinctAggregations (aggregations : list (option AggregationAdapter))
    (index numColumns : nat) : list (AccumulatorOwner * nat) :=
  match aggregations with
  | [] => []
  | Some _ :: rest =>
      (OwnedByDistinct index, numColumns)
      :: bindDistinctAggregations rest (S index) (S numColumns)
  | None :: rest => bindDistinctAggregations rest (S index) numColumns
  end.

(** The columns [createHashTable] binds: the aggregates by
    [initializeAggregates(aggregates_, rows, false)], then the sorted adapter
    at [keyTypes().size() + aggregates_.size()], then the distinct
    adapters. *)
Definition createHashTableBindings (numKeys : nat) (s : GroupingSet)
  : list (AccumulatorOwner * nat) :=
  let numColumns := (numKeys + length (aggregates_ (config s)))%nat in
  initializeAggregates numKeys false (aggregates_ (config s)) 0 0
  ++ match sortedAggregations_ (config s) with
     | Some _ =>
         (OwnedBySorted, numColumns)
         :: bindDistinctAggregations (distinctAggregations_ (config s)) 0 (S numColumns)
     | None => bindDistinctAggregations (distinctAggregations_ (config s)) 0 numColumns
     end.
(** * Sample configurations *)

(** [sum] over BIGINT: null until a non-null value is added. *)
Definition sumAdd (state : AccumulatorState) (args : list Value) : AccumulatorState :=
  match args with
  | Some v :: _ =>
      match state with
      | Some total :: _ => [Some (total + v)]
      | _ => [Some v]
      end
  | _ => state
  end.

Definition sumFunction : AggregateFunction :=
  {| fn_accumulator := {| fixedWidthSize := 8; alignment := 8 |};
     fn_initializeNewGroup := [None];
     fn_addRawInput := sumAdd;
     fn_addIntermediateResults := sumAdd;
     fn_extractValues := fun state => default None (head state);
     fn_extractAccumulators := fun state => default None (head state);
     fn_supportsToIntermediate := true;
     fn_toIntermediate := fun args => default None (head args);
     fn_accumulatorUsesExternalMemory := false |}.

(** [count]: zero for a group without rows. *)
Definition countFunction : AggregateFunction :=
  {| fn_accumulator := {| fixedWidthSize := 8; alignment := 8 |};
     fn_initializeNewGroup := [Some 0];
     fn_addRawInput := fun state _ =>
       match state with Some n :: _ => [Some (n + 1)] | _ => [Some 1] end;
     fn_addIntermediateResults := sumAdd;
     fn_extractValues := fun state => default None (head state);
     fn_extractAccumulators := fun state => default None (head state);
     fn_supportsToIntermediate := false;
     fn_toIntermediate := fun _ => Some 1;
     fn_accumulatorUsesExternalMemory := false |}.

(** An adapter that buffers the first cell of its input rows. *)
Definition bufferAdapter : AggregationAdapter :=
  {| ad_accumulator := {| fixedWidthSize := 16; alignment := 16 |};
     ad_initializeNewGroup := [];
     ad_addInput := fun state row => state ++ take 1 row;
     ad_addSpillInput := fun state v => state ++ [v];
     ad_extractValues := fun _ => [] |}.

(** Keys ordered by their first cell, nulls first. *)
Definition firstCellLe (a b : list Value) : bool :=
  match a, b with
  | Some x :: _, Some y :: _ => x <=? y
  | Some _ :: _, _ => false
  | _, _ => true
  end.

Definition sampleExternals : Externals :=
  {| ext_sortedAggregations := fun _ => bufferAdapter;
     ext_distinctAggregations := fun _ => bufferAdapter;
     ext_adapterSpillValue := fun state => default None (head state);
     ext_freeSpace := fun _ => (0, 0);
     ext_retainedSize := fun _ => 0;
     ext_estimateFlatSize := fun input => 8 * Z.of_nat (rv_size input);
     ext_hashTableSizeIncrease := fun _ n => 8 * n;
     ext_sizeIncrement := fun _ n bytes => 16 * n + bytes;
     ext_rowBytes := fun _ => 16;
     ext_allocatedBytes := fun rows => 16 * Z.of_nat (length rows);
     ext_sortedAggregationBytes := fun _ => 0;
     ext_testingTriggerSpill := false;
     ext_reclaim := NoReclaim;
     ext_partitionOf := fun _ => 0%nat;
     ext_keyLe := firstCellLe |}.

Definition samplePool : MemoryPool :=
  {| trackUsage := true; usedBytes := 1000; reservedBytes := 1000; poolCapacity := 1000 |}.

Definition sampleSpillConfig : SpillConfig :=
  {| startPartitionBit := 29;
     numPartitionBits := 0;
     minSpillableReservationPct := 5;
     spillableReservationGrowthPct := 10 |}.

Definition sumOfColumn1 : AggregateInfo :=
  {| function := sumFunction;
     inputs := [1%N];
     constantInputs := [None];
     mask := None;
     distinct := false;
     sortingKeys := [];
     output := 1%nat |}.

(** [sum(c1) group by c0], a final aggregation that may spill. *)
Definition sumByKeyArgs : GroupingSetArgs :=
  {| arg_hashers := [{| hasher_channel := 0%N |}];
     arg_preGroupedKeys := [];
     arg_groupingKeyOutputProjections := [];
     arg_aggregates := [sumOfColumn1];
     arg_ignoreNullKeys := false;
     arg_isPartial := false;
     arg_isRawInput := true;
     arg_globalGroupingSets := [];
     arg_groupIdChannel := None;
     arg_spillConfig := Some sampleSpillConfig;
     arg_nonReclaimableSection := Some false;
     arg_pool := samplePool;
     arg_preferredOutputBatchBytes := 100 |}.

Definition batchOf (columns : list Vector) : RowVector :=
  {| rv_size := length (default [] (head columns)); rv_children := columns |}.

Definition freshIterator : RowContainerIterator :=
  {| allocationIndex := 0; rowNumber := 0 |}.

Definition emptyResult (numColumns : nat) : RowVector :=
  {| rv_size := 0; rv_children := replicate numColumns [] |}.

(** Run the operations in turn, stopping at the first error. *)
Fixpoint performAll (ext : Externals) (ops : list Operation) (s : GroupingSet)
  : Result GroupingSet :=
  match ops with
  | [] => Ok s
  | op :: rest => s ← perform ext op s; performAll ext rest s
  end.

(** [sum(c1) group by c0] over input that is grouped on c0 already. *)
Definition preGroupedSumArgs : GroupingSetArgs :=
  {| arg_hashers := [{| hasher_channel := 0%N |}];
     arg_preGroupedKeys := [0%N];
     arg_groupingKeyOutputProjections := [];
     arg_aggregates := [sumOfColumn1];
     arg_ignoreNullKeys := false;
     arg_isPartial := false;
     arg_isRawInput := true;
     arg_globalGroupingSets := [];
     arg_groupIdChannel := None;
     arg_spillConfig := None;
     arg_nonReclaimableSection := Some false;
     arg_pool := samplePool;
     arg_preferredOutputBatchBytes := 100 |}.

Definition twoRuns : RowVector :=
  batchOf [[Some 1; Some 1; Some 2]; [Some 10; Some 5; Some 3]].

Definition oneRun : RowVector := batchOf [[Some 1; Some 1]; [Some 10; Some 5]].

(** A grouping set without keys, aggregates or input. *)
Definition blankGroupingSet : GroupingSet :=
  {| config :=
       {| preGroupedKeyChannels_ := [];
          groupingKeyOutputProjections_ := [];
          keyChannels_ := [];
          isGlobal_ := true;
          isPartial_ := false;
          isRawInput_ := true;
          aggregates_ := [];
          ignoreNullKeys_ := false;
          globalGroupingSets_ := [];
          groupIdChannel_ := None;
          spillConfig_ := None;
          mayPushdown_ := [];
          sortedAggregations_ := None;
          distinctAggregations_ := [];
          preferredOutputBatchBytes := 0 |};
     inputState :=
       {| numInputRows_ := 0;
          noMoreInput_ := false;
          remainingInput_ := None;
          firstRemainingRow_ := 0%nat;
          remainingMayPushdown_ := false;
          activeRows_ := [] |};
     store :=
       {| hashers_ := [];
          table_ := None;
          lookup_ := None;
          globalAggregationInitialized_ := false;
          globalLayout_ := None;
          globalRow_ := None;
          abandonedPartialAggregation_ := false;
          allSupportToIntermediate_ := false;
          intermediateRows_ := None |};
     spilling :=
       {| inputSpiller_ := None;
          outputSpiller_ := None;
          numDistinctSpillFilesPerPartition_ := [];
          spillPartitionSet_ := [];
          outputSpillPartition_ := -1;
          merge_ := None;
          mergeRows_ := None;
          mergeArgs_ := 0%nat;
          spillResultWithoutAggregates_ := None |};
     pool_ := samplePool;
     calls_ := [] |}.

(** The state a sample run ends in. *)
Definition stateOf (r : Result GroupingSet) : GroupingSet :=
  match r with
  | Ok s => s
  | Err _ => blankGroupingSet
  end.

Definition preGroupedSumState : GroupingSet :=
  stateOf (construct sampleExternals preGroupedSumArgs).

(** [sum(c1) group by c0] after a first batch: the table has a group, and the
    pool has no reservation left to grant. *)
Definition sumByKeyLoaded : GroupingSet :=
  stateOf (s ← construct sampleExternals sumByKeyArgs;
           addInput sampleExternals (batchOf [[Some 1]; [Some 10]]) false s).

(** [sum(c1) group by c0]: a batch, a spill forced by the arbitrator, and a
    second batch that is still in memory. *)
Definition sumByKeySpilledOnce : GroupingSet :=
  stateOf (s ← construct sampleExternals sumByKeyArgs;
           performAll sampleExternals
             [OpAddInput (batchOf [[Some 1; Some 2]; [Some 10; Some 3]]) false;
              OpSpill;
              OpAddInput (batchOf [[Some 1]; [Some 5]]) false] s).

(** [sum(c1) group by c0] after the end of the input, with the output spilled
    by the arbitrator before any row was extracted. *)
Definition sumByKeyOutputSpilled : GroupingSet :=
  stateOf (s ← construct sampleExternals sumByKeyArgs;
           performAll sampleExternals
             [OpAddInput (batchOf [[Some 1; Some 2]; [Some 10; Some 3]]) false;
              OpNoMoreInput;
              OpSpillOutput freshIterator] s).

(** A partial [sum(c1) group by c0] over intermediate input. *)
Definition partialSumArgs : GroupingSetArgs :=
  {| arg_hashers := [{| hasher_channel := 0%N |}];
     arg_preGroupedKeys := [];
     arg_groupingKeyOutputProjections := [];
     arg_aggregates := [sumOfColumn1];
     arg_ignoreNullKeys := false;
     arg_isPartial := true;
     arg_isRawInput := false;
     arg_globalGroupingSets := [];
     arg_groupIdChannel := None;
     arg_spillConfig := None;
     arg_nonReclaimableSection := Some false;
     arg_pool := samplePool;
     arg_preferredOutputBatchBytes := 100 |}.

(** The partial aggregation after a batch, a flush of the table and the
    decision to abandon. *)
Definition partialSumAbandoned : GroupingSet :=
  stateOf (s ← construct sampleExternals partialSumArgs;
           performAll sampleExternals
             [OpAddInput (batchOf [[Some 1; Some 2]; [Some 10; Some 3]]) false;
              OpResetTable true;
              OpAbandonPartialAggregation] s).

Definition countOutput2 : AggregateInfo :=
  {| function := countFunction;
     inputs := [];
     constantInputs := [];
     mask := None;
     distinct := false;
     sortingKeys := [];
     output := 2%nat |}.

Definition sumOutput3 : AggregateInfo :=
  {| function := sumFunction;
     inputs := [2%N];
     constantInputs := [None];
     mask := None;
     distinct := false;
     sortingKeys := [];
     output := 3%nat |}.

(** [count, sum(c2) group by grouping sets ((c0), ())] after the group-id
    node: keys c0 and the group id c1, the global grouping sets 0 and 1. *)
Definition groupingSetsArgs : GroupingSetArgs :=
  {| arg_hashers := [{| hasher_channel := 0%N |}; {| hasher_channel := 1%N |}];
     arg_preGroupedKeys := [];
     arg_groupingKeyOutputProjections := [];
     arg_aggregates := [countOutput2; sumOutput3];
     arg_ignoreNullKeys := false;
     arg_isPartial := false;
     arg_isRawInput := true;
     arg_globalGroupingSets := [0; 1];
     arg_groupIdChannel := Some 1%N;
     arg_spillConfig := None;
     arg_nonReclaimableSection := Some false;
     arg_pool := samplePool;
     arg_preferredOutputBatchBytes := 100 |}.

(** The grouping sets after the end of an empty input. *)
Definition groupingSetsNoInput : GroupingSet :=
  stateOf (s ← construct sampleExternals groupingSetsArgs;
           performAll sampleExternals [OpNoMoreInput] s).


(** [select distinct c0], a final aggregation without aggregates that may
    spill. *)
Definition distinctArgs : GroupingSetArgs :=
  {| arg_hashers := [{| hasher_channel := 0%N |}];
     arg_preGroupedKeys := [];
     arg_groupingKeyOutputProjections := [];
     arg_aggregates := [];
     arg_ignoreNullKeys := false;
     arg_isPartial := false;
     arg_isRawInput := true;
     arg_globalGroupingSets := [];
     arg_groupIdChannel := None;
     arg_spillConfig := Some sampleSpillConfig;
     arg_nonReclaimableSection := Some false;
     arg_pool := samplePool;
     arg_preferredOutputBatchBytes := 100 |}.

(** [select distinct c0]: keys 1 and 2 are spilled as the distinct stream,
    keys 2, 3 and 4 come after the spill, and a first call for no row of
    output opens the merge on the one partition. *)
Definition distinctRecovering : GroupingSet :=
  stateOf (s ← construct sampleExternals distinctArgs;
           performAll sampleExternals
             [OpAddInput (batchOf [[Some 1; Some 2]]) false;
              OpSpill;
              OpAddInput (batchOf [[Some 2; Some 3; Some 4]]) false;
              OpNoMoreInput;
              OpGetOutput 0 1000 freshIterator (emptyResult 1)] s).

(** [sum(c1) group by c0] with a spill, after the end of the input and a
    first call that gave all the groups. *)
Definition sumByKeyDrained : GroupingSet :=
  stateOf (performAll sampleExternals
             [OpNoMoreInput;
              OpGetOutput 10 1000 freshIterator (emptyResult 2)] sumByKeySpilledOnce).

(** The same after a second call, which found the merge at its end. *)
Definition sumByKeyExhausted : GroupingSet :=
  stateOf (performAll sampleExternals
             [OpGetOutput 10 1000 freshIterator (emptyResult 2)] sumByKeyDrained).

(** [sum(c1)] without keys, a final aggregation. *)
Definition globalSumArgs : GroupingSetArgs :=
  {| arg_hashers := [];
     arg_preGroupedKeys := [];
     arg_groupingKeyOutputProjections := [];
     arg_aggregates := [sumOfColumn1];
     arg_ignoreNullKeys := false;
     arg_isPartial := false;
     arg_isRawInput := true;
     arg_globalGroupingSets := [];
     arg_groupIdChannel := None;
     arg_spillConfig := None;
     arg_nonReclaimableSection := Some false;
     arg_pool := samplePool;
     arg_preferredOutputBatchBytes := 100 |}.

(** [sum(c1)] after a batch and the end of the input. *)
Definition globalSumLoaded : GroupingSet :=
  stateOf (s ← construct sampleExternals globalSumArgs;
           performAll sampleExternals
             [OpAddInput (batchOf [[Some 1; Some 2]; [Some 10; Some 3]]) false;
              OpNoMoreInput] s).

(** [sum(c1) group by c0] after two batches and the end of the input, without
    a spill. *)
Definition sumByKeyInMemory : GroupingSet :=
  stateOf (performAll sampleExternals
             [OpAddInput (batchOf [[Some 2]; [Some 3]]) false;
              OpNoMoreInput] sumByKeyLoaded).

(** [sum(c1) group by c0] with a spill, after the end of the input and a
    first call for one group, which opened the merge and gave the group of
    key 1. *)
Definition sumByKeyMerging : GroupingSet :=
  stateOf (performAll sampleExternals
             [OpNoMoreInput;
              OpGetOutput 1 1000 freshIterator (emptyResult 2)] sumByKeySpilledOnce).

(** [count(c1)], written to output column 2. *)
Definition countOfColumn1 : AggregateInfo :=
  {| function := countFunction;
     inputs := [1%N];
     constantInputs := [None];
     mask := None;
     distinct := false;
     sortingKeys := [];
     output := 2%nat |}.

(** [sum(c1), count(c1), sum(c2) group by c0]: column 1 is an input twice. *)
Definition sharedInputArgs : GroupingSetArgs :=
  {| arg_hashers := [{| hasher_channel := 0%N |}];
     arg_preGroupedKeys := [];
     arg_groupingKeyOutputProjections := [];
     arg_aggregates := [sumOfColumn1; countOfColumn1; sumOutput3];
     arg_ignoreNullKeys := false;
     arg_isPartial := false;
     arg_isRawInput := true;
     arg_globalGroupingSets := [];
     arg_groupIdChannel := None;
     arg_spillConfig := None;
     arg_nonReclaimableSection := Some false;
     arg_pool := samplePool;
     arg_preferredOutputBatchBytes := 100 |}.

(** The calls that lead to [sumByKeySpilledOnce]. *)
Definition spillOnceCalls : list Operation :=
  [OpAddInput (batchOf [[Some 1; Some 2]; [Some 10; Some 3]]) false;
   OpSpill;
   OpAddInput (batchOf [[Some 1]; [Some 5]]) false].

(** A partial [sum(c1) group by c0] over raw input, after a batch, a flush of
    the table and the decision to abandon. *)
Definition partialRawSumArgs : GroupingSetArgs :=
  {| arg_hashers := [{| hasher_channel := 0%N |}];
     arg_preGroupedKeys := [];
     arg_groupingKeyOutputProjections := [];
     arg_aggregates := [sumOfColumn1];
     arg_ignoreNullKeys := false;
     arg_isPartial := true;
     arg_isRawInput := true;
     arg_globalGroupingSets := [];
     arg_groupIdChannel := None;
     arg_spillConfig := None;
     arg_nonReclaimableSection := Some false;
     arg_pool := samplePool;
     arg_preferredOutputBatchBytes := 100 |}.

Definition partialRawSumAbandoned : GroupingSet :=
  stateOf (s ← construct sampleExternals partialRawSumArgs;
           performAll sampleExternals
             [OpAddInput (batchOf [[Some 1; Some 2]; [Some 10; Some 3]]) false;
              OpResetTable true;
              OpAbandonPartialAggregation] s).

(** A raw batch of three rows and a result vector of two columns that nothing
    else refers to. *)
Definition rawBatch : RowVectorPtr :=
  {| use_count := 1;
     target := batchOf [[Some 7; Some 8; Some 7]; [Some 1; None; Some 4]] |}.

Definition ownedResult : RowVectorPtr :=
  {| use_count := 1; target := emptyResult 2 |}.

(** What [toIntermediate] gives for [rawBatch] after the abandon. *)
Definition rawBatchConverted : RowVectorPtr * GroupingSet :=
  match toIntermediate rawBatch ownedResult partialRawSumAbandoned with
  | Ok converted => converted
  | Err _ => (ownedResult, partialRawSumAbandoned)
  end.

(** [sum(c1)] without keys: as constructed, and after two batches. *)
Definition globalSumFresh : GroupingSet :=
  stateOf (construct sampleExternals globalSumArgs).

Definition globalSumBatches : list RowVector :=
  [batchOf [[Some 1; Some 2]; [Some 10; Some 3]]; batchOf [[Some 1]; [Some 5]]].

Definition globalSumAdded : GroupingSet :=
  stateOf (performAll sampleExternals
             (map (fun input => OpAddInput input false) globalSumBatches)
             globalSumFresh).




(** * Specification vocabulary *)

(** ** The layout of the global row *)

(** The accumulators of the single global row, in the order of placement. *)
Definition allAccumulators (aggs : list Accumulator) (sorted : option Accumulator)
    (distinct : list (option Accumulator)) : list Accumulator :=
  aggs ++ optionList sorted ++ nonNull distinct.

Definition allOffsets (L : GlobalRowLayout) : list Offsets :=
  aggregateOffsets L ++ sortedOffsets L ++ distinctOffsets L.

(** Every placement starts at the running offset rounded up to the alignment
    of its accumulator, and the running offset then moves past the
    accumulator. *)
Fixpoint placedInTurn (running : Z) (ps : list Offsets) (accs : list Accumulator)
  : Prop :=
  match ps, accs with
  | [], [] => True
  | p :: ps, a :: accs =>
      offset p = bits.roundUp running (alignment a)
      /\ placedInTurn (offset p + fixedWidthSize a) ps accs
  | _, _ => False
  end.

(** An upper bound of the row size; the layout is computed on [int32_t]. *)
Definition layoutBound (accs : list Accumulator) : Z :=
  foldr (fun a n => alignment a + fixedWidthSize a + n) 0 accs.

Definition wellFormedAccumulator (a : Accumulator) : Prop :=
  0 < alignment a /\ 0 <= fixedWidthSize a.

(** ** Construction and input *)

(** The checks of the constructor that do not depend on the aggregates. *)
Definition constructorChecksPass (a : GroupingSetArgs) : bool :=
  isSome (arg_nonReclaimableSection a)
  && trackUsage (arg_pool a)
  && (bool_decide (arg_groupingKeyOutputProjections a = [])
      || (length (arg_groupingKeyOutputProjections a) =? length (arg_hashers a))%nat).

(** The members of the input state other than [activeRows_]. *)
Definition sameInputButActiveRows (a b : InputState) : Prop :=
  numInputRows_ a = numInputRows_ b
  /\ noMoreInput_ a = noMoreInput_ b
  /\ remainingInput_ a = remainingInput_ b
  /\ firstRemainingRow_ a = firstRemainingRow_ b
  /\ remainingMayPushdown_ a = remainingMayPushdown_ b.

(** ** What the members leave alone *)

(** Which spillers exist. *)
Definition spillerRoles (s : GroupingSet) : bool * bool :=
  (isSome (inputSpiller_ (spilling s)), isSome (outputSpiller_ (spilling s))).

(** What every member but [abandonPartialAggregation] leaves alone. *)
Definition steady (s s' : GroupingSet) : Prop :=
  config s' = config s
  /\ abandonedPartialAggregation_ (store s') = abandonedPartialAggregation_ (store s).

(** An empty or missing table. *)
Definition tableIsEmpty (s : GroupingSet) : Prop :=
  match table_ (store s) with
  | Some table => numDistinct table = 0%nat
  | None => True
  end.

(** What reading spilled partitions back leaves alone. *)
Definition mergeFrame (s s' : GroupingSet) : Prop :=
  config s' = config s /\ inputState s' = inputState s /\ store s' = store s
  /\ pool_ s' = pool_ s /\ calls_ s' = calls_ s
  /\ inputSpiller_ (spilling s') = inputSpiller_ (spilling s)
  /\ outputSpiller_ (spilling s') = outputSpiller_ (spilling s)
  /\ numDistinctSpillFilesPerPartition_ (spilling s')
     = numDistinctSpillFilesPerPartition_ (spilling s).

(** What output extraction leaves alone: the configuration, the abandon flag
    and which spillers exist. *)
Definition rolesFrame (s s' : GroupingSet) : Prop :=
  steady s s' /\ spillerRoles s' = spillerRoles s.

(** ** Invariants of the reachable states *)

Definition atMostOneSpiller (s : GroupingSet) : Prop :=
  isSome (inputSpiller_ (spilling s)) && isSome (outputSpiller_ (spilling s)) = false.

(** The states reached without a call of [abandonPartialAggregation]. *)
Inductive reachableBeforeAbandon (ext : Externals) : GroupingSet -> Prop :=
| before_construct (a : GroupingSetArgs) (s : GroupingSet) :
    construct ext a = Ok s -> reachableBeforeAbandon ext s
| before_perform (op : Operation) (s s' : GroupingSet) :
    reachableBeforeAbandon ext s ->
    op <> OpAbandonPartialAggregation ->
    perform ext op s = Ok s' ->
    reachableBeforeAbandon ext s'.

(** The single row must have been allocated when the flag says so. *)
Definition globalRowAllocated (s : GroupingSet) : Prop :=
  globalAggregationInitialized_ (store s) = true -> isSome (globalRow_ (store s)) = true.

(** ** Distinct-only recovery *)

(** The runs of a merged stream, following the words of the specification: a
    run goes on as long as the next row has the key of the current one. *)
Fixpoint runsOf (keyOf : SpillRow -> list Value) (m : list MergeEntry)
  : list (list MergeEntry) :=
  match m with
  | [] => []
  | e :: rest =>
      match runsOf keyOf rest with
      | (e' :: run) :: runs =>
          if bool_decide (keyOf (me_row e) = keyOf (me_row e'))
          then (e :: e' :: run) :: runs
          else [e] :: (e' :: run) :: runs
      | _ => [[e]]
      end
  end.

(** What a run contributes to the output, following the words of the
    specification: nothing when a contributing stream has an id below the
    pre-spill distinct-file count of the partition, and otherwise one
    representative row, the last row of the run. *)
Definition runOutput (numDistinctSpillFiles : nat) (run : list MergeEntry)
  : list SpillRow :=
  if existsb (fun e => (me_stream e <? numDistinctSpillFiles)%nat) run
  then []
  else match last run with
       | Some e => [me_row e]
       | None => []
       end.

(** The rows a partition contributes: the output of its runs, in order. *)
Definition partitionOutput (keyOf : SpillRow -> list Value)
    (numDistinctSpillFiles : nat) (m : list MergeEntry) : list SpillRow :=
  concat (map (runOutput numDistinctSpillFiles) (runsOf keyOf m)).

(** The same inside a run: [newDistinct] tells whether the part of the first
    run that was read already had no row of a distinct stream. *)
Definition partitionOutputFrom (keyOf : SpillRow -> list Value)
    (numDistinctSpillFiles : nat) (newDistinct : bool) (m : list MergeEntry)
  : list SpillRow :=
  match runsOf keyOf m with
  | [] => []
  | run :: runs =>
      (if newDistinct then runOutput numDistinctSpillFiles run else [])
      ++ concat (map (runOutput numDistinctSpillFiles) runs)
  end.

Definition countFor (s : GroupingSet) (partition : nat) : nat :=
  default 0%nat (numDistinctSpillFilesPerPartition_ (spilling s) !! partition).

Definition readerOf (ext : Externals) (s : GroupingSet) (files : list SpillFile)
  : MergeReader :=
  createOrderedReader (fun a b => ext_keyLe ext (spillKey s a) (spillKey s b)) files.

(** The rows the partitions that are not open yet contribute. *)
Definition laterOutput (ext : Externals) (s : GroupingSet)
    (partitions : list (nat * list SpillFile)) : list SpillRow :=
  concat (map (fun '(partition, files) =>
                 partitionOutput (spillKey s) (countFor s partition) (readerOf ext s files))
              partitions).

(** The rows still to come out of the merge: those of the rest of the open
    partition, then those of the partitions that follow. *)
Definition pendingFrom (ext : Externals) (s : GroupingSet) (newDistinct : bool)
  : list SpillRow :=
  partitionOutputFrom (spillKey s)
    (countFor s (Z.to_nat (outputSpillPartition_ (spilling s)))) newDistinct
    (default [] (merge_ (spilling s)))
  ++ laterOutput ext s (spillPartitionSet_ (spilling s)).

Definition pendingRows (ext : Externals) (s : GroupingSet) : list SpillRow :=
  pendingFrom ext s true.

(** The partitions that follow can be opened in turn: each has a number other
    than the one open before it, and a pre-spill distinct-file count. *)
Fixpoint partitionsOk (counts : list nat) (current : Z)
    (partitions : list (nat * list SpillFile)) : Prop :=
  match partitions with
  | [] => True
  | (partition, _) :: rest =>
      current <> Z.of_nat partition
      /\ is_Some (counts !! partition)
      /\ partitionsOk counts (Z.of_nat partition) rest
  end.

(** A merge is under way: a reader is open on a partition. *)
Definition mergeReady (s : GroupingSet) : Prop :=
  exists (m : MergeReader) (partition : nat),
    merge_ (spilling s) = Some m
    /\ outputSpillPartition_ (spilling s) = Z.of_nat partition
    /\ is_Some (numDistinctSpillFilesPerPartition_ (spilling s) !! partition)
    /\ partitionsOk (numDistinctSpillFilesPerPartition_ (spilling s))
         (Z.of_nat partition) (spillPartitionSet_ (spilling s)).

(** The merge is over: every partition was read to its end. *)
Definition mergeFinished (s : GroupingSet) : Prop :=
  merge_ (spilling s) = None
  /\ spillPartitionSet_ (spilling s) = []
  /\ outputSpillPartition_ (spilling s) <> -1.

(** The runs still to come, each with the pre-spill distinct-file count of
    its partition. *)
Definition pendingRuns (ext : Externals) (s : GroupingSet)
  : list (nat * list MergeEntry) :=
  map (pair (countFor s (Z.to_nat (outputSpillPartition_ (spilling s)))))
      (runsOf (spillKey s) (default [] (merge_ (spilling s))))
  ++ concat (map (fun '(partition, files) =>
                    map (pair (countFor s partition))
                        (runsOf (spillKey s) (readerOf ext s files)))
                 (spillPartitionSet_ (spilling s))).

(** The key of a run is the key of its first row. *)
Definition runKey (keyOf : SpillRow -> list Value) (run : list MergeEntry)
  : option (list Value) :=
  (fun e => keyOf (me_row e)) <$> head run.

(** The runs have keys of their own: a reader gives its rows in key order,
    and the partition of a row is a function of its key. *)
Definition distinctRunKeys (ext : Externals) (s : GroupingSet) : Prop :=
  NoDup (map (fun r => runKey (spillKey s) r.2) (pendingRuns ext s)).

(** A run is not empty and its rows have one key. *)
Definition isRun (keyOf : SpillRow -> list Value) (run : list MergeEntry) : Prop :=
  run <> []
  /\ forall x y, x ∈ run -> y ∈ run -> keyOf (me_row x) = keyOf (me_row y).

(** What [mergeNextWithoutAggregates] checks before it reads a row. *)
Definition distinctRecovery (s : GroupingSet) (result : RowVector) : Prop :=
  isDistinct s = true
  /\ outputSpiller_ (spilling s) = None
  /\ is_Some (inputSpiller_ (spilling s))
  /\ (exists spillConfig,
        spillConfig_ (config s) = Some spillConfig
        /\ length (numDistinctSpillFilesPerPartition_ (spilling s))
           = maxPartitionsOf spillConfig)
  /\ (spillResultWithoutAggregates_ (spilling s) = None ->
      is_Some (table_ (store s))
      /\ length (keyChannels_ (config s)) = length (rv_children result)).

(** ** The end of the output *)

(** The spiller whose partitions [getOutputWithSpill] reads. *)
Definition activeSpiller (s : GroupingSet) : option Spiller :=
  match inputSpiller_ (spilling s) with
  | Some spiller => Some spiller
  | None => outputSpiller_ (spilling s)
  end.

(** The spill was finished and left no partition to read. *)
Definition nothingToMerge (s : GroupingSet) : Prop :=
  outputSpillPartition_ (spilling s) = -1
  /\ merge_ (spilling s) = None
  /\ spillPartitionSet_ (spilling s) = []
  /\ table_ (store s) = Some {| ht_rows := [] |}
  /\ (isDistinct s = false -> isSome (mergeRows_ (spilling s)) = true)
  /\ exists spiller partitions,
       activeSpiller s = Some spiller
       /\ finishSpill spiller = (spiller, partitions)
       /\ removeEmptyPartitions partitions = [].

(** ** Construction: the use of the input channels *)

(** How often [channel] is an input of the aggregates, repeats counted. *)
Definition channelUses (aggregates : list AggregateInfo) (channel : column_index_t)
  : nat :=
  length (filter (fun c => c = channel) (concat (map inputs aggregates))).

(** ** Construction: the shape of the configuration *)

(** The vectors the constructor builds have one entry per key or per
    aggregate, as the loops over [aggregates_] and over the keys assume. *)
Definition wellShaped (c : Config) : Prop :=
  isGlobal_ c = bool_decide (keyChannels_ c = [])
  /\ length (groupingKeyOutputProjections_ c) = length (keyChannels_ c)
  /\ length (mayPushdown_ c) = length (aggregates_ c)
  /\ map isSome (distinctAggregations_ c) = map distinct (aggregates_ c)
  /\ (isPartial_ c = true ->
      sortedAggregations_ c = None
      /\ Forall (fun aggregate => distinct aggregate = false) (aggregates_ c)).

(** ** Global aggregation *)

(** What a grouping set without keys never has: a table, a spiller, deferred
    input or counted input rows. *)
Definition globalOnly (s : GroupingSet) : Prop :=
  table_ (store s) = None
  /\ inputSpiller_ (spilling s) = None
  /\ outputSpiller_ (spilling s) = None
  /\ remainingInput_ (inputState s) = None
  /\ numInputRows_ (inputState s) = 0.

(** ** Counting the input *)

(** The rows of the batches a sequence of calls passes to [addInput]. *)
Definition batchRows (ops : list Operation) : Z :=
  foldr (fun op n =>
           match op with
           | OpAddInput input _ => Z.of_nat (rv_size input) + n
           | _ => n
           end) 0 ops.

(** ** Draining the table *)

(** Successive calls of [getOutput] give the batches in turn, each with at
    least one group and at most [maxOutputRows], and then return false and
    clear the table. *)
Fixpoint emits (ext : Externals) (maxOutputRows maxOutputBytes : Z)
    (batches : list (list Group)) (iterator : RowContainerIterator) (s : GroupingSet)
  : Prop :=
  match batches with
  | [] =>
      exists table,
        table_ (store s) = Some table
        /\ forall result,
             getOutput ext maxOutputRows maxOutputBytes iterator result s
             = Ok (false, iterator, result,
                   withStore (set_table_ (Some (clearTable table))) s)
  | groups :: rest =>
      let iterator' :=
        {| allocationIndex := allocationIndex iterator;
           rowNumber := rowNumber iterator + length groups |} in
      groups <> []
      /\ Z.of_nat (length groups) <= maxOutputRows
      /\ (forall result,
            getOutput ext maxOutputRows maxOutputBytes iterator result s
            = Ok (true, iterator',
                  extractGroups s (length (keyChannels_ (config s))) groups result, s))
      /\ emits ext maxOutputRows maxOutputBytes rest iterator' s
  end.

(** ** Recovery with aggregates *)

(** The group a run of equal keys merges into: the row [initializeRow] makes
    of the first row of the run, updated with every row of the run in turn. *)
Definition mergedGroup (s : GroupingSet) (run : list MergeEntry) : list Group :=
  match run with
  | [] => []
  | e :: _ => [foldl (fun g x => updateRow s x g) (initializeRow s e) run]
  end.

(** The groups of a partition: one per run of its reader. *)
Definition partitionGroups (s : GroupingSet) (m : MergeReader) : list Group :=
  concat (map (mergedGroup s) (runsOf (spillKey s) m)).

(** The same inside a call: [rows] are the groups merged so far, and
    [nextKeyIsEqual] tells that the last of them is still being merged. *)
Definition groupsFrom (s : GroupingSet) (nextKeyIsEqual : bool) (rows : list Group)
    (m : MergeReader) : list Group :=
  match runsOf (spillKey s) m with
  | [] => rows
  | run :: runs =>
      (if nextKeyIsEqual
       then alter (fun g => foldl (fun g x => updateRow s x g) g run)
                  (length rows - 1)%nat rows
       else rows ++ mergedGroup s run)
      ++ concat (map (mergedGroup s) runs)
  end.

Definition laterGroups (ext : Externals) (s : GroupingSet)
    (partitions : list (nat * list SpillFile)) : list Group :=
  concat (map (fun '(_, files) => partitionGroups s (readerOf ext s files)) partitions).

(** The groups still to come out of the merge. *)
Definition pendingGroups (ext : Externals) (s : GroupingSet) : list Group :=
  partitionGroups s (default [] (merge_ (spilling s)))
  ++ laterGroups ext s (spillPartitionSet_ (spilling s)).

(** Each partition that follows has a number other than the one before it. *)
Fixpoint partitionsDiffer (current : Z) (partitions : list (nat * list SpillFile))
  : Prop :=
  match partitions with
  | [] => True
  | (partition, _) :: rest =>
      current <> Z.of_nat partition /\ partitionsDiffer (Z.of_nat partition) rest
  end.

(** A reader is open on a partition and no group is half merged. *)
Definition mergeOpen (s : GroupingSet) : Prop :=
  exists (m : MergeReader) (partition : nat),
    merge_ (spilling s) = Some m
    /\ outputSpillPartition_ (spilling s) = Z.of_nat partition
    /\ partitionsDiffer (Z.of_nat partition) (spillPartitionSet_ (spilling s)).

(** The number of rows and of columns of a row vector. *)
Definition shapeOf (r : RowVector) : nat * nat := (rv_size r, length (rv_children r)).

(** ** The columns of the accumulators *)

(** The accumulator an owner brings. *)
Definition ownerAccumulator (s : GroupingSet) (owner : AccumulatorOwner)
  : option Accumulator :=
  match owner with
  | OwnedByAggregate i =>
      (fun a => fn_accumulator (function a)) <$> aggregates_ (config s) !! i
  | OwnedBySorted => ad_accumulator <$> sortedAggregations_ (config s)
  | OwnedByDistinct i => ad_accumulator <$> mjoin (distinctAggregations_ (config s) !! i)
  end.

(** The accumulator slot the members use for an owner. *)
Definition slotOf (s : GroupingSet) (owner : AccumulatorOwner) : nat :=
  match owner with
  | OwnedByAggregate i => i
  | OwnedBySorted => sortedSlot s
  | OwnedByDistinct i => distinctSlot s i
  end.

(** Position [k] of the list is column [numKeys + k]. *)
Definition columnsFrom (numKeys : nat) (owners : list AccumulatorOwner)
  : list (AccumulatorOwner * nat) :=
  imap (fun k owner => (owner, (numKeys + k)%nat)) owners.

(** ** Global aggregation, batch by batch *)

(** Accumulator [i] of the single row, as the next call finds it. *)
Definition globalAccumulator (s : GroupingSet) (i : nat) : option AccumulatorState :=
  match globalRow_ (store (initializeGlobalAggregation s)) with
  | Some group => g_accumulators group !! i
  | None => None
  end.

(** The rows of a batch that aggregate [i] of a global aggregation is given. *)
Definition globalRowsOf (s : GroupingSet) (input : RowVector) (i : nat) : list nat :=
  selectedRows
    (getSelectivityVector
       (withInput (set_activeRows_ (allSelected (rv_size input))) s) input i).

(** One batch added to an accumulator of [aggregate], row by row. *)
Definition accumulateBatch (s : GroupingSet) (i : nat) (aggregate : AggregateInfo)
    (state : AccumulatorState) (input : RowVector) : AccumulatorState :=
  foldl (fun state row =>
           if isRawInput_ (config s)
           then fn_addRawInput (function aggregate) state (tempValues aggregate input row)
           else fn_addIntermediateResults (function aggregate) state
                  (tempValues aggregate input row))
        state (globalRowsOf s input i).

(** ** What the extraction writes *)

(** A grouping set without a sorted and without a distinct adapter. *)
Definition withoutAdapters (s : GroupingSet) : Prop :=
  sortedAggregations_ (config s) = None
  /\ Forall (fun aggregation => aggregation = None) (distinctAggregations_ (config s)).

(** ** The end of the input *)


(** When [ensureOutputFits] returns before it asks for memory. *)
Definition noReservationNeeded (s : GroupingSet) : Prop :=
  isPartial_ (config s) = true
  \/ spillConfig_ (config s) = None
  \/ isSome (activeSpiller s) = true
  \/ tableIsEmpty s.
(** * Properties *)

(** ** Arithmetic of the row layout *)

Lemma int32_id (z : Z) : - 2 ^ 31 <= z <= INT32_MAX -> int32 z = z.
Proof.
  unfold int32, INT32_MAX. intros H.
  rewrite Z.mod_small by lia. lia.
Qed.

Lemma roundUp_bounds (v f : Z) :
  0 <= v -> 0 < f -> v <= bits.roundUp v f < v + f.
Proof.
  intros Hv Hf. unfold bits.roundUp.
  rewrite Z.quot_div_nonneg by lia.
  pose proof (Z.div_mod (v + (f - 1)) f ltac:(lia)) as Hdm.
  pose proof (Z.mod_pos_bound (v + (f - 1)) f Hf) as Hm.
  nia.
Qed.

Lemma roundUp_multiple (v f : Z) :
  0 < f -> (bits.roundUp v f) mod f = 0.
Proof.
  intros Hf. unfold bits.roundUp. apply Z.mod_mul. lia.
Qed.

Lemma nbytes_covers (n : Z) : 0 <= n -> n <= 8 * bits.nbytes n < n + 8.
Proof.
  intros Hn. unfold bits.nbytes.
  pose proof (roundUp_bounds n 8 Hn ltac:(lia)) as Hb.
  pose proof (roundUp_multiple n 8 ltac:(lia)) as Hm.
  rewrite Z.quot_div_nonneg by lia.
  pose proof (Z.div_mod (bits.roundUp n 8) 8 ltac:(lia)) as Hdm.
  lia.
Qed.

Lemma placeAll_app (rso : Z) (xs ys : list Accumulator) (c : LayoutCursor) :
  placeAll rso (xs ++ ys) c =
  let '(o1, c1) := placeAll rso xs c in
  let '(o2, c2) := placeAll rso ys c1 in
  (o1 ++ o2, c2).
Proof.
  revert c. induction xs as [|x xs IH]; intros c; simpl.
  - destruct (placeAll rso ys c); reflexivity.
  - rewrite IH.
    destruct (placeAll rso xs _) as [o1 c1].
    destruct (placeAll rso ys c1) as [o2 c2]. reflexivity.
Qed.

Lemma layoutBound_nonneg (accs : list Accumulator) :
  Forall wellFormedAccumulator accs -> 0 <= layoutBound accs.
Proof.
  induction 1 as [|a accs [Ha Hs] _ IH]; simpl; lia.
Qed.

Lemma placeAccumulator_spec (rso : Z) (a : Accumulator) (c : LayoutCursor) :
  wellFormedAccumulator a ->
  0 <= cur_offset c ->
  cur_offset c + alignment a + fixedWidthSize a <= INT32_MAX ->
  0 <= cur_accumulatorFlagsOffset c ->
  cur_accumulatorFlagsOffset c + 2 <= INT32_MAX ->
  let p := (placeAccumulator rso a c).1 in
  let c1 := (placeAccumulator rso a c).2 in
  offset p = bits.roundUp (cur_offset c) (alignment a)
  /\ cur_offset c1 = offset p + fixedWidthSize a
  /\ cur_accumulatorFlagsOffset c1 = cur_accumulatorFlagsOffset c + 2
  /\ cur_alignment c1 = Z.max (alignment a) (cur_alignment c)
  /\ rowSizeOffset p = rso
  /\ nullByte p = Z.quot (cur_accumulatorFlagsOffset c) 8
  /\ initializedByte p = Z.quot (cur_accumulatorFlagsOffset c + 1) 8.
Proof.
  intros [Hal Hsz] Hoff Hbound Hfl Hflb.
  pose proof (roundUp_bounds (cur_offset c) (alignment a) Hoff Hal) as Hru.
  unfold placeAccumulator; cbn [fst snd offset rowSizeOffset nullByte initializedByte
    cur_offset cur_accumulatorFlagsOffset cur_alignment].
  rewrite (int32_id (bits.roundUp _ _)) by (unfold INT32_MAX in *; lia).
  rewrite (int32_id (bits.roundUp _ _ + _)) by (unfold INT32_MAX in *; lia).
  unfold RowContainerFlags.kNumAccumulatorFlags.
  rewrite (int32_id (_ + 2)) by (unfold INT32_MAX in *; lia).
  repeat split.
Qed.

Lemma placeAll_spec (rso : Z) (accs : list Accumulator) :
  forall c : LayoutCursor,
    Forall wellFormedAccumulator accs ->
    0 <= cur_offset c ->
    cur_offset c + layoutBound accs <= INT32_MAX ->
    0 <= cur_accumulatorFlagsOffset c ->
    cur_accumulatorFlagsOffset c + 2 * Z.of_nat (length accs) <= INT32_MAX ->
    placedInTurn (cur_offset c) (placeAll rso accs c).1 accs
    /\ cur_offset c <= cur_offset (placeAll rso accs c).2 <= cur_offset c + layoutBound accs
    /\ cur_alignment (placeAll rso accs c).2
       = foldl (fun m a => Z.max (alignment a) m) (cur_alignment c) accs
    /\ (forall k p, (placeAll rso accs c).1 !! k = Some p ->
          rowSizeOffset p = rso
          /\ nullByte p = Z.quot (cur_accumulatorFlagsOffset c + 2 * Z.of_nat k) 8
          /\ initializedByte p
             = Z.quot (cur_accumulatorFlagsOffset c + 2 * Z.of_nat k + 1) 8)
    /\ (forall k p a, (placeAll rso accs c).1 !! k = Some p -> accs !! k = Some a ->
          cur_offset c <= offset p
          /\ offset p + fixedWidthSize a <= cur_offset (placeAll rso accs c).2).
Proof.
  induction accs as [|a accs IH]; intros c Hwf Hoff Hbound Hfl Hflb.
  - simpl. repeat split; try lia; intros; rewrite ?lookup_nil in *; discriminate.
  - apply Forall_cons in Hwf as [Ha Hwf].
    pose proof (layoutBound_nonneg accs Hwf) as Hnn.
    assert (Hlen : Z.of_nat (length (a :: accs)) = Z.of_nat (length accs) + 1)
      by (simpl length; lia).
    rewrite Hlen in Hflb. cbn [layoutBound foldr] in Hbound. fold (layoutBound accs) in Hbound.
    pose proof (placeAccumulator_spec rso a c Ha Hoff ltac:(lia) Hfl ltac:(lia)) as Hp.
    cbn [placeAll].
    destruct (placeAccumulator rso a c) as [p c1].
    cbn [fst snd] in Hp. destruct Hp as (Hpo & Hc1o & Hc1f & Hc1a & Hprso & Hpn & Hpi).
    destruct Ha as [Hal Hsz].
    pose proof (roundUp_bounds (cur_offset c) (alignment a) Hoff Hal) as Hru.
    specialize (IH c1 Hwf ltac:(lia) ltac:(lia) ltac:(lia) ltac:(lia)).
    destruct (placeAll rso accs c1) as [os c2].
    cbn [fst snd] in *. destruct IH as (Hturn & Hend & Halign & Hflags & Hin).
    split; [|split; [|split; [|split]]].
    + cbn [placedInTurn]. split; [exact Hpo|]. rewrite <- Hc1o. exact Hturn.
    + cbn [layoutBound foldr]. fold (layoutBound accs). lia.
    + cbn [foldl]. rewrite Halign, Hc1a. reflexivity.
    + intros [|k] q Hq; cbn in Hq.
      * injection Hq as <-. rewrite Hprso, Hpn, Hpi.
        repeat split; f_equal; lia.
      * destruct (Hflags k q Hq) as (Hr & Hn & Hi). rewrite Hr, Hn, Hi, Hc1f.
        repeat split; f_equal; lia.
    + intros [|k] q b Hq Hb; cbn in Hq, Hb.
      * injection Hq as <-. injection Hb as <-. lia.
      * destruct (Hin k q b Hq Hb). lia.
Qed.

Lemma placedInTurn_ordered (accs : list Accumulator) :
  forall (ps : list Offsets) (running : Z),
    Forall wellFormedAccumulator accs ->
    0 <= running ->
    placedInTurn running ps accs ->
    (forall k p a, ps !! k = Some p -> accs !! k = Some a ->
       running <= offset p /\ (offset p) mod (alignment a) = 0)
    /\ (forall i j p q a, (i < j)%nat ->
          ps !! i = Some p -> accs !! i = Some a -> ps !! j = Some q ->
          offset p + fixedWidthSize a <= offset q).
Proof.
  induction accs as [|a accs IH]; intros [|p ps] running Hwf Hrun Hturn;
    cbn [placedInTurn] in Hturn; try contradiction.
  - split; intros; rewrite lookup_nil in *; discriminate.
  - destruct Hturn as [Hp Hturn].
    apply Forall_cons in Hwf as [[Hal Hsz] Hwf].
    pose proof (roundUp_bounds running (alignment a) Hrun Hal) as Hru.
    destruct (IH ps (offset p + fixedWidthSize a) Hwf ltac:(lia) Hturn) as [Hin Hord].
    split.
    + intros [|k] q b Hq Hb; cbn in Hq, Hb.
      * injection Hq as <-. injection Hb as <-. split; [lia|].
        rewrite Hp. apply roundUp_multiple. exact Hal.
      * destruct (Hin k q b Hq Hb) as [Hge Hmod]. split; [lia|exact Hmod].
    + intros [|i] [|j] q1 q2 b Hij Hq1 Hb Hq2; try lia; cbn in Hq1, Hb, Hq2.
      * injection Hq1 as <-. injection Hb as <-.
        assert (Hsome : is_Some (accs !! j)).
        { apply lookup_lt_is_Some.
          assert (Hl : length ps = length accs).
          { clear -Hturn. revert ps Hturn. generalize (offset p + fixedWidthSize a).
            induction accs as [|x accs IHa]; intros z [|y ps] Ht; cbn in Ht;
              try contradiction; [reflexivity|].
            cbn. f_equal. eapply IHa. apply Ht. }
          rewrite <- Hl. eapply lookup_lt_Some. exact Hq2. }
        destruct Hsome as [b' Hb'].
        destruct (Hin j q2 b' Hq2 Hb'). lia.
      * eapply (Hord i j); eauto. lia.
Qed.

Lemma foldl_max_alignment (accs : list Accumulator) :
  forall m : Z,
    let r := foldl (fun m a => Z.max (alignment a) m) m accs in
    m <= r
    /\ (forall a, a ∈ accs -> alignment a <= r)
    /\ (r = m \/ exists a, a ∈ accs /\ r = alignment a).
Proof.
  induction accs as [|x accs IH]; intros m; cbn.
  - split; [lia|]. split; [intros a Ha; inversion Ha | left; reflexivity].
  - destruct (IH (Z.max (alignment x) m)) as (Hle & Hall & Hex).
    split; [lia|]. split.
    + intros a Ha. apply elem_of_cons in Ha as [->|Ha]; [lia|]. apply Hall, Ha.
    + destruct Hex as [Heq|[a [Ha Heq]]].
      * destruct (Z.max_spec (alignment x) m) as [[_ Hm]|[_ Hm]].
        -- left. lia.
        -- right. exists x. split; [left|lia].
      * right. exists a. split; [right; exact Ha|exact Heq].
Qed.

(** The three placement loops of [initializeGlobalAggregation] are one pass
    over the accumulators in placement order. *)
Lemma globalRowLayout_one_pass (aggs : list Accumulator) (sorted : option Accumulator)
    (distinct : list (option Accumulator)) :
  let accs := allAccumulators aggs sorted distinct in
  let rso :=
    int32 (bits.nbytes (Z.of_nat (length accs) * RowContainerFlags.kNumAccumulatorFlags)) in
  let c0 := {| cur_offset := int32 (rso + 4);
               cur_accumulatorFlagsOffset := 0;
               cur_alignment := 1 |} in
  let L := globalRowLayout aggs sorted distinct in
  allOffsets L = (placeAll rso accs c0).1
  /\ rowSize L = cur_offset (placeAll rso accs c0).2
  /\ rowAlignment L = cur_alignment (placeAll rso accs c0).2.
Proof.
  intros accs rso c0 L. subst L c0 rso accs.
  unfold globalRowLayout, allAccumulators, allOffsets.
  assert (Hlen :
    Z.of_nat (length aggs) + Z.of_nat (length (optionList sorted))
    + Z.of_nat (length (nonNull distinct))
    = Z.of_nat (length (aggs ++ optionList sorted ++ nonNull distinct))).
  { rewrite !length_app. lia. }
  rewrite Hlen.
  generalize (int32 (bits.nbytes
    (Z.of_nat (length (aggs ++ optionList sorted ++ nonNull distinct))
     * RowContainerFlags.kNumAccumulatorFlags))).
  intros rso. generalize {| cur_offset := int32 (rso + 4);
                            cur_accumulatorFlagsOffset := 0;
                            cur_alignment := 1 |}.
  intros c0. rewrite placeAll_app.
  destruct (placeAll rso aggs c0) as [o1 c1].
  rewrite placeAll_app.
  destruct (placeAll rso (optionList sorted) c1) as [o2 c2].
  destruct (placeAll rso (nonNull distinct) c2) as [o3 c3].
  cbn. repeat split.
Qed.

(** C8: the accumulator layout of the single global row computed by
    [initializeGlobalAggregation]. (1) Every accumulator, the sorted and
    distinct pseudo-accumulators included, is placed at the running offset
    rounded up to its alignment, so its offset is a multiple of its
    alignment. (2) The byte range of an accumulator lies after the flag bytes
    and the 4-byte row-size field and inside the row, its two flag bits lie
    in the flag bytes before the row-size field, and the byte ranges of two
    accumulators do not overlap. (3) The alignment of the row is the maximum
    of the alignments of the accumulators (1 for a row without
    accumulators). The layout is computed on [int32_t]; the row is assumed
    to fit. *)
Theorem C8_global_row_layout (aggs : list Accumulator) (sorted : option Accumulator)
    (distinct : list (option Accumulator)) :
  let accs := allAccumulators aggs sorted distinct in
  let L := globalRowLayout aggs sorted distinct in
  let flagBytes := bits.nbytes (2 * Z.of_nat (length accs)) in
  Forall wellFormedAccumulator accs ->
  2 * Z.of_nat (length accs) <= INT32_MAX ->
  flagBytes + 4 + layoutBound accs <= INT32_MAX ->
  placedInTurn (flagBytes + 4) (allOffsets L) accs
  /\ (forall k p a, allOffsets L !! k = Some p -> accs !! k = Some a ->
        (offset p) mod (alignment a) = 0
        /\ rowSizeOffset p = flagBytes
        /\ 0 <= nullByte p < rowSizeOffset p
        /\ 0 <= initializedByte p < rowSizeOffset p
        /\ rowSizeOffset p + 4 <= offset p
        /\ offset p + fixedWidthSize a <= rowSize L)
  /\ (forall i j p q a, (i < j)%nat ->
        allOffsets L !! i = Some p -> accs !! i = Some a ->
        allOffsets L !! j = Some q ->
        offset p + fixedWidthSize a <= offset q)
  /\ (forall a, a ∈ accs -> alignment a <= rowAlignment L)
  /\ (rowAlignment L = 1 \/ exists a, a ∈ accs /\ rowAlignment L = alignment a).
Proof.
  intros accs L flagBytes Hwf Hflagsfit Hbound.
  destruct (globalRowLayout_one_pass aggs sorted distinct) as (Hoffs & Hsize & Halign).
  fold accs in Hoffs, Hsize, Halign. fold L in Hoffs, Hsize, Halign.
  pose proof (layoutBound_nonneg accs Hwf) as Hnn.
  pose proof (nbytes_covers (2 * Z.of_nat (length accs)) ltac:(lia)) as Hnb.
  fold flagBytes in Hnb.
  assert (Hrso :
    int32 (bits.nbytes (Z.of_nat (length accs) * RowContainerFlags.kNumAccumulatorFlags))
    = flagBytes).
  { unfold RowContainerFlags.kNumAccumulatorFlags.
    replace (Z.of_nat (length accs) * 2) with (2 * Z.of_nat (length accs)) by lia.
    fold flagBytes. apply int32_id. unfold INT32_MAX in *. lia. }
  rewrite Hrso in Hoffs, Hsize, Halign.
  assert (Hc0 : int32 (flagBytes + 4) = flagBytes + 4).
  { apply int32_id. unfold INT32_MAX in *. lia. }
  rewrite Hc0 in Hoffs, Hsize, Halign.
  set (c0 := {| cur_offset := flagBytes + 4;
                cur_accumulatorFlagsOffset := 0;
                cur_alignment := 1 |}) in *.
  destruct (placeAll_spec flagBytes accs c0 Hwf) as (Hturn & Hend & Hal & Hflags & Hin);
    cbn [c0 cur_offset cur_accumulatorFlagsOffset];
    try (unfold INT32_MAX in *; lia).
  rewrite <- Hoffs in Hturn, Hflags, Hin. rewrite <- Hsize in Hend, Hin.
  rewrite <- Halign in Hal. cbn [c0 cur_offset cur_accumulatorFlagsOffset cur_alignment] in *.
  destruct (placedInTurn_ordered accs (allOffsets L) (flagBytes + 4) Hwf ltac:(lia) Hturn)
    as [Hmod Hord].
  destruct (foldl_max_alignment accs 1) as (_ & Hmax & Hex).
  cbn zeta in Hmax, Hex. rewrite <- Hal in Hmax, Hex.
  split; [exact Hturn|]. split; [|split; [exact Hord|split; [exact Hmax|exact Hex]]].
  intros k p a Hp Ha.
  destruct (Hmod k p a Hp Ha) as [Hge Hm].
  destruct (Hflags k p Hp) as (Hr & Hn & Hi).
  destruct (Hin k p a Hp Ha) as [_ Hle].
  pose proof (lookup_lt_Some _ _ _ Ha) as Hk.
  rewrite Hr, Hn, Hi.
  rewrite !Z.quot_div_nonneg by lia.
  repeat split; try lia.
  - apply Z.div_pos; lia.
  - apply Z.div_lt_upper_bound; lia.
  - apply Z.div_pos; lia.
  - apply Z.div_lt_upper_bound; lia.
Qed.

(** ** Construction *)

Lemma createDistinctAggregations_final (ext : Externals) (aggregates : list AggregateInfo) :
  createDistinctAggregations ext false aggregates
  = Ok (map (fun a => if distinct a then Some (ext_distinctAggregations ext a) else None)
            aggregates).
Proof.
  induction aggregates as [|a rest IH]; cbn [createDistinctAggregations map].
  - reflexivity.
  - rewrite IH. destruct (distinct a); reflexivity.
Qed.

Lemma createDistinctAggregations_partial (ext : Externals) (aggregates : list AggregateInfo) :
  createDistinctAggregations ext true aggregates
  = if existsb distinct aggregates
    then Err (VeloxUserError "Partial aggregations over distinct inputs are not supported")
    else Ok (map (fun _ => None) aggregates).
Proof.
  induction aggregates as [|a rest IH]; cbn [createDistinctAggregations map existsb].
  - reflexivity.
  - destruct (distinct a) eqn:Hd; cbn.
    + reflexivity.
    + rewrite IH. destruct (existsb distinct rest); reflexivity.
Qed.

Lemma SortedAggregations_create_some (ext : Externals) (aggregates : list AggregateInfo) :
  isSome (SortedAggregations_create ext aggregates) = existsb isSorted aggregates.
Proof.
  unfold SortedAggregations_create. destruct (existsb isSorted aggregates); reflexivity.
Qed.

(** The constructor, once the checks that do not depend on the aggregates
    pass: only a partial aggregation is checked against sorted and distinct
    aggregates. *)
Lemma construct_checked (ext : Externals) (a : GroupingSetArgs) :
  constructorChecksPass a = true ->
  (arg_isPartial a = true ->
   construct ext a
   = if existsb isSorted (arg_aggregates a)
     then Err (VeloxUserError "Partial aggregations over sorted inputs are not supported")
     else if existsb distinct (arg_aggregates a)
     then Err (VeloxUserError "Partial aggregations over distinct inputs are not supported")
     else construct ext a)
  /\ (arg_isPartial a = false -> exists s, construct ext a = Ok s).
Proof.
  unfold constructorChecksPass. intros Hc.
  apply andb_true_iff in Hc as [Hc Hproj]. apply andb_true_iff in Hc as [Hnr Htrack].
  unfold construct. rewrite Hnr, Htrack. cbn [VELOX_CHECK mbind result_bind].
  rewrite length_map.
  assert (Hp : exists projections,
    (if bool_decide (arg_groupingKeyOutputProjections a = [])
     then Ok (iota (length (arg_hashers a)))
     else
       VELOX_CHECK
         (length (arg_groupingKeyOutputProjections a) =? length (arg_hashers a))%nat
         "groupingKeyOutputProjections_.size() == keyChannels_.size()"
       ≫= λ _ : (), Ok (arg_groupingKeyOutputProjections a))
    = Ok projections).
  { destruct (bool_decide (arg_groupingKeyOutputProjections a = [])); [eauto|].
    cbn in Hproj. rewrite Hproj. cbn. eauto. }
  destruct Hp as [projections ->]. cbn [mbind result_bind].
  split; intros Hpartial; rewrite Hpartial.
  - pose proof (SortedAggregations_create_some ext (arg_aggregates a)) as Hs.
    destruct (existsb isSorted (arg_aggregates a)).
    + destruct (SortedAggregations_create ext (arg_aggregates a)); [|discriminate].
      reflexivity.
    + destruct (SortedAggregations_create ext (arg_aggregates a)); [discriminate|].
      cbn. rewrite createDistinctAggregations_partial.
      destruct (existsb distinct (arg_aggregates a)); reflexivity.
  - cbn. rewrite createDistinctAggregations_final. cbn. eauto.
Qed.

Lemma construct_unchecked (ext : Externals) (a : GroupingSetArgs) :
  constructorChecksPass a = false ->
  exists check, construct ext a = Err (VeloxRuntimeError check).
Proof.
  unfold constructorChecksPass, construct. intros Hc.
  destruct (isSome (arg_nonReclaimableSection a)); cbn; [|eauto].
  destruct (trackUsage (arg_pool a)); cbn; [|eauto].
  cbn in Hc. apply orb_false_iff in Hc as [Hnil Hlen].
  rewrite Hnil, length_map, Hlen. cbn. eauto.
Qed.

Lemma existsb_sorted_or_distinct (aggregates : list AggregateInfo) :
  (exists aggregate, aggregate ∈ aggregates
     /\ (sortingKeys aggregate <> [] \/ distinct aggregate = true)) ->
  existsb isSorted aggregates = true \/ existsb distinct aggregates = true.
Proof.
  intros (aggregate & Hin & [Hs|Hd]).
  - left. apply existsb_exists. exists aggregate. split.
    + apply list_elem_of_In, Hin.
    + unfold isSorted. rewrite bool_decide_eq_false_2 by exact Hs. reflexivity.
  - right. apply existsb_exists. exists aggregate. split; [|exact Hd].
    apply list_elem_of_In, Hin.
Qed.

(** C6: constructing a grouping set with [isPartial] true and an aggregate that
    has sort keys or is distinct raises an error, so no grouping set is
    created; the error is the user error of the sorted or of the distinct
    check as soon as the checks that come first in the constructor pass
    (the [nonReclaimableSection] pointer, the tracking pool, the size of the
    key projections); and under those checks the same arguments with
    [isPartial] false construct a grouping set. *)
Theorem C6_partial_rejects_sorted_and_distinct (ext : Externals) (a : GroupingSetArgs) :
  arg_isPartial a = true ->
  (exists aggregate, aggregate ∈ arg_aggregates a
     /\ (sortingKeys aggregate <> [] \/ distinct aggregate = true)) ->
  (exists e, construct ext a = Err e)
  /\ (constructorChecksPass a = true ->
      construct ext a
      = Err (VeloxUserError
               (if existsb isSorted (arg_aggregates a)
                then "Partial aggregations over sorted inputs are not supported"
                else "Partial aggregations over distinct inputs are not supported"))
      /\ exists s, construct ext (set_arg_isPartial false a) = Ok s).
Proof.
  intros Hpartial Hagg.
  apply existsb_sorted_or_distinct in Hagg.
  assert (Hchecked : constructorChecksPass a = true ->
    construct ext a
    = Err (VeloxUserError
             (if existsb isSorted (arg_aggregates a)
              then "Partial aggregations over sorted inputs are not supported"
              else "Partial aggregations over distinct inputs are not supported"))).
  { intros Hc. destruct (construct_checked ext a Hc) as [Hp _].
    rewrite (Hp Hpartial).
    destruct (existsb isSorted (arg_aggregates a)); [reflexivity|].
    destruct Hagg as [Hs|Hd]; [discriminate|]. rewrite Hd. reflexivity. }
  split.
  - destruct (constructorChecksPass a) eqn:Hc.
    + rewrite (Hchecked eq_refl). eauto.
    + destruct (construct_unchecked ext a Hc) as [check ->]. eauto.
  - intros Hc. split; [exact (Hchecked Hc)|].
    destruct (construct_checked ext (set_arg_isPartial false a)) as [_ Hf].
    + exact Hc.
    + apply Hf. reflexivity.
Qed.

(** The example of the specification: the batches [{k=1,v=10}] and
    [{k=1,v=5},{k=2,v=3}] with [sum(v) group by k] give [{k=1,sum=15}] and
    [{k=2,sum=3}]. *)
Example sum_by_key_example :
  (s ← construct sampleExternals sumByKeyArgs;
   s ← addInput sampleExternals (batchOf [[Some 1]; [Some 10]]) false s;
   s ← addInput sampleExternals (batchOf [[Some 1; Some 2]; [Some 5; Some 3]]) false s;
   s ← noMoreInput sampleExternals s;
   '(more, _, result, _) ←
     getOutput sampleExternals 10 1000 freshIterator (emptyResult 2) s;
   Ok (more, result))
  = Ok (true, batchOf [[Some 1; Some 2]; [Some 15; Some 3]]).
Proof. vm_compute. reflexivity. Qed.

(** ** Frame lemmas: what the input path leaves alone *)

(** Inversion of a bind that returned normally. *)
Lemma bind_Ok {A B} (r : Result A) (k : A -> Result B) (b : B) :
  r ≫= k = Ok b -> exists a, r = Ok a /\ k a = Ok b.
Proof. destruct r as [a|e]; cbn; [eauto|discriminate]. Qed.

Lemma VELOX_CHECK_Ok (cond : bool) (check : string) (u : unit) :
  VELOX_CHECK cond check = Ok u -> cond = true.
Proof. destruct cond; [reflexivity|discriminate]. Qed.

Lemma vectorOfSize_inv {A : Type} (n : Z) (name : string) (k : unit -> Result A)
    (r : A) :
  (vectorOfSize n name ≫= k) = Ok r -> 0 <= n /\ k tt = Ok r.
Proof.
  unfold vectorOfSize. destruct (n <? 0) eqn:Hn; [discriminate|].
  apply Z.ltb_ge in Hn. intros H. split; [exact Hn|exact H].
Qed.

Lemma vectorOfSize_ok (n : Z) (name : string) : 0 <= n -> vectorOfSize n name = Ok tt.
Proof.
  intros H. unfold vectorOfSize. apply Z.ltb_ge in H. rewrite H. reflexivity.
Qed.

Ltac inv_bind H :=
  let a := fresh "a" in
  let H1 := fresh H in
  apply bind_Ok in H as (a & H1 & H).

Lemma ensureInputFits_frame (ext : Externals) (input : RowVector) (s s' : GroupingSet) :
  ensureInputFits ext input s = Ok s' ->
  config s' = config s /\ inputState s' = inputState s
  /\ store s' = store s /\ spilling s' = spilling s.
Proof.
  unfold ensureInputFits. intros H.
  repeat match type of H with
         | context [match ?x with _ => _ end] => destruct x eqn:?
         | context [if ?x then _ else _] => destruct x eqn:?
         end;
    try discriminate; injection H as <-; repeat split.
Qed.

Lemma addInputForActiveRows_frame (ext : Externals) (input : RowVector)
    (mayPushdown : bool) (s s' : GroupingSet) :
  addInputForActiveRows ext input mayPushdown s = Ok s' ->
  config s' = config s
  /\ sameInputButActiveRows (inputState s') (inputState s)
  /\ spilling s' = spilling s
  /\ isSome (table_ (store s')) = true
  /\ globalRow_ (store s') = globalRow_ (store s)
  /\ abandonedPartialAggregation_ (store s') = abandonedPartialAggregation_ (store s).
Proof.
  unfold addInputForActiveRows. intros H.
  inv_bind H. inv_bind H.
  apply ensureInputFits_frame in H1 as (Hc & Hi & Hst & Hsp).
  assert (Hbase :
    config a0 = config s /\ inputState a0 = inputState s /\ spilling a0 = spilling s
    /\ globalRow_ (store a0) = globalRow_ (store s)
    /\ abandonedPartialAggregation_ (store a0) = abandonedPartialAggregation_ (store s)).
  { rewrite Hc, Hi, Hsp, Hst.
    destruct (isNone (table_ (store (called _ s)))); cbn; repeat split. }
  destruct Hbase as (Hc' & Hi' & Hsp' & Hg' & Hab').
  destruct (table_ (store a0)) as [table|] eqn:Ht; [|discriminate].
  destruct (bool_decide _).
  - injection H as <-. cbn. rewrite Hc', Hsp', Hi', Hg', Hab', Ht.
    unfold sameInputButActiveRows. cbn. repeat split.
  - destruct (groupProbe _ _ _ _ _) as [table' lookup].
    injection H as <-. cbn. rewrite Hc', Hsp', Hi', Hg', Hab'.
    unfold sameInputButActiveRows. cbn. repeat split.
Qed.

(** ** Pre-grouped input *)

Lemma lastRunBoundary_spec (keys : list column_index_t) (vector : RowVector) (n : nat) :
  match lastRunBoundary keys vector n with
  | Some i =>
      (i < n)%nat
      /\ equalKeys keys vector i (i + 1) = false
      /\ forall j, (i < j < n)%nat -> equalKeys keys vector j (j + 1) = true
  | None => forall j, (j < n)%nat -> equalKeys keys vector j (j + 1) = true
  end.
Proof.
  induction n as [|n IH]; cbn [lastRunBoundary].
  - intros j Hj. lia.
  - destruct (equalKeys keys vector n (n + 1)) eqn:He; cbn [negb].
    + destruct (lastRunBoundary keys vector n) as [i|].
      * destruct IH as (Hi & Hne & Hall). split; [lia|]. split; [exact Hne|].
        intros j Hj. destruct (decide (j = n)) as [->|Hjn]; [exact He|].
        apply Hall. lia.
      * intros j Hj. destruct (decide (j = n)) as [->|Hjn]; [exact He|].
        apply IH. lia.
    + split; [lia|]. split; [exact He|]. intros j Hj. lia.
Qed.

Lemma addRemainingInput_frame (ext : Externals) (s s' : GroupingSet) :
  addRemainingInput ext s = Ok s' ->
  config s' = config s
  /\ spilling s' = spilling s
  /\ remainingInput_ (inputState s') = None
  /\ numInputRows_ (inputState s') = numInputRows_ (inputState s)
  /\ noMoreInput_ (inputState s') = noMoreInput_ (inputState s)
  /\ isSome (table_ (store s')) = true
  /\ globalRow_ (store s') = globalRow_ (store s)
  /\ abandonedPartialAggregation_ (store s') = abandonedPartialAggregation_ (store s).
Proof.
  unfold addRemainingInput. intros H.
  destruct (remainingInput_ (inputState s)) as [remaining|] eqn:Hr; [|discriminate].
  inv_bind H. injection H as <-.
  apply addInputForActiveRows_frame in H0 as (Hc & Hi & Hsp & Ht & Hg & Hab).
  destruct Hi as (Hn & Hnm & _). cbn in *.
  repeat split; assumption.
Qed.

(** C3 (amended): [addInput] in keyed mode with pre-grouped keys. The run
    deferred by the previous call is flushed first. Then, when the batch has
    two adjacent rows that differ on the pre-grouped keys, [i] being the last
    such row, the rows after [i] are one run of equal keys, only the rows up
    to [i] go through [addInputForActiveRows] in this call, and the batch is
    kept in [remainingInput_] with [firstRemainingRow_] at [i + 1], the
    first row of the last run. When no two adjacent rows differ (a batch of
    one run, of one row, or empty), the whole batch goes through
    [addInputForActiveRows] and nothing is deferred. *)
Theorem C3_addInput_defers_last_run (ext : Externals) (input : RowVector)
    (mayPushdown : bool) (s s' : GroupingSet) :
  isGlobal_ (config s) = false ->
  preGroupedKeyChannels_ (config s) <> [] ->
  addInput ext input mayPushdown s = Ok s' ->
  let keys := preGroupedKeyChannels_ (config s) in
  let counted :=
    withInput (fun st =>
      set_numInputRows_ (numInputRows_ st + Z.of_nat (rv_size input)) st) s in
  exists s1,
    (if isSome (remainingInput_ (inputState s))
     then addRemainingInput ext counted
     else Ok counted) = Ok s1
    /\ match lastRunBoundary keys input (rv_size input - 1) with
       | Some i =>
           (i + 1 < rv_size input)%nat
           /\ equalKeys keys input i (i + 1) = false
           /\ (forall j, (i < j)%nat -> (j + 1 < rv_size input)%nat ->
                 equalKeys keys input j (j + 1) = true)
           /\ addInputForActiveRows ext input mayPushdown
                (withInput (set_activeRows_ (allSelected (i + 1)))
                   (withInput (fun st =>
                      set_remainingMayPushdown_ mayPushdown
                        (set_firstRemainingRow_ (i + 1)%nat
                           (set_remainingInput_ (Some input) st))) s1))
              = Ok s'
           /\ remainingInput_ (inputState s') = Some input
           /\ firstRemainingRow_ (inputState s') = (i + 1)%nat
       | None =>
           (forall j, (j + 1 < rv_size input)%nat ->
              equalKeys keys input j (j + 1) = true)
           /\ addInputForActiveRows ext input mayPushdown
                (withInput (set_activeRows_ (allSelected (rv_size input))) s1)
              = Ok s'
           /\ remainingInput_ (inputState s') = None
       end.
Proof.
  intros Hglobal Hkeys H keys counted.
  unfold addInput in H. rewrite Hglobal in H.
  inv_bind H. destruct a as [numRows s2].
  fold counted in H0. change (config counted) with (config s) in H0.
  rewrite bool_decide_eq_false_2 in H0 by exact Hkeys.
  inv_bind H0. rename a into s1.
  change (inputState counted) with
    (set_numInputRows_ (numInputRows_ (inputState s) + Z.of_nat (rv_size input))
       (inputState s)) in H1.
  cbn [remainingInput_ set_numInputRows_] in H1.
  exists s1. split; [exact H1|].
  assert (Hs1 : config s1 = config s
                /\ (isSome (remainingInput_ (inputState s)) = true ->
                    remainingInput_ (inputState s1) = None)
                /\ (isSome (remainingInput_ (inputState s)) = false ->
                    remainingInput_ (inputState s1) = remainingInput_ (inputState s))).
  { destruct (isSome (remainingInput_ (inputState s))) eqn:Hrem.
    - apply addRemainingInput_frame in H1 as (Hc & _ & Hr & _).
      split; [exact Hc|]. split; [intros _; exact Hr|discriminate].
    - injection H1 as <-. split; [reflexivity|]. split; [discriminate|reflexivity]. }
  destruct Hs1 as (Hc1 & Hflushed & Hkept).
  rewrite Hc1 in H0. fold keys in H0.
  pose proof (lastRunBoundary_spec keys input (rv_size input - 1)) as Hb.
  destruct (lastRunBoundary keys input (rv_size input - 1)) as [i|].
  - injection H0 as <- <-. destruct Hb as (Hi & Hne & Hall).
    split; [lia|]. split; [exact Hne|]. split; [intros j ? ?; apply Hall; lia|].
    split; [exact H|].
    apply addInputForActiveRows_frame in H as (_ & Hin & _).
    destruct Hin as (_ & _ & Hr & Hf & _). cbn in Hr, Hf. split; assumption.
  - injection H0 as <- <-.
    split; [intros j ?; apply Hb; lia|]. split; [exact H|].
    apply addInputForActiveRows_frame in H as (_ & Hin & _).
    destruct Hin as (_ & _ & Hr & _). cbn in Hr. rewrite Hr.
    destruct (remainingInput_ (inputState s)) eqn:Hrem; cbn in *.
    + apply Hflushed. reflexivity.
    + rewrite Hkept by reflexivity. reflexivity.
Qed.

(** The amended C3 at the batch [k = 1, 1, 2]: rows 0 and 1 are processed,
    row 2 is deferred. *)
Lemma C3_addInput_defers_last_run_witness :
  let s' := stateOf (addInput sampleExternals twoRuns false preGroupedSumState) in
  addInput sampleExternals twoRuns false preGroupedSumState = Ok s'
  /\ remainingInput_ (inputState s') = Some twoRuns
  /\ firstRemainingRow_ (inputState s') = 2%nat.
Proof.
  intros s'.
  assert (Ha : addInput sampleExternals twoRuns false preGroupedSumState = Ok s')
    by (vm_compute; reflexivity).
  split; [exact Ha|].
  pose proof (C3_addInput_defers_last_run sampleExternals twoRuns false
                preGroupedSumState s' eq_refl ltac:(discriminate) Ha) as (s1 & _ & Hb).
  vm_compute lastRunBoundary in Hb.
  destruct Hb as (_ & _ & _ & _ & Hr & Hf). split; assumption.
Defined.

(** C3 as stated fails on a batch of one run, [k = 1, 1]: the last run starts
    at row 0, yet nothing is deferred and both rows go through
    [addInputForActiveRows] in the call. *)
Lemma C3_counterexample_single_run :
  (s ← construct sampleExternals preGroupedSumArgs;
   s' ← addInput sampleExternals oneRun false s;
   Ok (remainingInput_ (inputState s'), calls_ s'))
  = Ok (None, [CallAddInputForActiveRows oneRun [true; true]]).
Proof. vm_compute. reflexivity. Qed.

(** C6 at a partial aggregation with a distinct aggregate. *)
Lemma C6_partial_rejects_sorted_and_distinct_witness :
  construct sampleExternals
    {| arg_hashers := [{| hasher_channel := 0%N |}];
       arg_preGroupedKeys := [];
       arg_groupingKeyOutputProjections := [];
       arg_aggregates :=
         [{| function := sumFunction; inputs := [1%N]; constantInputs := [None];
             mask := None; distinct := true; sortingKeys := []; output := 1%nat |}];
       arg_ignoreNullKeys := false;
       arg_isPartial := true;
       arg_isRawInput := true;
       arg_globalGroupingSets := [];
       arg_groupIdChannel := None;
       arg_spillConfig := None;
       arg_nonReclaimableSection := Some false;
       arg_pool := samplePool;
       arg_preferredOutputBatchBytes := 100 |}
  = Err (VeloxUserError "Partial aggregations over distinct inputs are not supported").
Proof.
  refine (proj1 (proj2 (C6_partial_rejects_sorted_and_distinct sampleExternals _ _ _) _)).
  - reflexivity.
  - eexists. split; [left|]. right. reflexivity.
  - reflexivity.
Defined.

(** C8 at three aggregates, a sorted adapter and one distinct adapter. *)
Lemma C8_global_row_layout_witness :
  let aggs := [{| fixedWidthSize := 8; alignment := 8 |};
               {| fixedWidthSize := 1; alignment := 1 |};
               {| fixedWidthSize := 16; alignment := 16 |}] in
  let sorted := Some {| fixedWidthSize := 24; alignment := 8 |} in
  let distinct := [None; Some {| fixedWidthSize := 4; alignment := 4 |}; None] in
  placedInTurn 6 (allOffsets (globalRowLayout aggs sorted distinct))
    (allAccumulators aggs sorted distinct)
  /\ rowAlignment (globalRowLayout aggs sorted distinct) = 16.
Proof.
  intros aggs sorted distinct.
  assert (Hwf : Forall wellFormedAccumulator (allAccumulators aggs sorted distinct)).
  { repeat constructor; cbn; lia. }
  assert (Hflags : 2 * Z.of_nat (length (allAccumulators aggs sorted distinct)) <= INT32_MAX).
  { vm_compute. discriminate. }
  assert (Hfits : bits.nbytes (2 * Z.of_nat (length (allAccumulators aggs sorted distinct)))
                  + 4 + layoutBound (allAccumulators aggs sorted distinct) <= INT32_MAX).
  { vm_compute. discriminate. }
  destruct (C8_global_row_layout aggs sorted distinct Hwf Hflags Hfits)
    as (Hturn & _ & _ & _ & _).
  split; [exact Hturn|reflexivity].
Defined.

(** ** Memory reservation for the input *)



(** ** Frame lemmas: the spillers and the configuration *)

Lemma steady_refl (s : GroupingSet) : steady s s.
Proof. split; reflexivity. Qed.

Lemma steady_trans (s1 s2 s3 : GroupingSet) : steady s1 s2 -> steady s2 s3 -> steady s1 s3.
Proof. intros [H1 H2] [H3 H4]. split; congruence. Qed.

Lemma addGlobalAggregationInput_frame (input : RowVector) (mayPushdown : bool)
    (s s' : GroupingSet) :
  addGlobalAggregationInput input mayPushdown s = Ok s' ->
  steady s s' /\ spilling s' = spilling s
  /\ remainingInput_ (inputState s') = remainingInput_ (inputState s)
  /\ noMoreInput_ (inputState s') = noMoreInput_ (inputState s).
Proof.
  unfold addGlobalAggregationInput, initializeGlobalAggregation. intros H.
  destruct (globalAggregationInitialized_ (store s)); cbn in H.
  - destruct (globalRow_ (store s)); [|discriminate].
    injection H as <-. repeat split.
  - injection H as <-. repeat split.
Qed.

Lemma addInput_frame (ext : Externals) (input : RowVector) (mayPushdown : bool)
    (s s' : GroupingSet) :
  addInput ext input mayPushdown s = Ok s' ->
  steady s s' /\ spilling s' = spilling s
  /\ noMoreInput_ (inputState s') = noMoreInput_ (inputState s).
Proof.
  unfold addInput. intros H.
  destruct (isGlobal_ (config s)).
  - apply addGlobalAggregationInput_frame in H as (Hs & Hsp & _ & Hn). auto.
  - inv_bind H. destruct a as [numRows s2].
    apply addInputForActiveRows_frame in H as (Hc & Hi & Hsp & _ & _ & Hab).
    cbn in Hc, Hi, Hsp, Hab. destruct Hi as (_ & Hnm & _). cbn in Hnm.
    assert (Hs2 : config s2 = config s
                  /\ abandonedPartialAggregation_ (store s2)
                     = abandonedPartialAggregation_ (store s)
                  /\ spilling s2 = spilling s
                  /\ noMoreInput_ (inputState s2) = noMoreInput_ (inputState s)).
    { destruct (bool_decide _).
      - injection H0 as <- <-. repeat split.
      - inv_bind H0.
        assert (Ha : config a = config s
                     /\ abandonedPartialAggregation_ (store a)
                        = abandonedPartialAggregation_ (store s)
                     /\ spilling a = spilling s
                     /\ noMoreInput_ (inputState a) = noMoreInput_ (inputState s)).
        { destruct (isSome _).
          - apply addRemainingInput_frame in H1
              as (Hc1 & Hsp1 & _ & _ & Hnm1 & _ & _ & Hab1).
            repeat split; assumption.
          - injection H1 as <-. repeat split. }
        destruct Ha as (Ha1 & Ha2 & Ha3 & Ha4).
        destruct (lastRunBoundary _ _ _); injection H0 as <- <-; cbn;
          repeat split; assumption. }
    destruct Hs2 as (Hc2 & Hab2 & Hsp2 & Hnm2).
    repeat split; congruence.
Qed.

Lemma VELOX_CHECK_inv (cond : bool) (check : string) (B : Type) (k : unit -> Result B)
    (b : B) :
  VELOX_CHECK cond check ≫= k = Ok b -> cond = true /\ k tt = Ok b.
Proof. destruct cond; cbn; [auto|discriminate]. Qed.

(** [spill()] either finds nothing to spill and changes nothing, or it is the
    input spiller that takes every row of the table, and the table is
    cleared. *)
Lemma spill_spec (ext : Externals) (s s' : GroupingSet) :
  spill ext s = Ok s' ->
  steady s s' /\ inputState s' = inputState s /\ pool_ s' = pool_ s
  /\ calls_ s' = calls_ s ++ [CallSpill]
  /\ tableIsEmpty s'
  /\ ((tableIsEmpty s /\ spilling s' = spilling s /\ store s' = store s)
      \/ exists table spiller,
           table_ (store s) = Some table
           /\ numDistinct table <> 0%nat
           /\ outputSpiller_ (spilling s) = None
           /\ outputSpiller_ (spilling s') = None
           /\ (inputSpiller_ (spilling s) = Some spiller
               \/ inputSpiller_ (spilling s) = None /\ sp_files spiller = ∅)
           /\ inputSpiller_ (spilling s')
              = Some (inputSpillerSpill ext s (ht_rows table) spiller)
           /\ table_ (store s') = Some (clearTable table)).
Proof.
  unfold spill. intros H.
  cbn [store called set_calls_ table_] in H.
  destruct (table_ (store s)) as [table|] eqn:Ht.
  2:{ injection H as <-. cbn. unfold tableIsEmpty. cbn. rewrite Ht.
      repeat split. left. repeat split. }
  destruct (numDistinct table =? 0)%nat eqn:Hn.
  { injection H as <-. apply Nat.eqb_eq in Hn. cbn. unfold tableIsEmpty. cbn.
    rewrite Ht. repeat split; try assumption. left. repeat split. assumption. }
  apply Nat.eqb_neq in Hn.
  apply VELOX_CHECK_inv in H as [Hout H]. cbn [spilling called set_calls_] in Hout.
  inv_bind H. rename a into spiller.
  inv_bind H. rename a into s2. injection H as <-.
  assert (Hspiller : inputSpiller_ (spilling s) = Some spiller
                     \/ inputSpiller_ (spilling s) = None /\ sp_files spiller = ∅).
  { cbn [spilling called set_calls_] in H0.
    destruct (inputSpiller_ (spilling s)).
    - injection H0 as <-. left. reflexivity.
    - apply VELOX_CHECK_inv in H0 as [_ H0].
      destruct (spillConfig_ _); [|discriminate]. injection H0 as <-.
      right. split; reflexivity. }
  assert (Hs2 : config s2 = config s /\ store s2 = store s
                /\ inputState s2 = inputState s /\ pool_ s2 = pool_ s
                /\ calls_ s2 = calls_ s ++ [CallSpill]
                /\ outputSpiller_ (spilling s2) = outputSpiller_ (spilling s)
                /\ inputSpiller_ (spilling s2)
                   = Some (inputSpillerSpill ext s (ht_rows table) spiller)).
  { destruct (_ && _).
    - destruct (spillConfig_ _); [|discriminate].
      apply VELOX_CHECK_inv in H1 as [_ H1]. injection H1 as <-. repeat split.
    - injection H1 as <-. repeat split. }
  destruct Hs2 as (Hc & Hst & Hi & Hp & Hcalls & Ho & Hin).
  destruct (outputSpiller_ (spilling s)) eqn:Hos; [discriminate|].
  cbn. unfold tableIsEmpty, steady. cbn. rewrite Hc, Hst, Hi, Hp, Hcalls, Ho, Hin.
  repeat split. right. exists table, spiller. repeat split; assumption.
Qed.




Lemma hasSpilled_spec (s : GroupingSet) (spilled : bool) :
  hasSpilled s = Ok spilled ->
  spilled = isSome (inputSpiller_ (spilling s)) || isSome (outputSpiller_ (spilling s)).
Proof.
  unfold hasSpilled.
  destruct (inputSpiller_ (spilling s)), (outputSpiller_ (spilling s)); cbn;
    intros H; try discriminate; injection H as <-; reflexivity.
Qed.

(** ** The arbitration inside [ensureOutputFits] *)

Lemma hasSpilled_one (s : GroupingSet) :
  atMostOneSpiller s -> hasSpilled s = Ok (isSome (activeSpiller s)).
Proof.
  unfold atMostOneSpiller, hasSpilled, activeSpiller.
  destruct (inputSpiller_ (spilling s)), (outputSpiller_ (spilling s));
    cbn; intros H; try discriminate; reflexivity.
Qed.

Lemma spillOutput_frame (ext : Externals) (rowIterator : RowContainerIterator)
    (s s' : GroupingSet) :
  spillOutput ext rowIterator s = Ok s' ->
  steady s s' /\ inputState s' = inputState s /\ pool_ s' = pool_ s
  /\ calls_ s' = calls_ s /\ inputSpiller_ (spilling s') = None.
Proof.
  unfold spillOutput. intros H. inv_bind H.
  apply hasSpilled_spec in H0. apply VELOX_CHECK_inv in H as [Hn H].
  subst a. apply negb_true_iff, orb_false_iff in Hn as [Hi Ho].
  destruct (inputSpiller_ (spilling s)) eqn:Hin; [discriminate|].
  destruct (table_ (store s)); [|injection H as <-; repeat split; exact Hin].
  apply VELOX_CHECK_inv in H as [_ H].
  destruct (spillConfig_ (config s)); [|discriminate]. injection H as <-.
  repeat split. exact Hin.
Qed.

Lemma spill_one_spiller (ext : Externals) (s s' : GroupingSet) :
  spill ext s = Ok s' -> atMostOneSpiller s -> atMostOneSpiller s'.
Proof.
  intros H Hone. apply spill_spec in H as (_ & _ & _ & _ & _ & Hcases).
  unfold atMostOneSpiller in *.
  destruct Hcases as [(_ & Hsame & _)|(t & sp & _ & _ & _ & Ho & _)].
  - rewrite Hsame. exact Hone.
  - rewrite Ho. apply andb_false_r.
Qed.

(** What a reclaim leaves alone, and that it keeps the spillers apart. *)
Lemma reclaim_spec (ext : Externals) (s s' : GroupingSet) :
  reclaim ext s = Ok s' ->
  steady s s' /\ inputState s' = inputState s /\ pool_ s' = pool_ s
  /\ (atMostOneSpiller s -> atMostOneSpiller s')
  /\ (exists spilled, calls_ s' = calls_ s ++ spilled)
  /\ (ext_reclaim ext = NoReclaim -> s' = s).
Proof.
  unfold reclaim. intros H.
  destruct (ext_reclaim ext) as [| |rowIterator].
  - injection H as <-. split; [apply steady_refl|]. repeat split; auto.
    exists []. rewrite app_nil_r. reflexivity.
  - pose proof (spill_one_spiller ext s s' H) as Hone.
    apply spill_spec in H as (Hst & Hi & Hp & Hcalls & _).
    repeat split; try assumption; try apply Hst; [eauto|discriminate].
  - pose proof (spillOutput_frame ext rowIterator s s' H) as (Hst & Hi & Hp & Hcalls & Hin).
    repeat split; try assumption; try apply Hst.
    + intros _. unfold atMostOneSpiller. rewrite Hin. reflexivity.
    + exists []. rewrite app_nil_r. exact Hcalls.
    + discriminate.
Qed.

(** The cases in which [ensureOutputFits] asks for nothing. *)
Lemma ensureOutputFits_skip (ext : Externals) (s : GroupingSet) :
  atMostOneSpiller s ->
  noReservationNeeded s ->
  ensureOutputFits ext s = Ok (called CallEnsureOutputFits s).
Proof.
  intros Hone Hskip. unfold ensureOutputFits.
  set (s0 := called CallEnsureOutputFits s).
  change (isPartial_ (config s0)) with (isPartial_ (config s)).
  change (spillConfig_ (config s0)) with (spillConfig_ (config s)).
  change (table_ (store s0)) with (table_ (store s)).
  change (hasSpilled s0) with (hasSpilled s). rewrite (hasSpilled_one s Hone).
  destruct (isPartial_ (config s)) eqn:Hp; [reflexivity|].
  destruct (spillConfig_ (config s)) eqn:Hc; [|reflexivity].
  cbn [orb isNone isSome negb mbind result_bind].
  destruct (isSome (activeSpiller s)) eqn:Ha; [reflexivity|]. cbn [orb].
  destruct Hskip as [H|[H|[H|H]]]; try congruence.
  unfold tableIsEmpty in H. destruct (table_ (store s)) as [table|]; [|reflexivity].
  apply Nat.eqb_eq in H. rewrite H. reflexivity.
Qed.

(** [ensureOutputFits] past its early return. *)
Lemma ensureOutputFits_needed (ext : Externals) (s : GroupingSet) :
  atMostOneSpiller s ->
  ~ noReservationNeeded s ->
  ensureOutputFits ext s
  = (let s0 := called CallEnsureOutputFits s in
     if ext_testingTriggerSpill ext
     then reclaim ext (called CallRunArbitration s0)
     else
       let size := outputBufferSizeToReserveOf (preferredOutputBatchBytes (config s)) in
       let '(granted, pool) := maybeReserve size (pool_ s) in
       s1 ← reclaim ext (called (CallMaybeReserve size granted) (set_pool_ pool s0));
       if granted
       then spilled ← hasSpilled s1;
            if spilled : bool
            then Ok (called CallRelease (set_pool_ (release (pool_ s1)) s1))
            else Ok s1
       else Ok (called (CallLogWarning size) s1)).
Proof.
  intros Hone Hneeded. unfold ensureOutputFits.
  set (s0 := called CallEnsureOutputFits s).
  change (isPartial_ (config s0)) with (isPartial_ (config s)).
  change (spillConfig_ (config s0)) with (spillConfig_ (config s)).
  change (table_ (store s0)) with (table_ (store s)).
  change (hasSpilled s0) with (hasSpilled s).
  change (preferredOutputBatchBytes (config s0))
    with (preferredOutputBatchBytes (config s)).
  change (pool_ s0) with (pool_ s).
  rewrite (hasSpilled_one s Hone).
  unfold noReservationNeeded, tableIsEmpty in Hneeded.
  destruct (isPartial_ (config s)) eqn:Hp; [exfalso; apply Hneeded; auto|].
  destruct (spillConfig_ (config s)) eqn:Hc; [|exfalso; apply Hneeded; auto].
  cbn [orb isNone isSome negb mbind result_bind].
  destruct (isSome (activeSpiller s)) eqn:Ha; [exfalso; apply Hneeded; auto|].
  destruct (table_ (store s)) as [table|] eqn:Ht; [|exfalso; apply Hneeded; auto].
  destruct (numDistinct table =? 0)%nat eqn:Hn; [|reflexivity].
  apply Nat.eqb_eq in Hn. exfalso. apply Hneeded. auto.
Qed.

(** The reservation of [ensureOutputFits]: the pool is asked once for
    [preferredOutputBatchBytes() * 1.2] bytes; the arbitration may spill the
    grouping set meanwhile; a granted reservation is released again when the
    grouping set has spilled, and a denied one is logged. *)
Lemma ensureOutputFits_asks (ext : Externals) (s s' : GroupingSet) :
  atMostOneSpiller s ->
  ~ noReservationNeeded s ->
  ext_testingTriggerSpill ext = false ->
  ensureOutputFits ext s = Ok s' ->
  let size := outputBufferSizeToReserveOf (preferredOutputBatchBytes (config s)) in
  let granted := fst (maybeReserve size (pool_ s)) in
  let pool := snd (maybeReserve size (pool_ s)) in
  exists s1 spilled,
    reclaim ext
      (called (CallMaybeReserve size granted)
         (set_pool_ pool (called CallEnsureOutputFits s))) = Ok s1
    /\ calls_ s1
       = calls_ s ++ [CallEnsureOutputFits; CallMaybeReserve size granted] ++ spilled
    /\ s' = (if granted
             then if isSome (activeSpiller s1)
                  then called CallRelease (set_pool_ (release pool) s1)
                  else s1
             else called (CallLogWarning size) s1)
    /\ (ext_reclaim ext = NoReclaim ->
        spilled = []
        /\ store s' = store s /\ spilling s' = spilling s
        /\ pool_ s' = pool
        /\ calls_ s'
           = calls_ s ++ [CallEnsureOutputFits; CallMaybeReserve size granted]
             ++ (if granted then [] else [CallLogWarning size])).
Proof.
  intros Hone Hneeded Htest H size granted pool.
  unfold ensureOutputFits in H.
  set (s0 := called CallEnsureOutputFits s) in *.
  change (isPartial_ (config s0)) with (isPartial_ (config s)) in H.
  change (spillConfig_ (config s0)) with (spillConfig_ (config s)) in H.
  change (table_ (store s0)) with (table_ (store s)) in H.
  change (hasSpilled s0) with (hasSpilled s) in H.
  change (preferredOutputBatchBytes (config s0))
    with (preferredOutputBatchBytes (config s)) in H.
  change (pool_ s0) with (pool_ s) in H.
  rewrite (hasSpilled_one s Hone), Htest in H.
  assert (Hskip : (if isPartial_ (config s) || isNone (spillConfig_ (config s))
                   then Ok true
                   else Ok (isSome (activeSpiller s)) ≫= λ spilled : bool,
                        Ok (spilled
                            || match table_ (store s) with
                               | Some table => (numDistinct table =? 0)%nat
                               | None => true
                               end)) = Ok false).
  { unfold noReservationNeeded, tableIsEmpty in Hneeded.
    destruct (isPartial_ (config s)) eqn:Hp; [exfalso; apply Hneeded; auto|].
    destruct (spillConfig_ (config s)) eqn:Hc; [|exfalso; apply Hneeded; auto].
    cbn [orb isNone isSome negb mbind result_bind].
    destruct (isSome (activeSpiller s)) eqn:Ha; [exfalso; apply Hneeded; auto|].
    destruct (table_ (store s)) as [table|] eqn:Ht; [|exfalso; apply Hneeded; auto].
    destruct (numDistinct table =? 0)%nat eqn:Hn; [|reflexivity].
    apply Nat.eqb_eq in Hn. exfalso. apply Hneeded. auto. }
  rewrite Hskip in H. cbn [mbind result_bind] in H.
  fold size in H.
  assert (Hpair : maybeReserve size (pool_ s) = (granted, pool))
    by (unfold granted, pool; destruct (maybeReserve size (pool_ s)); reflexivity).
  rewrite Hpair in H. apply bind_Ok in H as (s1 & Hreclaim & H).
  pose proof (reclaim_spec ext _ _ Hreclaim) as (_ & _ & Hpool & Hone1 & [spilled Hcalls] & Hnone).
  assert (Hone0 : atMostOneSpiller
                    (called (CallMaybeReserve size granted) (set_pool_ pool s0)))
    by exact Hone.
  specialize (Hone1 Hone0).
  exists s1, spilled. split; [exact Hreclaim|].
  assert (Hcalls1 : calls_ s1
                    = calls_ s ++ [CallEnsureOutputFits; CallMaybeReserve size granted]
                      ++ spilled).
  { rewrite Hcalls. cbn. rewrite <- !app_assoc. reflexivity. }
  split; [exact Hcalls1|].
  assert (Hs' : s' = (if granted
                      then if isSome (activeSpiller s1)
                           then called CallRelease (set_pool_ (release pool) s1)
                           else s1
                      else called (CallLogWarning size) s1)).
  { destruct granted.
    - rewrite (hasSpilled_one s1 Hone1) in H. cbn [mbind result_bind] in H.
      destruct (isSome (activeSpiller s1)); injection H as <-; [|reflexivity].
      rewrite Hpool. reflexivity.
    - injection H as <-. reflexivity. }
  split; [exact Hs'|].
  intros Hno. specialize (Hnone Hno). subst s1.
  assert (Hspilled : spilled = []).
  { cbn in Hcalls. apply (f_equal (@length Call)) in Hcalls.
    rewrite !length_app in Hcalls. cbn in Hcalls.
    destruct spilled; [reflexivity|]. cbn in Hcalls. lia. }
  split; [exact Hspilled|].
  assert (Hactive : isSome (activeSpiller
                              (called (CallMaybeReserve size granted)
                                 (set_pool_ pool s0))) = false).
  { change (isSome (activeSpiller s) = false).
    destruct (isSome (activeSpiller s)) eqn:Ha; [|reflexivity].
    exfalso. apply Hneeded. right. right. left. exact Ha. }
  rewrite Hactive in Hs'. rewrite Hs'.
  destruct granted; cbn; rewrite <- ?app_assoc; repeat split.
Qed.

Lemma ensureOutputFits_spec (ext : Externals) (s s' : GroupingSet) :
  ensureOutputFits ext s = Ok s' ->
  steady s s' /\ inputState s' = inputState s
  /\ (atMostOneSpiller s -> atMostOneSpiller s')
  /\ (tableIsEmpty s -> store s' = store s /\ spilling s' = spilling s)
  /\ exists new, calls_ s' = calls_ s ++ CallEnsureOutputFits :: new.
Proof.
  unfold ensureOutputFits. intros H. inv_bind H.
  set (s0 := called CallEnsureOutputFits s) in *.
  assert (Hempty : tableIsEmpty s -> a = true).
  { intros He. unfold tableIsEmpty in He.
    change (table_ (store s0)) with (table_ (store s)) in H0.
    destruct (_ || _); [injection H0 as <-; reflexivity|].
    inv_bind H0. injection H0 as <-.
    destruct (table_ (store s)) as [table|]; [|apply orb_true_r].
    apply Nat.eqb_eq in He. rewrite He. apply orb_true_r. }
  destruct a.
  { injection H as <-. repeat split; auto. exists []. reflexivity. }
  assert (Hreclaimed : forall (s1 s2 : GroupingSet) (before : list Call),
            reclaim ext s1 = Ok s2 ->
            steady s s1 -> inputState s1 = inputState s ->
            spillerRoles s1 = spillerRoles s ->
            calls_ s1 = calls_ s ++ CallEnsureOutputFits :: before ->
            steady s s2 /\ inputState s2 = inputState s
            /\ (atMostOneSpiller s -> atMostOneSpiller s2)
            /\ exists new, calls_ s2 = calls_ s ++ CallEnsureOutputFits :: new).
  { intros s1 s2 before Hr Hst Hi Hroles Hcalls.
    apply reclaim_spec in Hr as (Hst2 & Hi2 & _ & Hone2 & [spilled Hcalls2] & _).
    split; [eapply steady_trans; eassumption|]. split; [congruence|]. split.
    - intros Hone. apply Hone2. unfold atMostOneSpiller, spillerRoles in *.
      injection Hroles as -> ->. exact Hone.
    - exists (before ++ spilled). rewrite Hcalls2, Hcalls, <- app_assoc. reflexivity. }
  assert (Hlast : forall sx sy : GroupingSet,
            steady s sx /\ inputState sx = inputState s
            /\ (atMostOneSpiller s -> atMostOneSpiller sx)
            /\ (exists new, calls_ sx = calls_ s ++ CallEnsureOutputFits :: new) ->
            config sy = config sx -> inputState sy = inputState sx ->
            store sy = store sx -> spilling sy = spilling sx ->
            (exists c, calls_ sy = calls_ sx ++ c) ->
            steady s sy /\ inputState sy = inputState s
            /\ (atMostOneSpiller s -> atMostOneSpiller sy)
            /\ (tableIsEmpty s -> store sy = store s /\ spilling sy = spilling s)
            /\ exists new, calls_ sy = calls_ s ++ CallEnsureOutputFits :: new).
  { intros sx sy ([Hc Hab] & Hi & Hone & [new Hcalls]) Hc' Hi' Hst' Hsp' [c Hcalls'].
    split; [split; [congruence|rewrite Hst'; exact Hab]|]. split; [congruence|].
    split; [unfold atMostOneSpiller in *; rewrite Hsp'; exact Hone|].
    split; [intros He; specialize (Hempty He); discriminate|].
    exists (new ++ c). rewrite Hcalls', Hcalls, <- app_assoc. reflexivity. }
  destruct (ext_testingTriggerSpill ext).
  { pose proof (Hreclaimed _ _ [CallRunArbitration] H
                  ltac:(split; reflexivity) eq_refl eq_refl
                  ltac:(cbn; rewrite <- app_assoc; reflexivity)) as Hr.
    apply (Hlast s' s' Hr); try reflexivity. exists []. rewrite app_nil_r. reflexivity. }
  destruct (maybeReserve _ _) as [granted pool].
  apply bind_Ok in H as (s1 & Hreclaim & H).
  pose proof (Hreclaimed _ _ [CallMaybeReserve _ granted] Hreclaim
                ltac:(split; reflexivity) eq_refl eq_refl
                ltac:(cbn; rewrite <- app_assoc; reflexivity)) as Hr.
  destruct granted.
  - inv_bind H. destruct a; injection H as <-.
    + apply (Hlast s1 _ Hr); try reflexivity. eexists. reflexivity.
    + apply (Hlast s1 s1 Hr); try reflexivity. exists []. rewrite app_nil_r. reflexivity.
  - injection H as <-. apply (Hlast s1 _ Hr); try reflexivity. eexists. reflexivity.
Qed.

(** ** The deferred rows reach the table *)






(** ** End of input *)



(** ** Frame lemmas: the merge *)

Lemma mergeFrame_refl (s : GroupingSet) : mergeFrame s s.
Proof. repeat split. Qed.

Lemma mergeFrame_trans (s1 s2 s3 : GroupingSet) :
  mergeFrame s1 s2 -> mergeFrame s2 s3 -> mergeFrame s1 s3.
Proof.
  unfold mergeFrame. intros (?&?&?&?&?&?&?&?) (?&?&?&?&?&?&?&?).
  repeat split; congruence.
Qed.

Lemma prepareNextSpillPartitionOutput_frame (ext : Externals) (s s' : GroupingSet)
    (more : bool) :
  prepareNextSpillPartitionOutput ext s = Ok (more, s') -> mergeFrame s s'.
Proof.
  unfold prepareNextSpillPartitionOutput. intros H.
  apply VELOX_CHECK_inv in H as [_ H]. cbn in H.
  destruct (spillPartitionSet_ (spilling s)) as [|[p files] rest].
  - injection H as <- <-. repeat split.
  - apply VELOX_CHECK_inv in H as [_ H]. injection H as <- <-. repeat split.
Qed.

Lemma extractSpillResult_frame (s s' : GroupingSet) (result result' : RowVector) :
  extractSpillResult s result = Ok (result', s') -> mergeFrame s s'.
Proof.
  unfold extractSpillResult. intros H.
  destruct (mergeRows_ (spilling s)); [|discriminate].
  injection H as <- <-. repeat split.
Qed.

Lemma mergeWithAggregatesLoop_frame (ext : Externals) (budget : nat)
    (maxOutputRows maxOutputBytes : Z) :
  forall (nextKeyIsEqual : bool) (result : RowVector) (s : GroupingSet)
         (more : bool) (result' : RowVector) (s' : GroupingSet),
    mergeWithAggregatesLoop ext budget maxOutputRows maxOutputBytes nextKeyIsEqual result s
    = Ok (more, result', s') ->
    mergeFrame s s'.
Proof.
  induction budget as [|budget IH]; intros nke result s more result' s' H;
    cbn [mergeWithAggregatesLoop] in H; [discriminate|].
  destruct (merge_ (spilling s)) as [merge|]; [|discriminate].
  destruct (nextWithEquals (spillKey s) merge) as [[next equal]|].
  - destruct (mergeRows_ (spilling s)) as [rows|]; [|discriminate].
    match type of H with
    | (if ?c then _ else _) = _ => destruct c
    end.
    + inv_bind H. destruct a as [r2 s2]. injection H as <- <- <-.
      apply extractSpillResult_frame in H0.
      eapply mergeFrame_trans; [|exact H0]. repeat split.
    + apply IH in H. eapply mergeFrame_trans; [|exact H]. repeat split.
  - inv_bind H. destruct a as [r2 s2].
    apply extractSpillResult_frame in H0.
    destruct (0 <? rv_size r2)%nat.
    + injection H as <- <- <-. exact H0.
    + apply VELOX_CHECK_inv in H as [_ H]. inv_bind H. destruct a as [more2 s3].
      apply prepareNextSpillPartitionOutput_frame in H1.
      destruct more2.
      * apply VELOX_CHECK_inv in H as [_ H]. apply IH in H.
        eauto using mergeFrame_trans.
      * apply VELOX_CHECK_inv in H as [_ H]. injection H as <- <- <-.
        eauto using mergeFrame_trans.
Qed.

Lemma mergeWithoutAggregatesLoop_frame (ext : Externals) (budget : nat)
    (maxOutputRows : Z) :
  forall (newDistinct : bool) (rows : list SpillRow) (s : GroupingSet)
         (rows' : list SpillRow) (s' : GroupingSet),
    mergeWithoutAggregatesLoop ext budget maxOutputRows newDistinct rows s
    = Ok (rows', s') ->
    mergeFrame s s'.
Proof.
  induction budget as [|budget IH]; intros nd rows s rows' s' H;
    cbn [mergeWithoutAggregatesLoop] in H; [discriminate|].
  destruct (negb _).
  { injection H as <- <-. apply mergeFrame_refl. }
  destruct (merge_ (spilling s)) as [merge|]; [|discriminate].
  destruct (nextWithEquals (spillKey s) merge) as [[stream equal]|].
  - destruct (_ !! _) as [n|]; [|discriminate].
    destruct equal; apply IH in H;
      (eapply mergeFrame_trans; [|exact H]); repeat split.
  - destruct (0 <? length rows)%nat.
    { injection H as <- <-. apply mergeFrame_refl. }
    inv_bind H. destruct a as [more2 s3].
    apply prepareNextSpillPartitionOutput_frame in H0.
    destruct more2; apply VELOX_CHECK_inv in H as [_ H].
    + apply IH in H. eauto using mergeFrame_trans.
    + injection H as <- <-. exact H0.
Qed.

Lemma rolesFrame_refl (s : GroupingSet) : rolesFrame s s.
Proof. split; [apply steady_refl|reflexivity]. Qed.

Lemma rolesFrame_trans (s1 s2 s3 : GroupingSet) :
  rolesFrame s1 s2 -> rolesFrame s2 s3 -> rolesFrame s1 s3.
Proof.
  intros [H1 H2] [H3 H4]. split; [eapply steady_trans; eauto|congruence].
Qed.

Lemma mergeFrame_roles (s s' : GroupingSet) : mergeFrame s s' -> rolesFrame s s'.
Proof.
  intros (Hc & _ & Hst & _ & _ & Hi & Ho & _).
  split; [split; congruence|]. unfold spillerRoles. rewrite Hi, Ho. reflexivity.
Qed.

Lemma mergeNext_frame (ext : Externals) (maxOutputRows maxOutputBytes : Z)
    (result result' : RowVector) (s s' : GroupingSet) (more : bool) :
  mergeNext ext maxOutputRows maxOutputBytes result s = Ok (more, result', s') ->
  rolesFrame s s'.
Proof.
  unfold mergeNext, mergeNextWithoutAggregates, mergeNextWithAggregates. intros H.
  destruct (isDistinct s).
  - do 4 apply VELOX_CHECK_inv in H as [_ H].
    destruct (spillConfig_ (config s)); [|discriminate].
    apply VELOX_CHECK_inv in H as [_ H].
    inv_bind H. inv_bind H. destruct a0 as [rows s2]. injection H as <- <- <-.
    apply mergeWithoutAggregatesLoop_frame, mergeFrame_roles in H1.
    eapply rolesFrame_trans; [exact H1|]. repeat split.
  - do 2 apply VELOX_CHECK_inv in H as [_ H].
    apply mergeWithAggregatesLoop_frame, mergeFrame_roles in H. exact H.
Qed.

Lemma getOutputWithSpill_frame (ext : Externals) (maxOutputRows maxOutputBytes : Z)
    (result result' : RowVector) (s s' : GroupingSet) (more : bool) :
  getOutputWithSpill ext maxOutputRows maxOutputBytes result s = Ok (more, result', s') ->
  rolesFrame s s'.
Proof.
  unfold getOutputWithSpill. intros H.
  inv_bind H. destruct a as [done s1].
  assert (Hs1 : rolesFrame s s1).
  { destruct (_ =? -1).
    - unfold openSpillOutput in H0. do 2 apply VELOX_CHECK_inv in H0 as [_ H0].
      destruct (table_ (store s)) as [table|]; [|discriminate].
      apply VELOX_CHECK_inv in H0 as [_ H0].
      apply VELOX_CHECK_inv in H0 as [_ H0].
      inv_bind H0. destruct a as [s2 partitions].
      inv_bind H0. destruct a as [more2 s3].
      apply prepareNextSpillPartitionOutput_frame, mergeFrame_roles in H2.
      assert (Hs3 : s1 = s3).
      { destruct more2; [injection H0 as _ <-; reflexivity|].
        apply VELOX_CHECK_inv in H0 as [_ H0]. injection H0 as _ <-. reflexivity. }
      subst s3. eapply rolesFrame_trans; [|exact H2].
      assert (Hs2 : rolesFrame s s2).
      { destruct (negb (isDistinct s));
          cbn [spilling withSpilling set_spilling withStore set_store
               set_mergeRows_ set_mergeArgs_ inputSpiller_ outputSpiller_] in H1;
          destruct (inputSpiller_ (spilling s)) as [sp|] eqn:Hin.
        all: try (apply VELOX_CHECK_inv in H1 as [_ H1];
                  destruct (finishSpill sp); injection H1 as <- _;
                  unfold rolesFrame, steady, spillerRoles; cbn; rewrite Hin;
                  repeat split).
        all: destruct (outputSpiller_ (spilling s)) as [sp|] eqn:Hout;
          [|discriminate].
        all: destruct (finishSpill sp); injection H1 as <- _;
          unfold rolesFrame, steady, spillerRoles; cbn; rewrite Hin, ?Hout;
          repeat split. }
      eapply rolesFrame_trans; [exact Hs2|]. repeat split.
    - injection H0 as _ <-. apply rolesFrame_refl. }
  destruct done.
  - injection H as _ _ <-. exact Hs1.
  - apply VELOX_CHECK_inv in H as [_ H]. apply mergeNext_frame in H.
    eauto using rolesFrame_trans.
Qed.

Lemma initializeGlobalAggregation_frame (s : GroupingSet) :
  rolesFrame s (initializeGlobalAggregation s)
  /\ spilling (initializeGlobalAggregation s) = spilling s
  /\ inputState (initializeGlobalAggregation s) = inputState s.
Proof.
  unfold initializeGlobalAggregation.
  destruct (globalAggregationInitialized_ (store s)); repeat split.
Qed.

Lemma getGlobalAggregationOutput_frame (iterator iterator' : RowContainerIterator)
    (result result' : RowVector) (s s' : GroupingSet) (more : bool) :
  getGlobalAggregationOutput iterator result s = Ok (more, iterator', result', s') ->
  rolesFrame s s' /\ spilling s' = spilling s.
Proof.
  unfold getGlobalAggregationOutput. intros H.
  destruct (negb _).
  - injection H as _ _ _ <-. split; [apply rolesFrame_refl|reflexivity].
  - destruct (globalRow_ _); [|discriminate]. injection H as _ _ _ <-.
    destruct (initializeGlobalAggregation_frame s) as (Hr & Hsp & _). auto.
Qed.

Lemma getDefaultGlobalGroupingSetOutput_frame (iterator iterator' : RowContainerIterator)
    (result result' : RowVector) (s s' : GroupingSet) (more : bool) :
  getDefaultGlobalGroupingSetOutput iterator result s = Ok (more, iterator', result', s') ->
  rolesFrame s s'.
Proof.
  unfold getDefaultGlobalGroupingSetOutput. intros H.
  apply VELOX_CHECK_inv in H as [_ H].
  destruct (negb _).
  - injection H as _ _ _ <-. apply rolesFrame_refl.
  - inv_bind H. destruct a as [[[produced it2] row] s2].
    apply getGlobalAggregationOutput_frame in H0 as [Hr _].
    apply VELOX_CHECK_inv in H as [_ H].
    destruct (groupIdChannel_ (config s2)); [|discriminate].
    injection H as _ _ _ <-. exact Hr.
Qed.

Lemma getOutput_frame (ext : Externals) (maxOutputRows maxOutputBytes : Z)
    (iterator iterator' : RowContainerIterator) (result result' : RowVector)
    (s s' : GroupingSet) (more : bool) :
  getOutput ext maxOutputRows maxOutputBytes iterator result s
  = Ok (more, iterator', result', s') ->
  rolesFrame s s'.
Proof.
  unfold getOutput. intros H.
  destruct (isGlobal_ (config s)).
  { apply getGlobalAggregationOutput_frame in H as [Hr _]. exact Hr. }
  destruct (hasDefaultGlobalGroupingSetOutput s).
  { apply getDefaultGlobalGroupingSetOutput_frame in H. exact H. }
  inv_bind H. destruct a.
  - inv_bind H. destruct a as [[more2 r2] s2]. injection H as _ _ _ <-.
    apply getOutputWithSpill_frame in H1. exact H1.
  - apply VELOX_CHECK_inv in H as [_ H]. apply vectorOfSize_inv in H as [_ H].
    destruct (table_ (store s)) as [table|].
    + destruct (listRows _ _ _ _ _) as [groups it2].
      destruct (bool_decide _); injection H as _ _ _ <-; repeat split.
    + injection H as _ _ _ <-. apply rolesFrame_refl.
Qed.

(** [spill(rowIterator)] returns normally only when no spiller exists; it then
    does nothing without a table, and otherwise creates the output spiller
    and clears the table. *)
Lemma spillOutput_spec (ext : Externals) (rowIterator : RowContainerIterator)
    (s s' : GroupingSet) :
  spillOutput ext rowIterator s = Ok s' ->
  steady s s'
  /\ inputSpiller_ (spilling s) = None /\ outputSpiller_ (spilling s) = None
  /\ inputSpiller_ (spilling s') = None
  /\ tableIsEmpty s'.
Proof.
  unfold spillOutput. intros H. inv_bind H.
  apply hasSpilled_spec in H0. apply VELOX_CHECK_inv in H as [Hn H].
  subst a. apply negb_true_iff, orb_false_iff in Hn as [Hi Ho].
  destruct (inputSpiller_ (spilling s)) eqn:Hin; [discriminate|].
  destruct (outputSpiller_ (spilling s)) eqn:Hout; [discriminate|].
  destruct (table_ (store s)) as [table|] eqn:Ht.
  - apply VELOX_CHECK_inv in H as [_ H].
    destruct (spillConfig_ (config s)); [|discriminate].
    injection H as <-. unfold tableIsEmpty. cbn. rewrite Hin. repeat split.
  - injection H as <-. unfold tableIsEmpty. rewrite Ht, Hin. repeat split.
Qed.

Lemma noMoreInput_frame (ext : Externals) (s s' : GroupingSet) :
  noMoreInput ext s = Ok s' ->
  steady s s' /\ atMostOneSpiller s'.
Proof.
  unfold noMoreInput. intros H.
  inv_bind H. rename a into s1. apply VELOX_CHECK_inv in H as [Hout H].
  inv_bind H. rename a into s2.
  apply ensureOutputFits_spec in H as (Hst & _ & Hone & _).
  assert (Hs1 : steady s s1 /\ spilling s1 = spilling s).
  { destruct (isSome (remainingInput_ _)).
    - apply addRemainingInput_frame in H0 as (Hc & Hsp1 & _ & _ & _ & _ & _ & Hab).
      repeat split; assumption.
    - injection H0 as <-. repeat split. }
  destruct Hs1 as [Hst1 Hsp1].
  destruct (outputSpiller_ (spilling s1)) eqn:Hout1; [discriminate|].
  assert (Hs2 : steady s1 s2
                /\ outputSpiller_ (spilling s2) = None
                /\ isSome (inputSpiller_ (spilling s2))
                   = isSome (inputSpiller_ (spilling s1))).
  { destruct (inputSpiller_ (spilling s1)) as [sp|] eqn:Hin1; cbn [isSome] in H1.
    - apply spill_spec in H1 as (Hst2 & _ & _ & _ & _ & Hcases).
      split; [exact Hst2|].
      destruct Hcases as [(_ & Hsame & _)|(t & sp' & _ & _ & _ & Ho & _ & Hi & _)].
      + rewrite Hsame, Hout1, Hin1. split; reflexivity.
      + rewrite Ho, Hi. split; reflexivity.
    - injection H1 as <-. rewrite Hout1, Hin1. repeat split. }
  destruct Hs2 as (Hst2 & Hout2 & Hin2).
  split; [eauto using steady_trans|].
  apply Hone. unfold atMostOneSpiller. rewrite Hout2. apply andb_false_r.
Qed.

(** ** The two spiller roles *)

Lemma construct_fresh (ext : Externals) (a : GroupingSetArgs) (s : GroupingSet) :
  construct ext a = Ok s ->
  inputSpiller_ (spilling s) = None /\ outputSpiller_ (spilling s) = None
  /\ abandonedPartialAggregation_ (store s) = false.
Proof.
  unfold construct. intros H.
  do 2 apply VELOX_CHECK_inv in H as [_ H].
  inv_bind H. inv_bind H. inv_bind H. injection H as <-. repeat split.
Qed.

Lemma abandonPartialAggregation_frame (s s' : GroupingSet) :
  abandonPartialAggregation s = Ok s' ->
  config s' = config s /\ spilling s' = spilling s
  /\ abandonedPartialAggregation_ (store s') = true.
Proof.
  unfold abandonPartialAggregation. intros H. cbn in H.
  destruct (table_ (store s)); [|discriminate].
  apply VELOX_CHECK_inv in H as [_ H]. injection H as <-. repeat split.
Qed.

Lemma called_many_frame (n : list nat) (s : GroupingSet) :
  let s' := foldl (fun s _ => called CallNewRow s) s n in
  config s' = config s /\ spilling s' = spilling s /\ store s' = store s
  /\ inputState s' = inputState s.
Proof.
  revert s. induction n as [|x n IH]; intros s; cbn; [repeat split|].
  destruct (IH (called CallNewRow s)) as (?&?&?&?). repeat split; assumption.
Qed.

Lemma toIntermediateStep_frame (input : RowVector) (numKeys : nat)
    (entries : list (nat * AggregateInfo)) :
  forall (out : RowVector) (s : GroupingSet),
    let r := foldl (toIntermediateStep input numKeys) (out, s) entries in
    config r.2 = config s /\ spilling r.2 = spilling s /\ store r.2 = store s.
Proof.
  induction entries as [|[i agg] entries IH]; intros out s; cbn; [repeat split|].
  destruct (IH (setChild (i + numKeys) (intermediateColumn s input i agg) out)
               (called (CallToIntermediate i) s)) as (?&?&?).
  repeat split; assumption.
Qed.

Lemma allocateIntermediateGroups_frame (numRows : nat) (s : GroupingSet) :
  let s' := allocateIntermediateGroups numRows s in
  config s' = config s /\ spilling s' = spilling s /\ store s' = store s.
Proof.
  unfold allocateIntermediateGroups. destruct (negb _); [|repeat split].
  destruct (called_many_frame (seq 0 numRows) s) as (?&?&?&?).
  repeat split; assumption.
Qed.

Lemma toIntermediate_frame (input result result' : RowVectorPtr) (s s' : GroupingSet) :
  toIntermediate input result s = Ok (result', s') ->
  steady s s' /\ spilling s' = spilling s.
Proof.
  unfold toIntermediate. intros H.
  do 2 apply VELOX_CHECK_inv in H as [_ H].
  destruct (negb (isRawInput_ (config s))).
  { injection H as _ <-. repeat split. }
  match type of H with
  | (let '(out, s) := foldl ?f (?o, ?s0) ?l in _) = _ =>
      pose proof (toIntermediateStep_frame (target input)
                    (length (keyChannels_ (config s0))) l o s0) as Hf;
      destruct (foldl f (o, s0) l) as [out s2]
  end.
  injection H as _ <-. cbn [snd] in Hf. destruct Hf as (Hc & Hsp & Hst).
  destruct (allocateIntermediateGroups_frame (rv_size (target input))
              (withInput (set_activeRows_ (allSelected (rv_size (target input)))) s))
    as (Hc0 & Hsp0 & Hst0).
  cbn zeta in Hc0, Hsp0, Hst0.
  unfold steady. rewrite Hc, Hsp, Hst, Hc0, Hsp0, Hst0. repeat split.
Qed.

Lemma perform_keeps_one_spiller (ext : Externals) (op : Operation) (s s' : GroupingSet) :
  perform ext op s = Ok s' -> atMostOneSpiller s -> atMostOneSpiller s'.
Proof.
  unfold atMostOneSpiller. intros H Hinv.
  destruct op; cbn [perform] in H.
  - apply addInput_frame in H as (_ & Hsp & _). rewrite Hsp. exact Hinv.
  - apply noMoreInput_frame in H as (_ & Hone). exact Hone.
  - apply spill_spec in H as (_ & _ & _ & _ & _ & Hcases).
    destruct Hcases as [(_ & Hsame & _)|(t & sp & _ & _ & _ & Ho & _)].
    + rewrite Hsame. exact Hinv.
    + rewrite Ho. apply andb_false_r.
  - apply spillOutput_spec in H as (_ & _ & _ & Hi & _). rewrite Hi. reflexivity.
  - inv_bind H. destruct a as [[[more it] r] s2]. injection H as <-.
    apply getOutput_frame in H0 as [_ Hr]. unfold spillerRoles in Hr.
    injection Hr as -> ->. exact Hinv.
  - injection H as <-. unfold resetTable. destruct (table_ (store s)); exact Hinv.
  - apply abandonPartialAggregation_frame in H as (_ & Hsp & _). rewrite Hsp. exact Hinv.
  - inv_bind H. destruct a as [r s2]. injection H as <-.
    apply toIntermediate_frame in H0 as [_ Hsp]. rewrite Hsp. exact Hinv.
Qed.

(** C7 (amended): in every reachable state of a grouping set at most one of
    [inputSpiller_] and [outputSpiller_] is non-null; [spill(rowIterator)]
    fails the check [!hasSpilled()] whenever a spiller exists; [spill()] fails
    the check that [outputSpiller_] is null when an output spiller exists and
    the table holds a group, and returns without doing anything when the table
    is null or holds no group, whichever spiller exists. *)
Theorem C7_at_most_one_spiller (ext : Externals) :
  (forall s, reachable ext s -> atMostOneSpiller s)
  /\ (forall s rowIterator,
        isSome (inputSpiller_ (spilling s)) || isSome (outputSpiller_ (spilling s)) = true ->
        exists check, spillOutput ext rowIterator s = Err (VeloxRuntimeError check))
  /\ (forall s table,
        isSome (outputSpiller_ (spilling s)) = true ->
        table_ (store s) = Some table -> numDistinct table <> 0%nat ->
        spill ext s = Err (VeloxRuntimeError "outputSpiller_ is null"))
  /\ (forall s, tableIsEmpty s -> spill ext s = Ok (called CallSpill s)).
Proof.
  split; [|split; [|split]].
  - intros s Hr. induction Hr as [a s Hc|op s s' _ IH Hp].
    + apply construct_fresh in Hc as (Hi & Ho & _).
      unfold atMostOneSpiller. rewrite Hi. reflexivity.
    + eapply perform_keeps_one_spiller; eauto.
  - intros s it Hs. unfold spillOutput, hasSpilled.
    destruct (inputSpiller_ (spilling s)), (outputSpiller_ (spilling s)); cbn in *;
      try discriminate; eauto.
  - intros s table Ho Ht Hn. unfold spill. cbn [store called set_calls_ table_ spilling].
    rewrite Ht. apply Nat.eqb_neq in Hn. rewrite Hn.
    destruct (outputSpiller_ (spilling s)); [reflexivity|discriminate].
  - intros s He. unfold spill, tableIsEmpty in *.
    cbn [store called set_calls_ table_ spilling].
    destruct (table_ (store s)) as [table|]; [|reflexivity].
    rewrite He. reflexivity.
Qed.

(** C7 as stated fails: after the output was spilled the table is empty, and
    [spill()] with the output spiller in place returns normally instead of
    failing an assertion. The state is reached by [addInput], [noMoreInput]
    and [spill(rowIterator)]. *)
Lemma C7_counterexample_spill_after_output_spill :
  isSome (outputSpiller_ (spilling sumByKeyOutputSpilled)) = true
  /\ spill sampleExternals sumByKeyOutputSpilled
     = Ok (called CallSpill sumByKeyOutputSpilled).
Proof. split; vm_compute; reflexivity. Qed.

(** ** Abandoned partial aggregation *)

Lemma perform_steady (ext : Externals) (op : Operation) (s s' : GroupingSet) :
  op <> OpAbandonPartialAggregation ->
  perform ext op s = Ok s' ->
  steady s s'.
Proof.
  intros Hop H. destruct op; cbn [perform] in H; try contradiction.
  - apply addInput_frame in H as (Hs & _). exact Hs.
  - apply noMoreInput_frame in H as (Hs & _). exact Hs.
  - apply spill_spec in H as (Hs & _). exact Hs.
  - apply spillOutput_spec in H as (Hs & _). exact Hs.
  - inv_bind H. destruct a as [[[more it] r] s2]. injection H as <-.
    apply getOutput_frame in H0 as [Hs _]. exact Hs.
  - injection H as <-. unfold resetTable. destruct (table_ (store s)); repeat split.
  - inv_bind H. destruct a as [r s2]. injection H as <-.
    apply toIntermediate_frame in H0 as [Hs _]. exact Hs.
Qed.

Lemma reachableBeforeAbandon_flag (ext : Externals) (s : GroupingSet) :
  reachableBeforeAbandon ext s -> abandonedPartialAggregation_ (store s) = false.
Proof.
  induction 1 as [a s Hc|op s s' _ IH Hop Hp].
  - apply construct_fresh in Hc as (_ & _ & Hab). exact Hab.
  - apply perform_steady in Hp as [_ Hab]; [|exact Hop]. congruence.
Qed.

(** C10 (amended): [toIntermediate] fails the check of
    [abandonedPartialAggregation_] in every state reached without a call of
    [abandonPartialAggregation]. Once [abandonPartialAggregation] has
    returned, for a grouping set constructed with [isRawInput] false:
    [toIntermediate] with a [result] pointer that is the only reference to
    its vector sets [result] to the input batch itself and changes nothing
    else (no aggregate is converted, no mask is applied, no scratch row is
    allocated); with a [result] pointer that is shared it fails the check
    [result.use_count() == 1]. *)
Theorem C10_toIntermediate_passes_input_through (ext : Externals) :
  (forall s input result,
     reachableBeforeAbandon ext s ->
     toIntermediate input result s = Err (VeloxRuntimeError "abandonedPartialAggregation_"))
  /\ (forall s s1 input result,
        abandonPartialAggregation s = Ok s1 ->
        isRawInput_ (config s) = false ->
        (use_count result = 1%nat ->
         toIntermediate input result s1
         = Ok ({| use_count := S (use_count input); target := target input |}, s1))
        /\ (use_count result <> 1%nat ->
            toIntermediate input result s1
            = Err (VeloxRuntimeError "result.use_count() == 1"))).
Proof.
  split.
  - intros s input result Hr. apply reachableBeforeAbandon_flag in Hr.
    unfold toIntermediate. rewrite Hr. reflexivity.
  - intros s s1 input result Ha Hraw.
    apply abandonPartialAggregation_frame in Ha as (Hc & _ & Hab).
    unfold toIntermediate. rewrite Hab, Hc, Hraw. cbn. split.
    + intros ->. reflexivity.
    + intros Hn. apply Nat.eqb_neq in Hn. rewrite Hn. reflexivity.
Qed.

(** C10 as stated fails when the caller still shares the result vector: the
    grouping set was constructed with [isRawInput] false and was abandoned,
    yet [toIntermediate] fails a check and [result] is not set. *)
Lemma C10_counterexample_shared_result :
  abandonedPartialAggregation_ (store partialSumAbandoned) = true
  /\ isRawInput_ (config partialSumAbandoned) = false
  /\ toIntermediate
       {| use_count := 1; target := batchOf [[Some 1]; [Some 10]] |}
       {| use_count := 2; target := emptyResult 2 |}
       partialSumAbandoned
     = Err (VeloxRuntimeError "result.use_count() == 1").
Proof. repeat split; vm_compute; reflexivity. Qed.

(** ** Output of the default global grouping sets *)

Lemma length_resizeVector (n : nat) (c : Vector) : length (resizeVector n c) = n.
Proof.
  unfold resizeVector. rewrite length_app, length_take, length_replicate. lia.
Qed.

(** A loop that sets every cell of a column. *)
Lemma foldl_insert_lookup {A} (f : nat -> A) (js : list nat) :
  forall (l : list A) (k : nat),
    (k < length l)%nat ->
    foldl (fun column j => <[j := f j]> column) l js !! k
    = if decide (k ∈ js) then Some (f k) else l !! k.
Proof.
  induction js as [|j js IH]; intros l k Hk; cbn [foldl].
  - rewrite decide_False by (intros Hin; inversion Hin). reflexivity.
  - rewrite IH by (rewrite length_insert; exact Hk).
    destruct (decide (k ∈ js)) as [Hin|Hnin].
    + rewrite decide_True by (right; exact Hin). reflexivity.
    + destruct (decide (k = j)) as [->|Hne].
      * rewrite decide_True by left. apply list_lookup_insert_eq. exact Hk.
      * rewrite decide_False.
        -- apply list_lookup_insert_ne. congruence.
        -- intros Hin. apply elem_of_cons in Hin as [?|?]; contradiction.
Qed.

Lemma foldl_insert_length {A} (f : nat -> A) (js : list nat) (l : list A) :
  length (foldl (fun column j => <[j := f j]> column) l js) = length l.
Proof.
  revert l. induction js as [|j js IH]; intros l; cbn [foldl]; [reflexivity|].
  rewrite IH. apply length_insert.
Qed.

Lemma foldl_insert_all {A} (f : nat -> A) (n : nat) (l : list A) :
  length l = n ->
  foldl (fun column j => <[j := f j]> column) l (seq 0 n) = map f (seq 0 n).
Proof.
  intros Hl. apply list_eq. intros k.
  destruct (decide (k < n)%nat) as [Hk|Hk].
  - rewrite foldl_insert_lookup by lia.
    rewrite decide_True by (apply elem_of_seq; lia).
    rewrite list_lookup_fmap, lookup_seq_lt by exact Hk. reflexivity.
  - rewrite !lookup_ge_None_2; [reflexivity| |].
    + rewrite length_map, length_seq. lia.
    + rewrite foldl_insert_length. lia.
Qed.

(** A loop that replaces columns of a row vector, column [c] by [K c]. *)
Lemma foldl_setChild_lookup (K : nat -> Vector) (cs : list nat) :
  forall (r : RowVector) (c : nat),
    (c < length (rv_children r))%nat ->
    rv_children (foldl (fun r c => setChild c (K c) r) r cs) !! c
    = if decide (c ∈ cs) then Some (K c) else rv_children r !! c.
Proof.
  induction cs as [|x cs IH]; intros r c Hc; cbn [foldl].
  - rewrite decide_False by (intros Hin; inversion Hin). reflexivity.
  - rewrite IH by (cbn; rewrite length_insert; exact Hc).
    destruct (decide (c ∈ cs)) as [Hin|Hnin].
    + rewrite decide_True by (right; exact Hin). reflexivity.
    + cbn. destruct (decide (c = x)) as [->|Hne].
      * rewrite decide_True by left. apply list_lookup_insert_eq. exact Hc.
      * rewrite decide_False.
        -- apply list_lookup_insert_ne. congruence.
        -- intros Hin. apply elem_of_cons in Hin as [?|?]; contradiction.
Qed.

Lemma foldl_setChild_frame (K : nat -> Vector) (cs : list nat) (r : RowVector) :
  rv_size (foldl (fun r c => setChild c (K c) r) r cs) = rv_size r
  /\ length (rv_children (foldl (fun r c => setChild c (K c) r) r cs))
     = length (rv_children r).
Proof.
  revert r. induction cs as [|x cs IH]; intros r; cbn [foldl]; [split; reflexivity|].
  destruct (IH (setChild x (K x) r)) as [Hs Hl]. rewrite Hs, Hl. cbn.
  rewrite length_insert. split; reflexivity.
Qed.

Lemma groupIdColumn_eq (globalGroupingSets : list Z) (column : Vector) :
  groupIdColumn globalGroupingSets column = map Some globalGroupingSets.
Proof.
  unfold groupIdColumn. cbn zeta.
  rewrite (@foldl_insert_all Value (fun j => Some (default 0 (globalGroupingSets !! j))))
    by apply length_resizeVector.
  apply list_eq. intros k. rewrite !list_lookup_fmap.
  destruct (globalGroupingSets !! k) as [id|] eqn:Hk.
  - rewrite lookup_seq_lt by (eapply lookup_lt_Some; exact Hk). cbn. rewrite Hk. reflexivity.
  - rewrite lookup_seq_ge by (apply lookup_ge_None; exact Hk). reflexivity.
Qed.

Lemma map_const_seq {A} (v : A) (n : nat) : map (fun _ => v) (seq 0 n) = replicate n v.
Proof.
  apply list_eq. intros k. rewrite list_lookup_fmap.
  destruct (decide (k < n)%nat) as [Hk|Hk].
  - rewrite lookup_seq_lt, lookup_replicate_2 by exact Hk. reflexivity.
  - rewrite lookup_seq_ge by lia. symmetry. apply lookup_replicate_None. lia.
Qed.

Lemma nullKeyColumn_eq (n : nat) (column : Vector) :
  nullKeyColumn n column = replicate n None.
Proof.
  unfold nullKeyColumn.
  rewrite (@foldl_insert_all Value (fun _ => None)) by apply length_resizeVector.
  apply map_const_seq.
Qed.

Lemma copiedAggregateColumn_eq (source : Vector) (n : nat) (column : Vector) :
  copiedAggregateColumn source n column = replicate n (valueAt source 0).
Proof.
  unfold copiedAggregateColumn.
  rewrite (@foldl_insert_all Value (fun _ => valueAt source 0)) by apply length_resizeVector.
  apply map_const_seq.
Qed.

Lemma foldl_ext_in {A B} (f g : A -> B -> A) (l : list B) :
  (forall a b, b ∈ l -> f a b = g a b) ->
  forall a, foldl f a l = foldl g a l.
Proof.
  induction l as [|b l IH]; intros Hfg a; cbn [foldl]; [reflexivity|].
  rewrite Hfg by left. apply IH. intros a' b' Hb'. apply Hfg. right. exact Hb'.
Qed.

Lemma foldl_map {A B C} (f : A -> C -> A) (g : B -> C) (l : list B) (a : A) :
  foldl f a (map g l) = foldl (fun a b => f a (g b)) a l.
Proof. revert a. induction l as [|b l IH]; intros a; cbn; [reflexivity|apply IH]. Qed.

Lemma firstAggregateColumn_le (aggregates : list AggregateInfo) :
  forall numColumns : nat,
    (firstAggregateColumn numColumns aggregates <= numColumns)%nat
    /\ forall a, a ∈ aggregates ->
         (firstAggregateColumn numColumns aggregates <= output a)%nat.
Proof.
  unfold firstAggregateColumn.
  induction aggregates as [|x aggregates IH]; intros n; cbn [foldl].
  - split; [lia|]. intros a Ha. inversion Ha.
  - destruct (IH (Nat.min n (output x))) as [Hle Hall]. split; [lia|].
    intros a Ha. apply elem_of_cons in Ha as [->|Ha]; [lia|]. apply Hall, Ha.
Qed.

(** C4: for a grouping set with default global grouping sets (ids declared, no
    input row), a fresh iterator and a group-id column among the grouping-key
    columns, [getDefaultGlobalGroupingSetOutput] returns true with one row per
    declared global grouping-set id: every column before the first aggregate
    column is null in every row, except the group-id column, which holds the
    ids in order; and every aggregate column holds, in every row, the cell of
    that column in the single row [getGlobalAggregationOutput] computes. *)
Theorem C4_default_global_grouping_sets (iterator : RowContainerIterator)
    (result : RowVector) (s : GroupingSet) (groupIdChannel : column_index_t) :
  let ids := globalGroupingSets_ (config s) in
  let numColumns := length (rv_children result) in
  let firstAggregateCol := firstAggregateColumn numColumns (aggregates_ (config s)) in
  hasDefaultGlobalGroupingSetOutput s = true ->
  allocationIndex iterator = 0 ->
  globalRowAllocated s ->
  groupIdChannel_ (config s) = Some groupIdChannel ->
  (N.to_nat groupIdChannel < firstAggregateCol)%nat ->
  Forall (fun a => (output a < numColumns)%nat) (aggregates_ (config s)) ->
  exists globalAggregatesRow result',
    getGlobalAggregationOutput iterator (createRowVector numColumns 1) s
    = Ok (true, setAllocationIndex INT32_MAX iterator, globalAggregatesRow,
          initializeGlobalAggregation s)
    /\ getDefaultGlobalGroupingSetOutput iterator result s
       = Ok (true, setAllocationIndex INT32_MAX iterator, result',
             initializeGlobalAggregation s)
    /\ rv_size result' = length ids
    /\ length (rv_children result') = numColumns
    /\ (forall c column, rv_children result' !! c = Some column ->
          length column = length ids)
    /\ (forall i, (i < firstAggregateCol)%nat ->
          childAt result' i
          = if (N.of_nat i =? groupIdChannel)%N
            then map Some ids
            else replicate (length ids) None)
    /\ (forall a, a ∈ aggregates_ (config s) ->
          childAt result' (output a)
          = replicate (length ids)
              (valueAt (childAt globalAggregatesRow (output a)) 0)).
Proof.
  intros ids numColumns first Hdefault Hit Halloc Hgid Hkey Hout.
  assert (Hrow : exists group, globalRow_ (store (initializeGlobalAggregation s)) = Some group).
  { unfold initializeGlobalAggregation, globalRowAllocated in *.
    destruct (globalAggregationInitialized_ (store s)).
    - destruct (globalRow_ (store s)); [eauto|]. specialize (Halloc eq_refl). discriminate.
    - cbn. eauto. }
  destruct Hrow as [group Hrow].
  destruct (initializeGlobalAggregation_frame s) as ([[Hc _] _] & _ & _).
  set (s1 := initializeGlobalAggregation s) in *.
  set (row := extractAggregates s1 (fun _ aggregate => output aggregate) [group]
                (createRowVector numColumns 1)).
  assert (Hglobal : getGlobalAggregationOutput iterator (createRowVector numColumns 1) s
                    = Ok (true, setAllocationIndex INT32_MAX iterator, row, s1)).
  { unfold getGlobalAggregationOutput. rewrite Hit. cbn [Z.eqb negb]. fold s1.
    rewrite Hrow. reflexivity. }
  set (n := length ids).
  set (K1 := fun i : nat =>
               if (N.of_nat i =? groupIdChannel)%N then map Some ids
               else replicate n None).
  set (K2 := fun c : nat => replicate n (valueAt (childAt row c) 0)).
  set (R0 := resizeRowVector n result).
  set (R1 := foldl (fun r c => setChild c (K1 c) r) R0 (seq 0 first)).
  set (R2 := foldl (fun r c => setChild c (K2 c) r) R1
               (map output (aggregates_ (config s)))).
  assert (HR0 : length (rv_children R0) = numColumns).
  { unfold R0, resizeRowVector. cbn. apply length_map. }
  destruct (foldl_setChild_frame K1 (seq 0 first) R0) as [Hs1 Hl1]. fold R1 in Hs1, Hl1.
  destruct (foldl_setChild_frame K2 (map output (aggregates_ (config s))) R1)
    as [Hs2 Hl2]. fold R2 in Hs2, Hl2.
  destruct (firstAggregateColumn_le (aggregates_ (config s)) numColumns) as [Hfle Hfout].
  fold first in Hfle, Hfout.
  exists row, R2. split; [exact Hglobal|]. split.
  { unfold getDefaultGlobalGroupingSetOutput. rewrite Hdefault. cbn [VELOX_CHECK].
    cbn [mbind result_bind]. rewrite Hit. cbn [Z.eqb negb]. fold numColumns.
    rewrite Hglobal. cbn [mbind result_bind VELOX_CHECK]. rewrite Hc, Hgid.
    fold ids. fold n. fold R0. rewrite HR0. fold first.
    do 4 f_equal.
    match goal with
    | |- foldl _ (foldl ?f R0 _) _ = _ =>
        assert (Hph1 : foldl f R0 (seq 0 first) = R1)
    end.
    { apply foldl_ext_in. intros r i _. unfold K1.
      destruct (N.of_nat i =? groupIdChannel)%N.
      - rewrite groupIdColumn_eq. reflexivity.
      - rewrite nullKeyColumn_eq. reflexivity. }
    rewrite Hph1. unfold R2. rewrite foldl_map.
    apply foldl_ext_in. intros a b _. rewrite copiedAggregateColumn_eq. reflexivity. }
  assert (Hcol1 : forall c, (c < first)%nat -> rv_children R1 !! c = Some (K1 c)).
  { intros c Hc1. unfold R1. rewrite foldl_setChild_lookup by lia.
    rewrite decide_True by (apply elem_of_seq; lia). reflexivity. }
  assert (Hcol2 : forall c, (c < numColumns)%nat ->
            rv_children R2 !! c
            = if decide (c ∈ map output (aggregates_ (config s)))
              then Some (K2 c) else rv_children R1 !! c).
  { intros c Hc2. unfold R2. apply foldl_setChild_lookup. lia. }
  split; [rewrite Hs2, Hs1; reflexivity|]. split; [lia|]. split; [|split].
  - intros c column Hlook.
    pose proof (lookup_lt_Some (rv_children R2) c column Hlook) as Hlt.
    change (c < length (rv_children R2))%nat in Hlt. rewrite Hl2, Hl1, HR0 in Hlt.
    rewrite Hcol2 in Hlook by exact Hlt.
    destruct (decide _).
    + injection Hlook as <-. apply length_replicate.
    + unfold R1 in Hlook. rewrite foldl_setChild_lookup in Hlook by lia.
      destruct (decide _).
      * injection Hlook as <-. unfold K1.
        destruct (_ =? _)%N; [apply length_map|apply length_replicate].
      * unfold R0, resizeRowVector in Hlook. cbn in Hlook.
        rewrite list_lookup_fmap in Hlook.
        destruct (rv_children result !! c); [|discriminate].
        injection Hlook as <-. apply length_resizeVector.
  - intros i Hi. unfold childAt. rewrite Hcol2 by lia.
    rewrite decide_False.
    + rewrite Hcol1 by exact Hi. reflexivity.
    + intros Hin. apply list_elem_of_fmap in Hin as (a & -> & Ha).
      specialize (Hfout a Ha). lia.
  - intros a Ha. unfold childAt. rewrite Hcol2.
    + rewrite decide_True by (apply list_elem_of_fmap; eauto). reflexivity.
    + rewrite Forall_forall in Hout. apply Hout, Ha.
Qed.

(** C4 at the example of the specification: the ids 0 and 1 and no input
    row. *)
Lemma C4_default_global_grouping_sets_witness :
  exists globalAggregatesRow result',
    getDefaultGlobalGroupingSetOutput freshIterator (emptyResult 4) groupingSetsNoInput
    = Ok (true, setAllocationIndex INT32_MAX freshIterator, result',
          initializeGlobalAggregation groupingSetsNoInput)
    /\ rv_size result' = 2%nat
    /\ childAt result' 0 = [None; None]
    /\ childAt result' 1 = [Some 0; Some 1]
    /\ childAt result' 2 = replicate 2 (valueAt (childAt globalAggregatesRow 2) 0)
    /\ childAt result' 3 = replicate 2 (valueAt (childAt globalAggregatesRow 3) 0).
Proof.
  destruct (C4_default_global_grouping_sets freshIterator (emptyResult 4)
              groupingSetsNoInput 1%N)
    as (row & result' & _ & Hout & Hsize & _ & _ & Hkeys & Haggs).
  - reflexivity.
  - reflexivity.
  - intros H. vm_compute in H. discriminate.
  - reflexivity.
  - vm_compute. lia.
  - repeat constructor.
  - exists row, result'. split; [exact Hout|]. split; [exact Hsize|].
    split; [apply (Hkeys 0%nat); vm_compute; lia|].
    split; [apply (Hkeys 1%nat); vm_compute; lia|].
    split.
    + apply (Haggs countOutput2). left.
    + apply (Haggs sumOutput3). right. left.
Defined.

(** The example of the specification, evaluated: two rows, the key null and
    the group id 0 and 1, [count = 0] and [sum = null] in both. *)
Example global_grouping_sets_example :
  ('(more, _, result, _) ←
     getOutput sampleExternals 10 1000 freshIterator (emptyResult 4) groupingSetsNoInput;
   Ok (more, result))
  = Ok (true,
        {| rv_size := 2;
           rv_children := [[None; None]; [Some 0; Some 1];
                           [Some 0; Some 0]; [None; None]] |}).
Proof. vm_compute. reflexivity. Qed.

(** ** Distinct-only recovery: runs of equal keys *)

Lemma runsOf_head (keyOf : SpillRow -> list Value) (e : MergeEntry)
    (rest : list MergeEntry) :
  exists run runs, runsOf keyOf (e :: rest) = (e :: run) :: runs.
Proof.
  cbn [runsOf]. destruct (runsOf keyOf rest) as [|[|e' run] runs]; eauto.
  destruct (bool_decide _); eauto.
Qed.

(** The runs split the stream, no run is empty, and the rows of a run have
    one key. *)
Lemma runsOf_partition (keyOf : SpillRow -> list Value) (m : list MergeEntry) :
  concat (runsOf keyOf m) = m
  /\ Forall (fun run =>
               run <> []
               /\ forall x y, x ∈ run -> y ∈ run -> keyOf (me_row x) = keyOf (me_row y))
            (runsOf keyOf m).
Proof.
  induction m as [|e rest [IHc IHf]]; cbn [runsOf]; [split; [reflexivity|constructor]|].
  destruct (runsOf keyOf rest) as [|[|e' run] runs] eqn:Hr.
  - cbn in IHc. subst rest. split; [reflexivity|].
    repeat constructor; [discriminate|].
    intros x y Hx Hy. apply list_elem_of_singleton in Hx, Hy. congruence.
  - apply Forall_cons in IHf as [[Hne _] _]. contradiction.
  - apply Forall_cons in IHf as [[_ Hkeys] IHf].
    destruct (bool_decide _) eqn:Hk.
    + apply bool_decide_eq_true in Hk. split; [cbn in *; congruence|].
      constructor; [|exact IHf]. split; [discriminate|].
      assert (He : forall x, x ∈ e :: e' :: run -> keyOf (me_row x) = keyOf (me_row e')).
      { intros x Hx. apply elem_of_cons in Hx as [->|Hx]; [exact Hk|].
        apply Hkeys; [exact Hx|left]. }
      intros x y Hx Hy. rewrite (He x Hx), (He y Hy). reflexivity.
    + split; [cbn in *; congruence|].
      constructor; [|constructor; [split; [discriminate|exact Hkeys]|exact IHf]].
      split; [discriminate|].
      intros x y Hx Hy. apply list_elem_of_singleton in Hx, Hy. congruence.
Qed.

Lemma partitionOutputFrom_true (keyOf : SpillRow -> list Value) (n : nat)
    (m : list MergeEntry) :
  partitionOutputFrom keyOf n true m = partitionOutput keyOf n m.
Proof.
  unfold partitionOutputFrom, partitionOutput.
  destruct (runsOf keyOf m); reflexivity.
Qed.

(** Reading one row of the stream, as the loop of
    [mergeNextWithoutAggregates] does. *)
Lemma partitionOutputFrom_step (keyOf : SpillRow -> list Value) (n : nat)
    (newDistinct : bool) (e : MergeEntry) (rest : list MergeEntry) (equal : bool) :
  nextWithEquals keyOf (e :: rest) = Some (e, equal) ->
  let newDistinct' := if (me_stream e <? n)%nat then false else newDistinct in
  partitionOutputFrom keyOf n newDistinct (e :: rest)
  = if equal
    then partitionOutputFrom keyOf n newDistinct' rest
    else (if newDistinct' then [me_row e] else []) ++ partitionOutput keyOf n rest.
Proof.
  cbn [nextWithEquals]. intros H. injection H as <-.
  unfold partitionOutputFrom, partitionOutput. cbn [runsOf].
  destruct (me_stream e <? n)%nat eqn:Hs.
  - destruct rest as [|e' rest'].
    + cbn [runsOf map concat]. unfold runOutput. cbn [existsb]. rewrite Hs.
      destruct newDistinct; reflexivity.
    + destruct (runsOf_head keyOf e' rest') as (run & runs & Hr). rewrite Hr.
      destruct (bool_decide _); cbn [map concat].
      * unfold runOutput. cbn [existsb]. rewrite Hs. cbn [orb].
        destruct newDistinct; reflexivity.
      * unfold runOutput at 1. cbn [existsb]. rewrite Hs. cbn [orb].
        destruct newDistinct; reflexivity.
  - destruct rest as [|e' rest'].
    + cbn [runsOf map concat]. unfold runOutput. cbn [existsb last]. rewrite Hs.
      destruct newDistinct; reflexivity.
    + destruct (runsOf_head keyOf e' rest') as (run & runs & Hr). rewrite Hr.
      destruct (bool_decide _); cbn [map concat].
      * unfold runOutput. cbn [existsb]. rewrite Hs. cbn [orb].
        destruct newDistinct; [|reflexivity].
        change (last (e :: e' :: run)) with (last (e' :: run)). reflexivity.
      * unfold runOutput at 1. cbn [existsb last]. rewrite Hs. cbn [orb].
        destruct newDistinct; reflexivity.
Qed.

(** ** Distinct-only recovery: what is still to come *)

Lemma length_insertEntry (le : SpillRow -> SpillRow -> bool) (e : MergeEntry)
    (l : list MergeEntry) :
  length (insertEntry le e l) = S (length l).
Proof.
  induction l as [|x l IH]; cbn; [reflexivity|].
  destruct (le _ _); cbn; [reflexivity|]. rewrite IH. reflexivity.
Qed.

Lemma length_createOrderedReader (le : SpillRow -> SpillRow -> bool)
    (files : list SpillFile) :
  length (createOrderedReader le files) = length (concat files).
Proof.
  unfold createOrderedReader.
  assert (Hsort : forall l : list MergeEntry,
            length (foldr (insertEntry le) [] l) = length l).
  { induction l as [|x l IH]; cbn; [reflexivity|].
    rewrite length_insertEntry, IH. reflexivity. }
  rewrite Hsort.
  assert (Himap : forall (f : nat -> SpillFile -> list MergeEntry),
            (forall id file, length (f id file) = length file) ->
            length (concat (imap f files)) = length (concat files)).
  { induction files as [|file files IH]; intros f Hf; cbn; [reflexivity|].
    rewrite !length_app, Hf. f_equal. apply IH. intros id file'. apply Hf. }
  apply Himap. intros id file. apply length_map.
Qed.

Lemma prepareNextSpillPartitionOutput_ready (ext : Externals) (s : GroupingSet) :
  mergeReady s ->
  match spillPartitionSet_ (spilling s) with
  | [] =>
      prepareNextSpillPartitionOutput ext s
      = Ok (false, withSpilling (set_merge_ None) s)
  | (partition, files) :: rest =>
      prepareNextSpillPartitionOutput ext s
      = Ok (true,
            withSpilling (fun st =>
              set_spillPartitionSet_ rest
                (set_merge_ (Some (readerOf ext s files))
                   (set_outputSpillPartition_ (Z.of_nat partition) st))) s)
  end.
Proof.
  intros (m & p & Hm & Hp & Hcount & Hok).
  unfold prepareNextSpillPartitionOutput. rewrite Hm, Hp.
  replace (Z.of_nat p =? -1) with false by (symmetry; apply Z.eqb_neq; lia).
  cbn [isNone isSome negb eqb VELOX_CHECK mbind result_bind].
  cbn [spilling withSpilling set_spilling set_merge_ spillPartitionSet_
       outputSpillPartition_].
  destruct (spillPartitionSet_ (spilling s)) as [|[q files] rest]; [reflexivity|].
  destruct Hok as (Hne & _ & _). rewrite Hp.
  replace (Z.of_nat p =? Z.of_nat q) with false by (symmetry; apply Z.eqb_neq; lia).
  reflexivity.
Qed.

(** The loop of [mergeNextWithoutAggregates] emits the next rows of what is
    still to come, whole runs at a time, and stops at [maxOutputRows] rows or
    at the end of a partition that gave rows; it ends without a row only when
    every partition is read to its end. *)
Lemma mergeWithoutAggregatesLoop_spec (ext : Externals) (maxOutputRows : Z) :
  0 < maxOutputRows ->
  forall (budget : nat) (newDistinct : bool) (rows : list SpillRow) (s : GroupingSet),
    mergeReady s ->
    (merge_ (spilling s) = Some [] -> newDistinct = true) ->
    (Z.of_nat (length rows) = maxOutputRows -> newDistinct = true) ->
    Z.of_nat (length rows) <= maxOutputRows ->
    (mergeBudget s <= budget)%nat ->
    exists out s',
      mergeWithoutAggregatesLoop ext budget maxOutputRows newDistinct rows s
      = Ok (rows ++ out, s')
      /\ pendingFrom ext s newDistinct = out ++ pendingRows ext s'
      /\ Z.of_nat (length (rows ++ out)) <= maxOutputRows
      /\ (rows ++ out = [] -> mergeFinished s')
      /\ mergeFrame s s'
      /\ (mergeReady s' \/ mergeFinished s').
Proof.
  intros Hmax. induction budget as [|budget IH];
    intros nd rows s Hready Hend Hfull Hlen Hbudget.
  { unfold mergeBudget in Hbudget. lia. }
  cbn [mergeWithoutAggregatesLoop].
  destruct (Z.of_nat (length rows) <? maxOutputRows) eqn:Hlt; cbn [negb].
  2:{ apply Z.ltb_ge in Hlt. assert (Heq : Z.of_nat (length rows) = maxOutputRows) by lia.
      specialize (Hfull Heq). subst nd.
      exists [], s. rewrite app_nil_r.
      split; [reflexivity|]. split; [reflexivity|]. split; [lia|].
      split; [intros ->; cbn in Heq; lia|].
      split; [apply mergeFrame_refl|]. left. exact Hready. }
  apply Z.ltb_lt in Hlt.
  pose proof Hready as (m & p & Hm & Hp & [n Hn] & Hok).
  rewrite Hm.
  destruct m as [|e rest].
  - (* the reader is at its end *)
    specialize (Hend Hm). subst nd. cbn [nextWithEquals].
    destruct (0 <? length rows)%nat eqn:Hrows.
    { exists [], s. rewrite app_nil_r.
      split; [reflexivity|]. split; [reflexivity|]. split; [lia|].
      split; [intros ->; cbn in Hrows; discriminate|].
      split; [apply mergeFrame_refl|]. left. exact Hready. }
    apply Nat.ltb_ge in Hrows. assert (rows = []) by (destruct rows; [reflexivity|cbn in Hrows; lia]).
    subst rows.
    pose proof (prepareNextSpillPartitionOutput_ready ext s Hready) as Hnext.
    destruct (spillPartitionSet_ (spilling s)) as [|[q files] later] eqn:Hps.
    + rewrite Hnext. cbn [mbind result_bind]. cbn.
      exists [], (withSpilling (set_merge_ None) s).
      assert (Hfin : mergeFinished (withSpilling (set_merge_ None) s)).
      { unfold mergeFinished. cbn. rewrite Hps, Hp. repeat split. lia. }
      split; [reflexivity|]. split.
      { unfold pendingRows, pendingFrom, laterOutput. cbn. rewrite Hm, Hps. reflexivity. }
      split; [cbn; lia|]. split; [intros _; exact Hfin|].
      split; [repeat split|]. right. exact Hfin.
    + rewrite Hnext. cbn [mbind result_bind].
      set (s2 := withSpilling _ s).
      change (isSome (merge_ (spilling s2))) with true.
      cbn [VELOX_CHECK mbind result_bind].
      destruct Hok as (Hne & Hq & Hok).
      assert (Hready2 : mergeReady s2).
      { exists (readerOf ext s files), q. cbn. repeat split; assumption. }
      destruct (IH true [] s2 Hready2) as (out & s' & Hloop & Hpend & Hl & Hfin & Hfr & Hst);
        try (intros; reflexivity); try (cbn; lia).
      { unfold mergeBudget in *. cbn. rewrite Hm, Hps in Hbudget. cbn in Hbudget.
        unfold readerOf. rewrite length_createOrderedReader. lia. }
      exists out, s'. split; [exact Hloop|]. split.
      { transitivity (partitionOutput (spillKey s) (countFor s q) (readerOf ext s files)
                      ++ laterOutput ext s later).
        - unfold pendingFrom. rewrite Hm, Hps. reflexivity.
        - rewrite <- Hpend. unfold pendingFrom.
          change (outputSpillPartition_ (spilling s2)) with (Z.of_nat q).
          change (merge_ (spilling s2)) with (Some (readerOf ext s files)).
          change (spillPartitionSet_ (spilling s2)) with later.
          rewrite Nat2Z.id, partitionOutputFrom_true. reflexivity. }
      split; [exact Hl|]. split; [exact Hfin|]. split; [|exact Hst].
      eapply mergeFrame_trans; [|exact Hfr]. repeat split.
  - (* a row of the reader *)
    destruct (nextWithEquals (spillKey s) (e :: rest)) as [[stream equal]|] eqn:Hnext;
      [|discriminate].
    assert (stream = e) by (cbn in Hnext; congruence). subst stream.
    rewrite Hp, Nat2Z.id, Hn.
    pose proof (partitionOutputFrom_step (spillKey s) n nd e rest equal Hnext) as Hstep.
    cbn zeta in Hstep.
    set (nd' := if (me_stream e <? n)%nat then false else nd) in *.
    set (s3 := withSpilling (set_merge_ (Some (pop (e :: rest)))) s).
    assert (Hready3 : mergeReady s3).
    { exists rest, p. cbn. repeat split; try assumption. eauto. }
    assert (Hbudget3 : (mergeBudget s3 <= budget)%nat).
    { unfold mergeBudget in *. cbn. rewrite Hm in Hbudget. cbn in Hbudget. lia. }
    assert (Hpend3 : forall b,
              pendingFrom ext s3 b
              = partitionOutputFrom (spillKey s) n b rest
                ++ laterOutput ext s (spillPartitionSet_ (spilling s))).
    { intros b. unfold pendingFrom, countFor. cbn. rewrite Hp, Nat2Z.id, Hn. reflexivity. }
    assert (Hpend0 : pendingFrom ext s nd
                     = partitionOutputFrom (spillKey s) n nd (e :: rest)
                       ++ laterOutput ext s (spillPartitionSet_ (spilling s))).
    { unfold pendingFrom, countFor. rewrite Hm, Hp, Nat2Z.id, Hn. reflexivity. }
    destruct equal.
    + destruct (IH nd' rows s3 Hready3)
        as (out & s' & Hloop & Hpend & Hl & Hfin & Hfr & Hst); try assumption; try lia.
      { cbn. intros Hnil. injection Hnil as ->. cbn in Hnext. discriminate. }
      exists out, s'. split; [exact Hloop|]. split.
      { rewrite <- Hpend, Hpend0, Hpend3, Hstep. reflexivity. }
      split; [exact Hl|]. split; [exact Hfin|]. split; [|exact Hst].
      eapply mergeFrame_trans; [|exact Hfr]. repeat split.
    + set (rows' := if nd' then rows ++ [me_row e] else rows).
      destruct (IH true rows' s3 Hready3)
        as (out & s' & Hloop & Hpend & Hl & Hfin & Hfr & Hst);
        try (intros; reflexivity); try assumption.
      { unfold rows'. destruct nd'; [rewrite length_app; cbn|]; lia. }
      exists ((if nd' then [me_row e] else []) ++ out), s'.
      assert (Hrows : rows ++ (if nd' then [me_row e] else []) ++ out = rows' ++ out).
      { unfold rows'. destruct nd'; [rewrite <- app_assoc|]; reflexivity. }
      rewrite Hrows. split; [exact Hloop|]. split.
      { rewrite Hpend0, Hstep, <- !app_assoc. f_equal.
        rewrite <- Hpend. unfold pendingRows. rewrite Hpend3.
        rewrite partitionOutputFrom_true. reflexivity. }
      split; [exact Hl|]. split; [exact Hfin|]. split; [|exact Hst].
      eapply mergeFrame_trans; [|exact Hfr]. repeat split.
Qed.

(** ** Distinct-only recovery: no key twice *)

Lemma pendingRows_runs (ext : Externals) (s : GroupingSet) :
  pendingRows ext s = concat (map (fun r => runOutput r.1 r.2) (pendingRuns ext s)).
Proof.
  unfold pendingRows, pendingFrom, pendingRuns.
  rewrite partitionOutputFrom_true, map_app, concat_app. f_equal.
  - unfold partitionOutput. rewrite map_map. reflexivity.
  - unfold laterOutput.
    induction (spillPartitionSet_ (spilling s)) as [|[q files] later IH];
      cbn [map concat]; [reflexivity|].
    rewrite map_app, concat_app, <- IH. f_equal.
    unfold partitionOutput. rewrite map_map. reflexivity.
Qed.

Lemma pendingRuns_runs (ext : Externals) (s : GroupingSet) :
  Forall (fun r => isRun (spillKey s) r.2) (pendingRuns ext s).
Proof.
  assert (Hone : forall n m,
            Forall (fun r : nat * list MergeEntry => isRun (spillKey s) r.2)
                   (map (pair n) (runsOf (spillKey s) m))).
  { intros n m. apply Forall_map.
    exact (proj2 (runsOf_partition (spillKey s) m)). }
  unfold pendingRuns. apply Forall_app. split; [apply Hone|].
  induction (spillPartitionSet_ (spilling s)) as [|[q files] later IH];
    cbn [map concat]; [constructor|].
  apply Forall_app. split; [apply Hone|exact IH].
Qed.

(** A row a run gives has the key of the run, and the run has no row of a
    distinct stream. *)
Lemma runOutput_key (keyOf : SpillRow -> list Value) (n : nat)
    (run : list MergeEntry) (row : SpillRow) :
  isRun keyOf run ->
  row ∈ runOutput n run ->
  runKey keyOf run = Some (keyOf row)
  /\ existsb (fun e => (me_stream e <? n)%nat) run = false.
Proof.
  intros [Hne Hkeys]. unfold runOutput.
  destruct (existsb _ run) eqn:Hex; [intros H; inversion H|].
  destruct (last run) as [e|] eqn:Hlast; [|intros H; inversion H].
  intros Hrow. apply list_elem_of_singleton in Hrow. subst row.
  split; [|reflexivity].
  destruct run as [|h run]; [contradiction|]. unfold runKey. cbn [head fmap option_fmap option_map].
  f_equal. apply Hkeys; [left|].
  apply last_Some in Hlast as [l' Hl]. rewrite Hl. apply elem_of_app. right. left.
Qed.

Lemma elem_of_concat {A : Type} (x : A) (ls : list (list A)) :
  x ∈ concat ls -> exists l, x ∈ l /\ l ∈ ls.
Proof.
  induction ls as [|l ls IH]; cbn [concat]; intros Hx; [inversion Hx|].
  apply elem_of_app in Hx as [Hx|Hx].
  - exists l. split; [exact Hx|left].
  - destruct (IH Hx) as (l' & Hl' & Hin). exists l'. split; [exact Hl'|right; exact Hin].
Qed.

Lemma runOutputs_keys (keyOf : SpillRow -> list Value)
    (runs : list (nat * list MergeEntry)) (k : list Value) :
  Forall (fun r => isRun keyOf r.2) runs ->
  k ∈ map keyOf (concat (map (fun r => runOutput r.1 r.2) runs)) ->
  exists r, r ∈ runs
            /\ runKey keyOf r.2 = Some k
            /\ existsb (fun e => (me_stream e <? r.1)%nat) r.2 = false.
Proof.
  intros Hruns Hk. apply list_elem_of_fmap in Hk as (row & -> & Hrow).
  apply elem_of_concat in Hrow as (rows & Hrow & Hrows).
  apply list_elem_of_fmap in Hrows as (r & -> & Hr).
  exists r. split; [exact Hr|].
  apply (runOutput_key keyOf r.1 r.2 row); [|exact Hrow].
  rewrite Forall_forall in Hruns. apply Hruns, Hr.
Qed.

Lemma NoDup_map_inj {A B : Type} (f : A -> B) (l : list A) (x y : A) :
  NoDup (map f l) -> x ∈ l -> y ∈ l -> f x = f y -> x = y.
Proof.
  induction l as [|a l IH]; intros Hnd Hx Hy Hf; [inversion Hx|].
  cbn [map] in Hnd. apply NoDup_cons in Hnd as [Hnot Hnd].
  apply elem_of_cons in Hx as [->|Hx]; apply elem_of_cons in Hy as [->|Hy].
  - reflexivity.
  - exfalso. apply Hnot. rewrite Hf. apply list_elem_of_fmap. eauto.
  - exfalso. apply Hnot. rewrite <- Hf. apply list_elem_of_fmap. eauto.
  - apply IH; assumption.
Qed.

(** When the runs have keys of their own, no key comes out twice, and no key
    of a row of a distinct stream comes out at all. *)
Lemma runOutputs_separate (keyOf : SpillRow -> list Value)
    (runs : list (nat * list MergeEntry)) :
  Forall (fun r => isRun keyOf r.2) runs ->
  NoDup (map (fun r => runKey keyOf r.2) runs) ->
  NoDup (map keyOf (concat (map (fun r => runOutput r.1 r.2) runs)))
  /\ forall r e,
       r ∈ runs -> e ∈ r.2 -> (me_stream e < r.1)%nat ->
       keyOf (me_row e) ∉ map keyOf (concat (map (fun r => runOutput r.1 r.2) runs)).
Proof.
  intros Hruns Hnd. split.
  - induction runs as [|r runs IH]; [constructor|].
    cbn [map concat]. rewrite map_app.
    apply Forall_cons in Hruns as [Hr Hruns].
    cbn [map] in Hnd. apply NoDup_cons in Hnd as [Hnot Hnd].
    apply NoDup_app. split; [|split; [|apply IH; assumption]].
    + unfold runOutput. destruct (existsb _ _); [constructor|].
      destruct (last r.2); [apply NoDup_singleton|constructor].
    + intros k Hk Hk'.
      apply list_elem_of_fmap in Hk as (row & -> & Hrow).
      destruct (runOutput_key keyOf r.1 r.2 row Hr Hrow) as [Hkey _].
      destruct (runOutputs_keys keyOf runs _ Hruns Hk') as (r' & Hr' & Hkey' & _).
      apply Hnot. rewrite Hkey, <- Hkey'.
      apply (list_elem_of_fmap_2 (fun r => runKey keyOf r.2)). exact Hr'.
  - intros r e Hr He Hlt Hk.
    destruct (runOutputs_keys keyOf runs _ Hruns Hk) as (r' & Hr' & Hkey' & Hex).
    assert (Hkey : runKey keyOf r.2 = Some (keyOf (me_row e))).
    { rewrite Forall_forall in Hruns. destruct (Hruns r Hr) as [Hne Hkeys].
      destruct r.2 as [|h run]; [contradiction|].
      unfold runKey. cbn [head fmap option_fmap option_map]. f_equal.
      apply Hkeys; [left|exact He]. }
    assert (r = r').
    { apply (NoDup_map_inj (fun r => runKey keyOf r.2) runs); try assumption.
      congruence. }
    subst r'.
    assert (Htrue : existsb (fun e => (me_stream e <? r.1)%nat) r.2 = true).
    { apply existsb_exists. exists e. split; [apply list_elem_of_In, He|].
      apply Nat.ltb_lt, Hlt. }
    congruence.
Qed.

(** The vector [projectResult] hands back holds the copied rows: column [i]
    is the key that [groupingKeyOutputProjections_[i]] names, row by row. *)
Lemma projectResult_columns (s : GroupingSet) (rows : list SpillRow)
    (result : RowVector) :
  rv_size (projectResult s rows result) = length rows
  /\ length (rv_children (projectResult s rows result)) = length (rv_children result)
  /\ forall i,
       (i < length (rv_children result))%nat ->
       childAt (projectResult s rows result) i
       = map (fun row =>
                valueAt row
                  (N.to_nat (default 0%N
                     (groupingKeyOutputProjections_ (config s) !! i))))
             rows.
Proof.
  unfold projectResult. cbn [rv_size rv_children].
  split; [reflexivity|]. split; [apply length_imap|].
  intros i Hi. unfold childAt. cbn [rv_children].
  destruct (lookup_lt_is_Some_2 (rv_children result) i Hi) as [c Hc].
  rewrite list_lookup_imap, Hc. reflexivity.
Qed.

(** The rows a call of [mergeNextWithoutAggregates] copies are the next
    rows still to come, and the call can be repeated on the state it
    leaves. *)
Lemma mergeNextWithoutAggregates_spec (ext : Externals) (maxOutputRows : Z)
    (result : RowVector) (s : GroupingSet) :
  0 < maxOutputRows ->
  mergeReady s ->
  distinctRecovery s result ->
  exists out s',
    mergeNextWithoutAggregates ext maxOutputRows result s
    = Ok (negb (bool_decide (out = [])), projectResult s out result, s')
    /\ pendingRows ext s = out ++ pendingRows ext s'
    /\ Z.of_nat (length out) <= maxOutputRows
    /\ (out = [] -> pendingRows ext s = [])
    /\ (mergeReady s' \/ mergeFinished s')
    /\ table_ (store s') = table_ (store s)
    /\ (forall result2, distinctRecovery s' result2).
Proof.
  intros Hmax Hready (Hdistinct & Hout & [spiller Hin] & (cfg & Hcfg & Hcount) & Hresult).
  destruct (mergeWithoutAggregatesLoop_spec ext maxOutputRows Hmax
              (mergeBudget s) true [] s Hready)
    as (out & s' & Hloop & Hpend & Hlen & Hfin & Hfr & Hst);
    try (intros; reflexivity); try (cbn; lia).
  cbn [app] in Hloop, Hlen, Hfin.
  set (s'' := withSpilling (set_spillResultWithoutAggregates_
                (Some {| rv_size := length out; rv_children := [] |})) s').
  exists out, s''.
  destruct Hfr as (Hc & Hi & Hs & Hp & Hcalls & Hin' & Hout' & Hcounts).
  split.
  { unfold mergeNextWithoutAggregates.
    destruct Hready as (m & p & Hm & _). rewrite Hm, Hdistinct, Hout, Hin, Hcfg, Hcount.
    rewrite Nat.eqb_refl.
    assert (Hcheck : (if isNone (spillResultWithoutAggregates_ (spilling s))
                      then
                        match table_ (store s) with
                        | None => Err (NullDereference "table_")
                        | Some _ =>
                            VELOX_CHECK
                              (length (keyChannels_ (config s))
                               =? length (rv_children result))%nat
                              "table_->rows()->keyTypes().size() == numColumns"
                        end
                      else Ok tt) = Ok tt).
    { destruct (spillResultWithoutAggregates_ (spilling s)); [reflexivity|].
      cbn [isNone isSome negb]. destruct (Hresult eq_refl) as [[table Htable] Hcolumns].
      rewrite Htable, Hcolumns, Nat.eqb_refl. reflexivity. }
    rewrite Hcheck. cbn [isSome isNone negb VELOX_CHECK mbind result_bind].
    rewrite Hloop. cbn [mbind result_bind]. fold s''.
    assert (Hmore : (0 <? length out)%nat = negb (bool_decide (out = [])))
      by (destruct out; reflexivity).
    assert (Hproject : projectResult s'' out result = projectResult s out result).
    { unfold projectResult. change (config s'') with (config s'). rewrite Hc. reflexivity. }
    rewrite Hmore, Hproject. reflexivity. }
  split; [exact Hpend|]. split; [exact Hlen|].
  assert (Hnone : mergeFinished s' -> pendingRows ext s' = []).
  { intros (Hm & Hps & _). unfold pendingRows, pendingFrom. rewrite Hm, Hps. reflexivity. }
  split.
  { intros ->. change (pendingRows ext s) with (pendingFrom ext s true).
    rewrite Hpend. apply Hnone, Hfin. reflexivity. }
  split; [exact Hst|].
  split; [change (store s'') with (store s'); rewrite Hs; reflexivity|].
  intros result2. unfold distinctRecovery.
  change (config s'') with (config s').
  change (outputSpiller_ (spilling s'')) with (outputSpiller_ (spilling s')).
  change (inputSpiller_ (spilling s'')) with (inputSpiller_ (spilling s')).
  change (numDistinctSpillFilesPerPartition_ (spilling s''))
    with (numDistinctSpillFilesPerPartition_ (spilling s')).
  unfold isDistinct. change (config s'') with (config s').
  rewrite Hc, Hout', Hin', Hcounts.
  split; [exact Hdistinct|]. split; [exact Hout|]. split; [eauto|].
  split; [eauto|]. intros Hnil. discriminate Hnil.
Qed.

(** C1. A call of [mergeNextWithoutAggregates] for at least one row, on an
    open merge that passes the checks of the function, returns normally. The
    rows it copies to the output are the next rows of [pendingRows], which
    lists, run by run of equal keys in the merged stream, nothing for a run
    with a row of a stream whose id is below the pre-spill distinct-file
    count of the partition, and the last row of the run otherwise; the
    result vector it hands back has one row per copied row, column [i]
    holding the key that [groupingKeyOutputProjections_[i]] names. The call
    reports whether it copied a row, and it copies none only when nothing is
    left. The state it leaves can be read further in the same way. When the
    runs have keys of their own, no key comes out twice, and no key of a row
    of a pre-spill distinct stream comes out at all. *)
Theorem C1_distinct_recovery_by_runs (ext : Externals) (maxOutputRows : Z)
    (result : RowVector) (s : GroupingSet) :
  0 < maxOutputRows ->
  mergeReady s ->
  distinctRecovery s result ->
  exists out result' s',
    mergeNextWithoutAggregates ext maxOutputRows result s
    = Ok (negb (bool_decide (out = [])), result', s')
    /\ result' = projectResult s out result
    /\ rv_size result' = length out
    /\ length (rv_children result') = length (rv_children result)
    /\ (forall i,
          (i < length (rv_children result))%nat ->
          childAt result' i
          = map (fun row =>
                   valueAt row
                     (N.to_nat (default 0%N
                        (groupingKeyOutputProjections_ (config s) !! i))))
                out)
    /\ pendingRows ext s = out ++ pendingRows ext s'
    /\ Z.of_nat (length out) <= maxOutputRows
    /\ (out = [] -> pendingRows ext s = [])
    /\ (mergeReady s' \/ mergeFinished s')
    /\ (forall result2, distinctRecovery s' result2)
    /\ (distinctRunKeys ext s ->
        NoDup (map (spillKey s) (pendingRows ext s))
        /\ forall r e,
             r ∈ pendingRuns ext s -> e ∈ r.2 -> (me_stream e < r.1)%nat ->
             spillKey s (me_row e) ∉ map (spillKey s) (pendingRows ext s)).
Proof.
  intros Hmax Hready Hrecovery.
  destruct (mergeNextWithoutAggregates_spec ext maxOutputRows result s
              Hmax Hready Hrecovery)
    as (out & s' & Hcall & Hpend & Hlen & Hnone & Hnext & _ & Hagain).
  destruct (projectResult_columns s out result) as (Hsize & Hcolumns & Hcells).
  exists out, (projectResult s out result), s'.
  split; [exact Hcall|]. split; [reflexivity|].
  split; [exact Hsize|]. split; [exact Hcolumns|]. split; [exact Hcells|].
  split; [exact Hpend|]. split; [exact Hlen|]. split; [exact Hnone|].
  split; [exact Hnext|]. split; [exact Hagain|].
  intros Hkeys. rewrite pendingRows_runs.
  apply runOutputs_separate; [apply pendingRuns_runs|exact Hkeys].
Qed.

(** [select distinct c0] with keys 1 and 2 in the distinct stream and keys 2,
    3 and 4 after it: the runs have keys of their own, and the recovery hands
    back the rows 3 and 4, the two that were not given before the spill. *)
Lemma C1_distinct_recovery_by_runs_witness :
  distinctRunKeys sampleExternals distinctRecovering
  /\ pendingRows sampleExternals distinctRecovering = [[Some 3]; [Some 4]]
  /\ exists out result' s',
       mergeNextWithoutAggregates sampleExternals 2 (emptyResult 1) distinctRecovering
       = Ok (negb (bool_decide (out = [])), result', s')
       /\ rv_size result' = length out
       /\ childAt result' 0 = map (fun row => valueAt row 0) out
       /\ pendingRows sampleExternals distinctRecovering
          = out ++ pendingRows sampleExternals s'
       /\ Z.of_nat (length out) <= 2
       /\ (out = [] -> pendingRows sampleExternals distinctRecovering = [])
       /\ (mergeReady s' \/ mergeFinished s')
       /\ (distinctRunKeys sampleExternals distinctRecovering ->
           NoDup (map (spillKey distinctRecovering)
                      (pendingRows sampleExternals distinctRecovering))
           /\ forall r e,
                r ∈ pendingRuns sampleExternals distinctRecovering ->
                e ∈ r.2 -> (me_stream e < r.1)%nat ->
                spillKey distinctRecovering (me_row e)
                ∉ map (spillKey distinctRecovering)
                      (pendingRows sampleExternals distinctRecovering)).
Proof.
  split; [|split].
  - unfold distinctRunKeys. apply (bool_decide_unpack _). vm_compute. exact I.
  - vm_compute. reflexivity.
  - destruct (C1_distinct_recovery_by_runs sampleExternals 2 (emptyResult 1)
                distinctRecovering)
      as (out & result' & s' & Hcall & _ & Hsize & _ & Hcells & Hpend & Hlen & Hnone
          & Hnext & _ & Hkeys).
    + lia.
    + exists [{| me_stream := 0; me_row := [Some 1] |};
              {| me_stream := 0; me_row := [Some 2] |};
              {| me_stream := 1; me_row := [Some 2] |};
              {| me_stream := 1; me_row := [Some 3] |};
              {| me_stream := 1; me_row := [Some 4] |}], 0%nat.
      split; [vm_compute; reflexivity|]. split; [vm_compute; reflexivity|].
      split; [exists 1%nat; vm_compute; reflexivity|]. vm_compute. exact I.
    + split; [vm_compute; reflexivity|]. split; [vm_compute; reflexivity|].
      split; [eexists; vm_compute; reflexivity|].
      split; [exists sampleSpillConfig; split; vm_compute; reflexivity|].
      intros _. split; [eexists; vm_compute; reflexivity|vm_compute; reflexivity].
    + exists out, result', s'.
      split; [exact Hcall|]. split; [exact Hsize|].
      split; [exact (Hcells 0%nat ltac:(vm_compute; lia))|].
      split; [exact Hpend|]. split; [exact Hlen|]. split; [exact Hnone|].
      split; [exact Hnext|exact Hkeys].
Defined.

(** ** Recovery with aggregates: the loop *)

Lemma groupsFrom_false (s : GroupingSet) (rows : list Group) (m : MergeReader) :
  groupsFrom s false rows m = rows ++ partitionGroups s m.
Proof.
  unfold groupsFrom, partitionGroups.
  destruct (runsOf (spillKey s) m) as [|run runs]; cbn [map concat].
  - rewrite app_nil_r. reflexivity.
  - rewrite app_assoc. reflexivity.
Qed.

(** Reading one row of the stream, as the loop of [mergeNextWithAggregates]
    does. *)
Lemma groupsFrom_step (s : GroupingSet) (nextKeyIsEqual : bool) (rows : list Group)
    (e : MergeEntry) (rest : list MergeEntry) (equal : bool) :
  nextWithEquals (spillKey s) (e :: rest) = Some (e, equal) ->
  (nextKeyIsEqual = true -> rows <> []) ->
  let rows1 := if negb nextKeyIsEqual then rows ++ [initializeRow s e] else rows in
  let rows2 := alter (updateRow s e) (length rows1 - 1)%nat rows1 in
  groupsFrom s nextKeyIsEqual rows (e :: rest) = groupsFrom s equal rows2 rest.
Proof.
  cbn [nextWithEquals]. intros H Hrows. injection H as <-. cbn zeta.
  assert (Hlast : forall (f : Group -> Group) (g : Group),
            alter f (length (rows ++ [g]) - 1)%nat (rows ++ [g]) = rows ++ [f g]).
  { intros f g. rewrite length_app. cbn [length].
    replace (length rows + 1 - 1)%nat with (length rows + 0)%nat by lia.
    rewrite alter_app_r. reflexivity. }
  unfold groupsFrom at 1. cbn [runsOf].
  destruct rest as [|e' rest'].
  - cbn [runsOf map concat mergedGroup foldl]. unfold groupsFrom. cbn [runsOf].
    rewrite !app_nil_r.
    destruct nextKeyIsEqual; cbn [negb]; [reflexivity|]. rewrite Hlast. reflexivity.
  - destruct (runsOf_head (spillKey s) e' rest') as (run & runs & Hr). rewrite Hr.
    destruct (bool_decide _) eqn:Hk.
    + unfold groupsFrom. rewrite Hr.
      destruct nextKeyIsEqual; cbn [negb mergedGroup foldl].
      * rewrite length_alter, list_alter_alter_eq. reflexivity.
      * rewrite !Hlast. reflexivity.
    + rewrite groupsFrom_false. unfold partitionGroups. rewrite Hr.
      cbn [map concat mergedGroup foldl].
      destruct nextKeyIsEqual; cbn [negb]; [reflexivity|]. rewrite Hlast. reflexivity.
Qed.

Lemma shapeOf_setChild (i : nat) (c : Vector) (r : RowVector) :
  shapeOf (setChild i c r) = shapeOf r.
Proof. unfold shapeOf. cbn. rewrite length_insert. reflexivity. Qed.

Lemma shapeOf_foldl {A : Type} (f : RowVector -> A -> RowVector) (l : list A) :
  (forall r x, shapeOf (f r x) = shapeOf r) ->
  forall r, shapeOf (foldl f r l) = shapeOf r.
Proof.
  intros Hf. induction l as [|x l IH]; intros r; cbn [foldl]; [reflexivity|].
  rewrite IH. apply Hf.
Qed.

Lemma shapeOf_extractAdapter (adapter : AggregationAdapter) (slot : nat)
    (groups : list Group) (result : RowVector) :
  shapeOf (extractAdapter adapter slot groups result) = shapeOf result.
Proof.
  unfold extractAdapter. apply shapeOf_foldl. intros r [row g].
  apply shapeOf_foldl. intros r' [column v]. apply shapeOf_setChild.
Qed.

Lemma shapeOf_extractAggregates (s : GroupingSet) (column : nat -> AggregateInfo -> nat)
    (groups : list Group) (result : RowVector) :
  shapeOf (extractAggregates s column groups result) = shapeOf result.
Proof.
  unfold extractAggregates. rewrite shapeOf_foldl.
  - destruct (sortedAggregations_ (config s)).
    + rewrite shapeOf_extractAdapter. apply shapeOf_foldl.
      intros r [i aggregate]. destruct (isSorted aggregate); [reflexivity|].
      apply shapeOf_setChild.
    + apply shapeOf_foldl.
      intros r [i aggregate]. destruct (isSorted aggregate); [reflexivity|].
      apply shapeOf_setChild.
  - intros r [i [adapter|]]; [apply shapeOf_extractAdapter|reflexivity].
Qed.

(** [extractGroups] gives a row per group and keeps the columns of the
    result. *)
Lemma shapeOf_extractGroups (s : GroupingSet) (totalKeys : nat) (groups : list Group)
    (result : RowVector) :
  shapeOf (extractGroups s totalKeys groups result)
  = (length groups, length (rv_children result)).
Proof.
  unfold extractGroups.
  assert (Hresize : shapeOf (resizeRowVector (length groups) result)
                    = (length groups, length (rv_children result))).
  { unfold shapeOf. cbn. rewrite length_map. reflexivity. }
  destruct (bool_decide (groups = [])); [exact Hresize|].
  rewrite shapeOf_extractAggregates, shapeOf_foldl; [exact Hresize|].
  intros r i. apply shapeOf_setChild.
Qed.

Lemma rv_size_extractGroups (s : GroupingSet) (totalKeys : nat) (groups : list Group)
    (result : RowVector) :
  rv_size (extractGroups s totalKeys groups result) = length groups.
Proof. exact (f_equal fst (shapeOf_extractGroups s totalKeys groups result)). Qed.

Lemma columns_extractGroups (s : GroupingSet) (totalKeys : nat) (groups : list Group)
    (result : RowVector) :
  length (rv_children (extractGroups s totalKeys groups result))
  = length (rv_children result).
Proof. exact (f_equal snd (shapeOf_extractGroups s totalKeys groups result)). Qed.

Lemma prepareNextSpillPartitionOutput_open (ext : Externals) (s : GroupingSet) :
  mergeOpen s ->
  match spillPartitionSet_ (spilling s) with
  | [] =>
      prepareNextSpillPartitionOutput ext s
      = Ok (false, withSpilling (set_merge_ None) s)
  | (partition, files) :: rest =>
      prepareNextSpillPartitionOutput ext s
      = Ok (true,
            withSpilling (fun st =>
              set_spillPartitionSet_ rest
                (set_merge_ (Some (readerOf ext s files))
                   (set_outputSpillPartition_ (Z.of_nat partition) st))) s)
  end.
Proof.
  intros (m & p & Hm & Hp & Hok).
  unfold prepareNextSpillPartitionOutput. rewrite Hm, Hp.
  replace (Z.of_nat p =? -1) with false by (symmetry; apply Z.eqb_neq; lia).
  cbn [isNone isSome negb eqb VELOX_CHECK mbind result_bind].
  cbn [spilling withSpilling set_spilling set_merge_ spillPartitionSet_
       outputSpillPartition_].
  destruct (spillPartitionSet_ (spilling s)) as [|[q files] rest]; [reflexivity|].
  destruct Hok as (Hne & _). rewrite Hp.
  replace (Z.of_nat p =? Z.of_nat q) with false by (symmetry; apply Z.eqb_neq; lia).
  reflexivity.
Qed.

(** The loop of [mergeNextWithAggregates] gives the next groups of what is
    still to come, whole runs at a time, and ends without a group only when
    every partition is read to its end. *)
Lemma mergeWithAggregatesLoop_spec (ext : Externals) (maxOutputRows maxOutputBytes : Z) :
  forall (budget : nat) (nextKeyIsEqual : bool) (result : RowVector) (s : GroupingSet)
         (rows : list Group) (m : MergeReader),
    mergeOpen s ->
    merge_ (spilling s) = Some m ->
    mergeRows_ (spilling s) = Some rows ->
    (nextKeyIsEqual = true -> rows <> [] /\ m <> []) ->
    (mergeBudget s <= budget)%nat ->
    exists out result0 s',
      mergeWithAggregatesLoop ext budget maxOutputRows maxOutputBytes nextKeyIsEqual
        result s
      = Ok (negb (bool_decide (out = [])),
            extractGroups s (length (keyChannels_ (config s))) out result0, s')
      /\ length (rv_children result0) = length (rv_children result)
      /\ groupsFrom s nextKeyIsEqual rows m
         ++ laterGroups ext s (spillPartitionSet_ (spilling s))
         = out ++ pendingGroups ext s'
      /\ mergeRows_ (spilling s') = Some []
      /\ mergeFrame s s'
      /\ (out = [] -> mergeFinished s')
      /\ (mergeOpen s' \/ mergeFinished s').
Proof.
  induction budget as [|budget IH];
    intros nke result s rows m Hopen Hm Hrows Hnke Hbudget.
  { unfold mergeBudget in Hbudget. lia. }
  cbn [mergeWithAggregatesLoop]. rewrite Hm.
  pose proof Hopen as (m0 & p & Hm0 & Hp & Hok).
  destruct m as [|e rest].
  - (* the reader is at its end *)
    assert (nke = false) by (destruct nke; [destruct (Hnke eq_refl); contradiction|reflexivity]).
    subst nke. cbn [nextWithEquals].
    unfold extractSpillResult. rewrite Hrows. cbn [mbind result_bind].
    set (s1 := withSpilling (set_mergeRows_ (Some [])) s).
    assert (Hopen1 : mergeOpen s1) by (exists [], p; cbn; repeat split; assumption).
    rewrite rv_size_extractGroups.
    destruct (0 <? length rows)%nat eqn:Hlen.
    { exists rows, result, s1.
      assert (Hne : rows <> []) by (intros ->; discriminate Hlen).
      rewrite (bool_decide_eq_false_2 _ Hne). cbn [negb].
      split; [reflexivity|]. split; [reflexivity|]. split.
      { rewrite groupsFrom_false.
        change (partitionGroups s []) with (@nil Group). rewrite app_nil_r.
        unfold pendingGroups. change (merge_ (spilling s1)) with (merge_ (spilling s)).
        rewrite Hm. reflexivity. }
      split; [reflexivity|]. split; [repeat split|].
      split; [intros Hnil; contradiction|]. left. exact Hopen1. }
    assert (rows = []) by (destruct rows; [reflexivity|discriminate Hlen]). subst rows.
    cbn [negb VELOX_CHECK mbind result_bind].
    pose proof (prepareNextSpillPartitionOutput_open ext s1 Hopen1) as Hnext.
    change (spillPartitionSet_ (spilling s1)) with (spillPartitionSet_ (spilling s))
      in Hnext.
    destruct (spillPartitionSet_ (spilling s)) as [|[q files] later] eqn:Hps.
    + rewrite Hnext. cbn [mbind result_bind]. cbn [isNone isSome negb VELOX_CHECK].
      cbn [merge_ spilling withSpilling set_spilling set_merge_ isNone isSome negb
           VELOX_CHECK mbind result_bind].
      exists [], result, (withSpilling (set_merge_ None) s1).
      assert (Hfin : mergeFinished (withSpilling (set_merge_ None) s1)).
      { unfold mergeFinished. cbn. rewrite Hps, Hp. repeat split. lia. }
      split; [reflexivity|]. split; [reflexivity|]. split.
      { unfold pendingGroups, partitionGroups, laterGroups. cbn. rewrite Hps. reflexivity. }
      split; [reflexivity|]. split; [repeat split|]. split; [intros _; exact Hfin|].
      right. exact Hfin.
    + rewrite Hnext. cbn [mbind result_bind].
      set (s2 := withSpilling _ s1).
      change (isSome (merge_ (spilling s2))) with true.
      cbn [VELOX_CHECK mbind result_bind].
      destruct Hok as (Hne & Hok).
      assert (Hopen2 : mergeOpen s2).
      { exists (readerOf ext s1 files), q. cbn. repeat split. exact Hok. }
      destruct (IH false
                  (extractGroups s (length (keyChannels_ (config s))) [] result)
                  s2 [] (readerOf ext s1 files) Hopen2 eq_refl eq_refl)
        as (out & result0 & s' & Hloop & Hcols & Hpend & Hmr & Hfr & Hfin & Hst).
      { discriminate. }
      { unfold mergeBudget in *. cbn. rewrite Hm, Hps in Hbudget. cbn in Hbudget.
        unfold readerOf. rewrite length_createOrderedReader. lia. }
      exists out, result0, s'. split; [exact Hloop|]. split.
      { rewrite Hcols. apply columns_extractGroups. }
      split.
      { rewrite <- Hpend, !groupsFrom_false. cbn [app]. unfold partitionGroups at 1.
        cbn [runsOf map concat app]. unfold laterGroups. cbn [map concat]. reflexivity. }
      split; [exact Hmr|]. split; [|split; [exact Hfin|exact Hst]].
      eapply mergeFrame_trans; [|exact Hfr]. repeat split.
  - (* a row of the reader *)
    destruct (nextWithEquals (spillKey s) (e :: rest)) as [[next equal]|] eqn:Hnext;
      [|discriminate].
    assert (next = e) by (cbn in Hnext; congruence). subst next.
    rewrite Hrows.
    pose proof (groupsFrom_step s nke rows e rest equal Hnext
                  (fun H => proj1 (Hnke H))) as Hstep.
    cbn zeta in Hstep.
    set (rows1 := if negb nke then rows ++ [initializeRow s e] else rows) in *.
    set (rows2 := alter (updateRow s e) (length rows1 - 1)%nat rows1) in *.
    assert (Hne2 : rows2 <> []).
    { assert (Hlen : (0 < length rows2)%nat).
      { unfold rows2. rewrite length_alter. unfold rows1.
        destruct nke; cbn [negb].
        - destruct (Hnke eq_refl) as [Hr _]. destruct rows; [contradiction|cbn; lia].
        - rewrite length_app. cbn. lia. }
      intros Heq. rewrite Heq in Hlen. cbn in Hlen. lia. }
    set (s1 := withSpilling (fun st =>
                 set_merge_ (Some (pop (e :: rest))) (set_mergeRows_ (Some rows2) st)) s).
    assert (Hopen1 : mergeOpen s1) by (exists rest, p; cbn; repeat split; assumption).
    match goal with
    | |- context [if ?c then _ else _] => destruct c eqn:Hemit
    end.
    + apply andb_prop in Hemit as [Hequal _].
      destruct equal; [discriminate Hequal|].
      unfold extractSpillResult.
      change (mergeRows_ (spilling s1)) with (Some rows2).
      cbn [mbind result_bind].
      exists rows2, result, (withSpilling (set_mergeRows_ (Some [])) s1).
      rewrite (bool_decide_eq_false_2 _ Hne2). cbn [negb].
      split; [reflexivity|]. split; [reflexivity|]. split.
      { rewrite Hstep, groupsFrom_false, <- app_assoc. reflexivity. }
      split; [reflexivity|]. split; [repeat split|].
      split; [intros Hnil; contradiction|]. left.
      exists rest, p. cbn. repeat split; assumption.
    + destruct (IH equal result s1 rows2 rest Hopen1 eq_refl eq_refl)
        as (out & result0 & s' & Hloop & Hcols & Hpend & Hmr & Hfr & Hfin & Hst).
      { intros ->. split; [exact Hne2|].
        cbn in Hnext. destruct rest; [discriminate Hnext|discriminate]. }
      { unfold mergeBudget in *. cbn. rewrite Hm in Hbudget. cbn in Hbudget. lia. }
      exists out, result0, s'. split; [exact Hloop|]. split; [exact Hcols|]. split.
      { rewrite <- Hpend, Hstep. reflexivity. }
      split; [exact Hmr|]. split; [|split; [exact Hfin|exact Hst]].
      eapply mergeFrame_trans; [|exact Hfr]. repeat split.
Qed.

(** ** Output: after the last row *)

Lemma prepareNextSpillPartitionOutput_false (ext : Externals) (s s' : GroupingSet) :
  prepareNextSpillPartitionOutput ext s = Ok (false, s') ->
  s' = withSpilling (set_merge_ None) s
  /\ spillPartitionSet_ (spilling s) = []
  /\ isNone (merge_ (spilling s)) = (outputSpillPartition_ (spilling s) =? -1).
Proof.
  unfold prepareNextSpillPartitionOutput. intros H.
  apply VELOX_CHECK_inv in H as [Hcheck H].
  cbn [spilling withSpilling set_spilling set_merge_ spillPartitionSet_
       outputSpillPartition_] in H.
  destruct (spillPartitionSet_ (spilling s)) as [|[q files] rest].
  - injection H as <-. split; [reflexivity|]. split; [reflexivity|].
    apply eqb_prop in Hcheck. exact Hcheck.
  - apply VELOX_CHECK_inv in H as [_ H]. discriminate H.
Qed.

(** When a partition set is used up with a reader open, the merge is over. *)
Lemma prepareNextSpillPartitionOutput_finished (ext : Externals) (s s' : GroupingSet)
    (merge : MergeReader) :
  merge_ (spilling s) = Some merge ->
  prepareNextSpillPartitionOutput ext s = Ok (false, s') ->
  mergeFinished s'.
Proof.
  intros Hm H. apply prepareNextSpillPartitionOutput_false in H as (-> & Hps & Hcheck).
  rewrite Hm in Hcheck. cbn in Hcheck. symmetry in Hcheck. apply Z.eqb_neq in Hcheck.
  split; [reflexivity|]. split; assumption.
Qed.

(** [mergeNextWithAggregates] returns false only at the end of the merge. *)
Lemma mergeWithAggregatesLoop_false (ext : Externals) (budget : nat)
    (maxOutputRows maxOutputBytes : Z) :
  forall (nextKeyIsEqual : bool) (result : RowVector) (s : GroupingSet)
         (result' : RowVector) (s' : GroupingSet),
    mergeWithAggregatesLoop ext budget maxOutputRows maxOutputBytes nextKeyIsEqual result s
    = Ok (false, result', s') ->
    mergeFinished s'.
Proof.
  induction budget as [|budget IH]; intros nke result s result' s' H;
    cbn [mergeWithAggregatesLoop] in H; [discriminate|].
  destruct (merge_ (spilling s)) as [merge|] eqn:Hm; [|discriminate].
  destruct (nextWithEquals (spillKey s) merge) as [[next equal]|].
  - destruct (mergeRows_ (spilling s)) as [rows|]; [|discriminate].
    match type of H with
    | (if ?c then _ else _) = _ => destruct c
    end.
    + inv_bind H. destruct a as [r2 s2]. discriminate H.
    + apply IH in H. exact H.
  - inv_bind H. destruct a as [r2 s2].
    assert (Hm2 : merge_ (spilling s2) = Some merge).
    { unfold extractSpillResult in H0.
      destruct (mergeRows_ (spilling s)); [|discriminate].
      injection H0 as _ <-. exact Hm. }
    destruct (0 <? rv_size r2)%nat; [discriminate|].
    apply VELOX_CHECK_inv in H as [_ H]. inv_bind H. destruct a as [more2 s3].
    destruct more2.
    + apply VELOX_CHECK_inv in H as [_ H]. apply IH in H. exact H.
    + apply VELOX_CHECK_inv in H as [_ H]. injection H as _ <-.
      exact (prepareNextSpillPartitionOutput_finished ext s2 s3 merge Hm2 H1).
Qed.

(** [mergeNextWithoutAggregates], asked for a row, copies none only at the
    end of the merge. *)
Lemma mergeWithoutAggregatesLoop_empty (ext : Externals) (maxOutputRows : Z) :
  0 < maxOutputRows ->
  forall (budget : nat) (newDistinct : bool) (rows : list SpillRow) (s : GroupingSet)
         (rows' : list SpillRow) (s' : GroupingSet),
    mergeWithoutAggregatesLoop ext budget maxOutputRows newDistinct rows s
    = Ok (rows', s') ->
    (rows <> [] -> rows' <> []) /\ (rows' = [] -> mergeFinished s').
Proof.
  intros Hmax. induction budget as [|budget IH]; intros nd rows s rows' s' H;
    cbn [mergeWithoutAggregatesLoop] in H; [discriminate|].
  destruct (Z.of_nat (length rows) <? maxOutputRows) eqn:Hlt; cbn [negb] in H.
  2:{ injection H as <- <-. split; [auto|]. intros ->. cbn in Hlt.
      apply Z.ltb_ge in Hlt. lia. }
  destruct (merge_ (spilling s)) as [merge|] eqn:Hm; [|discriminate].
  destruct (nextWithEquals (spillKey s) merge) as [[stream equal]|].
  - destruct (numDistinctSpillFilesPerPartition_ (spilling s) !! _) as [n|];
      [|discriminate].
    destruct equal.
    + apply IH in H. exact H.
    + apply IH in H as [Hne Hfin]. split; [|exact Hfin].
      intros Hrows. apply Hne.
      destruct (if (me_stream stream <? n)%nat then false else nd); [|exact Hrows].
      intros Happ. apply app_eq_nil in Happ as [_ Hx]. discriminate Hx.
  - destruct (0 <? length rows)%nat eqn:Hrows.
    { injection H as <- <-. split; [auto|]. intros ->. discriminate Hrows. }
    inv_bind H. destruct a as [more2 s3]. destruct more2.
    + apply VELOX_CHECK_inv in H as [_ H]. apply IH in H. exact H.
    + apply VELOX_CHECK_inv in H as [_ H]. injection H as <- <-.
      split; [auto|]. intros _.
      exact (prepareNextSpillPartitionOutput_finished ext s s3 merge Hm H0).
Qed.

Lemma mergeNext_false (ext : Externals) (maxOutputRows maxOutputBytes : Z)
    (result result' : RowVector) (s s' : GroupingSet) :
  0 < maxOutputRows ->
  mergeNext ext maxOutputRows maxOutputBytes result s = Ok (false, result', s') ->
  mergeFinished s'.
Proof.
  intros Hmax. unfold mergeNext, mergeNextWithoutAggregates, mergeNextWithAggregates.
  intros H. destruct (isDistinct s).
  - repeat (apply VELOX_CHECK_inv in H as [_ H]).
    destruct (spillConfig_ (config s)); [|discriminate].
    apply VELOX_CHECK_inv in H as [_ H].
    inv_bind H. inv_bind H. destruct a0 as [rows s2].
    injection H as Hrows _ <-.
    apply (mergeWithoutAggregatesLoop_empty ext maxOutputRows Hmax) in H1 as [_ Hfin].
    destruct rows; [|discriminate Hrows]. exact (Hfin eq_refl).
  - repeat (apply VELOX_CHECK_inv in H as [_ H]).
    apply mergeWithAggregatesLoop_false in H. exact H.
Qed.

Lemma removeEmptyPartitions_app (a b : list (nat * list SpillFile)) :
  removeEmptyPartitions (a ++ b) = [] -> removeEmptyPartitions b = [].
Proof.
  unfold removeEmptyPartitions. rewrite filter_app. intros H.
  apply app_eq_nil in H as [_ H]. exact H.
Qed.

Lemma finishSpill_again (spiller : Spiller) :
  finishSpill (finishSpill spiller).1 = finishSpill spiller.
Proof. reflexivity. Qed.

Lemma mergeNext_input (ext : Externals) (maxOutputRows maxOutputBytes : Z)
    (result result' : RowVector) (s s' : GroupingSet) (more : bool) :
  mergeNext ext maxOutputRows maxOutputBytes result s = Ok (more, result', s') ->
  inputState s' = inputState s.
Proof.
  unfold mergeNext, mergeNextWithoutAggregates, mergeNextWithAggregates. intros H.
  destruct (isDistinct s).
  - do 4 apply VELOX_CHECK_inv in H as [_ H].
    destruct (spillConfig_ (config s)); [|discriminate].
    apply VELOX_CHECK_inv in H as [_ H].
    inv_bind H. inv_bind H. destruct a0 as [rows s2]. injection H as <- <- <-.
    apply mergeWithoutAggregatesLoop_frame in H1 as (_ & Hi & _). exact Hi.
  - do 2 apply VELOX_CHECK_inv in H as [_ H].
    apply mergeWithAggregatesLoop_frame in H as (_ & Hi & _). exact Hi.
Qed.

(** Opening the merge leaves the input state alone, and when there is no
    partition to open there is nothing to merge. *)
Lemma openSpillOutput_spec (ext : Externals) (s s1 : GroupingSet) (done : bool) :
  openSpillOutput ext s = Ok (done, s1) ->
  outputSpillPartition_ (spilling s) = -1 ->
  inputState s1 = inputState s
  /\ (done = true -> nothingToMerge s1).
Proof.
  unfold openSpillOutput. intros H Hosp.
  do 2 apply VELOX_CHECK_inv in H as [_ H].
  destruct (table_ (store s)) as [table|] eqn:Htable; [|discriminate].
  cbn zeta in H.
  apply VELOX_CHECK_inv in H as [_ H].
  apply VELOX_CHECK_inv in H as [_ H].
  inv_bind H. destruct a as [s2 partitions].
  inv_bind H. destruct a as [more2 s3].
  set (sd := if negb (isDistinct s)
             then withSpilling (fun st => set_mergeRows_ (Some []) (set_mergeArgs_ 1%nat st)) s
             else s) in *.
  set (sc := withStore (set_table_ (Some (clearTable table))) sd) in *.
  assert (Hsc : inputState sc = inputState s /\ config sc = config s
                /\ outputSpillPartition_ (spilling sc) = -1
                /\ table_ (store sc) = Some {| ht_rows := [] |}
                /\ inputSpiller_ (spilling sc) = inputSpiller_ (spilling s)
                /\ outputSpiller_ (spilling sc) = outputSpiller_ (spilling s)
                /\ (isDistinct s = false -> isSome (mergeRows_ (spilling sc)) = true)).
  { unfold sc, sd. destruct (isDistinct s); cbn; repeat split; auto; discriminate. }
  destruct Hsc as (Hi & Hc & Ho & Ht & Hin & Hout & Hrows).
  clearbody sc. clear sd.
  assert (Hs2 : exists spiller,
            activeSpiller sc = Some spiller
            /\ partitions = (finishSpill spiller).2
            /\ (s2 = withSpilling (set_inputSpiller_ (Some (finishSpill spiller).1)) sc
                /\ is_Some (inputSpiller_ (spilling sc))
                \/ s2 = withSpilling (set_outputSpiller_ (Some (finishSpill spiller).1)) sc
                   /\ inputSpiller_ (spilling sc) = None)).
  { unfold activeSpiller.
    destruct (inputSpiller_ (spilling sc)) as [sp|] eqn:Hsp.
    - apply VELOX_CHECK_inv in H0 as [_ H0]. exists sp.
      destruct (finishSpill sp) as [sp' ps] eqn:Hf. injection H0 as <- <-.
      split; [reflexivity|]. split; [reflexivity|]. left. split; [reflexivity|eauto].
    - destruct (outputSpiller_ (spilling sc)) as [sp|]; [|discriminate]. exists sp.
      destruct (finishSpill sp) as [sp' ps] eqn:Hf. injection H0 as <- <-.
      split; [reflexivity|]. split; [reflexivity|]. right. split; reflexivity. }
  destruct Hs2 as (spiller & Hactive & -> & Hs2).
  assert (Hi3 : inputState s3 = inputState s).
  { apply prepareNextSpillPartitionOutput_frame in H1 as (_ & Hi3 & _).
    rewrite Hi3. cbn. destruct Hs2 as [[-> _]|[-> _]]; exact Hi. }
  destruct more2.
  { injection H as <- <-. split; [exact Hi3|discriminate]. }
  apply VELOX_CHECK_inv in H as [_ H]. injection H as <- <-.
  split; [exact Hi3|]. intros _.
  apply prepareNextSpillPartitionOutput_false in H1 as (-> & Hps & _).
  assert (Hempty : removeEmptyPartitions (finishSpill spiller).2 = []).
  { apply (removeEmptyPartitions_app (spillPartitionSet_ (spilling s2))).
    destruct Hs2 as [[-> _]|[-> _]]; exact Hps. }
  unfold nothingToMerge, activeSpiller, isDistinct.
  destruct Hs2 as [[-> [sp0 Hsp0]]|[-> Hnone]]; cbn.
  - rewrite Hc. repeat split; try assumption.
    exists (finishSpill spiller).1, (finishSpill spiller).2.
    split; [reflexivity|]. split; [reflexivity|exact Hempty].
  - rewrite Hnone, Hc. repeat split; try assumption.
    exists (finishSpill spiller).1, (finishSpill spiller).2.
    split; [reflexivity|]. split; [reflexivity|exact Hempty].
Qed.

(** [getOutputWithSpill], asked for a row, returns false only when the merge
    is over or there was nothing to merge. *)
Lemma getOutputWithSpill_false (ext : Externals) (maxOutputRows maxOutputBytes : Z)
    (result result' : RowVector) (s s' : GroupingSet) :
  0 < maxOutputRows ->
  getOutputWithSpill ext maxOutputRows maxOutputBytes result s = Ok (false, result', s') ->
  inputState s' = inputState s /\ (mergeFinished s' \/ nothingToMerge s').
Proof.
  intros Hmax. unfold getOutputWithSpill. intros H.
  inv_bind H. destruct a as [done s1].
  assert (Hs1 : inputState s1 = inputState s /\ (done = true -> nothingToMerge s1)).
  { destruct (_ =? -1) eqn:Hosp.
    - apply Z.eqb_eq in Hosp. exact (openSpillOutput_spec ext s s1 done H0 Hosp).
    - injection H0 as <- <-. split; [reflexivity|discriminate]. }
  destruct Hs1 as [Hi Hdone]. destruct done.
  - injection H as _ <-. split; [exact Hi|]. right. exact (Hdone eq_refl).
  - apply VELOX_CHECK_inv in H as [_ H]. split.
    + apply mergeNext_input in H. congruence.
    + left. exact (mergeNext_false ext _ _ _ _ _ _ Hmax H).
Qed.

(** After the end of the merge, [getOutputWithSpill] fails its check of the
    reader. *)
Lemma getOutputWithSpill_finished (ext : Externals) (maxOutputRows maxOutputBytes : Z)
    (result : RowVector) (s : GroupingSet) :
  mergeFinished s ->
  getOutputWithSpill ext maxOutputRows maxOutputBytes result s
  = Err (VeloxRuntimeError "merge_ is not null").
Proof.
  intros (Hm & _ & Hosp). unfold getOutputWithSpill.
  apply Z.eqb_neq in Hosp. rewrite Hosp. cbn [mbind result_bind].
  rewrite Hm. reflexivity.
Qed.

(** When there was nothing to merge, [getOutputWithSpill] returns false again
    and changes nothing, or fails a check. *)
Lemma getOutputWithSpill_nothing (ext : Externals) (maxOutputRows maxOutputBytes : Z)
    (result : RowVector) (s : GroupingSet) :
  nothingToMerge s ->
  hasSpilled s = Ok true ->
  getOutputWithSpill ext maxOutputRows maxOutputBytes result s = Ok (false, result, s)
  \/ exists check,
       getOutputWithSpill ext maxOutputRows maxOutputBytes result s
       = Err (VeloxRuntimeError check).
Proof.
  intros (Hosp & Hm & Hps & Ht & Hrows & spiller & partitions & Hactive & Hfinish & Hempty)
         Hspilled.
  unfold finishSpill in Hfinish. injection Hfinish as Hsp <-.
  unfold removeEmptyPartitions in Hempty.
  unfold getOutputWithSpill, openSpillOutput. rewrite Hosp, Ht. cbn [Z.eqb Z.opp Pos.eqb].
  destruct (mergeRows_ (spilling s)) as [rows|] eqn:Hmr.
  { right. eexists. reflexivity. }
  destruct (isDistinct s) eqn:Hdistinct; [|discriminate (Hrows eq_refl)].
  cbn [isNone isSome negb VELOX_CHECK mbind result_bind].
  destruct (mergeArgs_ (spilling s) =? 0)%nat eqn:Hargs.
  2:{ right. eexists. reflexivity. }
  cbn [isNone isSome negb VELOX_CHECK mbind result_bind numDistinct ht_rows length
       Nat.eqb spilling withStore set_store].
  rewrite Hm. cbn [isNone isSome negb VELOX_CHECK mbind result_bind].
  unfold hasSpilled in Hspilled. unfold activeSpiller in Hactive.
  destruct s as [c i st sp p calls]. cbn in *.
  destruct sp as [inS outS counts pset osp merge mrows margs sres]. cbn in *.
  destruct st as [table lookup ginit glayout grow abandoned allTo irows]. cbn in *.
  subst. left.
  destruct inS as [sp|].
  - injection Hactive as ->. destruct outS; [discriminate|]. cbn.
    rewrite Hempty. cbn.
    unfold removeEmptyPartitions, withSpilling, withStore, set_spilling, set_store,
      set_spillPartitionSet_, set_inputSpiller_, set_merge_, set_table_. cbn.
    rewrite Hempty, Hsp. reflexivity.
  - subst outS. cbn.
    rewrite Hempty. cbn.
    unfold removeEmptyPartitions, withSpilling, withStore, set_spilling, set_store,
      set_spillPartitionSet_, set_outputSpiller_, set_merge_, set_table_. cbn.
    rewrite Hempty, Hsp. reflexivity.
Qed.

(** ** Output: the cursor over the table *)

Lemma listRowsFrom_nil (rowBytes : Group -> Z) (maxRows : nat) (maxBytes taken : Z) :
  listRowsFrom rowBytes maxRows maxBytes taken [] = [].
Proof. destruct maxRows; reflexivity. Qed.

(** [listRows] gives the rows that follow the cursor, in order. *)
Lemma listRowsFrom_prefix (rowBytes : Group -> Z) (maxBytes : Z) (rows : list Group) :
  forall (maxRows : nat) (taken : Z),
    exists later, rows = listRowsFrom rowBytes maxRows maxBytes taken rows ++ later.
Proof.
  induction rows as [|g rows IH]; intros maxRows taken.
  - exists []. rewrite listRowsFrom_nil. reflexivity.
  - destruct maxRows as [|n]; cbn [listRowsFrom]; [exists (g :: rows); reflexivity|].
    destruct (taken <? maxBytes); [|exists (g :: rows); reflexivity].
    destruct (IH n (taken + rowBytes g)) as [later Hlater].
    exists later. cbn [app]. f_equal. exact Hlater.
Qed.

(** With room for a row, [listRows] gives none only past the last row. *)
Lemma listRowsFrom_empty (rowBytes : Group -> Z) (maxRows : nat) (maxBytes taken : Z)
    (rows : list Group) :
  (0 < maxRows)%nat -> taken < maxBytes ->
  listRowsFrom rowBytes maxRows maxBytes taken rows = [] -> rows = [].
Proof.
  intros Hrows Hbytes. destruct maxRows as [|n]; [lia|].
  destruct rows as [|g rows]; [reflexivity|]. cbn [listRowsFrom].
  apply Z.ltb_lt in Hbytes. rewrite Hbytes. discriminate.
Qed.

Lemma hasSpilled_roles (s s' : GroupingSet) :
  spillerRoles s' = spillerRoles s -> hasSpilled s' = hasSpilled s.
Proof.
  unfold spillerRoles, hasSpilled. intros H. injection H as Hi Ho.
  rewrite Hi. destruct (isSome (inputSpiller_ (spilling s))).
  - destruct (outputSpiller_ (spilling s')), (outputSpiller_ (spilling s));
      try discriminate; reflexivity.
  - rewrite Ho. reflexivity.
Qed.

(** In global mode a fresh iterator gives the row once: the call marks the
    iterator, and every call with the marked iterator returns false without
    touching the result or the state. *)
Lemma getOutput_global_once (ext : Externals) (maxOutputRows maxOutputBytes : Z)
    (iterator : RowContainerIterator) (result : RowVector) (s : GroupingSet) :
  isGlobal_ (config s) = true ->
  allocationIndex iterator = 0 ->
  (globalAggregationInitialized_ (store s) = true -> is_Some (globalRow_ (store s))) ->
  exists result' s',
    getOutput ext maxOutputRows maxOutputBytes iterator result s
    = Ok (true, setAllocationIndex INT32_MAX iterator, result', s')
    /\ forall (maxOutputRows2 maxOutputBytes2 : Z) (result2 : RowVector),
         getOutput ext maxOutputRows2 maxOutputBytes2
           (setAllocationIndex INT32_MAX iterator) result2 s'
         = Ok (false, setAllocationIndex INT32_MAX iterator, result2, s').
Proof.
  intros Hglobal Hindex Hrow. unfold getOutput. rewrite Hglobal.
  unfold getGlobalAggregationOutput at 1. rewrite Hindex. cbn [Z.eqb negb].
  assert (Hsome : is_Some (globalRow_ (store (initializeGlobalAggregation s)))).
  { unfold initializeGlobalAggregation.
    destruct (globalAggregationInitialized_ (store s)); [auto|]. cbn. eauto. }
  destruct Hsome as [group Hgroup]. rewrite Hgroup.
  eexists _, _. split; [reflexivity|].
  intros max2 bytes2 result2.
  destruct (initializeGlobalAggregation_frame s) as ([[Hc _] _] & _).
  rewrite Hc, Hglobal. reflexivity.
Qed.

(** With keys and without a spill, a call with room for a row returns false
    exactly when no row follows the cursor; otherwise it gives the next rows
    and moves the cursor past them. *)
Lemma getOutput_keyed_exact (ext : Externals) (maxOutputRows maxOutputBytes : Z)
    (iterator : RowContainerIterator) (result : RowVector) (s : GroupingSet)
    (table : HashTable) :
  isGlobal_ (config s) = false ->
  hasDefaultGlobalGroupingSetOutput s = false ->
  hasSpilled s = Ok false ->
  isDistinct s = false ->
  table_ (store s) = Some table ->
  0 < maxOutputRows -> 0 < maxOutputBytes ->
  (drop (rowNumber iterator) (ht_rows table) = []
   /\ getOutput ext maxOutputRows maxOutputBytes iterator result s
      = Ok (false, iterator, result, withStore (set_table_ (Some (clearTable table))) s))
  \/ exists groups later,
       groups <> []
       /\ drop (rowNumber iterator) (ht_rows table) = groups ++ later
       /\ getOutput ext maxOutputRows maxOutputBytes iterator result s
          = Ok (true,
                {| allocationIndex := allocationIndex iterator;
                   rowNumber := rowNumber iterator + length groups |},
                extractGroups s (length (keyChannels_ (config s))) groups result,
                s).
Proof.
  intros Hglobal Hdefault Hspilled Hdistinct Htable Hrows Hbytes.
  unfold getOutput. rewrite Hglobal, Hdefault, Hspilled, Hdistinct, Htable.
  rewrite vectorOfSize_ok by lia.
  cbn [mbind result_bind negb VELOX_CHECK]. unfold listRows.
  set (out := listRowsFrom _ _ _ _ _).
  destruct (bool_decide (out = [])) eqn:Hout.
  - apply bool_decide_eq_true in Hout. left. rewrite Hout. split.
    + apply (listRowsFrom_empty (ext_rowBytes ext) (Z.to_nat maxOutputRows)
               maxOutputBytes 0); [lia|lia|exact Hout].
    + cbn [length]. rewrite Nat.add_0_r. destruct iterator. reflexivity.
  - apply bool_decide_eq_false in Hout. right.
    destruct (listRowsFrom_prefix (ext_rowBytes ext) maxOutputBytes
                (drop (rowNumber iterator) (ht_rows table))
                (Z.to_nat maxOutputRows) 0) as [later Hlater].
    exists out, later. split; [exact Hout|]. split; [exact Hlater|reflexivity].
Qed.

(** Once a call for at least one row returned false, a call with the iterator
    and the state it left returns false again and changes nothing; after a
    spill it may fail a check instead. *)
Lemma getOutput_false_again (ext : Externals) (maxOutputRows maxOutputBytes : Z)
    (iterator iterator' : RowContainerIterator) (result result' : RowVector)
    (s s' : GroupingSet) :
  0 < maxOutputRows ->
  getOutput ext maxOutputRows maxOutputBytes iterator result s
  = Ok (false, iterator', result', s') ->
  forall (maxOutputRows2 maxOutputBytes2 : Z) (result2 : RowVector),
    getOutput ext maxOutputRows2 maxOutputBytes2 iterator' result2 s'
    = Ok (false, iterator', result2, s')
    \/ (isGlobal_ (config s') = false
        /\ hasDefaultGlobalGroupingSetOutput s' = false
        /\ hasSpilled s' = Ok true
        /\ exists check,
             getOutput ext maxOutputRows2 maxOutputBytes2 iterator' result2 s'
             = Err (VeloxRuntimeError check))
    \/ (maxOutputRows2 < 0
        /\ isGlobal_ (config s') = false
        /\ hasDefaultGlobalGroupingSetOutput s' = false
        /\ hasSpilled s' = Ok false
        /\ getOutput ext maxOutputRows2 maxOutputBytes2 iterator' result2 s'
           = Err (StdLengthError "groups")).
Proof.
  intros Hmax H max2 bytes2 result2. unfold getOutput in H.
  destruct (isGlobal_ (config s)) eqn:Hglobal.
  { unfold getGlobalAggregationOutput in H.
    destruct (negb (allocationIndex iterator =? 0)) eqn:Hindex.
    - injection H as <- <- <-. left. unfold getOutput. rewrite Hglobal.
      unfold getGlobalAggregationOutput. rewrite Hindex. reflexivity.
    - destruct (globalRow_ _); discriminate H. }
  destruct (hasDefaultGlobalGroupingSetOutput s) eqn:Hdefault.
  { unfold getDefaultGlobalGroupingSetOutput in H. rewrite Hdefault in H.
    cbn [VELOX_CHECK mbind result_bind] in H.
    destruct (negb (allocationIndex iterator =? 0)) eqn:Hindex.
    - injection H as <- <- <-. left. unfold getOutput. rewrite Hglobal, Hdefault.
      unfold getDefaultGlobalGroupingSetOutput. rewrite Hdefault, Hindex. reflexivity.
    - inv_bind H. destruct a as [[[produced it2] row] s2].
      apply VELOX_CHECK_inv in H as [_ H].
      destruct (groupIdChannel_ (config s2)); discriminate H. }
  inv_bind H. destruct a as [|].
  - inv_bind H. destruct a as [[more r] s1]. injection H as -> <- <- <-.
    rename s1 into s'.
    pose proof (getOutputWithSpill_frame _ _ _ _ _ _ _ _ H1) as [[Hc _] Hroles].
    apply (getOutputWithSpill_false ext _ _ _ _ _ _ Hmax) in H1 as [Hi Hcase].
    assert (Hglobal' : isGlobal_ (config s') = false) by (rewrite Hc; exact Hglobal).
    assert (Hdefault' : hasDefaultGlobalGroupingSetOutput s' = false).
    { unfold hasDefaultGlobalGroupingSetOutput in *. rewrite Hc, Hi. exact Hdefault. }
    assert (Hspilled' : hasSpilled s' = Ok true).
    { rewrite (hasSpilled_roles s s' Hroles). exact H0. }
    unfold getOutput. rewrite Hglobal', Hdefault', Hspilled'.
    cbn [mbind result_bind].
    destruct Hcase as [Hfinished|Hnothing].
    + right. left. rewrite (getOutputWithSpill_finished ext _ _ _ _ Hfinished).
      repeat split; try reflexivity. eexists. reflexivity.
    + destruct (getOutputWithSpill_nothing ext max2 bytes2 result2 s' Hnothing Hspilled')
        as [Hok|[check Herr]].
      * left. rewrite Hok. reflexivity.
      * right. left. rewrite Herr. repeat split; try reflexivity. eexists. reflexivity.
  - apply VELOX_CHECK_inv in H as [Hdistinct H]. apply vectorOfSize_inv in H as [_ H].
    destruct (table_ (store s)) as [table|] eqn:Htable.
    + unfold listRows in H.
      match type of H with
      | context [bool_decide (?out = [])] => destruct (bool_decide (out = [])) eqn:Hout
      end; [|discriminate H].
      apply bool_decide_eq_true in Hout. rewrite Hout in H. injection H as <- <- <-.
      unfold getOutput.
      change (isGlobal_ (config (withStore (set_table_ (Some (clearTable table))) s)))
        with (isGlobal_ (config s)).
      change (hasDefaultGlobalGroupingSetOutput
                (withStore (set_table_ (Some (clearTable table))) s))
        with (hasDefaultGlobalGroupingSetOutput s).
      change (hasSpilled (withStore (set_table_ (Some (clearTable table))) s))
        with (hasSpilled s).
      change (isDistinct (withStore (set_table_ (Some (clearTable table))) s))
        with (isDistinct s).
      rewrite Hglobal, Hdefault, H0. cbn [mbind result_bind]. rewrite Hdistinct.
      cbn [VELOX_CHECK mbind result_bind].
      unfold vectorOfSize. destruct (max2 <? 0) eqn:Hneg.
      { right. right. apply Z.ltb_lt in Hneg. repeat split. exact Hneg. }
      left. cbn [mbind result_bind].
      change (table_ (store (withStore (set_table_ (Some (clearTable table))) s)))
        with (Some (clearTable table)).
      unfold listRows. cbn [clearTable ht_rows]. rewrite drop_nil, listRowsFrom_nil.
      cbn [length allocationIndex rowNumber]. rewrite !Nat.add_0_r.
      destruct s as [c i st sp p calls]. reflexivity.
    + injection H as <- <- <-. unfold getOutput.
      rewrite Hglobal, Hdefault, H0. cbn [mbind result_bind]. rewrite Hdistinct, Htable.
      cbn [VELOX_CHECK mbind result_bind negb].
      unfold vectorOfSize. destruct (max2 <? 0) eqn:Hneg.
      { right. right. apply Z.ltb_lt in Hneg. repeat split. exact Hneg. }
      left. reflexivity.
Qed.

(** ** Output after a spill: the calls that read the merge *)

Lemma prepareNextSpillPartitionOutput_true (ext : Externals) (s s' : GroupingSet) :
  prepareNextSpillPartitionOutput ext s = Ok (true, s') ->
  is_Some (merge_ (spilling s')) /\ outputSpillPartition_ (spilling s') <> -1.
Proof.
  unfold prepareNextSpillPartitionOutput. intros H.
  apply VELOX_CHECK_inv in H as [_ H].
  cbn [spilling withSpilling set_spilling set_merge_ spillPartitionSet_
       outputSpillPartition_] in H.
  destruct (spillPartitionSet_ (spilling s)) as [|[q files] rest]; [discriminate H|].
  apply VELOX_CHECK_inv in H as [_ H]. injection H as <-. cbn.
  split; [eauto|lia].
Qed.

(** Finishing the spill and opening the first partition leaves the
    configuration, the input state and the roles of the spillers alone. *)
Lemma openSpillOutput_frame (ext : Externals) (s s1 : GroupingSet) (done : bool) :
  openSpillOutput ext s = Ok (done, s1) ->
  rolesFrame s s1
  /\ (done = false ->
      is_Some (merge_ (spilling s1)) /\ outputSpillPartition_ (spilling s1) <> -1).
Proof.
  unfold openSpillOutput. intros H0. do 2 apply VELOX_CHECK_inv in H0 as [_ H0].
  destruct (table_ (store s)) as [table|]; [|discriminate].
  apply VELOX_CHECK_inv in H0 as [_ H0].
  apply VELOX_CHECK_inv in H0 as [_ H0].
  inv_bind H0. destruct a as [s2 partitions].
  inv_bind H0. destruct a as [more2 s3].
  pose proof (mergeFrame_roles _ _ (prepareNextSpillPartitionOutput_frame _ _ _ _ H2))
    as Hroles3.
  assert (Hs3 : s1 = s3 /\ done = negb more2).
  { destruct more2; [injection H0 as <- <-; split; reflexivity|].
    apply VELOX_CHECK_inv in H0 as [_ H0]. injection H0 as <- <-. split; reflexivity. }
  destruct Hs3 as [-> ->]. split.
  - eapply rolesFrame_trans; [|exact Hroles3].
    assert (Hs2 : rolesFrame s s2).
    { destruct (negb (isDistinct s));
        cbn [spilling withSpilling set_spilling withStore set_store
             set_mergeRows_ set_mergeArgs_ inputSpiller_ outputSpiller_] in H1;
        destruct (inputSpiller_ (spilling s)) as [sp|] eqn:Hin.
      all: try (apply VELOX_CHECK_inv in H1 as [_ H1];
                destruct (finishSpill sp); injection H1 as <- _;
                unfold rolesFrame, steady, spillerRoles; cbn; rewrite Hin;
                repeat split).
      all: destruct (outputSpiller_ (spilling s)) as [sp|] eqn:Hout;
        [|discriminate].
      all: destruct (finishSpill sp); injection H1 as <- _;
        unfold rolesFrame, steady, spillerRoles; cbn; rewrite Hin, ?Hout;
        repeat split. }
    eapply rolesFrame_trans; [exact Hs2|]. repeat split.
  - destruct more2; [|discriminate]. intros _.
    exact (prepareNextSpillPartitionOutput_true ext _ _ H2).
Qed.

(** With a reader open, [getOutput] is [mergeNext]. *)
Lemma getOutput_merging (ext : Externals) (maxOutputRows maxOutputBytes : Z)
    (iterator : RowContainerIterator) (result : RowVector) (s : GroupingSet) :
  isGlobal_ (config s) = false ->
  hasDefaultGlobalGroupingSetOutput s = false ->
  hasSpilled s = Ok true ->
  is_Some (merge_ (spilling s)) ->
  outputSpillPartition_ (spilling s) <> -1 ->
  getOutput ext maxOutputRows maxOutputBytes iterator result s
  = '(more, result, s) ← mergeNext ext maxOutputRows maxOutputBytes result s;
    Ok (more, iterator, result, s).
Proof.
  intros Hglobal Hdefault Hspilled [m Hm] Hopen.
  unfold getOutput, getOutputWithSpill. rewrite Hglobal, Hdefault, Hspilled.
  apply Z.eqb_neq in Hopen. rewrite Hopen. cbn [mbind result_bind].
  rewrite Hm. reflexivity.
Qed.

(** The first call after a spill finishes the spill: it returns false when no
    partition holds a row, and goes on as a call on the opened merge
    otherwise. *)
Lemma getOutput_opens_merge (ext : Externals) (maxOutputRows maxOutputBytes : Z)
    (iterator : RowContainerIterator) (result : RowVector) (s s1 : GroupingSet)
    (done : bool) :
  isGlobal_ (config s) = false ->
  hasDefaultGlobalGroupingSetOutput s = false ->
  hasSpilled s = Ok true ->
  outputSpillPartition_ (spilling s) = -1 ->
  openSpillOutput ext s = Ok (done, s1) ->
  if done
  then getOutput ext maxOutputRows maxOutputBytes iterator result s
       = Ok (false, iterator, result, s1)
       /\ nothingToMerge s1
  else getOutput ext maxOutputRows maxOutputBytes iterator result s
       = getOutput ext maxOutputRows maxOutputBytes iterator result s1
       /\ is_Some (merge_ (spilling s1))
       /\ outputSpillPartition_ (spilling s1) <> -1.
Proof.
  intros Hglobal Hdefault Hspilled Hclosed Hopen.
  destruct (openSpillOutput_spec ext s s1 done Hopen Hclosed) as [Hinput Hnothing].
  destruct (openSpillOutput_frame ext s s1 done Hopen) as [[[Hc _] Hroles] Hopened].
  assert (Hcall : getOutput ext maxOutputRows maxOutputBytes iterator result s
                  = '(more, result, s) ←
                      (if done then Ok (false, result, s1)
                       else _ ← VELOX_CHECK (isSome (merge_ (spilling s1)))
                                  "merge_ is not null";
                            mergeNext ext maxOutputRows maxOutputBytes result s1);
                    Ok (more, iterator, result, s)).
  { unfold getOutput, getOutputWithSpill. rewrite Hglobal, Hdefault, Hspilled, Hclosed.
    cbn [Z.eqb Pos.eqb mbind result_bind]. rewrite Hopen. reflexivity. }
  rewrite Hcall. destruct done.
  - split; [reflexivity|]. apply Hnothing. reflexivity.
  - destruct (Hopened eq_refl) as [[m Hm] Hpartition].
    split; [|split; [eauto|exact Hpartition]].
    rewrite (getOutput_merging ext maxOutputRows maxOutputBytes iterator result s1).
    + rewrite Hm. reflexivity.
    + rewrite Hc. exact Hglobal.
    + unfold hasDefaultGlobalGroupingSetOutput in *. rewrite Hc, Hinput. exact Hdefault.
    + rewrite (hasSpilled_roles s s1 Hroles). exact Hspilled.
    + eauto.
    + exact Hpartition.
Qed.

(** With a reader open on distinct-only data, a call for at least one row
    returns false exactly when no row is left to recover. *)
Lemma getOutput_distinct_merge_exact (ext : Externals)
    (maxOutputRows maxOutputBytes : Z) (iterator : RowContainerIterator)
    (result : RowVector) (s : GroupingSet) :
  isGlobal_ (config s) = false ->
  hasDefaultGlobalGroupingSetOutput s = false ->
  0 < maxOutputRows ->
  mergeReady s ->
  distinctRecovery s result ->
  exists out s',
    getOutput ext maxOutputRows maxOutputBytes iterator result s
    = Ok (negb (bool_decide (out = [])), iterator, projectResult s out result, s')
    /\ pendingRows ext s = out ++ pendingRows ext s'
    /\ (out = [] <-> pendingRows ext s = [])
    /\ (mergeReady s' \/ mergeFinished s').
Proof.
  intros Hglobal Hdefault Hmax Hready Hrecovery.
  destruct (mergeNextWithoutAggregates_spec ext maxOutputRows result s
              Hmax Hready Hrecovery)
    as (out & s' & Hcall & Hpend & _ & Hnone & Hnext & _).
  exists out, s'.
  pose proof Hready as (m & partition & Hm & Hpartition & _).
  destruct Hrecovery as (Hdistinct & Hout & [spiller Hin] & _).
  split.
  { rewrite getOutput_merging; try assumption.
    - unfold mergeNext. rewrite Hdistinct, Hcall. reflexivity.
    - unfold hasSpilled. rewrite Hin, Hout. reflexivity.
    - rewrite Hm. eauto.
    - rewrite Hpartition. lia. }
  split; [exact Hpend|]. split; [|exact Hnext].
  split; [exact Hnone|]. intros Hnil. rewrite Hnil in Hpend.
  symmetry in Hpend. apply app_eq_nil in Hpend as [Hout' _]. exact Hout'.
Qed.

(** With a reader open on groups with aggregates, a call returns false
    exactly when no group is left to recover. *)
Lemma getOutput_merge_exact (ext : Externals)
    (maxOutputRows maxOutputBytes : Z) (iterator : RowContainerIterator)
    (result : RowVector) (s : GroupingSet) :
  isGlobal_ (config s) = false ->
  hasDefaultGlobalGroupingSetOutput s = false ->
  hasSpilled s = Ok true ->
  mergeOpen s ->
  isDistinct s = false ->
  mergeRows_ (spilling s) = Some [] ->
  exists out result0 s',
    getOutput ext maxOutputRows maxOutputBytes iterator result s
    = Ok (negb (bool_decide (out = [])), iterator,
          extractGroups s (length (keyChannels_ (config s))) out result0, s')
    /\ length (rv_children result0) = length (rv_children result)
    /\ pendingGroups ext s = out ++ pendingGroups ext s'
    /\ (out = [] <-> pendingGroups ext s = [])
    /\ (mergeOpen s' \/ mergeFinished s').
Proof.
  intros Hglobal Hdefault Hspilled Hopen Hdistinct Hrows.
  pose proof Hopen as (m & partition & Hm & Hpartition & _).
  destruct (mergeWithAggregatesLoop_spec ext maxOutputRows maxOutputBytes
              (mergeBudget s) false result s [] m Hopen Hm Hrows)
    as (out & result0 & s' & Hloop & Hcols & Hpend & Hmr & Hfr & Hfin & Hst);
    [discriminate|lia|].
  exists out, result0, s'.
  rewrite groupsFrom_false in Hpend. cbn [app] in Hpend.
  assert (Hpending : pendingGroups ext s = out ++ pendingGroups ext s').
  { rewrite <- Hpend. unfold pendingGroups. rewrite Hm. reflexivity. }
  split.
  { rewrite getOutput_merging; try assumption.
    - unfold mergeNext, mergeNextWithAggregates. rewrite Hdistinct, Hm.
      cbn [negb isSome VELOX_CHECK mbind result_bind]. rewrite Hloop. reflexivity.
    - rewrite Hm. eauto.
    - rewrite Hpartition. lia. }
  split; [exact Hcols|]. split; [exact Hpending|]. split; [|exact Hst].
  split.
  - intros ->. rewrite Hpending. cbn [app].
    destruct (Hfin eq_refl) as (Hnone & Hps & _).
    unfold pendingGroups. rewrite Hnone, Hps. reflexivity.
  - intros Hnil. rewrite Hnil in Hpending.
    symmetry in Hpending. apply app_eq_nil in Hpending as [Hout' _]. exact Hout'.
Qed.

(** C2, as the code has it. With room for a row, [getOutput] returns false
    exactly when nothing is left to give. In global mode a fresh iterator
    gives the row once, and the marked iterator gives false ever after. With
    keys and without a spill, the call returns false exactly when no row
    follows the cursor, and otherwise gives the rows that follow it and moves
    the cursor past them. After a spill the first call finishes the spill,
    returns false if no partition holds a row, and otherwise goes on as a
    call on the merge it opened; with a merge open, the call returns false
    exactly when no row or group of the spilled partitions is left, and
    otherwise gives the next ones. Once a call for at least one row returned
    false, a call with the iterator and the state it left returns false
    again, leaving the result, the iterator and the state as they are, so
    that no group is given again; but after a spill the later call may fail a
    check instead, and without a spill a later call with a negative row
    budget fails in the constructor of [groups]. *)
Theorem C2_getOutput_at_exhaustion (ext : Externals) :
  (forall (maxOutputRows maxOutputBytes : Z) (iterator iterator' : RowContainerIterator)
          (result result' : RowVector) (s s' : GroupingSet),
     0 < maxOutputRows ->
     getOutput ext maxOutputRows maxOutputBytes iterator result s
     = Ok (false, iterator', result', s') ->
     forall (maxOutputRows2 maxOutputBytes2 : Z) (result2 : RowVector),
       getOutput ext maxOutputRows2 maxOutputBytes2 iterator' result2 s'
       = Ok (false, iterator', result2, s')
       \/ (isGlobal_ (config s') = false
           /\ hasDefaultGlobalGroupingSetOutput s' = false
           /\ hasSpilled s' = Ok true
           /\ exists check,
                getOutput ext maxOutputRows2 maxOutputBytes2 iterator' result2 s'
                = Err (VeloxRuntimeError check))
       \/ (maxOutputRows2 < 0
           /\ isGlobal_ (config s') = false
           /\ hasDefaultGlobalGroupingSetOutput s' = false
           /\ hasSpilled s' = Ok false
           /\ getOutput ext maxOutputRows2 maxOutputBytes2 iterator' result2 s'
              = Err (StdLengthError "groups")))
  /\ (forall (maxOutputRows maxOutputBytes : Z) (iterator : RowContainerIterator)
             (result : RowVector) (s : GroupingSet),
        isGlobal_ (config s) = true ->
        allocationIndex iterator = 0 ->
        (globalAggregationInitialized_ (store s) = true ->
         is_Some (globalRow_ (store s))) ->
        exists result' s',
          getOutput ext maxOutputRows maxOutputBytes iterator result s
          = Ok (true, setAllocationIndex INT32_MAX iterator, result', s')
          /\ forall (maxOutputRows2 maxOutputBytes2 : Z) (result2 : RowVector),
               getOutput ext maxOutputRows2 maxOutputBytes2
                 (setAllocationIndex INT32_MAX iterator) result2 s'
               = Ok (false, setAllocationIndex INT32_MAX iterator, result2, s'))
  /\ (forall (maxOutputRows maxOutputBytes : Z) (iterator : RowContainerIterator)
             (result : RowVector) (s : GroupingSet) (table : HashTable),
        isGlobal_ (config s) = false ->
        hasDefaultGlobalGroupingSetOutput s = false ->
        hasSpilled s = Ok false ->
        isDistinct s = false ->
        table_ (store s) = Some table ->
        0 < maxOutputRows -> 0 < maxOutputBytes ->
        (drop (rowNumber iterator) (ht_rows table) = []
         /\ getOutput ext maxOutputRows maxOutputBytes iterator result s
            = Ok (false, iterator, result,
                  withStore (set_table_ (Some (clearTable table))) s))
        \/ exists groups later,
             groups <> []
             /\ drop (rowNumber iterator) (ht_rows table) = groups ++ later
             /\ getOutput ext maxOutputRows maxOutputBytes iterator result s
                = Ok (true,
                      {| allocationIndex := allocationIndex iterator;
                         rowNumber := rowNumber iterator + length groups |},
                      extractGroups s (length (keyChannels_ (config s))) groups result,
                      s))
  /\ (forall (maxOutputRows maxOutputBytes : Z) (iterator : RowContainerIterator)
             (result : RowVector) (s s1 : GroupingSet) (done : bool),
        isGlobal_ (config s) = false ->
        hasDefaultGlobalGroupingSetOutput s = false ->
        hasSpilled s = Ok true ->
        outputSpillPartition_ (spilling s) = -1 ->
        openSpillOutput ext s = Ok (done, s1) ->
        if done
        then getOutput ext maxOutputRows maxOutputBytes iterator result s
             = Ok (false, iterator, result, s1)
             /\ nothingToMerge s1
        else getOutput ext maxOutputRows maxOutputBytes iterator result s
             = getOutput ext maxOutputRows maxOutputBytes iterator result s1
             /\ is_Some (merge_ (spilling s1))
             /\ outputSpillPartition_ (spilling s1) <> -1)
  /\ (forall (maxOutputRows maxOutputBytes : Z) (iterator : RowContainerIterator)
             (result : RowVector) (s : GroupingSet),
        isGlobal_ (config s) = false ->
        hasDefaultGlobalGroupingSetOutput s = false ->
        0 < maxOutputRows ->
        mergeReady s ->
        distinctRecovery s result ->
        exists out s',
          getOutput ext maxOutputRows maxOutputBytes iterator result s
          = Ok (negb (bool_decide (out = [])), iterator, projectResult s out result, s')
          /\ pendingRows ext s = out ++ pendingRows ext s'
          /\ (out = [] <-> pendingRows ext s = [])
          /\ (mergeReady s' \/ mergeFinished s'))
  /\ (forall (maxOutputRows maxOutputBytes : Z) (iterator : RowContainerIterator)
             (result : RowVector) (s : GroupingSet),
        isGlobal_ (config s) = false ->
        hasDefaultGlobalGroupingSetOutput s = false ->
        hasSpilled s = Ok true ->
        mergeOpen s ->
        isDistinct s = false ->
        mergeRows_ (spilling s) = Some [] ->
        exists out result0 s',
          getOutput ext maxOutputRows maxOutputBytes iterator result s
          = Ok (negb (bool_decide (out = [])), iterator,
                extractGroups s (length (keyChannels_ (config s))) out result0, s')
          /\ length (rv_children result0) = length (rv_children result)
          /\ pendingGroups ext s = out ++ pendingGroups ext s'
          /\ (out = [] <-> pendingGroups ext s = [])
          /\ (mergeOpen s' \/ mergeFinished s')).
Proof.
  split; [|split; [|split; [|split; [|split]]]].
  - intros maxOutputRows maxOutputBytes iterator iterator' result result' s s' Hmax H.
    exact (getOutput_false_again ext maxOutputRows maxOutputBytes iterator iterator'
             result result' s s' Hmax H).
  - intros maxOutputRows maxOutputBytes iterator result s.
    apply getOutput_global_once.
  - intros maxOutputRows maxOutputBytes iterator result s table.
    apply getOutput_keyed_exact.
  - intros maxOutputRows maxOutputBytes iterator result s s1 done.
    apply getOutput_opens_merge.
  - intros maxOutputRows maxOutputBytes iterator result s.
    apply getOutput_distinct_merge_exact.
  - intros maxOutputRows maxOutputBytes iterator result s.
    apply getOutput_merge_exact.
Qed.

(** [sum(c1) group by c0] with a spill: the call that finds the merge at its
    end returns false, and the call after it fails the check of the reader
    instead of returning false. *)
Lemma C2_counterexample_call_after_merge_end :
  getOutput sampleExternals 10 1000 freshIterator (emptyResult 2) sumByKeyDrained
  = Ok (false, freshIterator, {| rv_size := 0; rv_children := [[]; []] |},
        sumByKeyExhausted)
  /\ getOutput sampleExternals 10 1000 freshIterator
       {| rv_size := 0; rv_children := [[]; []] |} sumByKeyExhausted
     = Err (VeloxRuntimeError "merge_ is not null").
Proof. split; vm_compute; reflexivity. Qed.

(** The parts on sample runs: after the merge of a spilled [sum(c1) group by
    c0] ended, without keys, with keys in memory, and with the merge open on
    the group that is left. *)
Lemma C2_getOutput_at_exhaustion_witness :
  (getOutput sampleExternals 5 500 freshIterator (emptyResult 2) sumByKeyExhausted
   = Ok (false, freshIterator, emptyResult 2, sumByKeyExhausted)
   \/ (isGlobal_ (config sumByKeyExhausted) = false
       /\ hasDefaultGlobalGroupingSetOutput sumByKeyExhausted = false
       /\ hasSpilled sumByKeyExhausted = Ok true
       /\ exists check,
            getOutput sampleExternals 5 500 freshIterator (emptyResult 2)
              sumByKeyExhausted
            = Err (VeloxRuntimeError check))
   \/ (5 < 0
       /\ isGlobal_ (config sumByKeyExhausted) = false
       /\ hasDefaultGlobalGroupingSetOutput sumByKeyExhausted = false
       /\ hasSpilled sumByKeyExhausted = Ok false
       /\ getOutput sampleExternals 5 500 freshIterator (emptyResult 2)
            sumByKeyExhausted
          = Err (StdLengthError "groups")))
  /\ (exists result' s',
        getOutput sampleExternals 10 1000 freshIterator (emptyResult 2) globalSumLoaded
        = Ok (true, setAllocationIndex INT32_MAX freshIterator, result', s')
        /\ forall (maxOutputRows2 maxOutputBytes2 : Z) (result2 : RowVector),
             getOutput sampleExternals maxOutputRows2 maxOutputBytes2
               (setAllocationIndex INT32_MAX freshIterator) result2 s'
             = Ok (false, setAllocationIndex INT32_MAX freshIterator, result2, s'))
  /\ (exists groups later,
        groups <> []
        /\ [{| g_keys := [Some 1]; g_accumulators := [[Some 10]] |};
            {| g_keys := [Some 2]; g_accumulators := [[Some 3]] |}] = groups ++ later
        /\ getOutput sampleExternals 1 1000 freshIterator (emptyResult 2) sumByKeyInMemory
           = Ok (true,
                 {| allocationIndex := 0; rowNumber := 0 + length groups |},
                 extractGroups sumByKeyInMemory 1 groups (emptyResult 2),
                 sumByKeyInMemory))
  /\ (exists out result0 s',
        getOutput sampleExternals 10 1000 freshIterator (emptyResult 2) sumByKeyMerging
        = Ok (negb (bool_decide (out = [])), freshIterator,
              extractGroups sumByKeyMerging 1 out result0, s')
        /\ [{| g_keys := [Some 2]; g_accumulators := [[Some 3]] |}]
           = out ++ pendingGroups sampleExternals s'
        /\ (out = [] <-> pendingGroups sampleExternals sumByKeyMerging = [])).
Proof.
  destruct (C2_getOutput_at_exhaustion sampleExternals)
    as (Hfalse & Hglobal & Hkeyed & _ & _ & Hmerge).
  split; [|split; [|split]].
  - apply (Hfalse 10 1000 freshIterator freshIterator (emptyResult 2)
             {| rv_size := 0; rv_children := [[]; []] |} sumByKeyDrained
             sumByKeyExhausted); [lia|vm_compute; reflexivity].
  - apply (Hglobal 10 1000 freshIterator (emptyResult 2) globalSumLoaded).
    + vm_compute; reflexivity.
    + reflexivity.
    + intros _. eexists. vm_compute. reflexivity.
  - destruct (Hkeyed 1 1000 freshIterator (emptyResult 2) sumByKeyInMemory
                {| ht_rows := [{| g_keys := [Some 1]; g_accumulators := [[Some 10]] |};
                               {| g_keys := [Some 2]; g_accumulators := [[Some 3]] |}] |})
      as [[Hnone _]|Hsome]; try (vm_compute; reflexivity); try lia.
    + discriminate Hnone.
    + exact Hsome.
  - destruct (Hmerge 10 1000 freshIterator (emptyResult 2) sumByKeyMerging)
      as (out & result0 & s' & Hcall & _ & Hpend & Hexact & _).
    + vm_compute; reflexivity.
    + vm_compute; reflexivity.
    + vm_compute; reflexivity.
    + exists [{| me_stream := 0; me_row := [Some 2; Some 3] |}], 0%nat.
      split; [vm_compute; reflexivity|]. split; [vm_compute; reflexivity|].
      vm_compute. exact I.
    + vm_compute; reflexivity.
    + vm_compute; reflexivity.
    + exists out, result0, s'. split; [exact Hcall|]. split; [|exact Hexact].
      rewrite <- Hpend. vm_compute. reflexivity.
Defined.

(** * Further properties *)

(** ** The constructor: pushdown flags *)

Lemma countChannels_lookup (channels : list column_index_t) (channel : column_index_t) :
  forall m : gmap N Z,
    default 0 (foldl (fun m c => <[c := default 0 (m !! c) + 1]> m) m channels !! channel)
    = default 0 (m !! channel)
      + Z.of_nat (length (filter (fun c => c = channel) channels)).
Proof.
  induction channels as [|c channels IH]; intros m; cbn [foldl].
  - rewrite filter_nil. cbn. lia.
  - rewrite IH, filter_cons. destruct (decide (c = channel)) as [->|Hne].
    + rewrite lookup_insert_eq. simpl. lia.
    + rewrite lookup_insert_ne by exact Hne. lia.
Qed.

Lemma countChannelUses_lookup (aggregates : list AggregateInfo)
    (channel : column_index_t) :
  default 0 (countChannelUses aggregates !! channel)
  = Z.of_nat (channelUses aggregates channel).
Proof.
  unfold countChannelUses, channelUses.
  assert (H : forall m : gmap N Z,
             default 0
               (foldl (fun m aggregate =>
                         foldl (fun m c => <[c := default 0 (m !! c) + 1]> m)
                               m (inputs aggregate))
                      m aggregates !! channel)
             = default 0 (m !! channel)
               + Z.of_nat (length (filter (fun c => c = channel)
                                          (concat (map inputs aggregates))))).
  { induction aggregates as [|a aggregates IH]; intros m; cbn [foldl map concat].
    - rewrite filter_nil. cbn. lia.
    - rewrite IH, countChannels_lookup, filter_app, length_app. lia. }
  rewrite H, lookup_empty. cbn. lia.
Qed.

(** X1. The constructor allows the pushdown of an aggregate exactly when every
    input channel of the aggregate is an input only once, over all the
    aggregates and with repeats inside one aggregate counted; the constant
    channel counts as a channel like any other. *)
Theorem X1_mayPushdown_singly_referenced (ext : Externals) (a : GroupingSetArgs)
    (s : GroupingSet) :
  construct ext a = Ok s ->
  mayPushdown_ (config s)
  = map (fun aggregate =>
           forallb (fun channel => (channelUses (arg_aggregates a) channel =? 1)%nat)
                   (inputs aggregate))
        (arg_aggregates a).
Proof.
  unfold construct. intros H.
  do 2 apply VELOX_CHECK_inv in H as [_ H].
  inv_bind H. inv_bind H. inv_bind H. injection H as <-.
  cbn [config mayPushdown_]. apply map_ext. intros aggregate.
  unfold allAreSinglyReferenced.
  induction (inputs aggregate) as [|channel channels IH]; cbn [forallb]; [reflexivity|].
  rewrite IH, countChannelUses_lookup. f_equal.
  destruct (Nat.eqb_spec (channelUses (arg_aggregates a) channel) 1) as [->|Hne].
  - reflexivity.
  - apply Z.eqb_neq. lia.
Qed.

(** Column 1 is an input of the sum and of the count, column 2 of one sum
    only. *)
Lemma X1_mayPushdown_singly_referenced_witness :
  mayPushdown_ (config (stateOf (construct sampleExternals sharedInputArgs)))
  = map (fun aggregate =>
           forallb (fun channel =>
                      (channelUses (arg_aggregates sharedInputArgs) channel =? 1)%nat)
                   (inputs aggregate))
        (arg_aggregates sharedInputArgs)
  /\ mayPushdown_ (config (stateOf (construct sampleExternals sharedInputArgs)))
     = [false; false; true].
Proof.
  split; [|vm_compute; reflexivity].
  apply (X1_mayPushdown_singly_referenced sampleExternals sharedInputArgs).
  vm_compute. reflexivity.
Defined.

(** ** The constructor: the shape of the configuration *)

Lemma createDistinctAggregations_shape (ext : Externals) (isPartial : bool)
    (aggregates : list AggregateInfo) :
  forall adapters,
    createDistinctAggregations ext isPartial aggregates = Ok adapters ->
    map isSome adapters = map distinct aggregates
    /\ (isPartial = true -> Forall (fun aggregate => distinct aggregate = false) aggregates).
Proof.
  induction aggregates as [|a rest IH]; intros adapters H;
    cbn [createDistinctAggregations] in H.
  - injection H as <-. split; [reflexivity|]. intros _. constructor.
  - destruct (distinct a) eqn:Hd.
    + apply bind_Ok in H as ([] & Hcheck & H). inv_bind H. injection H as <-.
      destruct isPartial; [discriminate Hcheck|].
      destruct (IH a0 H0) as [Hshape _]. split; [|discriminate].
      cbn [map isSome]. rewrite Hshape, Hd. reflexivity.
    + inv_bind H. injection H as <-. destruct (IH a0 H0) as [Hshape Hpartial].
      split; [cbn [map isSome]; rewrite Hshape, Hd; reflexivity|].
      intros Hp. constructor; [exact Hd|exact (Hpartial Hp)].
Qed.

Lemma construct_wellShaped (ext : Externals) (a : GroupingSetArgs) (s : GroupingSet) :
  construct ext a = Ok s -> wellShaped (config s).
Proof.
  unfold construct. intros H.
  do 2 apply VELOX_CHECK_inv in H as [_ H].
  inv_bind H. rename a0 into projections. inv_bind H. inv_bind H.
  rename a1 into adapters. injection H as <-.
  apply createDistinctAggregations_shape in H2 as [Hshape Hpartial].
  unfold wellShaped. cbn.
  split; [destruct (arg_hashers a); reflexivity|]. split.
  { destruct (bool_decide (arg_groupingKeyOutputProjections a = [])).
    - injection H0 as <-. unfold iota. rewrite !length_map, length_seq. reflexivity.
    - apply VELOX_CHECK_inv in H0 as [Hlen H0]. injection H0 as <-.
      apply Nat.eqb_eq in Hlen. exact Hlen. }
  split; [apply length_map|]. split; [exact Hshape|].
  intros Hp. rewrite Hp in H1. split; [|exact (Hpartial Hp)].
  destruct (SortedAggregations_create ext (arg_aggregates a)); [discriminate H1|reflexivity].
Qed.

(** No member changes the configuration. *)
Lemma perform_config (ext : Externals) (op : Operation) (s s' : GroupingSet) :
  perform ext op s = Ok s' -> config s' = config s.
Proof.
  intros H.
  assert (Hop : op = OpAbandonPartialAggregation \/ op <> OpAbandonPartialAggregation)
    by (destruct op; auto; right; discriminate).
  destruct Hop as [->|Hop].
  - apply abandonPartialAggregation_frame in H as [Hc _]. exact Hc.
  - apply perform_steady in H as [Hc _]; [exact Hc|exact Hop].
Qed.

(** X2. In every state a grouping set reaches, the vectors the constructor
    built have the shape the loops of the other members rely on: the grouping
    set is global exactly when it has no key channel, and it has an output
    projection per key channel, a pushdown flag per aggregate, and a distinct
    adapter per aggregate that is non-null exactly for the aggregates marked
    distinct; a partial grouping set has no sorted adapter and no distinct
    aggregate. *)
Theorem X2_configuration_keeps_its_shape (ext : Externals) (s : GroupingSet) :
  reachable ext s -> wellShaped (config s).
Proof.
  induction 1 as [a s Hc|op s s' Hr IH Hp].
  - exact (construct_wellShaped ext a s Hc).
  - rewrite (perform_config ext op s s' Hp). exact IH.
Qed.

Lemma performAll_reachable (ext : Externals) (ops : list Operation) :
  forall s s' : GroupingSet,
    reachable ext s -> performAll ext ops s = Ok s' -> reachable ext s'.
Proof.
  induction ops as [|op ops IH]; intros s s' Hr H; cbn [performAll] in H.
  - injection H as <-. exact Hr.
  - apply bind_Ok in H as (s1 & Hop & H).
    exact (IH s1 s' (reachable_perform ext op s s1 Hr Hop) H).
Qed.

Lemma sumByKeySpilledOnce_reachable : reachable sampleExternals sumByKeySpilledOnce.
Proof.
  apply (performAll_reachable sampleExternals spillOnceCalls
           (stateOf (construct sampleExternals sumByKeyArgs))).
  - apply (reachable_construct sampleExternals sumByKeyArgs). vm_compute. reflexivity.
  - vm_compute. reflexivity.
Qed.

Lemma X2_configuration_keeps_its_shape_witness :
  wellShaped (config sumByKeySpilledOnce).
Proof.
  apply (X2_configuration_keeps_its_shape sampleExternals sumByKeySpilledOnce).
  exact sumByKeySpilledOnce_reachable.
Defined.

(** ** What the members leave of the input state and of the table *)

Lemma toIntermediateStep_input (input : RowVector) (numKeys : nat)
    (entries : list (nat * AggregateInfo)) :
  forall (out : RowVector) (s : GroupingSet),
    inputState (foldl (toIntermediateStep input numKeys) (out, s) entries).2
    = inputState s.
Proof.
  induction entries as [|[i agg] entries IH]; intros out s; cbn; [reflexivity|].
  rewrite IH. reflexivity.
Qed.

(** [toIntermediate] leaves the table alone, and of the input state it only
    resets the active rows. *)
Lemma toIntermediate_store (input result result' : RowVectorPtr) (s s' : GroupingSet) :
  toIntermediate input result s = Ok (result', s') ->
  store s' = store s /\ sameInputButActiveRows (inputState s') (inputState s).
Proof.
  unfold toIntermediate. intros H.
  do 2 apply VELOX_CHECK_inv in H as [_ H].
  destruct (negb (isRawInput_ (config s))).
  { injection H as _ <-. repeat split. }
  match type of H with
  | (let '(out, s) := foldl ?f (?o, ?s0) ?l in _) = _ =>
      pose proof (toIntermediateStep_frame (target input)
                    (length (keyChannels_ (config s0))) l o s0) as Hf;
      pose proof (toIntermediateStep_input (target input)
                    (length (keyChannels_ (config s0))) l o s0) as Hi;
      destruct (foldl f (o, s0) l) as [out s2]
  end.
  injection H as _ <-. cbn [snd] in Hf, Hi. destruct Hf as (_ & _ & Hst).
  unfold allocateIntermediateGroups in Hst, Hi.
  destruct (negb (allSupportToIntermediate_ (store _))).
  - destruct (called_many_frame (seq 0 (rv_size (target input)))
                (withInput (set_activeRows_ (allSelected (rv_size (target input)))) s))
      as (_ & _ & Hst0 & Hi0).
    cbn zeta in Hst0, Hi0. rewrite Hst, Hst0, Hi, Hi0. repeat split.
  - rewrite Hst, Hi. repeat split.
Qed.

Lemma getOutput_input (ext : Externals) (maxOutputRows maxOutputBytes : Z)
    (iterator iterator' : RowContainerIterator) (result result' : RowVector)
    (s s' : GroupingSet) (more : bool) :
  getOutput ext maxOutputRows maxOutputBytes iterator result s
  = Ok (more, iterator', result', s') ->
  inputState s' = inputState s.
Proof.
  unfold getOutput. intros H.
  assert (Hglobal : forall it r it' r' s2 more2,
            getGlobalAggregationOutput it r s = Ok (more2, it', r', s2) ->
            inputState s2 = inputState s).
  { intros it r it' r' s2 more2 Hg. unfold getGlobalAggregationOutput in Hg.
    destruct (negb (allocationIndex it =? 0)); [injection Hg as _ _ _ <-; reflexivity|].
    destruct (globalRow_ _); [|discriminate]. injection Hg as _ _ _ <-.
    apply initializeGlobalAggregation_frame. }
  destruct (isGlobal_ (config s)); [exact (Hglobal _ _ _ _ _ _ H)|].
  destruct (hasDefaultGlobalGroupingSetOutput s).
  { unfold getDefaultGlobalGroupingSetOutput in H.
    apply VELOX_CHECK_inv in H as [_ H].
    destruct (negb (allocationIndex iterator =? 0));
      [injection H as _ _ _ <-; reflexivity|].
    inv_bind H. destruct a as [[[produced it2] row] s2].
    apply VELOX_CHECK_inv in H as [_ H].
    destruct (groupIdChannel_ (config s2)); [|discriminate].
    injection H as _ _ _ <-. exact (Hglobal _ _ _ _ _ _ H0). }
  inv_bind H. destruct a as [|].
  - inv_bind H. destruct a as [[more2 r] s1]. injection H as _ _ _ <-.
    unfold getOutputWithSpill in H1. inv_bind H1. destruct a as [done s2].
    assert (Hs2 : inputState s2 = inputState s).
    { destruct (_ =? -1) eqn:Hosp.
      - apply Z.eqb_eq in Hosp. apply (openSpillOutput_spec ext s s2 done H2 Hosp).
      - injection H2 as _ <-. reflexivity. }
    destruct done.
    + injection H1 as _ _ <-. exact Hs2.
    + apply VELOX_CHECK_inv in H1 as [_ H1]. apply mergeNext_input in H1. congruence.
  - apply VELOX_CHECK_inv in H as [_ H]. apply vectorOfSize_inv in H as [_ H].
    destruct (table_ (store s)) as [table|]; [|injection H as _ _ _ <-; reflexivity].
    destruct (listRows _ _ _ _ _) as [groups it2].
    destruct (bool_decide (groups = [])); injection H as _ _ _ <-; reflexivity.
Qed.

(** Only [addInput] counts input rows: the rows of every batch of a grouping
    set with keys. *)
Lemma perform_counts_rows (ext : Externals) (op : Operation) (s s' : GroupingSet) :
  perform ext op s = Ok s' ->
  numInputRows_ (inputState s')
  = numInputRows_ (inputState s)
    + match op with
      | OpAddInput input _ =>
          if isGlobal_ (config s) then 0 else Z.of_nat (rv_size input)
      | _ => 0
      end.
Proof.
  intros H. destruct op; cbn [perform] in H.
  - unfold addInput in H. destruct (isGlobal_ (config s)).
    + unfold addGlobalAggregationInput in H.
      destruct (globalRow_ _); [|discriminate]. injection H as <-. cbn.
      rewrite (proj2 (proj2 (initializeGlobalAggregation_frame s))). lia.
    + inv_bind H. destruct a as [numRows s1].
      apply addInputForActiveRows_frame in H as (_ & (Hn & _) & _). rewrite Hn. cbn.
      destruct (bool_decide _).
      * injection H0 as _ <-. reflexivity.
      * apply bind_Ok in H0 as (s2 & Hflush & Hrun).
        assert (Hs2 : numInputRows_ (inputState s2)
                      = numInputRows_ (inputState s) + Z.of_nat (rv_size input)).
        { destruct (isSome _).
          - apply addRemainingInput_frame in Hflush as (_ & _ & _ & Hn2 & _). exact Hn2.
          - injection Hflush as <-. reflexivity. }
        destruct (lastRunBoundary _ _ _); injection Hrun as _ <-; exact Hs2.
  - unfold noMoreInput in H. apply bind_Ok in H as (s1 & Hflush & H).
    apply VELOX_CHECK_inv in H as [_ H]. apply bind_Ok in H as (s2 & Hspill & H).
    apply ensureOutputFits_spec in H as (_ & Hi & _). rewrite Hi.
    assert (Hs2 : inputState s2 = inputState s1).
    { destruct (isSome (inputSpiller_ _)).
      - apply spill_spec in Hspill as (_ & Hi2 & _). exact Hi2.
      - injection Hspill as <-. reflexivity. }
    rewrite Hs2. destruct (isSome (remainingInput_ _)).
    + apply addRemainingInput_frame in Hflush as (_ & _ & _ & Hn & _).
      rewrite Hn. cbn. lia.
    + injection Hflush as <-. cbn. lia.
  - apply spill_spec in H as (_ & Hi & _). rewrite Hi. lia.
  - unfold spillOutput in H. inv_bind H. apply VELOX_CHECK_inv in H as [_ H].
    destruct (table_ (store s)); [|injection H as <-; lia].
    apply VELOX_CHECK_inv in H as [_ H].
    destruct (spillConfig_ (config s)); [|discriminate]. injection H as <-. cbn. lia.
  - inv_bind H. destruct a as [[[more it] r] s2]. injection H as <-.
    apply getOutput_input in H0. rewrite H0. lia.
  - injection H as <-. unfold resetTable. destruct (table_ (store s)); cbn; lia.
  - unfold abandonPartialAggregation in H. cbn in H.
    destruct (table_ (store s)); [|discriminate].
    apply VELOX_CHECK_inv in H as [_ H]. injection H as <-. cbn. lia.
  - inv_bind H. destruct a as [r s2]. injection H as <-.
    apply toIntermediate_store in H0 as (_ & Hn & _). rewrite Hn. lia.
Qed.

(** ** Global aggregation: no table, no spill *)

Lemma perform_globalOnly (ext : Externals) (op : Operation) (s s' : GroupingSet) :
  perform ext op s = Ok s' ->
  isGlobal_ (config s) = true ->
  globalOnly s -> globalOnly s'.
Proof.
  intros H Hglobal (Htable & Hin & Hout & Hrem & Hrows).
  pose proof (perform_counts_rows ext op s s' H) as Hcount.
  assert (Hrows' : numInputRows_ (inputState s') = 0).
  { rewrite Hcount, Hrows, Hglobal. destruct op; reflexivity. }
  clear Hcount. unfold globalOnly.
  destruct op; cbn [perform] in H.
  - unfold addInput in H. rewrite Hglobal in H.
    pose proof (addGlobalAggregationInput_frame _ _ _ _ H) as (_ & Hsp & Hr & _).
    rewrite Hsp, Hr. repeat split; try assumption.
    unfold addGlobalAggregationInput, initializeGlobalAggregation in H.
    destruct (globalAggregationInitialized_ (store s)); cbn in H.
    + destruct (globalRow_ (store s)); [|discriminate]. injection H as <-. exact Htable.
    + injection H as <-. exact Htable.
  - unfold noMoreInput in H. apply bind_Ok in H as (s1 & Hflush & H).
    cbn [inputState withInput set_inputState remainingInput_ set_noMoreInput_] in Hflush.
    rewrite Hrem in Hflush. injection Hflush as <-.
    cbn [spilling withInput set_inputState] in H. rewrite Hout, Hin in H.
    cbn [isNone isSome negb VELOX_CHECK mbind result_bind] in H.
    apply ensureOutputFits_spec in H as (_ & Hi & _ & Hempty & _).
    destruct Hempty as [Hst Hsp].
    { unfold tableIsEmpty. cbn. rewrite Htable. exact I. }
    rewrite Hst, Hsp, Hi. cbn. repeat split; assumption.
  - unfold spill in H. cbn in H. rewrite Htable in H. injection H as <-.
    repeat split; assumption.
  - unfold spillOutput, hasSpilled in H. rewrite Hin, Hout, Htable in H. cbn in H.
    injection H as <-. repeat split; assumption.
  - inv_bind H. destruct a as [[[more it] r] s2]. injection H as <-.
    pose proof (getOutput_input _ _ _ _ _ _ _ _ _ _ H0) as Hi.
    unfold getOutput in H0. rewrite Hglobal in H0.
    pose proof (getGlobalAggregationOutput_frame _ _ _ _ _ _ _ H0) as (_ & Hsp).
    rewrite Hsp, Hi. repeat split; try assumption.
    unfold getGlobalAggregationOutput, initializeGlobalAggregation in H0.
    destruct (negb (allocationIndex iterator =? 0)); [injection H0 as _ _ _ <-; exact Htable|].
    destruct (globalAggregationInitialized_ (store s)); cbn in H0.
    + destruct (globalRow_ (store s)); [|discriminate].
      injection H0 as _ _ _ <-. exact Htable.
    + injection H0 as _ _ _ <-. exact Htable.
  - injection H as <-. unfold resetTable. rewrite Htable. repeat split; assumption.
  - unfold abandonPartialAggregation in H. cbn in H. rewrite Htable in H. discriminate H.
  - inv_bind H. destruct a as [r s2]. injection H as <-.
    pose proof (toIntermediate_frame _ _ _ _ _ H0) as (_ & Hsp).
    apply toIntermediate_store in H0 as (Hst & _ & _ & Hr & _).
    rewrite Hst, Hsp, Hr. repeat split; assumption.
Qed.

(** X3. A grouping set without grouping keys never builds a hash table and
    never spills: in every state it reaches the table is null, neither
    spiller exists, no input is deferred and no input row is counted. In
    particular [abandonPartialAggregation], which reads the table, never
    returns for it. *)
Theorem X3_global_mode_has_no_table (ext : Externals) (s : GroupingSet) :
  reachable ext s ->
  isGlobal_ (config s) = true ->
  globalOnly s
  /\ abandonPartialAggregation s = Err (NullDereference "table_").
Proof.
  intros Hr Hglobal.
  assert (Honly : globalOnly s).
  { induction Hr as [a s Hc|op s s' Hr IH Hp].
    - unfold construct in Hc. do 2 apply VELOX_CHECK_inv in Hc as [_ Hc].
      inv_bind Hc. inv_bind Hc. inv_bind Hc. injection Hc as <-. repeat split.
    - apply (perform_globalOnly ext op s s' Hp).
      + rewrite <- (perform_config ext op s s' Hp). exact Hglobal.
      + apply IH. rewrite <- (perform_config ext op s s' Hp). exact Hglobal. }
  split; [exact Honly|].
  destruct Honly as (Htable & _). unfold abandonPartialAggregation. cbn.
  rewrite Htable. reflexivity.
Qed.

Lemma globalSumLoaded_reachable : reachable sampleExternals globalSumLoaded.
Proof.
  apply (performAll_reachable sampleExternals
           [OpAddInput (batchOf [[Some 1; Some 2]; [Some 10; Some 3]]) false;
            OpNoMoreInput]
           (stateOf (construct sampleExternals globalSumArgs))).
  - apply (reachable_construct sampleExternals globalSumArgs). vm_compute. reflexivity.
  - vm_compute. reflexivity.
Qed.

Lemma X3_global_mode_has_no_table_witness :
  globalOnly globalSumLoaded
  /\ abandonPartialAggregation globalSumLoaded = Err (NullDereference "table_").
Proof.
  apply (X3_global_mode_has_no_table sampleExternals globalSumLoaded).
  - exact globalSumLoaded_reachable.
  - vm_compute. reflexivity.
Defined.

(** ** Counting the input rows *)

(** The rows [addInput] counts over a sequence of calls. *)
Lemma performAll_counts_rows (ext : Externals) (ops : list Operation) :
  forall s s' : GroupingSet,
    performAll ext ops s = Ok s' ->
    config s' = config s
    /\ numInputRows_ (inputState s')
       = numInputRows_ (inputState s)
         + (if isGlobal_ (config s) then 0
            else foldr (fun op n =>
                          match op with
                          | OpAddInput input _ => Z.of_nat (rv_size input) + n
                          | _ => n
                          end) 0 ops).
Proof.
  induction ops as [|op ops IH]; intros s s' H; cbn [performAll] in H.
  - injection H as <-. split; [reflexivity|]. destruct (isGlobal_ _); cbn; lia.
  - apply bind_Ok in H as (s1 & Hop & H).
    pose proof (perform_config ext op s s1 Hop) as Hc.
    pose proof (perform_counts_rows ext op s s1 Hop) as Hn.
    apply IH in H as [Hc' Hn']. split; [congruence|].
    rewrite Hn', Hn, Hc. cbn [foldr].
    destruct (isGlobal_ (config s)); destruct op; lia.
Qed.

(** X4. [numInputRows_] is the number of rows of all the batches passed to
    [addInput] of a grouping set with keys, whatever other members are called
    in between, and stays zero without keys. *)
Theorem X4_input_rows_are_counted (ext : Externals) (a : GroupingSetArgs)
    (ops : list Operation) (s0 s : GroupingSet) :
  construct ext a = Ok s0 ->
  performAll ext ops s0 = Ok s ->
  numInputRows_ (inputState s) = (if isGlobal_ (config s) then 0 else batchRows ops).
Proof.
  intros Hc Hops.
  destruct (performAll_counts_rows ext ops s0 s Hops) as [Hconfig Hrows].
  assert (Hzero : numInputRows_ (inputState s0) = 0).
  { unfold construct in Hc. do 2 apply VELOX_CHECK_inv in Hc as [_ Hc].
    inv_bind Hc. inv_bind Hc. inv_bind Hc. injection Hc as <-. reflexivity. }
  rewrite Hzero in Hrows. fold (batchRows ops) in Hrows.
  rewrite Hrows, Hconfig. destruct (isGlobal_ (config s0)); lia.
Qed.

(** Two batches of two rows and of one row, with a spill in between: three
    rows were counted. *)
Lemma X4_input_rows_are_counted_witness :
  numInputRows_ (inputState sumByKeySpilledOnce) = 3.
Proof.
  rewrite (X4_input_rows_are_counted sampleExternals sumByKeyArgs spillOnceCalls
             (stateOf (construct sampleExternals sumByKeyArgs)) sumByKeySpilledOnce).
  - vm_compute. reflexivity.
  - vm_compute. reflexivity.
  - vm_compute. reflexivity.
Defined.

(** ** The spillers *)

Lemma reachable_one_spiller (ext : Externals) (s : GroupingSet) :
  reachable ext s -> atMostOneSpiller s.
Proof.
  induction 1 as [a s Hc|op s s' Hr IH Hp].
  - apply construct_fresh in Hc as (Hin & Hout & _).
    unfold atMostOneSpiller. rewrite Hin. reflexivity.
  - exact (perform_keeps_one_spiller ext op s s' Hp IH).
Qed.

(** X5. In every state a grouping set reaches, [hasSpilled] and
    [spilledStats] return without failing a check: [hasSpilled] tells whether
    a spiller exists, and [spilledStats] gives the statistics of the one
    spiller that exists, the input spiller or else the output spiller, and
    nothing when there is none. *)
Theorem X5_hasSpilled_never_fails (ext : Externals) (Stats : Type)
    (stats : Spiller -> Stats) (s : GroupingSet) :
  reachable ext s ->
  hasSpilled s = Ok (isSome (activeSpiller s))
  /\ spilledStats stats s = Ok (stats <$> activeSpiller s).
Proof.
  intros Hr. apply reachable_one_spiller in Hr.
  unfold atMostOneSpiller in Hr. unfold spilledStats, hasSpilled, activeSpiller.
  destruct (inputSpiller_ (spilling s)) as [spiller|],
           (outputSpiller_ (spilling s)) as [spiller'|];
    cbn in *; try discriminate; split; reflexivity.
Qed.

Lemma X5_hasSpilled_never_fails_witness :
  hasSpilled sumByKeySpilledOnce = Ok (isSome (activeSpiller sumByKeySpilledOnce))
  /\ spilledStats sp_files sumByKeySpilledOnce
     = Ok (sp_files <$> activeSpiller sumByKeySpilledOnce).
Proof.
  apply (X5_hasSpilled_never_fails sampleExternals _ sp_files sumByKeySpilledOnce).
  exact sumByKeySpilledOnce_reachable.
Defined.

(** ** Draining the table *)

Lemma listRowsFrom_length (rowBytes : Group -> Z) (maxBytes : Z) (rows : list Group) :
  forall (maxRows : nat) (taken : Z),
    (length (listRowsFrom rowBytes maxRows maxBytes taken rows) <= maxRows)%nat.
Proof.
  induction rows as [|g rows IH]; intros maxRows taken.
  - rewrite listRowsFrom_nil. cbn. lia.
  - destruct maxRows as [|n]; cbn [listRowsFrom]; [cbn; lia|].
    destruct (taken <? maxBytes); [|cbn; lia].
    cbn [length]. specialize (IH n (taken + rowBytes g)). lia.
Qed.

(** X6. With keys, in memory and with room for a row, calling [getOutput]
    again and again with the iterator the last call left gives every group
    that follows the iterator exactly once, in the order of the table, in
    batches of at least one and at most [maxOutputRows] groups; then it
    returns false and clears the table. *)
Theorem X6_getOutput_drains_the_table (ext : Externals)
    (maxOutputRows maxOutputBytes : Z) (s : GroupingSet) (table : HashTable) :
  isGlobal_ (config s) = false ->
  hasDefaultGlobalGroupingSetOutput s = false ->
  hasSpilled s = Ok false ->
  isDistinct s = false ->
  table_ (store s) = Some table ->
  0 < maxOutputRows -> 0 < maxOutputBytes ->
  forall iterator : RowContainerIterator,
  exists batches,
    concat batches = drop (rowNumber iterator) (ht_rows table)
    /\ emits ext maxOutputRows maxOutputBytes batches iterator s.
Proof.
  intros Hglobal Hdefault Hspilled Hdistinct Htable Hrows Hbytes iterator.
  remember (length (drop (rowNumber iterator) (ht_rows table))) as n eqn:Hn.
  revert iterator Hn. induction n as [n IH] using lt_wf_ind. intros iterator Hn.
  assert (Hcall : forall result,
            getOutput ext maxOutputRows maxOutputBytes iterator result s
            = let groups :=
                listRowsFrom (ext_rowBytes ext) (Z.to_nat maxOutputRows) maxOutputBytes 0
                  (drop (rowNumber iterator) (ht_rows table)) in
              if bool_decide (groups = [])
              then Ok (false,
                       {| allocationIndex := allocationIndex iterator;
                          rowNumber := rowNumber iterator + length groups |},
                       result, withStore (set_table_ (Some (clearTable table))) s)
              else Ok (true,
                       {| allocationIndex := allocationIndex iterator;
                          rowNumber := rowNumber iterator + length groups |},
                       extractGroups s (length (keyChannels_ (config s))) groups result,
                       s)).
  { intros result. unfold getOutput.
    rewrite Hglobal, Hdefault, Hspilled, Hdistinct, Htable.
    rewrite vectorOfSize_ok by lia. reflexivity. }
  cbn zeta in Hcall.
  set (groups := listRowsFrom (ext_rowBytes ext) (Z.to_nat maxOutputRows) maxOutputBytes 0
                   (drop (rowNumber iterator) (ht_rows table))) in *.
  destruct (listRowsFrom_prefix (ext_rowBytes ext) maxOutputBytes
              (drop (rowNumber iterator) (ht_rows table))
              (Z.to_nat maxOutputRows) 0) as [later Hlater].
  fold groups in Hlater.
  destruct (bool_decide (groups = [])) eqn:Hempty.
  - apply bool_decide_eq_true in Hempty.
    assert (Hnone : drop (rowNumber iterator) (ht_rows table) = []).
    { apply (listRowsFrom_empty (ext_rowBytes ext) (Z.to_nat maxOutputRows)
               maxOutputBytes 0); [lia|lia|exact Hempty]. }
    exists []. split; [symmetry; exact Hnone|].
    exists table. split; [exact Htable|]. intros result.
    rewrite Hcall, Hempty. cbn [length]. rewrite Nat.add_0_r.
    destruct iterator. reflexivity.
  - apply bool_decide_eq_false in Hempty.
    set (iterator' := {| allocationIndex := allocationIndex iterator;
                         rowNumber := rowNumber iterator + length groups |}).
    assert (Hdrop : drop (rowNumber iterator') (ht_rows table) = later).
    { unfold iterator'. cbn [rowNumber]. rewrite <- drop_drop, Hlater.
      rewrite drop_app_length. reflexivity. }
    destruct (IH (length later)) with (iterator := iterator') as (batches & Hcat & Hemits).
    + rewrite Hn, Hlater, length_app.
      destruct groups; [contradiction|]. cbn [length]. lia.
    + rewrite Hdrop. reflexivity.
    + exists (groups :: batches). split.
      * cbn [concat]. rewrite Hcat, Hdrop. symmetry. exact Hlater.
      * cbn [emits]. split; [exact Hempty|]. split.
        { pose proof (listRowsFrom_length (ext_rowBytes ext) maxOutputBytes
                        (drop (rowNumber iterator) (ht_rows table))
                        (Z.to_nat maxOutputRows) 0) as Hlen.
          fold groups in Hlen. lia. }
        split; [|exact Hemits].
        intros result. rewrite Hcall. reflexivity.
Qed.

(** Two groups in memory, asked for one at a time. *)
Lemma X6_getOutput_drains_the_table_witness :
  exists batches,
    concat batches
    = drop (rowNumber freshIterator)
        [{| g_keys := [Some 1]; g_accumulators := [[Some 10]] |};
         {| g_keys := [Some 2]; g_accumulators := [[Some 3]] |}]
    /\ emits sampleExternals 1 1000 batches freshIterator sumByKeyInMemory.
Proof.
  apply (X6_getOutput_drains_the_table sampleExternals 1 1000 sumByKeyInMemory
           {| ht_rows := [{| g_keys := [Some 1]; g_accumulators := [[Some 10]] |};
                          {| g_keys := [Some 2]; g_accumulators := [[Some 3]] |}] |});
    try (vm_compute; reflexivity); lia.
Defined.

(** ** Recovery with aggregates: one group per run *)

(** X7. A call of [mergeNextWithAggregates] on an open merge returns
    normally. The groups it extracts to the result are the next groups of
    [pendingGroups], which has, for every run of equal keys of the merged
    stream, the one group made by [initializeRow] from the first row of the
    run and updated by [updateRow] with every row of the run in order; the
    call reports whether it gave a group, and it gives none only when nothing
    is left. The state it leaves can be read further in the same way. *)
Theorem X7_recovery_with_aggregates_by_runs (ext : Externals)
    (maxOutputRows maxOutputBytes : Z) (result : RowVector) (s : GroupingSet) :
  mergeOpen s ->
  isDistinct s = false ->
  mergeRows_ (spilling s) = Some [] ->
  exists out result0 s',
    mergeNextWithAggregates ext maxOutputRows maxOutputBytes result s
    = Ok (negb (bool_decide (out = [])),
          extractGroups s (length (keyChannels_ (config s))) out result0, s')
    /\ length (rv_children result0) = length (rv_children result)
    /\ pendingGroups ext s = out ++ pendingGroups ext s'
    /\ (out = [] -> pendingGroups ext s = [])
    /\ mergeRows_ (spilling s') = Some []
    /\ isDistinct s' = false
    /\ (mergeOpen s' \/ mergeFinished s').
Proof.
  intros Hopen Hdistinct Hrows.
  pose proof Hopen as (m & p & Hm & _).
  destruct (mergeWithAggregatesLoop_spec ext maxOutputRows maxOutputBytes
              (mergeBudget s) false result s [] m Hopen Hm Hrows)
    as (out & result0 & s' & Hloop & Hcols & Hpend & Hmr & Hfr & Hfin & Hst);
    [discriminate|lia|].
  exists out, result0, s'.
  rewrite groupsFrom_false in Hpend. cbn [app] in Hpend.
  assert (Hpending : pendingGroups ext s = out ++ pendingGroups ext s').
  { rewrite <- Hpend. unfold pendingGroups. rewrite Hm. reflexivity. }
  split.
  { unfold mergeNextWithAggregates. rewrite Hdistinct, Hm.
    cbn [negb isSome VELOX_CHECK mbind result_bind]. exact Hloop. }
  split; [exact Hcols|]. split; [exact Hpending|]. split.
  { intros ->. rewrite Hpending. cbn [app].
    destruct (Hfin eq_refl) as (Hnone & Hps & _).
    unfold pendingGroups. rewrite Hnone, Hps. reflexivity. }
  split; [exact Hmr|]. split; [|exact Hst].
  destruct Hfr as (Hc & _). unfold isDistinct in *. rewrite Hc. exact Hdistinct.
Qed.

(** [sum(c1) group by c0] with key 1 spilled twice: after the group of key 1
    came out, the group of key 2 is what is left, and the next call gives
    it. *)
Lemma X7_recovery_with_aggregates_by_runs_witness :
  pendingGroups sampleExternals sumByKeyMerging
  = [{| g_keys := [Some 2]; g_accumulators := [[Some 3]] |}]
  /\ exists out result0 s',
       mergeNextWithAggregates sampleExternals 10 1000 (emptyResult 2) sumByKeyMerging
       = Ok (negb (bool_decide (out = [])),
             extractGroups sumByKeyMerging
               (length (keyChannels_ (config sumByKeyMerging))) out result0, s')
       /\ length (rv_children result0) = length (rv_children (emptyResult 2))
       /\ pendingGroups sampleExternals sumByKeyMerging
          = out ++ pendingGroups sampleExternals s'
       /\ (out = [] -> pendingGroups sampleExternals sumByKeyMerging = [])
       /\ mergeRows_ (spilling s') = Some []
       /\ isDistinct s' = false
       /\ (mergeOpen s' \/ mergeFinished s').
Proof.
  split; [vm_compute; reflexivity|].
  apply (X7_recovery_with_aggregates_by_runs sampleExternals 10 1000 (emptyResult 2)
           sumByKeyMerging).
  - exists [{| me_stream := 0; me_row := [Some 2; Some 3] |}], 0%nat.
    split; [vm_compute; reflexivity|]. split; [vm_compute; reflexivity|].
    vm_compute. exact I.
  - vm_compute. reflexivity.
  - vm_compute. reflexivity.
Defined.

(** ** The columns of the accumulators *)

Lemma initializeAggregates_columns (numKeys : nat) (excludeToIntermediate : bool)
    (aggregates : list AggregateInfo) :
  forall index i : nat,
    initializeAggregates numKeys excludeToIntermediate aggregates index i
    = imap (fun k owner => (owner, (numKeys + i + k)%nat))
           (aggregateOwners excludeToIntermediate aggregates index).
Proof.
  induction aggregates as [|a rest IH]; intros index i;
    cbn [initializeAggregates aggregateOwners]; [reflexivity|].
  rewrite <- negb_andb.
  destruct (excludeToIntermediate && fn_supportsToIntermediate (function a));
    cbn [negb].
  - apply IH.
  - cbn [imap]. rewrite Nat.add_0_r, IH. f_equal.
    apply imap_ext. intros k owner _. cbn. f_equal. lia.
Qed.

Lemma bindDistinctAggregations_columns (aggregations : list (option AggregationAdapter)) :
  forall index numColumns : nat,
    bindDistinctAggregations aggregations index numColumns
    = imap (fun k owner => (owner, (numColumns + k)%nat))
           (distinctOwners aggregations index).
Proof.
  induction aggregations as [|[adapter|] rest IH]; intros index numColumns;
    cbn [bindDistinctAggregations distinctOwners]; [reflexivity| |apply IH].
  cbn [imap]. rewrite Nat.add_0_r, IH. f_equal.
  apply imap_ext. intros k owner _. cbn. f_equal. lia.
Qed.

Lemma length_aggregateOwners (aggregates : list AggregateInfo) (index : nat) :
  length (aggregateOwners false aggregates index) = length aggregates.
Proof.
  revert index. induction aggregates as [|a rest IH]; intros index; cbn; [reflexivity|].
  rewrite IH. reflexivity.
Qed.

Lemma drop_cons_lookup {A : Type} (l : list A) (n : nat) (x : A) (rest : list A) :
  drop n l = x :: rest -> l !! n = Some x /\ drop (S n) l = rest.
Proof.
  revert n. induction l as [|y l IH]; intros n H.
  - rewrite drop_nil in H. discriminate H.
  - destruct n as [|n]; cbn in H.
    + injection H as -> ->. split; reflexivity.
    + apply IH in H. exact H.
Qed.

Lemma aggregateOwners_accumulators (s : GroupingSet) (excludeToIntermediate : bool)
    (aggregates : list AggregateInfo) :
  forall index : nat,
    drop index (aggregates_ (config s)) = aggregates ->
    omap (ownerAccumulator s) (aggregateOwners excludeToIntermediate aggregates index)
    = map (fun a => fn_accumulator (function a))
          (filter (fun a => negb excludeToIntermediate
                            || negb (fn_supportsToIntermediate (function a)) = true)
                  aggregates).
Proof.
  induction aggregates as [|a rest IH]; intros index Hdrop; [reflexivity|].
  apply drop_cons_lookup in Hdrop as [Hlook Hdrop].
  cbn [aggregateOwners]. rewrite filter_cons.
  destruct (negb excludeToIntermediate || negb (fn_supportsToIntermediate (function a)))
    eqn:Hkeep.
  - rewrite decide_True by reflexivity.
    cbn [omap list_omap ownerAccumulator map]. rewrite Hlook. cbn [fmap option_fmap option_map].
    f_equal. apply IH, Hdrop.
  - rewrite decide_False by discriminate. apply IH, Hdrop.
Qed.

Lemma distinctOwners_accumulators (s : GroupingSet)
    (aggregations : list (option AggregationAdapter)) :
  forall index : nat,
    drop index (distinctAggregations_ (config s)) = aggregations ->
    omap (ownerAccumulator s) (distinctOwners aggregations index)
    = map ad_accumulator (nonNull aggregations).
Proof.
  induction aggregations as [|adapter rest IH]; intros index Hdrop; [reflexivity|].
  apply drop_cons_lookup in Hdrop as [Hlook Hdrop].
  destruct adapter as [adapter|]; cbn [distinctOwners].
  - cbn [omap list_omap ownerAccumulator]. rewrite Hlook. cbn.
    f_equal. apply IH, Hdrop.
  - unfold nonNull. cbn. apply IH, Hdrop.
Qed.

Lemma distinctOwners_slots (aggregations : list (option AggregationAdapter)) :
  forall (index : nat) (owner : AccumulatorOwner) (k : nat),
    distinctOwners aggregations index !! k = Some owner ->
    exists j, owner = OwnedByDistinct (index + j)
              /\ k = length (nonNull (take j aggregations)).
Proof.
  induction aggregations as [|[adapter|] rest IH]; intros index owner k H;
    cbn [distinctOwners] in H.
  - discriminate H.
  - destruct k as [|k]; cbn in H.
    + injection H as <-. exists 0%nat. rewrite Nat.add_0_r. split; reflexivity.
    + apply IH in H as (j & -> & ->). exists (S j). split; [f_equal; lia|reflexivity].
  - apply IH in H as (j & -> & ->). exists (S j). split; [f_equal; lia|reflexivity].
Qed.

Lemma aggregateOwners_slots (aggregates : list AggregateInfo) :
  forall (index : nat) (owner : AccumulatorOwner) (k : nat),
    aggregateOwners false aggregates index !! k = Some owner ->
    owner = OwnedByAggregate (index + k).
Proof.
  induction aggregates as [|a rest IH]; intros index owner k H;
    cbn [aggregateOwners negb orb] in H; [discriminate H|].
  destruct k as [|k]; cbn in H.
  - injection H as <-. rewrite Nat.add_0_r. reflexivity.
  - apply IH in H as ->. f_equal. lia.
Qed.

(** X8. The columns the aggregates and adapters are bound to are the columns
    laid out for their own accumulators: [createHashTable] binds the owners
    of the accumulators [accumulators(false)] lists, in that order, to the
    columns that follow the keys; [initializeAggregates] with
    [excludeToIntermediate] binds the aggregates [accumulators(true)] lists
    first, in that order; the accumulators listed are those of the owners;
    and the position of an owner is the accumulator slot the members use for
    it. *)
Theorem X8_accumulator_columns_agree (numKeys : nat) (s : GroupingSet) :
  createHashTableBindings numKeys s = columnsFrom numKeys (accumulatorOwners false s)
  /\ initializeAggregates numKeys true (aggregates_ (config s)) 0 0
     = columnsFrom numKeys (aggregateOwners true (aggregates_ (config s)) 0)
  /\ (forall excludeToIntermediate,
        omap (ownerAccumulator s) (accumulatorOwners excludeToIntermediate s)
        = accumulators excludeToIntermediate s)
  /\ (forall owner k,
        accumulatorOwners false s !! k = Some owner -> k = slotOf s owner).
Proof.
  split; [|split; [|split]].
  - unfold createHashTableBindings, columnsFrom, accumulatorOwners.
    rewrite imap_app, length_aggregateOwners, initializeAggregates_columns.
    f_equal; [apply imap_ext; intros k owner _; f_equal; lia|].
    destruct (sortedAggregations_ (config s)); cbn [isSome app imap].
    + rewrite bindDistinctAggregations_columns. f_equal; [f_equal; lia|].
      apply imap_ext. intros k owner _. cbn. f_equal. lia.
    + rewrite bindDistinctAggregations_columns.
      apply imap_ext. intros k owner _. cbn. f_equal. lia.
  - unfold columnsFrom. rewrite initializeAggregates_columns.
    apply imap_ext. intros k owner _. f_equal. lia.
  - intros excludeToIntermediate. unfold accumulatorOwners, accumulators.
    rewrite !omap_app.
    rewrite (aggregateOwners_accumulators s excludeToIntermediate
               (aggregates_ (config s)) 0 eq_refl).
    rewrite (distinctOwners_accumulators s (distinctAggregations_ (config s)) 0 eq_refl).
    f_equal. f_equal.
    destruct (sortedAggregations_ (config s)) eqn:Hsorted; cbn; [|reflexivity].
    rewrite Hsorted. reflexivity.
  - intros owner k H. unfold accumulatorOwners in H.
    apply lookup_app_Some in H as [H|[Hlen H]].
    { apply aggregateOwners_slots in H as ->. reflexivity. }
    rewrite length_aggregateOwners in Hlen, H.
    apply lookup_app_Some in H as [H|[Hlen' H]].
    + destruct (sortedAggregations_ (config s)) eqn:Hsorted; cbn [isSome] in H;
        [|discriminate H].
      apply list_lookup_singleton_Some in H as [Hk <-].
      unfold slotOf, sortedSlot. lia.
    + apply distinctOwners_slots in H as (j & -> & Hk).
      unfold slotOf, distinctSlot. cbn [Nat.add].
      assert (Hs : length (if isSome (sortedAggregations_ (config s))
                           then [OwnedBySorted] else [])
                   = length (optionList (sortedAggregations_ (config s)))).
      { destruct (sortedAggregations_ (config s)); reflexivity. }
      rewrite Hs in Hlen', Hk. lia.
Qed.

(** ** Raw input passed on as intermediate results *)

Lemma toIntermediateStep_out (input : RowVector) (numKeys : nat)
    (entries : list (nat * AggregateInfo)) :
  forall (out : RowVector) (s0 s : GroupingSet),
    config s = config s0 -> inputState s = inputState s0 ->
    (foldl (toIntermediateStep input numKeys) (out, s) entries).1
    = foldl (fun out entry =>
               setChild (entry.1 + numKeys)
                 (intermediateColumn s0 input entry.1 entry.2) out)
            out entries.
Proof.
  induction entries as [|[i aggregate] entries IH]; intros out s0 s Hc Hi;
    cbn [foldl toIntermediateStep fst snd]; [reflexivity|].
  rewrite (IH _ s0 (called (CallToIntermediate i) s) Hc Hi).
  f_equal. f_equal. unfold intermediateColumn, getSelectivityVector.
  rewrite Hc, Hi. reflexivity.
Qed.

Lemma length_intermediateColumn (s : GroupingSet) (input : RowVector) (i : nat)
    (aggregate : AggregateInfo) :
  length (intermediateColumn s input i aggregate) = rv_size input.
Proof.
  unfold intermediateColumn.
  destruct (fn_supportsToIntermediate _); [rewrite length_map; apply length_seq|].
  destruct (negb _); [apply length_replicate|].
  rewrite length_map. apply length_seq.
Qed.

Lemma foldl_imap_pair_from {A B : Type} (f : A -> nat * B -> A) (rest : list B) :
  forall (pre : list B) (a : A),
    foldl f a (imap (fun i x => ((length pre + i)%nat, x)) rest)
    = foldl (fun a i =>
               match (pre ++ rest) !! i with
               | Some x => f a (i, x)
               | None => a
               end)
            a (seq (length pre) (length rest)).
Proof.
  induction rest as [|x rest IH]; intros pre a; [reflexivity|].
  cbn [imap foldl length seq]. rewrite list_lookup_middle by reflexivity.
  rewrite Nat.add_0_r.
  specialize (IH (pre ++ [x]) (f a (length pre, x))).
  rewrite length_app, <- app_assoc in IH. cbn [length app] in IH.
  rewrite Nat.add_1_r in IH. rewrite <- IH.
  f_equal. apply imap_ext. intros i y _. cbn. f_equal. lia.
Qed.

Lemma foldl_imap_pair {A B : Type} (f : A -> nat * B -> A) (l : list B) (a : A) :
  foldl f a (imap pair l)
  = foldl (fun a i =>
             match l !! i with
             | Some x => f a (i, x)
             | None => a
             end)
          a (seq 0 (length l)).
Proof. exact (foldl_imap_pair_from f l [] a). Qed.

(** The columns of the result of [toIntermediate] for raw input. *)
Lemma toIntermediate_columns (input result result' : RowVectorPtr) (s s' : GroupingSet) :
  toIntermediate input result s = Ok (result', s') ->
  isRawInput_ (config s) = true ->
  let numKeys := length (keyChannels_ (config s)) in
  let s1 := withInput (set_activeRows_ (allSelected (rv_size (target input)))) s in
  let keyColumn := fun i =>
    childAt (target input)
      (N.to_nat (default 0%N
         (keyChannels_ (config s)
          !! N.to_nat (default 0%N (groupingKeyOutputProjections_ (config s) !! i))))) in
  let aggregateColumn := fun c =>
    match aggregates_ (config s) !! (c - numKeys)%nat with
    | Some aggregate => intermediateColumn s1 (target input) (c - numKeys) aggregate
    | None => []
    end in
  target result'
  = foldl (fun r c => setChild c (aggregateColumn c) r)
          (foldl (fun r c => setChild c (keyColumn c) r)
                 (resizeRowVector (rv_size (target input)) (target result))
                 (seq 0 numKeys))
          (map (fun i => (i + numKeys)%nat) (seq 0 (length (aggregates_ (config s)))))
  /\ use_count result' = use_count result.
Proof.
  unfold toIntermediate. intros H Hraw. cbn zeta.
  do 2 apply VELOX_CHECK_inv in H as [_ H]. rewrite Hraw in H. cbn [negb] in H.
  set (s1 := withInput (set_activeRows_ (allSelected (rv_size (target input)))) s) in *.
  set (s2 := allocateIntermediateGroups (rv_size (target input)) s1) in *.
  destruct (allocateIntermediateGroups_frame (rv_size (target input)) s1) as (Hc2 & _ & _).
  cbn zeta in Hc2. fold s2 in Hc2.
  assert (Hi2 : inputState s2 = inputState s1).
  { unfold s2, allocateIntermediateGroups. destruct (negb _); [|reflexivity].
    apply (called_many_frame (seq 0 (rv_size (target input))) s1). }
  assert (Hc : config s2 = config s) by (rewrite Hc2; reflexivity).
  rewrite Hc in H.
  match type of H with
  | (let '(out, s) := foldl ?f (?o, ?s0) ?l in _) = _ =>
      pose proof (toIntermediateStep_out (target input)
                    (length (keyChannels_ (config s))) l o s1 s0 Hc2 Hi2) as Hout;
      destruct (foldl f (o, s0) l) as [out s3]
  end.
  injection H as <- _. cbn [fst target use_count] in *. split; [|reflexivity].
  rewrite Hout. clear Hout. rewrite foldl_map, foldl_imap_pair.
  apply foldl_ext_in. intros r i Hi. apply elem_of_seq in Hi as [_ Hi].
  cbn [fst snd]. rewrite Nat.add_sub. cbn [Nat.add] in Hi.
  destruct (aggregates_ (config s) !! i) as [aggregate|] eqn:Hlook; [reflexivity|].
  apply lookup_ge_None in Hlook. lia.
Qed.

Lemma isSelected_allSelected (n row : nat) :
  (row < n)%nat -> isSelected (allSelected n) row = true.
Proof.
  revert row. induction n as [|n IH]; intros row Hrow; [lia|].
  destruct row as [|row]; [reflexivity|]. apply IH. lia.
Qed.

Lemma childAt_lookup (r : RowVector) (i : nat) (c : Vector) :
  rv_children r !! i = Some c -> childAt r i = c.
Proof.
  unfold childAt. intros H.
  change (default [] (Some c) = c) with (c = c).
  change (rv_children r !! i) with (@lookup nat Vector (list Vector) _ i (rv_children r)).
  rewrite H. reflexivity.
Qed.

(** X9. [toIntermediate] on raw input, when it returns: the result has a row
    per input row and keeps its columns; key column [i] is the input column
    of key [groupingKeyOutputProjections_[i]], untouched; the column of every
    aggregate has a cell per input row, and for an aggregate without mask
    whose function converts directly, cell [r] is the conversion of the
    arguments of row [r] alone. The table and the accumulators of the
    grouping set are not touched. *)
Theorem X9_toIntermediate_raw_input (input result result' : RowVectorPtr)
    (s s' : GroupingSet) :
  toIntermediate input result s = Ok (result', s') ->
  isRawInput_ (config s) = true ->
  let numKeys := length (keyChannels_ (config s)) in
  rv_size (target result') = rv_size (target input)
  /\ length (rv_children (target result')) = length (rv_children (target result))
  /\ store s' = store s
  /\ (forall i,
        (i < numKeys)%nat -> (i < length (rv_children (target result)))%nat ->
        childAt (target result') i
        = childAt (target input)
            (N.to_nat (default 0%N
               (keyChannels_ (config s)
                !! N.to_nat (default 0%N
                     (groupingKeyOutputProjections_ (config s) !! i))))))
  /\ (forall i aggregate,
        aggregates_ (config s) !! i = Some aggregate ->
        (i + numKeys < length (rv_children (target result)))%nat ->
        length (childAt (target result') (i + numKeys)) = rv_size (target input)
        /\ (mask aggregate = None ->
            fn_supportsToIntermediate (function aggregate) = true ->
            childAt (target result') (i + numKeys)
            = map (fun row =>
                     fn_toIntermediate (function aggregate)
                       (tempValues aggregate (target input) row))
                  (seq 0 (rv_size (target input))))).
Proof.
  intros H Hraw numKeys.
  pose proof (toIntermediate_store _ _ _ _ _ H) as [Hstore _].
  apply toIntermediate_columns in H as [Htarget _]; [|exact Hraw].
  cbn zeta in Htarget. fold numKeys in Htarget.
  set (s1 := withInput (set_activeRows_ (allSelected (rv_size (target input)))) s) in *.
  set (keyColumn := fun i : nat =>
         childAt (target input)
           (N.to_nat (default 0%N
              (keyChannels_ (config s)
               !! N.to_nat (default 0%N
                    (groupingKeyOutputProjections_ (config s) !! i)))))) in *.
  set (aggregateColumn := fun c : nat =>
         match aggregates_ (config s) !! (c - numKeys)%nat with
         | Some aggregate => intermediateColumn s1 (target input) (c - numKeys) aggregate
         | None => []
         end) in *.
  set (r0 := resizeRowVector (rv_size (target input)) (target result)) in *.
  set (r1 := foldl (fun r c => setChild c (keyColumn c) r) r0 (seq 0 numKeys)) in *.
  set (columns := map (fun i => (i + numKeys)%nat)
                      (seq 0 (length (aggregates_ (config s))))) in *.
  destruct (foldl_setChild_frame keyColumn (seq 0 numKeys) r0) as [Hsize1 Hlen1].
  fold r1 in Hsize1, Hlen1.
  destruct (foldl_setChild_frame aggregateColumn columns r1) as [Hsize2 Hlen2].
  assert (Ht : target result'
               = foldl (fun r c => setChild c (aggregateColumn c) r) r1 columns)
    by exact Htarget.
  clear Htarget.
  assert (Hlen0 : length (rv_children r0) = length (rv_children (target result)))
    by (unfold r0; cbn; apply length_map).
  split; [rewrite Ht, Hsize2, Hsize1; reflexivity|].
  split; [rewrite Ht, Hlen2, Hlen1; exact Hlen0|].
  split; [exact Hstore|]. split.
  - intros i Hkey Hcol. apply childAt_lookup. rewrite Ht.
    rewrite (foldl_setChild_lookup aggregateColumn columns r1 i)
      by (rewrite Hlen1, Hlen0; exact Hcol).
    destruct (decide (i ∈ columns)) as [Hin|_].
    { unfold columns in Hin. apply list_elem_of_fmap in Hin as (j & -> & _). lia. }
    unfold r1.
    rewrite (foldl_setChild_lookup keyColumn (seq 0 numKeys) r0 i)
      by (rewrite Hlen0; exact Hcol).
    rewrite decide_True by (apply elem_of_seq; lia). reflexivity.
  - intros i aggregate Hlook Hcol.
    assert (Hcolumn : childAt (target result') (i + numKeys)
                      = intermediateColumn s1 (target input) i aggregate).
    { apply childAt_lookup. rewrite Ht.
      rewrite (foldl_setChild_lookup aggregateColumn columns r1 (i + numKeys))
        by (rewrite Hlen1, Hlen0; exact Hcol).
      rewrite decide_True.
      - unfold aggregateColumn. rewrite Nat.add_sub, Hlook. reflexivity.
      - unfold columns. apply list_elem_of_fmap. exists i. split; [reflexivity|].
        apply elem_of_seq. apply lookup_lt_Some in Hlook. lia. }
    rewrite Hcolumn. split; [apply length_intermediateColumn|].
    intros Hmask Hsupports. unfold intermediateColumn. rewrite Hsupports.
    apply map_ext_in. intros row Hrow. apply in_seq in Hrow.
    unfold getSelectivityVector.
    change (aggregates_ (config s1)) with (aggregates_ (config s)). rewrite Hlook.
    destruct aggregate as [f ins consts m d sk o]. cbn in Hmask. subst m.
    cbn [activeRows_ inputState s1 withInput set_inputState set_activeRows_].
    rewrite isSelected_allSelected by lia. reflexivity.
Qed.

(** Three raw rows of [sum(c1) group by c0] after the abandon: the keys pass
    through and each row keeps its own value as the intermediate sum. *)
Lemma X9_toIntermediate_raw_input_witness :
  toIntermediate rawBatch ownedResult partialRawSumAbandoned
  = Ok (fst rawBatchConverted, snd rawBatchConverted)
  /\ isRawInput_ (config partialRawSumAbandoned) = true
  /\ rv_size (target (fst rawBatchConverted)) = rv_size (target rawBatch)
  /\ store (snd rawBatchConverted) = store partialRawSumAbandoned
  /\ childAt (target (fst rawBatchConverted)) 0 = [Some 7; Some 8; Some 7].
Proof.
  assert (H : toIntermediate rawBatch ownedResult partialRawSumAbandoned
              = Ok (fst rawBatchConverted, snd rawBatchConverted))
    by (vm_compute; reflexivity).
  assert (Hraw : isRawInput_ (config partialRawSumAbandoned) = true)
    by (vm_compute; reflexivity).
  pose proof (X9_toIntermediate_raw_input rawBatch ownedResult
                (fst rawBatchConverted) partialRawSumAbandoned
                (snd rawBatchConverted) H Hraw) as HX.
  cbv zeta in HX. destruct HX as (Hsize & _ & Hstore & Hkeys & _).
  split; [exact H|]. split; [exact Hraw|]. split; [exact Hsize|].
  split; [exact Hstore|].
  rewrite (Hkeys 0%nat); [vm_compute; reflexivity| |]; vm_compute; lia.
Defined.

(** ** Memory reservation for the output *)

(** X10. In a state with at most one spiller, [ensureOutputFits] does nothing
    for a partial aggregation, without a spill configuration, after a spill
    and with a null or empty table. Otherwise it asks the pool once for
    [preferredOutputBatchBytes() * 1.2] bytes, the product taken in double
    arithmetic and truncated. When the arbitration reclaims nothing the call
    returns, the pool is as [maybeReserve] left it, a denied request is
    logged, and nothing else changes. When the arbitration spills the
    grouping set, a granted reservation is released again. With the test-only
    trigger the pool is not asked and the arbitration runs at once. *)
Theorem X10_ensureOutputFits_reservation (ext : Externals) (s : GroupingSet) :
  atMostOneSpiller s ->
  0 <= preferredOutputBatchBytes (config s) < 2 ^ 63 ->
  let size := outputBufferSizeToReserveOf (preferredOutputBatchBytes (config s)) in
  let granted := fst (maybeReserve size (pool_ s)) in
  let pool := snd (maybeReserve size (pool_ s)) in
  (noReservationNeeded s ->
   ensureOutputFits ext s = Ok (called CallEnsureOutputFits s))
  /\ (~ noReservationNeeded s ->
      ext_testingTriggerSpill ext = false ->
      ext_reclaim ext = NoReclaim ->
      exists s',
        ensureOutputFits ext s = Ok s'
        /\ config s' = config s /\ inputState s' = inputState s
        /\ store s' = store s /\ spilling s' = spilling s
        /\ pool_ s' = pool
        /\ calls_ s'
           = calls_ s ++ [CallEnsureOutputFits; CallMaybeReserve size granted]
             ++ (if granted then [] else [CallLogWarning size]))
  /\ (~ noReservationNeeded s ->
      ext_testingTriggerSpill ext = false ->
      forall s',
        ensureOutputFits ext s = Ok s' ->
        steady s s' /\ inputState s' = inputState s
        /\ pool_ s'
           = (if granted && isSome (activeSpiller s') then release pool else pool)
        /\ exists spilled,
             calls_ s'
             = calls_ s ++ [CallEnsureOutputFits; CallMaybeReserve size granted]
               ++ spilled
               ++ (if granted
                   then if isSome (activeSpiller s') then [CallRelease] else []
                   else [CallLogWarning size]))
  /\ (~ noReservationNeeded s ->
      ext_testingTriggerSpill ext = true ->
      forall s',
        ensureOutputFits ext s = Ok s' ->
        steady s s' /\ inputState s' = inputState s /\ pool_ s' = pool_ s
        /\ exists spilled,
             calls_ s'
             = calls_ s ++ [CallEnsureOutputFits; CallRunArbitration] ++ spilled)
  /\ outputBufferSizeToReserveOf 100 = 120
  /\ outputBufferSizeToReserveOf (2 ^ 52 + 3) = 5404319552844599.
Proof.
  intros Hone _ size granted pool.
  split; [apply ensureOutputFits_skip; exact Hone|].
  split; [|split; [|split; [|split; vm_compute; reflexivity]]].
  - intros Hneeded Htest Hno.
    assert (Hok : exists s', ensureOutputFits ext s = Ok s').
    { rewrite (ensureOutputFits_needed ext s Hone Hneeded), Htest.
      cbv zeta. unfold reclaim. rewrite Hno.
      destruct (maybeReserve _ _) as [granted' pool'].
      cbn [mbind result_bind]. destruct granted'; [|eexists; reflexivity].
      match goal with
      | |- context [hasSpilled ?x] => change (hasSpilled x) with (hasSpilled s)
      end.
      rewrite (hasSpilled_one s Hone). cbn [mbind result_bind].
      destruct (isSome (activeSpiller s)); eexists; reflexivity. }
    destruct Hok as [s' Hok]. exists s'. split; [exact Hok|].
    pose proof (ensureOutputFits_spec ext s s' Hok) as ([Hc _] & Hi & _).
    destruct (ensureOutputFits_asks ext s s' Hone Hneeded Htest Hok)
      as (s1 & spilled & _ & _ & _ & Hnone).
    destruct (Hnone Hno) as (_ & Hst & Hsp & Hpool & Hcalls).
    repeat split; assumption.
  - intros Hneeded Htest s' Hok.
    pose proof (ensureOutputFits_spec ext s s' Hok) as (Hsteady & Hi & _).
    destruct (ensureOutputFits_asks ext s s' Hone Hneeded Htest Hok)
      as (s1 & spilled & Hreclaim & Hcalls1 & Hs' & _).
    fold size in Hreclaim, Hcalls1, Hs'.
    fold granted in Hreclaim, Hcalls1, Hs'. fold pool in Hreclaim, Hs'.
    apply reclaim_spec in Hreclaim as (_ & _ & Hpool1 & _).
    change (pool_ s1 = pool) in Hpool1.
    assert (Hactive : activeSpiller s' = activeSpiller s1).
    { rewrite Hs'. destruct granted; [destruct (isSome (activeSpiller s1))|];
        reflexivity. }
    rewrite Hactive.
    split; [exact Hsteady|]. split; [exact Hi|]. split.
    + rewrite Hs'.
      destruct granted; [destruct (isSome (activeSpiller s1))|];
        [reflexivity|exact Hpool1|exact Hpool1].
    + exists spilled. rewrite Hs'.
      destruct granted; [destruct (isSome (activeSpiller s1))|]; cbn;
        rewrite Hcalls1, <- ?app_assoc; cbn; rewrite ?app_nil_r; reflexivity.
  - intros Hneeded Htest s' Hok.
    pose proof (ensureOutputFits_spec ext s s' Hok) as (Hsteady & Hi & _).
    rewrite (ensureOutputFits_needed ext s Hone Hneeded), Htest in Hok.
    cbv zeta in Hok.
    apply reclaim_spec in Hok as (_ & _ & Hpool & _ & [spilled Hcalls] & _).
    split; [exact Hsteady|]. split; [exact Hi|]. split; [exact Hpool|].
    exists spilled. rewrite Hcalls. cbn. rewrite <- !app_assoc. reflexivity.
Qed.

(** With two groups in memory and a pool at its capacity, the request for
    120 bytes is denied, a warning is logged and the output goes on. *)
Lemma X10_ensureOutputFits_reservation_witness :
  atMostOneSpiller sumByKeyInMemory
  /\ exists s',
       ensureOutputFits sampleExternals sumByKeyInMemory = Ok s'
       /\ store s' = store sumByKeyInMemory
       /\ spilling s' = spilling sumByKeyInMemory
       /\ pool_ s' = pool_ sumByKeyInMemory
       /\ calls_ s'
          = calls_ sumByKeyInMemory
            ++ [CallEnsureOutputFits; CallMaybeReserve 120 false; CallLogWarning 120].
Proof.
  assert (Hone : atMostOneSpiller sumByKeyInMemory) by (vm_compute; reflexivity).
  split; [exact Hone|].
  assert (Hbytes : 0 <= preferredOutputBatchBytes (config sumByKeyInMemory) < 2 ^ 63)
    by (vm_compute; split; [discriminate|reflexivity]).
  destruct (X10_ensureOutputFits_reservation sampleExternals sumByKeyInMemory
              Hone Hbytes)
    as (_ & Hasks & _).
  destruct Hasks as (s' & Hok & _ & _ & Hstore & Hspilling & Hpool & Hcalls).
  - unfold noReservationNeeded, tableIsEmpty. vm_compute.
    intros [Hp|[Hc|[Ha|Ht]]]; discriminate.
  - reflexivity.
  - reflexivity.
  - assert (Hsize : outputBufferSizeToReserveOf
                      (preferredOutputBatchBytes (config sumByKeyInMemory)) = 120)
      by (vm_compute; reflexivity).
    rewrite Hsize in Hpool, Hcalls.
    assert (Hdenied : maybeReserve 120 (pool_ sumByKeyInMemory)
                      = (false, pool_ sumByKeyInMemory))
      by (vm_compute; reflexivity).
    rewrite Hdenied in Hpool, Hcalls.
    exists s'. split; [exact Hok|]. split; [exact Hstore|]. split; [exact Hspilling|].
    split; [exact Hpool|exact Hcalls].
Defined.

(** ** Abandoning after a flush *)

(** X11. With a table that still holds groups, [abandonPartialAggregation]
    fails its check of an empty row container; after [resetTable] it returns,
    with the table released, an empty container for the intermediate rows and
    both flags set as the aggregates tell, and a second call then finds no
    table to look at. *)
Theorem X11_abandon_after_resetTable (s : GroupingSet) (table : HashTable)
    (freeTable : bool) :
  table_ (store s) = Some table ->
  (numDistinct table <> 0%nat ->
   abandonPartialAggregation s
   = Err (VeloxRuntimeError "table_->rows()->numRows() == 0"))
  /\ exists s',
       abandonPartialAggregation (resetTable freeTable s) = Ok s'
       /\ config s' = config s /\ inputState s' = inputState s
       /\ spilling s' = spilling s /\ pool_ s' = pool_ s
       /\ table_ (store s') = None
       /\ intermediateRows_ (store s') = Some []
       /\ abandonedPartialAggregation_ (store s') = true
       /\ allSupportToIntermediate_ (store s')
          = forallb (fun a => fn_supportsToIntermediate (function a))
              (aggregates_ (config s))
       /\ abandonPartialAggregation s' = Err (NullDereference "table_").
Proof.
  intros Htable. split.
  - intros Hrows. unfold abandonPartialAggregation. cbn.
    rewrite Htable. apply Nat.eqb_neq in Hrows. rewrite Hrows. reflexivity.
  - unfold resetTable. rewrite Htable.
    unfold abandonPartialAggregation. cbn.
    eexists. split; [reflexivity|]. cbn. repeat split.
Qed.

(** A table with two groups: the abandon fails before the flush and returns
    after it. *)
Lemma X11_abandon_after_resetTable_witness :
  table_ (store sumByKeyInMemory)
  = Some {| ht_rows := [{| g_keys := [Some 1]; g_accumulators := [[Some 10]] |};
                        {| g_keys := [Some 2]; g_accumulators := [[Some 3]] |}] |}
  /\ abandonPartialAggregation sumByKeyInMemory
     = Err (VeloxRuntimeError "table_->rows()->numRows() == 0")
  /\ exists s',
       abandonPartialAggregation (resetTable true sumByKeyInMemory) = Ok s'
       /\ table_ (store s') = None.
Proof.
  assert (Htable : table_ (store sumByKeyInMemory)
                   = Some {| ht_rows := [{| g_keys := [Some 1]; g_accumulators := [[Some 10]] |};
                                         {| g_keys := [Some 2]; g_accumulators := [[Some 3]] |}] |})
    by (vm_compute; reflexivity).
  destruct (X11_abandon_after_resetTable sumByKeyInMemory _ true Htable)
    as (Hfail & s' & Hok & _ & _ & _ & _ & Hnone & _).
  split; [exact Htable|]. split.
  - apply Hfail. cbn. discriminate.
  - exists s'. split; assumption.
Defined.

(** ** Global aggregation, batch by batch *)

Lemma seq_split_at (i n : nat) :
  (i < n)%nat -> seq 0 n = seq 0 i ++ [i] ++ seq (S i) (n - S i).
Proof.
  intros H. replace n with (i + S (n - S i))%nat at 1 by lia.
  rewrite seq_app. reflexivity.
Qed.

Lemma forEachRowOfGroup_lookup (rows : list nat) (slot : nat)
    (f : nat -> AccumulatorState -> AccumulatorState) (i : nat) :
  forall group,
    g_accumulators (forEachRowOfGroup rows slot f group) !! i
    = if decide (slot = i)
      then (fun state => foldl (fun state row => f row state) state rows)
             <$> g_accumulators group !! i
      else g_accumulators group !! i.
Proof.
  unfold forEachRowOfGroup.
  induction rows as [|row rows IH]; intros group; cbn [foldl].
  - destruct (decide (slot = i)); [|reflexivity].
    destruct (g_accumulators group !! i); reflexivity.
  - rewrite IH. cbn [updateAccumulator g_accumulators].
    destruct (decide (slot = i)) as [->|Hne].
    + rewrite list_lookup_alter_eq.
      destruct (g_accumulators group !! i); reflexivity.
    + rewrite list_lookup_alter_ne by exact Hne. reflexivity.
Qed.

Lemma hasSelections_lookup (rows : SelectivityVector) :
  hasSelections rows = false -> forall row, isSelected rows row = false.
Proof.
  unfold hasSelections, isSelected.
  induction rows as [|b rows IH]; intros H row; [reflexivity|].
  cbn in H. apply orb_false_iff in H as [-> H].
  destruct row as [|row]; [reflexivity|]. apply (IH H row).
Qed.

Lemma selectedRows_none (rows : SelectivityVector) :
  hasSelections rows = false -> selectedRows rows = [].
Proof.
  intros H. unfold selectedRows.
  induction (seq 0 (length rows)) as [|row l IH]; [reflexivity|].
  rewrite filter_cons, decide_False; [exact IH|].
  rewrite (hasSelections_lookup rows H). discriminate.
Qed.

(** A turn of the loop of [addGlobalAggregationInput] for aggregate [j]
    leaves the accumulators of the other aggregates alone. *)
Lemma accumulateGlobalAggregate_other (s : GroupingSet) (input : RowVector)
    (group : Group) (j : nat) (other : AggregateInfo) (i : nat) :
  (i < length (aggregates_ (config s)))%nat -> j <> i ->
  g_accumulators (accumulateGlobalAggregate s input group j other) !! i
  = g_accumulators group !! i.
Proof.
  intros Hi Hne. unfold accumulateGlobalAggregate.
  destruct (isSorted other); [reflexivity|].
  destruct (negb _); [reflexivity|].
  destruct (distinct other).
  - destruct (mjoin _); [|reflexivity].
    rewrite forEachRowOfGroup_lookup, decide_False; [reflexivity|].
    unfold distinctSlot. lia.
  - rewrite forEachRowOfGroup_lookup, decide_False by exact Hne. reflexivity.
Qed.

(** The turn of an aggregate that is neither sorted nor distinct adds the
    rows it is given to its own accumulator. *)
Lemma accumulateGlobalAggregate_own (s : GroupingSet) (input : RowVector)
    (group : Group) (i : nat) (aggregate : AggregateInfo) :
  isSorted aggregate = false -> distinct aggregate = false ->
  g_accumulators (accumulateGlobalAggregate s input group i aggregate) !! i
  = (fun state =>
       foldl (fun state row =>
                if isRawInput_ (config s)
                then fn_addRawInput (function aggregate) state
                       (tempValues aggregate input row)
                else fn_addIntermediateResults (function aggregate) state
                       (tempValues aggregate input row))
             state (selectedRows (getSelectivityVector s input i)))
    <$> g_accumulators group !! i.
Proof.
  intros Hsorted Hdistinct. unfold accumulateGlobalAggregate.
  rewrite Hsorted, Hdistinct.
  destruct (hasSelections (getSelectivityVector s input i)) eqn:Hsel; cbn [negb].
  - rewrite forEachRowOfGroup_lookup, decide_True by reflexivity. reflexivity.
  - rewrite (selectedRows_none _ Hsel). cbn [foldl].
    destruct (g_accumulators group !! i); reflexivity.
Qed.

Lemma accumulateGlobalAggregates_skip (s : GroupingSet) (input : RowVector)
    (i : nat) (js : list nat) :
  (i < length (aggregates_ (config s)))%nat -> i ∉ js ->
  forall group,
    g_accumulators
      (foldl (fun group j =>
                match aggregates_ (config s) !! j with
                | Some other => accumulateGlobalAggregate s input group j other
                | None => group
                end) group js) !! i
    = g_accumulators group !! i.
Proof.
  intros Hi. induction js as [|j js IH]; intros Hnin group; [reflexivity|].
  apply not_elem_of_cons in Hnin as [Hne Hnin]. cbn [foldl].
  rewrite (IH Hnin). destruct (aggregates_ (config s) !! j); [|reflexivity].
  apply accumulateGlobalAggregate_other; [exact Hi|congruence].
Qed.

(** The loop of [addGlobalAggregationInput] over [aggregates_], seen from
    one accumulator. *)
Lemma accumulateGlobalAggregates_lookup (s : GroupingSet) (input : RowVector)
    (group : Group) (i : nat) (aggregate : AggregateInfo) :
  aggregates_ (config s) !! i = Some aggregate ->
  isSorted aggregate = false -> distinct aggregate = false ->
  g_accumulators
    (foldl (fun group '(j, other) => accumulateGlobalAggregate s input group j other)
           group (imap pair (aggregates_ (config s)))) !! i
  = (fun state =>
       foldl (fun state row =>
                if isRawInput_ (config s)
                then fn_addRawInput (function aggregate) state
                       (tempValues aggregate input row)
                else fn_addIntermediateResults (function aggregate) state
                       (tempValues aggregate input row))
             state (selectedRows (getSelectivityVector s input i)))
    <$> g_accumulators group !! i.
Proof.
  intros Hlookup Hsorted Hdistinct.
  pose proof (lookup_lt_Some _ _ _ Hlookup) as Hi.
  rewrite (foldl_imap_pair
             (fun group '(j, other) => accumulateGlobalAggregate s input group j other)).
  replace (seq 0 (length (aggregates_ (config s))))
    with (seq 0 i ++ [i] ++ seq (S i) (length (aggregates_ (config s)) - S i)).
  2:{ symmetry. apply seq_split_at. exact Hi. }
  rewrite !foldl_app.
  rewrite accumulateGlobalAggregates_skip;
    [|exact Hi|intros Hin; apply elem_of_seq in Hin; lia].
  cbn [foldl]. rewrite Hlookup.
  rewrite accumulateGlobalAggregate_own by assumption.
  rewrite accumulateGlobalAggregates_skip;
    [reflexivity|exact Hi|intros Hin; apply elem_of_seq in Hin; lia].
Qed.

Lemma globalRowsOf_config (s s0 : GroupingSet) (input : RowVector) (i : nat) :
  config s = config s0 -> globalRowsOf s input i = globalRowsOf s0 input i.
Proof.
  intros H. unfold globalRowsOf, getSelectivityVector. cbn. rewrite H. reflexivity.
Qed.

Lemma accumulateBatch_config (s s0 : GroupingSet) (i : nat) (aggregate : AggregateInfo)
    (state : AccumulatorState) (input : RowVector) :
  config s = config s0 ->
  accumulateBatch s i aggregate state input = accumulateBatch s0 i aggregate state input.
Proof.
  intros H. unfold accumulateBatch. rewrite (globalRowsOf_config s s0 input i H), H.
  reflexivity.
Qed.

(** One call of [addGlobalAggregationInput], seen from one accumulator. *)
Lemma addGlobalAggregationInput_accumulator (input : RowVector) (mayPushdown : bool)
    (s s' : GroupingSet) (i : nat) (aggregate : AggregateInfo) :
  addGlobalAggregationInput input mayPushdown s = Ok s' ->
  aggregates_ (config s) !! i = Some aggregate ->
  isSorted aggregate = false -> distinct aggregate = false ->
  globalAccumulator s' i
  = (fun state => accumulateBatch s i aggregate state input) <$> globalAccumulator s i.
Proof.
  intros H Hlookup Hsorted Hdistinct.
  pose proof (lookup_lt_Some _ _ _ Hlookup) as Hi.
  unfold addGlobalAggregationInput in H. cbn zeta in H.
  unfold globalAccumulator at 2.
  assert (Hinit : globalAggregationInitialized_ (store (initializeGlobalAggregation s))
                  = true).
  { unfold initializeGlobalAggregation.
    destruct (globalAggregationInitialized_ (store s)) eqn:E; [exact E|reflexivity]. }
  assert (Hc : config (initializeGlobalAggregation s) = config s).
  { unfold initializeGlobalAggregation.
    destruct (globalAggregationInitialized_ (store s)); reflexivity. }
  set (s1 := initializeGlobalAggregation s) in *. clearbody s1.
  set (s2 := withInput (set_activeRows_ (allSelected (rv_size input))) s1) in *.
  change (globalRow_ (store s2)) with (globalRow_ (store s1)) in H.
  destruct (globalRow_ (store s1)) as [group|] eqn:Hrow; [|discriminate].
  injection H as <-.
  unfold globalAccumulator, initializeGlobalAggregation.
  match goal with
  | |- context [globalAggregationInitialized_ (store ?x)] =>
      change (globalAggregationInitialized_ (store x))
        with (globalAggregationInitialized_ (store s1))
  end.
  rewrite Hinit.
  match goal with
  | |- context [globalRow_ (store (withStore (set_globalRow_ (Some ?g)) s2))] =>
      change (globalRow_ (store (withStore (set_globalRow_ (Some g)) s2)))
        with (Some g)
  end.
  assert (Hlookup2 : aggregates_ (config s2) !! i = Some aggregate).
  { change (config s2) with (config s1). rewrite Hc. exact Hlookup. }
  assert (Hloop := accumulateGlobalAggregates_lookup s2 input group i aggregate
                     Hlookup2 Hsorted Hdistinct).
  assert (Hbatch : (fun state =>
                      foldl (fun state row =>
                               if isRawInput_ (config s2)
                               then fn_addRawInput (function aggregate) state
                                      (tempValues aggregate input row)
                               else fn_addIntermediateResults (function aggregate) state
                                      (tempValues aggregate input row))
                            state (selectedRows (getSelectivityVector s2 input i)))
                   = (fun state => accumulateBatch s i aggregate state input)).
  { unfold accumulateBatch, globalRowsOf, getSelectivityVector.
    change (config s2) with (config s1). cbn. rewrite Hc. reflexivity. }
  rewrite Hbatch in Hloop.
  destruct (sortedAggregations_ (config s1)); [|exact Hloop].
  rewrite forEachRowOfGroup_lookup, decide_False; [exact Hloop|].
  unfold sortedSlot. change (config s2) with (config s1). rewrite Hc. lia.
Qed.

Lemma addInputs_accumulator (ext : Externals) (mayPushdown : bool)
    (i : nat) (aggregate : AggregateInfo) (batches : list RowVector) :
  forall s0 s : GroupingSet,
    isGlobal_ (config s0) = true ->
    performAll ext (map (fun input => OpAddInput input mayPushdown) batches) s0 = Ok s ->
    aggregates_ (config s0) !! i = Some aggregate ->
    isSorted aggregate = false -> distinct aggregate = false ->
    globalAccumulator s i
    = (fun state => foldl (accumulateBatch s0 i aggregate) state batches)
      <$> globalAccumulator s0 i.
Proof.
  induction batches as [|input batches IH];
    intros s0 s Hglobal H Hlookup Hsorted Hdistinct; cbn [map performAll] in H.
  - injection H as <-. cbn [foldl]. destruct (globalAccumulator s0 i); reflexivity.
  - apply bind_Ok in H as (s1 & Hop & H).
    pose proof (perform_config ext _ s0 s1 Hop) as Hc.
    cbn [perform] in Hop. unfold addInput in Hop. rewrite Hglobal in Hop.
    pose proof (addGlobalAggregationInput_accumulator input mayPushdown s0 s1 i
                  aggregate Hop Hlookup Hsorted Hdistinct) as Hstep.
    rewrite (IH s1 s); try assumption; try (rewrite Hc; assumption).
    rewrite Hstep. cbn [foldl].
    destruct (globalAccumulator s0 i) as [state|]; [|reflexivity].
    cbn. f_equal.
    assert (Hext : forall batches state,
              foldl (accumulateBatch s1 i aggregate) state batches
              = foldl (accumulateBatch s0 i aggregate) state batches).
    { clear -Hc. intros batches. induction batches as [|b batches IHb]; intros state;
        [reflexivity|].
      cbn [foldl]. rewrite (accumulateBatch_config s1 s0 i aggregate state b Hc).
      apply IHb. }
    apply Hext.
Qed.

Lemma selectedRows_allSelected (n : nat) : selectedRows (allSelected n) = seq 0 n.
Proof.
  unfold selectedRows, allSelected. rewrite length_replicate.
  fold (allSelected n).
  assert (H : forall l, Forall (fun row => (row < n)%nat) l ->
                        filter (fun row => isSelected (allSelected n) row = true) l = l).
  { induction l as [|row l IH]; intros Hl; [reflexivity|].
    apply Forall_cons in Hl as [Hrow Hl].
    rewrite filter_cons, decide_True by (apply isSelected_allSelected; exact Hrow).
    rewrite (IH Hl). reflexivity. }
  apply H. apply Forall_forall. intros row Hin.
  apply elem_of_seq in Hin. lia.
Qed.

(** X12. In a global aggregation every aggregate that is neither sorted nor
    distinct has an accumulator of its own in the single row: it starts as
    the function initialises it, and after any number of batches it holds
    the rows of all of them added one by one, batch after batch and row after
    row, whatever the other aggregates and the adapters did. Without a mask
    the aggregate is given every row of a batch. *)
Theorem X12_global_aggregation_folds_batches (ext : Externals) (mayPushdown : bool)
    (batches : list RowVector) (s0 s : GroupingSet) (i : nat)
    (aggregate : AggregateInfo) :
  isGlobal_ (config s0) = true ->
  performAll ext (map (fun input => OpAddInput input mayPushdown) batches) s0 = Ok s ->
  aggregates_ (config s0) !! i = Some aggregate ->
  isSorted aggregate = false -> distinct aggregate = false ->
  globalAccumulator s i
  = (fun state => foldl (accumulateBatch s0 i aggregate) state batches)
    <$> globalAccumulator s0 i
  /\ (globalAggregationInitialized_ (store s0) = false ->
      globalAccumulator s0 i = Some (fn_initializeNewGroup (function aggregate)))
  /\ (mask aggregate = None ->
      forall input, globalRowsOf s0 input i = seq 0 (rv_size input)).
Proof.
  intros Hglobal H Hlookup Hsorted Hdistinct. split; [|split].
  - eapply addInputs_accumulator; eassumption.
  - intros Hfresh. unfold globalAccumulator, initializeGlobalAggregation.
    rewrite Hfresh. cbn. rewrite lookup_app_l.
    + rewrite list_lookup_fmap, Hlookup. cbn. rewrite Hsorted. reflexivity.
    + rewrite length_map. eapply lookup_lt_Some. exact Hlookup.
  - intros Hmask input. unfold globalRowsOf, getSelectivityVector. cbn.
    rewrite Hlookup. destruct aggregate as []; cbn in Hmask. subst.
    apply selectedRows_allSelected.
Qed.

(** [sum(c1)] over the batches (10, 3) and (5): the accumulator holds 18. *)
Lemma X12_global_aggregation_folds_batches_witness :
  isGlobal_ (config globalSumFresh) = true
  /\ performAll sampleExternals
       (map (fun input => OpAddInput input false) globalSumBatches) globalSumFresh
     = Ok globalSumAdded
  /\ globalAccumulator globalSumAdded 0 = Some [Some 18].
Proof.
  assert (Hglobal : isGlobal_ (config globalSumFresh) = true) by (vm_compute; reflexivity).
  assert (Hrun : performAll sampleExternals
                   (map (fun input => OpAddInput input false) globalSumBatches)
                   globalSumFresh
                 = Ok globalSumAdded) by (vm_compute; reflexivity).
  split; [exact Hglobal|]. split; [exact Hrun|].
  destruct (X12_global_aggregation_folds_batches sampleExternals false globalSumBatches
              globalSumFresh globalSumAdded 0 sumOfColumn1 Hglobal Hrun
              ltac:(vm_compute; reflexivity) ltac:(vm_compute; reflexivity)
              ltac:(vm_compute; reflexivity))
    as (Hfold & Hfresh & _).
  rewrite Hfold, Hfresh by (vm_compute; reflexivity). vm_compute. reflexivity.
Defined.

(** ** What the extraction writes *)

Lemma extractLoop_skip (s : GroupingSet) (column : nat -> AggregateInfo -> nat)
    (groups : list Group) (c : nat) (js : list nat) :
  (forall j other,
     j ∈ js -> aggregates_ (config s) !! j = Some other ->
     isSorted other = false -> column j other <> c) ->
  forall result,
    rv_children
      (foldl (fun result j =>
                match aggregates_ (config s) !! j with
                | Some aggregate =>
                    if isSorted aggregate then result
                    else setChild (column j aggregate)
                           (extractFunction (isPartial_ (config s)) aggregate j groups)
                           result
                | None => result
                end) result js) !! c
    = rv_children result !! c.
Proof.
  induction js as [|j js IH]; intros Hjs result; [reflexivity|]. cbn [foldl].
  rewrite IH by (intros k other Hk; apply Hjs; right; exact Hk).
  destruct (aggregates_ (config s) !! j) as [other|] eqn:Hj; [|reflexivity].
  destruct (isSorted other) eqn:Hsorted; [reflexivity|].
  cbn [setChild rv_children]. apply list_lookup_insert_ne.
  apply (Hjs j other); [left|exact Hj|exact Hsorted].
Qed.

Lemma extractLoop_columns (s : GroupingSet) (column : nat -> AggregateInfo -> nat)
    (groups : list Group) (js : list nat) :
  forall result,
    length (rv_children
      (foldl (fun result j =>
                match aggregates_ (config s) !! j with
                | Some aggregate =>
                    if isSorted aggregate then result
                    else setChild (column j aggregate)
                           (extractFunction (isPartial_ (config s)) aggregate j groups)
                           result
                | None => result
                end) result js))
    = length (rv_children result).
Proof.
  induction js as [|j js IH]; intros result; [reflexivity|]. cbn [foldl].
  rewrite IH. destruct (aggregates_ (config s) !! j) as [other|]; [|reflexivity].
  destruct (isSorted other); [reflexivity|]. cbn. apply length_insert.
Qed.

Lemma foldl_no_adapter (s : GroupingSet) (groups : list Group)
    (pairs : list (nat * option AggregationAdapter)) :
  Forall (fun p => snd p = None) pairs ->
  forall result,
    foldl (fun result '(i, aggregation) =>
             match aggregation with
             | Some adapter => extractAdapter adapter (distinctSlot s i) groups result
             | None => result
             end) result pairs
    = result.
Proof.
  induction 1 as [|[i aggregation] pairs Hnone _ IH]; intros result; [reflexivity|].
  cbn in Hnone. subst. cbn [foldl]. apply IH.
Qed.

(** Without adapters [extractAggregates] is the loop over [aggregates_]. *)
Lemma extractAggregates_plain (s : GroupingSet) (column : nat -> AggregateInfo -> nat)
    (groups : list Group) (result : RowVector) :
  withoutAdapters s ->
  extractAggregates s column groups result
  = foldl (fun result j =>
             match aggregates_ (config s) !! j with
             | Some aggregate =>
                 if isSorted aggregate then result
                 else setChild (column j aggregate)
                        (extractFunction (isPartial_ (config s)) aggregate j groups)
                        result
             | None => result
             end) result (seq 0 (length (aggregates_ (config s)))).
Proof.
  intros [Hsorted Hdistinct]. unfold extractAggregates. rewrite Hsorted.
  rewrite foldl_no_adapter.
  - exact (foldl_imap_pair
             (fun result '(i, aggregate) =>
                if isSorted aggregate then result
                else setChild (column i aggregate)
                       (extractFunction (isPartial_ (config s)) aggregate i groups) result)
             (aggregates_ (config s)) result).
  - apply Forall_forall. intros [i aggregation] Hin.
    apply elem_of_lookup_imap in Hin as (k & x & Heq & Hk).
    injection Heq as -> ->. cbn.
    eapply Forall_forall in Hdistinct; [exact Hdistinct|].
    eapply list_elem_of_lookup_2. exact Hk.
Qed.

(** The column an aggregate writes, when no other aggregate writes it. *)
Lemma extractAggregates_column (s : GroupingSet) (column : nat -> AggregateInfo -> nat)
    (groups : list Group) (result : RowVector) (i : nat) (aggregate : AggregateInfo) :
  withoutAdapters s ->
  aggregates_ (config s) !! i = Some aggregate ->
  isSorted aggregate = false ->
  (forall j other,
     j <> i -> aggregates_ (config s) !! j = Some other ->
     isSorted other = false -> column j other <> column i aggregate) ->
  (column i aggregate < length (rv_children result))%nat ->
  rv_children (extractAggregates s column groups result) !! column i aggregate
  = Some (extractFunction (isPartial_ (config s)) aggregate i groups).
Proof.
  intros Hplain Hlookup Hsorted Hother Hcolumn.
  pose proof (lookup_lt_Some _ _ _ Hlookup) as Hi.
  rewrite extractAggregates_plain by exact Hplain.
  replace (seq 0 (length (aggregates_ (config s))))
    with (seq 0 i ++ [i] ++ seq (S i) (length (aggregates_ (config s)) - S i)).
  2:{ symmetry. apply seq_split_at. exact Hi. }
  rewrite !foldl_app.
  rewrite extractLoop_skip.
  2:{ intros j other Hin. apply elem_of_seq in Hin. apply Hother. lia. }
  cbn [foldl]. rewrite Hlookup, Hsorted. cbn [setChild rv_children].
  apply list_lookup_insert_eq.
  rewrite extractLoop_columns. exact Hcolumn.
Qed.

(** A column no aggregate writes is left as it was. *)
Lemma extractAggregates_frame (s : GroupingSet) (column : nat -> AggregateInfo -> nat)
    (groups : list Group) (result : RowVector) (c : nat) :
  withoutAdapters s ->
  (forall j other,
     aggregates_ (config s) !! j = Some other ->
     isSorted other = false -> column j other <> c) ->
  rv_children (extractAggregates s column groups result) !! c
  = rv_children result !! c.
Proof.
  intros Hplain Hother. rewrite extractAggregates_plain by exact Hplain.
  apply extractLoop_skip. intros j other _. apply Hother.
Qed.

(** X13. Without adapters [extractGroups] gives one row per group and keeps
    the number of columns: key column [i] holds, group by group, the key that
    [groupingKeyOutputProjections_[i]] names, and the column after the keys
    of an aggregate without sorting keys holds what its function extracts
    from its accumulator, the intermediate result for a partial aggregation
    and the final value otherwise. *)
Theorem X13_extractGroups_columns (s : GroupingSet) (totalKeys : nat)
    (groups : list Group) (result : RowVector) :
  withoutAdapters s ->
  let result' := extractGroups s totalKeys groups result in
  rv_size result' = length groups
  /\ length (rv_children result') = length (rv_children result)
  /\ (forall i,
        (i < totalKeys)%nat -> (i < length (rv_children result))%nat ->
        childAt result' i
        = map (fun g =>
                 default None
                   (g_keys g
                    !! N.to_nat (default 0%N
                         (groupingKeyOutputProjections_ (config s) !! i))))
              groups)
  /\ (forall i aggregate,
        aggregates_ (config s) !! i = Some aggregate ->
        isSorted aggregate = false ->
        (i + totalKeys < length (rv_children result))%nat ->
        childAt result' (i + totalKeys)
        = map (fun g =>
                 if isPartial_ (config s)
                 then fn_extractAccumulators (function aggregate) (accumulatorAt i g)
                 else fn_extractValues (function aggregate) (accumulatorAt i g))
              groups).
Proof.
  intros Hplain result'. subst result'.
  split; [apply rv_size_extractGroups|]. split; [apply columns_extractGroups|].
  unfold extractGroups. cbn zeta.
  set (resized := resizeRowVector (length groups) result).
  assert (Hresized : length (rv_children resized) = length (rv_children result)).
  { unfold resized. cbn. apply length_map. }
  destruct (bool_decide (groups = [])) eqn:Hgroups.
  - apply bool_decide_eq_true in Hgroups. subst groups. split.
    + intros i _ Hi. destruct (lookup_lt_is_Some_2 _ _ Hi) as [c Hc].
      apply childAt_lookup. unfold resized. cbn.
      rewrite list_lookup_fmap, Hc. reflexivity.
    + intros i aggregate _ _ Hi. destruct (lookup_lt_is_Some_2 _ _ Hi) as [c Hc].
      apply childAt_lookup. unfold resized. cbn.
      rewrite list_lookup_fmap, Hc. reflexivity.
  - set (keyColumn := fun i : nat =>
           map (fun g =>
                  default None
                    (g_keys g
                     !! N.to_nat (default 0%N
                          (groupingKeyOutputProjections_ (config s) !! i))))
               groups).
    set (keyed := foldl _ resized (seq 0 totalKeys)).
    assert (Hloop : keyed
                    = foldl (fun r c => setChild c (keyColumn c) r) resized
                        (seq 0 totalKeys)) by reflexivity.
    clearbody keyed.
    assert (Hkeyed : length (rv_children keyed) = length (rv_children result)).
    { rewrite Hloop.
      rewrite (proj2 (foldl_setChild_frame keyColumn (seq 0 totalKeys) resized)).
      exact Hresized. }
    split.
    + intros i Hkey Hi. apply childAt_lookup.
      rewrite extractAggregates_frame; [|exact Hplain|intros; lia].
      rewrite Hloop. rewrite (foldl_setChild_lookup keyColumn) by lia.
      rewrite decide_True by (apply elem_of_seq; lia). reflexivity.
    + intros i aggregate Hlookup Hsorted Hi. apply childAt_lookup.
      apply (extractAggregates_column s (fun i _ => (i + totalKeys)%nat) groups keyed
               i aggregate Hplain Hlookup Hsorted); [intros; lia|lia].
Qed.

(** The two groups of [sum(c1) group by c0]: a column of keys and a column
    of sums. *)
Lemma X13_extractGroups_columns_witness :
  withoutAdapters sumByKeyInMemory
  /\ childAt
       (extractGroups sumByKeyInMemory 1
          [{| g_keys := [Some 1]; g_accumulators := [[Some 10]] |};
           {| g_keys := [Some 2]; g_accumulators := [[Some 3]] |}]
          (emptyResult 2)) 0
     = [Some 1; Some 2]
  /\ childAt
       (extractGroups sumByKeyInMemory 1
          [{| g_keys := [Some 1]; g_accumulators := [[Some 10]] |};
           {| g_keys := [Some 2]; g_accumulators := [[Some 3]] |}]
          (emptyResult 2)) 1
     = [Some 10; Some 3].
Proof.
  assert (Hplain : withoutAdapters sumByKeyInMemory).
  { split; [vm_compute; reflexivity|]. vm_compute. repeat constructor. }
  split; [exact Hplain|].
  pose proof (X13_extractGroups_columns sumByKeyInMemory 1
                [{| g_keys := [Some 1]; g_accumulators := [[Some 10]] |};
                 {| g_keys := [Some 2]; g_accumulators := [[Some 3]] |}]
                (emptyResult 2) Hplain) as HX.
  cbv zeta in HX. destruct HX as (_ & _ & Hkeys & Haggregates). split.
  - rewrite (Hkeys 0%nat); [vm_compute; reflexivity| |]; vm_compute; lia.
  - refine (eq_trans (Haggregates 0%nat sumOfColumn1 _ _ _) _);
      first [vm_compute; reflexivity | vm_compute; lia].
Defined.
